(** * pyvsf: pairwise statistics over point clouds

    A shallow embedding of the C++ core of pyvsf (the work partitioner of
    [libvsf/partition.hpp], the accumulators of [libvsf/accumulators.hpp] and
    [libvsf/compound_accumulator.hpp], and the pair kernel and entry point of
    [vsf.cpp]), followed by the properties proved about it.

    Conventions of the embedding:
    - [std::size_t] and [std::uint64_t] values are integers of [Z] in
      [0, 2^64); every arithmetic operation of the source is followed by
      [wrap64].  [std::int64_t] values are wrapped by [wrap_i64].
    - a [double] is an IEEE-754 binary64 number, [spec_float] with precision
      53 and maximal exponent 1024.
    - [error(msg)] prints and exits: functions that can reach it return a
      [result], whose [Error] case carries the message. *)

From Stdlib Require Import ZArith Lia Bool.
From Stdlib Require Import Floats.SpecFloat.
From stdpp Require Import base tactics option list list_numbers numbers strings pretty.

Local Open Scope Z_scope.

(** ** Machine integers *)

Definition wrap64 (z : Z) : Z := z mod 2 ^ 64.

Definition wrap_i64 (z : Z) : Z := (z + 2 ^ 63) mod 2 ^ 64 - 2 ^ 63.

(** ** Fatal errors: [utils.hpp], [error] *)

Inductive result (A : Type) : Type :=
| Ok (a : A)
| Error (msg : string).
Arguments Ok {A} a.
Arguments Error {A} msg.

#[global] Instance result_ret : MRet result := fun _ a => Ok a.
#[global] Instance result_bind : MBind result := fun _ _ f m =>
  match m with
  | Ok a => f a
  | Error msg => Error msg
  end.

#[global] Instance result_fmap : FMap result := fun _ _ f m =>
  match m with
  | Ok a => Ok (f a)
  | Error msg => Error msg
  end.

Definition is_Ok {A} (r : result A) : Prop := exists a, r = Ok a.

(** ** [partition.hpp] *)

(** [safe_cast<Tend>(val)]: [lowest] and [max] are the bounds of [Tend]. *)
Definition safe_cast (lowest max : Z) (is_signed : bool) (val : Z) : result Z :=
  if val <? lowest then
    if is_signed
    then Error "val is too small to be represented by destination type"
    else Error "can't cast negative val to unsigned type"
  else if max <? val then
    Error "val is too large to be represented by destination type"
  else Ok val.

(** The two instances in use: [safe_cast<std::uint64_t>] and
    [safe_cast<std::size_t>]. *)
Definition safe_cast_u64 : Z -> result Z := safe_cast 0 (2 ^ 64 - 1) false.

Record SlcStruct := { start : Z; stop : Z }.

(** The lambda [calc_chunk_size] of [calc_chunk_slice]. *)
Definition calc_chunk_size (array_len num_chunks chunk_index : Z) : Z :=
  let remainder := array_len mod num_chunks in
  wrap64 (array_len / num_chunks + (if chunk_index <? remainder then 1 else 0)).

(** The loop [for (cur = 0; cur <= chunk_index; cur++)] of
    [calc_chunk_slice], on the pair [(start_index, stop_index)]. *)
Fixpoint chunk_slice_loop (array_len num_chunks chunk_index : Z) (fuel : nat)
    (cur_chunk_index start_index stop_index : Z) : option (Z * Z) :=
  if cur_chunk_index <=? chunk_index then
    match fuel with
    | O => None
    | S fuel' =>
        let start_index' := stop_index in
        let stop_index' :=
          wrap64 (start_index'
                  + calc_chunk_size array_len num_chunks cur_chunk_index) in
        chunk_slice_loop array_len num_chunks chunk_index fuel'
          (wrap64 (cur_chunk_index + 1)) start_index' stop_index'
    end
  else Some (start_index, stop_index).

Definition calc_chunk_slice (chunk_index array_len num_chunks : Z)
    : result SlcStruct :=
  if (array_len <? num_chunks) || (num_chunks <=? chunk_index) then
    Error "something is very wrong"
  else
    match chunk_slice_loop array_len num_chunks chunk_index
            (Z.to_nat (chunk_index + 1)) 0 0 0 with
    | None => Error "calc_chunk_slice: loop did not finish"
    | Some (start_index, stop_index) =>
        a ← safe_cast_u64 start_index;
        b ← safe_cast_u64 stop_index;
        Ok {| start := a; stop := b |}
    end.

Definition num_dist_array_chunks_auto (segments : Z) : Z :=
  let num_triangles := segments in
  let num_rect := wrap64 (wrap64 (wrap64 (segments - 1) * segments) / 2) in
  wrap64 (num_rect + num_triangles).

Record StatTask := {
  start_A : Z; stop_A : Z;
  start_B : Z; stop_B : Z
}.

Module AutoSFPartitionStrat.

Record t := { n_points : Z; num_segments : Z }.

Definition n_partitions (s : t) : Z :=
  num_dist_array_chunks_auto (num_segments s).

Definition increment2D_index (s : t) (index : Z * Z) : Z * Z :=
  let index1 := wrap64 (index.2 + 1) in
  if index1 =? num_segments s then
    let index0 := wrap64 (index.1 + 1) in (index0, index0)
  else (index.1, index1).

Definition build_StatTask (s : t) (index_2D : Z * Z) : result StatTask :=
  if n_points s <=? 1 then Error "not enough points"
  else
    let n_dist_matrix_elements := wrap64 (n_points s - 1) in
    if index_2D.1 =? index_2D.2 then
      tmp ← calc_chunk_slice index_2D.1 n_dist_matrix_elements
              (num_segments s);
      let dist_matrix_start := start tmp in
      let dist_matrix_stop := stop tmp in
      Ok {| start_A := dist_matrix_start;
            stop_A := wrap64 (dist_matrix_stop + 1);
            start_B := 0; stop_B := 0 |}
    else
      tmp0 ← calc_chunk_slice index_2D.1 n_dist_matrix_elements
               (num_segments s);
      tmp1 ← calc_chunk_slice index_2D.2 n_dist_matrix_elements
               (num_segments s);
      Ok {| start_A := wrap64 (start tmp1 + 1);
            stop_A := wrap64 (stop tmp1 + 1);
            start_B := start tmp0; stop_B := stop tmp0 |}.

(** The loop [for (cur_num_segments = 2;; cur_num_segments++)] of
    [create]. *)
Fixpoint segments_loop (nproc max_segments : Z) (fuel : nat)
    (cur_num_segments : Z) : option Z :=
  if max_segments <=? cur_num_segments then Some max_segments
  else
    let num_chunks := num_dist_array_chunks_auto cur_num_segments in
    if wrap64 (3 * nproc) <=? num_chunks then Some cur_num_segments
    else
      match fuel with
      | O => None
      | S fuel' =>
          segments_loop nproc max_segments fuel' (wrap64 (cur_num_segments + 1))
      end.

Definition create (nproc n_points : Z) (skip_small_prob_check : bool)
    : result t :=
  if nproc =? 0 then Error "nproc can't be zero"
  else if n_points <=? 1 then Error "n_points must exceed 1"
  else if 60 <? nproc then
    Error "Probably want to rethink partitioning strategy for so many proc"
  else
    let max_segments :=
      if n_points <=? 4 then 1 else wrap64 (n_points - 1) / 2 in
    let is_small_problem :=
      negb skip_small_prob_check && (n_points <=? 1000) in
    if is_small_problem || (nproc =? 1) || (max_segments =? 1) then
      n ← safe_cast_u64 n_points;
      Ok {| n_points := n; num_segments := 1 |}
    else
      match segments_loop nproc max_segments (Z.to_nat max_segments) 2 with
      | None => Error "create: loop did not finish"
      | Some num_segments =>
          if n_points <? wrap64 (wrap64 (num_segments * 2) + 1) then
            Error "too many segments"
          else
            n ← safe_cast_u64 n_points;
            s ← safe_cast_u64 num_segments;
            Ok {| n_points := n; num_segments := s |}
      end.

End AutoSFPartitionStrat.

Module CrossSFPartitionStrat.

Record t := {
  n_points_A : Z; num_segments_A : Z;
  n_points_B : Z; num_segments_B : Z
}.

Definition n_partitions (s : t) : Z :=
  wrap64 (num_segments_A s * num_segments_B s).

Definition increment2D_index (s : t) (index : Z * Z) : Z * Z :=
  let index1 := wrap64 (index.2 + 1) in
  if index1 =? num_segments_B s then (wrap64 (index.1 + 1), 0)
  else (index.1, index1).

Definition build_StatTask (s : t) (index_2D : Z * Z) : result StatTask :=
  if (num_segments_A s <=? index_2D.1) || (num_segments_B s <=? index_2D.2)
  then Error "index_2D contains a value that is too large"
  else
    slice_A ← calc_chunk_slice index_2D.1 (n_points_A s) (num_segments_A s);
    slice_B ← calc_chunk_slice index_2D.2 (n_points_B s) (num_segments_B s);
    Ok {| start_A := start slice_A; stop_A := stop slice_A;
          start_B := start slice_B; stop_B := stop slice_B |}.

(** The lambda [builder] of [create]. *)
Definition builder (nproc n_points_A n_points_B : Z) (partition_A : bool)
    : result t :=
  na ← safe_cast_u64 n_points_A;
  sa ← (if partition_A then safe_cast_u64 nproc else Ok 1);
  nb ← safe_cast_u64 n_points_B;
  sb ← (if partition_A then Ok 1 else safe_cast_u64 nproc);
  Ok {| n_points_A := na; num_segments_A := sa;
        n_points_B := nb; num_segments_B := sb |}.

Definition create (nproc n_points_A n_points_B : Z)
    (skip_small_problem_check : bool) : result t :=
  if nproc =? 0 then Error "nproc can't be zero"
  else
    let small_npairs := 1000 in
    let exceed_small_npairs :=
      (small_npairs <? wrap64 (n_points_A * n_points_B))
      || ((small_npairs <=? n_points_A) && (0 <? n_points_B))
      || ((small_npairs <=? n_points_B) && (0 <? n_points_A)) in
    let is_small_problem :=
      negb exceed_small_npairs && negb skip_small_problem_check in
    if is_small_problem || ((n_points_A <? nproc) && (n_points_B <? nproc))
    then
      na ← safe_cast_u64 n_points_A;
      nb ← safe_cast_u64 n_points_B;
      Ok {| n_points_A := na; num_segments_A := 1;
            n_points_B := nb; num_segments_B := 1 |}
    else
      let partition_A := true in
      let partition_B := false in
      let smaller_than_both :=
        (nproc <=? n_points_A) && (nproc <=? n_points_B) in
      if (nproc <=? n_points_A) && (n_points_A mod nproc =? 0) then
        builder nproc n_points_A n_points_B partition_A
      else if (nproc <=? n_points_B) && (n_points_B mod nproc =? 0) then
        builder nproc n_points_A n_points_B partition_B
      else if smaller_than_both && (n_points_A <? n_points_B) then
        builder nproc n_points_A n_points_B partition_B
      else if smaller_than_both then
        builder nproc n_points_A n_points_B partition_A
      else if nproc <? n_points_B then
        builder nproc n_points_A n_points_B partition_B
      else
        builder nproc n_points_A n_points_B partition_A.

End CrossSFPartitionStrat.

(** [std::variant<AutoSFPartitionStrat, CrossSFPartitionStrat>] *)
Inductive partition_variant :=
| AutoStrat (s : AutoSFPartitionStrat.t)
| CrossStrat (s : CrossSFPartitionStrat.t).

Definition strat_build_StatTask (strat : partition_variant) (idx : Z * Z)
    : result StatTask :=
  match strat with
  | AutoStrat s => AutoSFPartitionStrat.build_StatTask s idx
  | CrossStrat s => CrossSFPartitionStrat.build_StatTask s idx
  end.

Definition strat_increment2D_index (strat : partition_variant) (idx : Z * Z)
    : Z * Z :=
  match strat with
  | AutoStrat s => AutoSFPartitionStrat.increment2D_index s idx
  | CrossStrat s => CrossSFPartitionStrat.increment2D_index s idx
  end.

Definition strat_n_partitions (strat : partition_variant) : Z :=
  match strat with
  | AutoStrat s => AutoSFPartitionStrat.n_partitions s
  | CrossStrat s => CrossSFPartitionStrat.n_partitions s
  end.

(** [TaskIt]: the iterator over the tasks with 1D indices in
    [index_start_1D, index_stop_1D). *)
Record TaskIt := {
  index_stop_1D_ : Z;
  partition_strat_ : partition_variant;
  next_index_1D_ : Z;
  next_index_2D_ : Z * Z
}.

Definition increment_index_ (it : TaskIt) : TaskIt :=
  {| index_stop_1D_ := index_stop_1D_ it;
     partition_strat_ := partition_strat_ it;
     next_index_1D_ := wrap64 (next_index_1D_ it + 1);
     next_index_2D_ :=
       strat_increment2D_index (partition_strat_ it) (next_index_2D_ it) |}.

(** The loop [while (next_index_1D_ < index_start_1D) increment_index_()] of
    the constructor. *)
Fixpoint TaskIt_advance (fuel : nat) (index_start_1D : Z) (it : TaskIt)
    : option TaskIt :=
  if next_index_1D_ it <? index_start_1D then
    match fuel with
    | O => None
    | S fuel' => TaskIt_advance fuel' index_start_1D (increment_index_ it)
    end
  else Some it.

Definition TaskIt_new (index_start_1D index_stop_1D : Z)
    (partition_strat : partition_variant) : result TaskIt :=
  if index_stop_1D <=? index_start_1D then
    Error "index_stop_1D must exceed index_start_1D"
  else
    match TaskIt_advance (Z.to_nat index_start_1D) index_start_1D
            {| index_stop_1D_ := index_stop_1D;
               partition_strat_ := partition_strat;
               next_index_1D_ := 0;
               next_index_2D_ := (0, 0) |} with
    | None => Error "TaskIt: loop did not finish"
    | Some it => Ok it
    end.

Definition has_next (it : TaskIt) : bool :=
  next_index_1D_ it <? index_stop_1D_ it.

Definition next (it : TaskIt) : result (StatTask * TaskIt) :=
  out ← strat_build_StatTask (partition_strat_ it) (next_index_2D_ it);
  Ok (out, increment_index_ it).

(** The tasks an iterator hands out until [has_next] is false, in order: the
    sequence of [stat_task] values of the loop of [process_TaskIt_]. *)
Fixpoint TaskIt_tasks (fuel : nat) (it : TaskIt) : result (list StatTask) :=
  if has_next it then
    match fuel with
    | O => Error "TaskIt: loop did not finish"
    | S fuel' =>
        '(stat_task, it') ← next it;
        rest ← TaskIt_tasks fuel' it';
        Ok (stat_task :: rest)
    end
  else Ok [].

(** [TaskItFactory] *)
Record TaskItFactory := {
  nproc_ : Z;
  factory_partition_strat_ : partition_variant
}.

Definition build_strat_ (nproc n_points n_points_other : Z)
    (skip_small_prob_check : bool) : result partition_variant :=
  if n_points_other =? 0 then
    AutoStrat <$> AutoSFPartitionStrat.create nproc n_points
                    skip_small_prob_check
  else
    CrossStrat <$> CrossSFPartitionStrat.create nproc n_points n_points_other
                     skip_small_prob_check.

Definition TaskItFactory_new (nproc n_points n_points_other : Z)
    (skip_small_prob_check : bool) : result TaskItFactory :=
  strat ← build_strat_ nproc n_points n_points_other skip_small_prob_check;
  Ok {| nproc_ := nproc; factory_partition_strat_ := strat |}.

Definition factory_n_partitions (f : TaskItFactory) : Z :=
  strat_n_partitions (factory_partition_strat_ f).

Definition effective_nproc (f : TaskItFactory) : result Z :=
  n ← safe_cast_u64 (factory_n_partitions f);
  Ok (Z.min (nproc_ f) n).

Definition build_TaskIt (f : TaskItFactory) (proc_id : Z) : result TaskIt :=
  if nproc_ f <=? proc_id then Error "proc_id is too large"
  else
    n ← safe_cast_u64 (factory_n_partitions f);
    e ← effective_nproc f;
    slc ← calc_chunk_slice proc_id n e;
    a ← safe_cast_u64 (start slc);
    b ← safe_cast_u64 (stop slc);
    TaskIt_new a b (factory_partition_strat_ f).

(** ** The pair loops of [process_data] ([vsf.cpp])

    [process_data] walks [i_a] over [0, n_points_a) and [i_b] over
    [i_b_start, n_points_b), with [i_b_start = i_a + 1] when
    [duplicated_points] and [0] otherwise.  [process_data_pairs] is the
    sequence of [(i_a, i_b)] in the order of the two loops. *)
Definition process_data_pairs (duplicated_points : bool)
    (n_points_a n_points_b : Z) : list (Z * Z) :=
  i_a ← seqZ 0 n_points_a;
  let i_b_start := if duplicated_points then wrap64 (i_a + 1) else 0 in
  i_b ← seqZ i_b_start (n_points_b - i_b_start);
  [(i_a, i_b)].

(** The pairs of point indices one [StatTask] makes [process_TaskIt_] visit.
    [cur_points_a] and [cur_points_b] are the point arrays advanced by
    [start_A] and [start_B], so the local index [i] of [process_data] is the
    point [start + i] of the caller's arrays.  An auto task
    ([start_B == stop_B == 0] under [duplicated_points]) passes
    [cur_points_a] twice. *)
Definition StatTask_pairs (duplicated_points : bool) (stat_task : StatTask)
    : list (Z * Z) :=
  let n_a := wrap64 (stop_A stat_task - start_A stat_task) in
  let n_b := wrap64 (stop_B stat_task - start_B stat_task) in
  if duplicated_points then
    if (start_B stat_task =? stop_B stat_task) && (stop_B stat_task =? 0) then
      (fun p : Z * Z => (start_A stat_task + p.1, start_A stat_task + p.2))
        <$> process_data_pairs true n_a n_a
    else
      (fun p : Z * Z => (start_A stat_task + p.1, start_B stat_task + p.2))
        <$> process_data_pairs false n_a n_b
  else
    (fun p : Z * Z => (start_A stat_task + p.1, start_B stat_task + p.2))
      <$> process_data_pairs false n_a n_b.

(** ** Doubles and the two value types of the accumulators *)

Definition double : Type := spec_float.

Definition d_prec : Z := 53.
Definition d_emax : Z := 1024.

Definition d_add : double -> double -> double := SFadd d_prec d_emax.
Definition d_sub : double -> double -> double := SFsub d_prec d_emax.
Definition d_mul : double -> double -> double := SFmul d_prec d_emax.
Definition d_div : double -> double -> double := SFdiv d_prec d_emax.
Definition d_sqrt : double -> double := SFsqrt d_prec d_emax.
Definition d_ltb : double -> double -> bool := SFltb.
Definition d_eqb : double -> double -> bool := SFeqb.

(** Conversion of an integer to [double] (round to nearest even). *)
Definition d_of_Z (z : Z) : double := binary_normalize d_prec d_emax z 0 false.

(** Conversion of a [double] to [std::int64_t]: truncation toward zero.  The
    conversion of a NaN, an infinity or a value out of range is undefined
    in C++; the model gives what x86-64 gives, the smallest integer. *)
Definition d_to_i64 (x : double) : Z :=
  match x with
  | S754_zero _ => 0
  | S754_finite s m e =>
      let v := if 0 <=? e then Z.pos m * 2 ^ e else Z.pos m / 2 ^ (- e) in
      if v <? 2 ^ 63 then (if s then - v else v) else - 2 ^ 63
  | _ => - 2 ^ 63
  end.

Definition is_finite (x : double) : bool :=
  match x with
  | S754_zero _ | S754_finite _ _ _ => true
  | _ => false
  end.

#[global] Instance double_inhabited : Inhabited double :=
  populate (S754_zero false).

(** The template parameter [CountT] / [T] / [Tbuf]: [std::int64_t] or
    [double]. *)
Inductive dtype := Int64 | Double.

#[global] Instance dtype_eq_dec : EqDecision dtype.
Proof. solve_decision. Defined.

Definition val_t (T : dtype) : Type :=
  match T with
  | Int64 => Z
  | Double => double
  end.

Definition val_of_Z (T : dtype) (z : Z) : val_t T :=
  match T with
  | Int64 => wrap_i64 z
  | Double => d_of_Z z
  end.

#[global] Instance val_t_inhabited T : Inhabited (val_t T) :=
  populate (val_of_Z T 0).

Definition val_add (T : dtype) : val_t T -> val_t T -> val_t T :=
  match T with
  | Int64 => fun a b => wrap_i64 (a + b)
  | Double => d_add
  end.

Definition val_sub (T : dtype) : val_t T -> val_t T -> val_t T :=
  match T with
  | Int64 => fun a b => wrap_i64 (a - b)
  | Double => d_sub
  end.

Definition val_mul (T : dtype) : val_t T -> val_t T -> val_t T :=
  match T with
  | Int64 => fun a b => wrap_i64 (a * b)
  | Double => d_mul
  end.

(** The implicit conversion of a [T] that meets a [double] in an
    expression. *)
Definition val_to_double (T : dtype) : val_t T -> double :=
  match T with
  | Int64 => d_of_Z
  | Double => fun x => x
  end.

(** The implicit conversion of a [double] assigned to a [T]. *)
Definition val_of_double (T : dtype) : double -> val_t T :=
  match T with
  | Int64 => d_to_i64
  | Double => fun x => x
  end.

(** [x == z] for a [T] value [x] and an integer literal [z]. *)
Definition val_eqb_Z (T : dtype) : val_t T -> Z -> bool :=
  match T with
  | Int64 => fun x z => x =? z
  | Double => fun x z => d_eqb x (d_of_Z z)
  end.

Definition is_int64 (T : dtype) : bool :=
  match T with
  | Int64 => true
  | Double => false
  end.

(** A left fold that stops at the first fatal error. *)
Fixpoint foldM {A B : Type} (f : B -> A -> result B) (l : list A) (b : B)
    : result B :=
  match l with
  | [] => Ok b
  | a :: l' => b' ← f b a; foldM f l' b'
  end.

(** ** [accumulators.hpp] *)

Definition consolidate_mean_ (T : dtype) (primary_mean : double)
    (primary_weight : val_t T) (other_mean : double) (other_weight : val_t T)
    (total_weight : double) : double :=
  d_div (d_add (d_mul (val_to_double T primary_weight) primary_mean)
               (d_mul (val_to_double T other_weight) other_mean))
        total_weight.

(** The interface the accumulator structs satisfy
    ([CentralMomentAccum<Order, CountT>], [OriginMomentAccum<Order, CountT>]).
    [access] is the const overload, [assign] an assignment through the
    reference the other overload returns. *)
Class Accum (A : Type) := {
  accum_stat_name : result string;
  accum_i64_val_names : list string;
  accum_flt_val_names : list string;
  accum_requires_weight : bool;
  accum_new : A;
  accum_add_entry : A -> double -> result A;
  accum_add_entry_w : A -> double -> double -> result A;
  accum_consolidate_with_other : A -> A -> result A;
  accum_access : forall T : dtype, A -> Z -> result (val_t T);
  accum_assign : forall T : dtype, A -> Z -> val_t T -> result A
}.

Module CentralMomentAccum.

(** [count] is the number of entries (or the sum of the weights) so far;
    [moment_accums] is the array [double moment_accums[Order]]. *)
Record t (Order : nat) (CountT : dtype) := {
  count : val_t CountT;
  moment_accums : list double
}.
Arguments count {Order CountT} _.
Arguments moment_accums {Order CountT} _.

(** [struct LUT { enum { mean = 0, cur_M2 = 1, cur_M3 = 2 }; }] *)
Definition LUT_mean : nat := 0.
Definition LUT_cur_M2 : nat := 1.
Definition LUT_cur_M3 : nat := 2.

(** The chain of [if constexpr] of [stat_name]; the last branch is the
    [static_assert] that rejects the instantiation. *)
Definition stat_name (Order : nat) (CountT : dtype) : result string :=
  if (Order =? 1)%nat && is_int64 CountT then Ok "mean"
  else if (Order =? 1)%nat then Ok "weightedmean"
  else if (Order =? 2)%nat && is_int64 CountT then Ok "variance"
  else if (Order =? 2)%nat then Ok "weightedvariance"
  else if (Order =? 2)%nat && is_int64 CountT then Ok "cmoment3"
  else Error "weird template specialization".

Definition i64_val_names (CountT : dtype) : list string :=
  if is_int64 CountT then ["count"] else [].

Definition flt_val_names (Order : nat) (CountT : dtype) : list string :=
  (if is_int64 CountT then [] else ["weight_sum"])
  ++ ["mean"]
  ++ (if (1 <? Order)%nat then ["variance*count"] else [])
  ++ (if (2 <? Order)%nat then ["cmoment3*count"] else []).

Definition requires_weight (CountT : dtype) : bool := negb (is_int64 CountT).

Definition access {Order CountT} (T : dtype) (a : t Order CountT) (i : Z)
    : result (val_t T) :=
  match T, CountT return t Order CountT -> result (val_t T) with
  | Int64, Int64 => fun a =>
      if negb (i =? 0) then Error "only has 1 integer value"
      else Ok (count a)
  | Int64, Double => fun _ => Error "has no integer value"
  | Double, Int64 => fun a =>
      if Z.of_nat Order <=? i
      then Error "trying to access a non-existent float_val"
      else Ok (moment_accums a !!! Z.to_nat i)
  | Double, Double => fun a =>
      if Z.of_nat Order <? i
      then Error "trying to access a non-existent float_val"
      else if i =? 0 then Ok (count a)
      else Ok (moment_accums a !!! Z.to_nat (wrap64 (i - 1)))
  end a.

(** [a.access<T>(i) = v] *)
Definition assign {Order CountT} (T : dtype) (a : t Order CountT) (i : Z)
    : val_t T -> result (t Order CountT) :=
  match T, CountT
    return t Order CountT -> val_t T -> result (t Order CountT) with
  | Int64, Int64 => fun a v =>
      if negb (i =? 0) then Error "only has 1 integer value"
      else Ok (Build_t Order Int64 v (moment_accums a))
  | Int64, Double => fun _ _ => Error "has no integer value"
  | Double, Int64 => fun a v =>
      if Z.of_nat Order <=? i
      then Error "trying to access a non-existent float_val"
      else Ok (Build_t Order Int64 (count a)
                 (<[Z.to_nat i := v]> (moment_accums a)))
  | Double, Double => fun a v =>
      if Z.of_nat Order <? i
      then Error "trying to access a non-existent float_val"
      else if i =? 0
      then Ok (Build_t Order Double v (moment_accums a))
      else Ok (Build_t Order Double (count a)
                 (<[Z.to_nat (wrap64 (i - 1)) := v]> (moment_accums a)))
  end a.

(** The default constructor. *)
Definition new (Order : nat) (CountT : dtype) : t Order CountT :=
  {| count := val_of_Z CountT 0;
     moment_accums := replicate Order (d_of_Z 0) |}.

Definition add_entry {Order CountT} (a : t Order CountT) (val : double)
    : result (t Order CountT) :=
  match CountT return t Order CountT -> result (t Order CountT) with
  | Int64 => fun a =>
      let count := wrap_i64 (count a + 1) in
      let ma := moment_accums a in
      let val_minus_last_mean := d_sub val (ma !!! LUT_mean) in
      let delta := val_minus_last_mean in
      let delta_div_n := d_div delta (d_of_Z count) in
      let ma := <[LUT_mean := d_add (ma !!! LUT_mean) delta_div_n]> ma in
      if (1 <? Order)%nat then
        let val_minus_cur_mean := d_sub val (ma !!! LUT_mean) in
        let delta2_nm1_div_n := d_mul val_minus_last_mean val_minus_cur_mean in
        let ma :=
          if (2 <? Order)%nat then
            <[LUT_cur_M3 :=
                d_add (ma !!! LUT_cur_M3)
                  (d_sub
                     (d_mul (d_mul delta2_nm1_div_n delta_div_n)
                            (d_of_Z (wrap_i64 (count - 2))))
                     (d_mul (d_mul (d_of_Z 3) (ma !!! LUT_cur_M2))
                            delta_div_n))]> ma
          else ma in
        let ma := <[LUT_cur_M2 := d_add (ma !!! LUT_cur_M2) delta2_nm1_div_n]> ma in
        Ok (Build_t Order Int64 count ma)
      else Ok (Build_t Order Int64 count ma)
  | Double => fun _ => Error "This version of the function won't work!"
  end a.

Definition add_entry_w {Order CountT} (a : t Order CountT)
    (val weight : double) : result (t Order CountT) :=
  match CountT return t Order CountT -> result (t Order CountT) with
  | Int64 => fun a =>
      (* we ignore the weight *)
      add_entry a val
  | Double => fun a =>
      let weight_sum := d_add (count a) weight in
      let ma := moment_accums a in
      let delta := d_sub val (ma !!! LUT_mean) in
      let ma :=
        <[LUT_mean :=
            d_add (ma !!! LUT_mean)
              (d_div (d_mul delta weight)
                 (d_add weight_sum
                    (d_of_Z (if d_eqb weight_sum (d_of_Z 0) then 1 else 0))))]>
          ma in
      if (1 <? Order)%nat then
        let val_minus_cur_mean := d_sub val (ma !!! LUT_mean) in
        let ma :=
          <[LUT_cur_M2 :=
              d_add (ma !!! LUT_cur_M2)
                (d_mul (d_mul weight delta) val_minus_cur_mean)]> ma in
        Ok (Build_t Order Double weight_sum ma)
      else Ok (Build_t Order Double weight_sum ma)
  end a.

Definition consolidate_with_other {Order CountT} (this other : t Order CountT)
    : result (t Order CountT) :=
  if val_eqb_Z CountT (count this) 0 then Ok other
  else if val_eqb_Z CountT (count other) 0 then Ok this
  else if val_eqb_Z CountT (count this) 1 && is_int64 CountT then
    let temp := moment_accums this !!! LUT_mean in
    add_entry other temp
  else if val_eqb_Z CountT (count other) 1 && is_int64 CountT then
    add_entry this (moment_accums other !!! LUT_mean)
  else
    let totcount :=
      val_to_double CountT (val_add CountT (count this) (count other)) in
    let ma := moment_accums this in
    let oma := moment_accums other in
    let ma :=
      if (1 <? Order)%nat then
        let delta := d_sub (oma !!! LUT_mean) (ma !!! LUT_mean) in
        let delta2_nprod_div_ntot :=
          d_mul (d_mul delta delta)
            (d_div (val_to_double CountT
                      (val_mul CountT (count this) (count other)))
                   totcount) in
        let ma :=
          if (2 <? Order)%nat then
            let term1 :=
              d_mul delta2_nprod_div_ntot
                (val_to_double CountT
                   (val_sub CountT (count other) (count this))) in
            let term2 :=
              d_mul (d_of_Z 3)
                (d_sub
                   (d_mul (val_to_double CountT (count this))
                          (oma !!! LUT_cur_M2))
                   (d_mul (val_to_double CountT (count other))
                          (ma !!! LUT_cur_M2))) in
            <[LUT_cur_M3 :=
                d_add (d_add (ma !!! LUT_cur_M3) (oma !!! LUT_cur_M3))
                  (d_div (d_mul delta (d_add term1 term2)) totcount)]> ma
          else ma in
        <[LUT_cur_M2 :=
            d_add (d_add (ma !!! LUT_cur_M2) (oma !!! LUT_cur_M2))
                  delta2_nprod_div_ntot]> ma
      else ma in
    let ma :=
      <[LUT_mean :=
          consolidate_mean_ CountT (ma !!! LUT_mean) (count this)
            (oma !!! LUT_mean) (count other) totcount]> ma in
    Ok {| count := val_of_double CountT totcount; moment_accums := ma |}.

End CentralMomentAccum.

#[global] Instance CentralMomentAccum_Accum (Order : nat) (CountT : dtype)
    : Accum (CentralMomentAccum.t Order CountT) := {
  accum_stat_name := CentralMomentAccum.stat_name Order CountT;
  accum_i64_val_names := CentralMomentAccum.i64_val_names CountT;
  accum_flt_val_names := CentralMomentAccum.flt_val_names Order CountT;
  accum_requires_weight := CentralMomentAccum.requires_weight CountT;
  accum_new := CentralMomentAccum.new Order CountT;
  accum_add_entry := CentralMomentAccum.add_entry;
  accum_add_entry_w := CentralMomentAccum.add_entry_w;
  accum_consolidate_with_other := CentralMomentAccum.consolidate_with_other;
  accum_access := @CentralMomentAccum.access Order CountT;
  accum_assign := @CentralMomentAccum.assign Order CountT
}.

Module OriginMomentAccum.

Record t (Order : nat) (CountT : dtype) := {
  count : val_t CountT;
  moment_accums : list double
}.
Arguments count {Order CountT} _.
Arguments moment_accums {Order CountT} _.

Definition stat_name (Order : nat) (CountT : dtype) : result string :=
  if (Order =? 1)%nat && is_int64 CountT then Ok "omoment1-override"
  else if (Order =? 1)%nat then Ok "weightedomoment1-override"
  else if is_int64 CountT then Ok ("omoment" +:+ pretty Order)
  else Ok ("weightedomoment" +:+ pretty Order).

Definition i64_val_names (CountT : dtype) : list string :=
  if is_int64 CountT then ["count"] else [].

Definition flt_val_names (Order : nat) (CountT : dtype) : list string :=
  (if is_int64 CountT then [] else ["weight_sum"])
  ++ ["mean"]
  ++ ((fun i : nat => "omoment" +:+ pretty (i + 1)%nat) <$> seq 1 (Order - 1)).

Definition requires_weight (CountT : dtype) : bool := negb (is_int64 CountT).

Definition access {Order CountT} (T : dtype) (a : t Order CountT) (i : Z)
    : result (val_t T) :=
  match T, CountT return t Order CountT -> result (val_t T) with
  | Int64, Int64 => fun a =>
      if negb (i =? 0) then Error "only has 1 integer value"
      else Ok (count a)
  | Int64, Double => fun _ => Error "has no integer value"
  | Double, Int64 => fun a =>
      if Z.of_nat Order <=? i
      then Error "trying to access a non-existent float_val"
      else Ok (moment_accums a !!! Z.to_nat i)
  | Double, Double => fun a =>
      if Z.of_nat Order <? i
      then Error "trying to access a non-existent float_val"
      else if i =? 0 then Ok (count a)
      else Ok (moment_accums a !!! Z.to_nat (wrap64 (i - 1)))
  end a.

Definition assign {Order CountT} (T : dtype) (a : t Order CountT) (i : Z)
    : val_t T -> result (t Order CountT) :=
  match T, CountT
    return t Order CountT -> val_t T -> result (t Order CountT) with
  | Int64, Int64 => fun a v =>
      if negb (i =? 0) then Error "only has 1 integer value"
      else Ok (Build_t Order Int64 v (moment_accums a))
  | Int64, Double => fun _ _ => Error "has no integer value"
  | Double, Int64 => fun a v =>
      if Z.of_nat Order <=? i
      then Error "trying to access a non-existent float_val"
      else Ok (Build_t Order Int64 (count a)
                 (<[Z.to_nat i := v]> (moment_accums a)))
  | Double, Double => fun a v =>
      if Z.of_nat Order <? i
      then Error "trying to access a non-existent float_val"
      else if i =? 0
      then Ok (Build_t Order Double v (moment_accums a))
      else Ok (Build_t Order Double (count a)
                 (<[Z.to_nat (wrap64 (i - 1)) := v]> (moment_accums a)))
  end a.

Definition new (Order : nat) (CountT : dtype) : t Order CountT :=
  {| count := val_of_Z CountT 0;
     moment_accums := replicate Order (d_of_Z 0) |}.

(** One turn of the loop [for (int i = 0; i < Order; i++)] of the
    one-argument [add_entry], on [(val_raised_to_ip1, moment_accums)]. *)
Definition add_entry_step (val count : double) (st : double * list double)
    (i : nat) : double * list double :=
  let val_raised_to_ip1 := d_mul st.1 val in
  let delta := d_sub val_raised_to_ip1 (st.2 !!! i) in
  let delta_div_n := d_div delta count in
  (val_raised_to_ip1, <[i := d_add (st.2 !!! i) delta_div_n]> st.2).

Definition add_entry {Order CountT} (a : t Order CountT) (val : double)
    : result (t Order CountT) :=
  match CountT return t Order CountT -> result (t Order CountT) with
  | Int64 => fun a =>
      let count := wrap_i64 (count a + 1) in
      let st :=
        foldl (add_entry_step val (d_of_Z count)) (d_of_Z 1, moment_accums a)
          (seq 0 Order) in
      Ok (Build_t Order Int64 count st.2)
  | Double => fun _ => Error "This version of the function won't work!"
  end a.

(** One turn of the loop of the two-argument [add_entry]. *)
Definition add_entry_w_step (val weight weight_sum : double)
    (st : double * list double) (i : nat) : double * list double :=
  let val_raised_to_ip1 := d_mul st.1 val in
  let delta := d_sub val_raised_to_ip1 (st.2 !!! i) in
  (val_raised_to_ip1,
   <[i := d_add (st.2 !!! i)
            (d_div (d_mul delta weight)
               (d_add weight_sum
                  (d_of_Z (if d_eqb weight_sum (d_of_Z 0) then 1 else 0))))]>
     st.2).

Definition add_entry_w {Order CountT} (a : t Order CountT)
    (val weight : double) : result (t Order CountT) :=
  match CountT return t Order CountT -> result (t Order CountT) with
  | Int64 => fun a =>
      (* we ignore the weight *)
      add_entry a val
  | Double => fun a =>
      let weight_sum := d_add (count a) weight in
      let st :=
        foldl (add_entry_w_step val weight weight_sum)
          (d_of_Z 1, moment_accums a) (seq 0 Order) in
      Ok (Build_t Order Double weight_sum st.2)
  end a.

Definition consolidate_with_other {Order CountT} (this other : t Order CountT)
    : result (t Order CountT) :=
  if val_eqb_Z CountT (count this) 0 then Ok other
  else if val_eqb_Z CountT (count other) 0 then Ok this
  else if val_eqb_Z CountT (count this) 1 && is_int64 CountT then
    let temp := moment_accums this !!! 0%nat in
    add_entry other temp
  else if val_eqb_Z CountT (count other) 1 && is_int64 CountT then
    add_entry this (moment_accums other !!! 0%nat)
  else
    let totcount :=
      val_to_double CountT (val_add CountT (count this) (count other)) in
    let ma :=
      foldl (fun (ma : list double) (i : nat) =>
               <[i := consolidate_mean_ CountT (ma !!! i) (count this)
                        (moment_accums other !!! i) (count other) totcount]>
                 ma)
        (moment_accums this) (seq 0 Order) in
    Ok {| count := val_of_double CountT totcount; moment_accums := ma |}.

End OriginMomentAccum.

#[global] Instance OriginMomentAccum_Accum (Order : nat) (CountT : dtype)
    : Accum (OriginMomentAccum.t Order CountT) := {
  accum_stat_name := OriginMomentAccum.stat_name Order CountT;
  accum_i64_val_names := OriginMomentAccum.i64_val_names CountT;
  accum_flt_val_names := OriginMomentAccum.flt_val_names Order CountT;
  accum_requires_weight := OriginMomentAccum.requires_weight CountT;
  accum_new := OriginMomentAccum.new Order CountT;
  accum_add_entry := OriginMomentAccum.add_entry;
  accum_add_entry_w := OriginMomentAccum.add_entry_w;
  accum_consolidate_with_other := OriginMomentAccum.consolidate_with_other;
  accum_access := @OriginMomentAccum.access Order CountT;
  accum_assign := @OriginMomentAccum.assign Order CountT
}.

(** [num_type_vals_per_bin_<Accum, T>] *)
Definition num_type_vals_per_bin_ (A : Type) `{Accum A} (T : dtype) : Z :=
  match T with
  | Int64 => Z.of_nat (length (accum_i64_val_names (A := A)))
  | Double => Z.of_nat (length (accum_flt_val_names (A := A)))
  end.

(** A pointer into a buffer of [T]: the buffer and the offset of the element
    the pointer designates.  [p[i]] is the element [offset + i]; a write
    outside of the buffer, undefined in C++, leaves the buffer as it is. *)
Definition buf_write {X : Type} (buf : list X) (offset i : Z) (v : X) : list X :=
  <[Z.to_nat (offset + i) := v]> buf.

Definition buf_read {X : Type} `{Inhabited X} (buf : list X) (offset i : Z) : X :=
  buf !!! Z.to_nat (offset + i).

(** The uniform contract of the accumulator collections
    ([ScalarAccumCollection<Accum>], [GenericHistogramAccumCollection<T>]).
    [copy_vals] and [import_vals] take the buffer and the offset of the
    pointer they are given. *)
Class AccumCollection (C : Type) := {
  collec_stat_name : C -> result string;
  collec_requires_weight : C -> bool;
  purge : C -> C;
  add_entry : C -> Z -> double -> result C;
  add_entry_w : C -> Z -> double -> double -> result C;
  consolidate_with_other : C -> C -> result C;
  flt_val_props : C -> list (string * Z);
  i64_val_props : C -> list (string * Z);
  copy_vals : forall T : dtype, C -> list (val_t T) -> Z -> result (list (val_t T));
  import_vals : forall T : dtype, C -> list (val_t T) -> Z -> result C;
  n_spatial_bins : C -> Z
}.

Module ScalarAccumCollection.

Record t (A : Type) := { accum_list_ : list A }.
Arguments accum_list_ {A} _.

Section WithAccum.
Context {A : Type} `{Accum A}.

Definition stat_name : result string := accum_stat_name (A := A).

Definition requires_weight : bool := accum_requires_weight (A := A).

(** The constructor; [other_arg] is [None] for [nullptr]. *)
Definition new {X : Type} (n_spatial_bins : Z) (other_arg : option X)
    : result (t A) :=
  if n_spatial_bins =? 0 then Error "n_spatial_bins must be positive"
  else if bool_decide (is_Some other_arg) then Error "other_arg must be nullptr"
  else Ok {| accum_list_ := replicate (Z.to_nat n_spatial_bins) accum_new |}.

Definition purge (c : t A) : t A :=
  {| accum_list_ := replicate (length (accum_list_ c)) accum_new |}.

(** [accum_list_[spatial_bin_index].add_entry(val)]; an index out of range,
    undefined in C++, is a fatal error of the model. *)
Definition add_entry (c : t A) (spatial_bin_index : Z) (val : double)
    : result (t A) :=
  match accum_list_ c !! Z.to_nat spatial_bin_index with
  | Some a =>
      a' ← accum_add_entry a val;
      Ok {| accum_list_ := <[Z.to_nat spatial_bin_index := a']> (accum_list_ c) |}
  | None => Error "spatial_bin_index out of range"
  end.

Definition add_entry_w (c : t A) (spatial_bin_index : Z) (val weight : double)
    : result (t A) :=
  match accum_list_ c !! Z.to_nat spatial_bin_index with
  | Some a =>
      a' ← accum_add_entry_w a val weight;
      Ok {| accum_list_ := <[Z.to_nat spatial_bin_index := a']> (accum_list_ c) |}
  | None => Error "spatial_bin_index out of range"
  end.

Fixpoint consolidate_lists (l other : list A) : result (list A) :=
  match l, other with
  | a :: l', b :: other' =>
      a' ← accum_consolidate_with_other a b;
      rest ← consolidate_lists l' other';
      Ok (a' :: rest)
  | _, _ => Ok []
  end.

Definition consolidate_with_other (c other : t A) : result (t A) :=
  let num_bins := length (accum_list_ c) in
  if negb (length (accum_list_ other) =? num_bins)%nat then
    Error "There seemed to be a mismatch during consolidation"
  else
    l ← consolidate_lists (accum_list_ c) (accum_list_ other);
    Ok {| accum_list_ := l |}.

Definition flt_val_props : list (string * Z) :=
  (fun name : string => (name, 1)) <$> accum_flt_val_names (A := A).

Definition i64_val_props : list (string * Z) :=
  (fun name : string => (name, 1)) <$> accum_i64_val_names (A := A).

(** The indices [(i, j)] of the two loops of [copy_vals] and [import_vals],
    in order. *)
Definition bin_val_indices (n_bins num_vals : Z) : list (Z * Z) :=
  i ← seqZ 0 n_bins; j ← seqZ 0 num_vals; [(i, j)].

Definition copy_vals (T : dtype) (c : t A) (out_vals : list (val_t T))
    (offset : Z) : result (list (val_t T)) :=
  let num_dtype_vals := num_type_vals_per_bin_ A T in
  let n_bins := Z.of_nat (length (accum_list_ c)) in
  foldM (fun (out : list (val_t T)) (ij : Z * Z) =>
           match accum_list_ c !! Z.to_nat ij.1 with
           | Some a =>
               v ← accum_access T a ij.2;
               Ok (buf_write out offset
                     (wrap64 (ij.1 + wrap64 (ij.2 * n_bins))) v)
           | None => Error "bin index out of range"
           end)
    (bin_val_indices n_bins num_dtype_vals) out_vals.

Definition import_vals (T : dtype) (c : t A) (in_vals : list (val_t T))
    (offset : Z) : result (t A) :=
  let num_flt_vals := num_type_vals_per_bin_ A T in
  let n_bins := Z.of_nat (length (accum_list_ c)) in
  foldM (fun (c : t A) (ij : Z * Z) =>
           match accum_list_ c !! Z.to_nat ij.1 with
           | Some a =>
               a' ← accum_assign T a ij.2
                      (buf_read in_vals offset
                         (wrap64 (ij.1 + wrap64 (ij.2 * n_bins))));
               Ok {| accum_list_ := <[Z.to_nat ij.1 := a']> (accum_list_ c) |}
           | None => Error "bin index out of range"
           end)
    (bin_val_indices n_bins num_flt_vals) c.

Definition n_spatial_bins (c : t A) : Z := Z.of_nat (length (accum_list_ c)).

End WithAccum.

End ScalarAccumCollection.

#[global] Instance ScalarAccumCollection_AccumCollection (A : Type) `{Accum A}
    : AccumCollection (ScalarAccumCollection.t A) := {
  collec_stat_name := fun _ => ScalarAccumCollection.stat_name;
  collec_requires_weight := fun _ => ScalarAccumCollection.requires_weight;
  purge := ScalarAccumCollection.purge;
  add_entry := ScalarAccumCollection.add_entry;
  add_entry_w := ScalarAccumCollection.add_entry_w;
  consolidate_with_other := ScalarAccumCollection.consolidate_with_other;
  flt_val_props := fun _ => ScalarAccumCollection.flt_val_props;
  i64_val_props := fun _ => ScalarAccumCollection.i64_val_props;
  copy_vals := ScalarAccumCollection.copy_vals;
  import_vals := ScalarAccumCollection.import_vals;
  n_spatial_bins := ScalarAccumCollection.n_spatial_bins
}.

(** [std::lower_bound(first, last, x)]: the position of the first element of
    the range that is not less than [x] (the length of the range when there
    is none), for a range partitioned with respect to [e < x]. *)
Fixpoint lower_bound {T : Type} (ltb : T -> T -> bool) (range : list T) (x : T)
    : nat :=
  match range with
  | [] => 0
  | e :: range' => if ltb e x then S (lower_bound ltb range' x) else 0
  end.

(** [identify_bin_index(x, bin_edges, nbins)], for a type [T] ordered by
    [ltb]; [bin_edges] points to [nbins + 1] values. *)
Definition identify_bin_index {T : Type} (ltb : T -> T -> bool) (x : T)
    (bin_edges : list T) (nbins : Z) : Z :=
  let range := take (Z.to_nat (wrap64 (nbins + 1))) bin_edges in
  let index_p_1 := Z.of_nat (lower_bound ltb range x) in
  if (index_p_1 =? 0) || (index_p_1 =? wrap64 (nbins + 1)) then nbins
  else wrap64 (index_p_1 - 1).

(** Modelled from the spec: [struct BinSpecification] of [vsf.hpp], the
    histogram bin-edge specification of a requested statistic; the
    constructor of the histogram reads its [n_bins] and its [n_bins + 1]
    values at [bin_edges]. *)
Record BinSpecification := {
  bin_edges : list double;
  n_bins : Z
}.

Module GenericHistogramAccumCollection.

Record t (T : dtype) := {
  n_spatial_bins_ : Z;
  n_data_bins_ : Z;
  bin_counts_ : list (val_t T);
  data_bin_edges_ : list double
}.
Arguments n_spatial_bins_ {T} _.
Arguments n_data_bins_ {T} _.
Arguments bin_counts_ {T} _.
Arguments data_bin_edges_ {T} _.

Definition stat_name (T : dtype) : string :=
  if is_int64 T then "histogram" else "weightedhistogram".

Definition requires_weight (T : dtype) : bool := negb (is_int64 T).

(** The constructor; [other_arg] is [None] for [nullptr]. *)
Definition new (T : dtype) (n_spatial_bins : Z)
    (other_arg : option BinSpecification) : result (t T) :=
  if n_spatial_bins =? 0 then Error "n_spatial_bins must be positive"
  else
    match other_arg with
    | None => Error "other_arg must not be a nullptr"
    | Some data_bins =>
        if n_bins data_bins =? 0 then
          Error "There must be a positive number of bins."
        else
          let n_data_bins := n_bins data_bins in
          let len_data_bin_edges := wrap64 (n_data_bins + 1) in
          Ok {| n_spatial_bins_ := n_spatial_bins;
                n_data_bins_ := n_data_bins;
                bin_counts_ :=
                  replicate (Z.to_nat (wrap64 (n_data_bins * n_spatial_bins)))
                    (val_of_Z T 0);
                data_bin_edges_ :=
                  take (Z.to_nat len_data_bin_edges) (bin_edges data_bins) |}
    end.

Definition purge {T} (h : t T) : t T :=
  {| n_spatial_bins_ := n_spatial_bins_ h;
     n_data_bins_ := n_data_bins_ h;
     bin_counts_ := replicate (length (bin_counts_ h)) (val_of_Z T 0);
     data_bin_edges_ := data_bin_edges_ h |}.

(** [bin_counts_[i] += w]; an index out of range, undefined in C++, is a
    fatal error of the model. *)
Definition bump {T} (h : t T) (i : Z) (w : val_t T) : result (t T) :=
  match bin_counts_ h !! Z.to_nat i with
  | Some c =>
      Ok {| n_spatial_bins_ := n_spatial_bins_ h;
            n_data_bins_ := n_data_bins_ h;
            bin_counts_ := <[Z.to_nat i := val_add T c w]> (bin_counts_ h);
            data_bin_edges_ := data_bin_edges_ h |}
  | None => Error "bin_counts_ index out of range"
  end.

(** Add an entry (without a weight) *)
Definition add_entry {T} (h : t T) (spatial_bin_index : Z) (val : double)
    : result (t T) :=
  match T return t T -> result (t T) with
  | Int64 => fun h =>
      let data_bin_index :=
        identify_bin_index d_ltb val (data_bin_edges_ h) (n_data_bins_ h) in
      if data_bin_index <? n_data_bins_ h then
        let i :=
          wrap64 (data_bin_index
                  + wrap64 (spatial_bin_index * n_data_bins_ h)) in
        bump h i 1
      else Ok h
  | Double => fun _ => Error "a weight must be provided!"
  end h.

(** Add an entry (with a weight) *)
Definition add_entry_w {T} (h : t T) (spatial_bin_index : Z)
    (val weight : double) : result (t T) :=
  match T return t T -> result (t T) with
  | Int64 => fun h =>
      (* ignore the weight *)
      add_entry h spatial_bin_index val
  | Double => fun h =>
      let data_bin_index :=
        identify_bin_index d_ltb val (data_bin_edges_ h) (n_data_bins_ h) in
      if data_bin_index <? n_data_bins_ h then
        let i :=
          wrap64 (data_bin_index
                  + wrap64 (spatial_bin_index * n_data_bins_ h)) in
        bump h i weight
      else Ok h
  end h.

(** The loop [bin_counts_[i] += other.bin_counts_[i]] over the indices of
    [bin_counts_]; reading past the end of [other.bin_counts_], undefined
    in C++, is a fatal error of the model. *)
Fixpoint add_counts (T : dtype) (counts other_counts : list (val_t T))
    : result (list (val_t T)) :=
  match counts, other_counts with
  | [], _ => Ok []
  | c :: counts', o :: other_counts' =>
      rest ← add_counts T counts' other_counts';
      Ok (val_add T c o :: rest)
  | _ :: _, [] => Error "other.bin_counts_ index out of range"
  end.

Definition consolidate_with_other {T} (h other : t T) : result (t T) :=
  if negb (n_spatial_bins_ other =? n_spatial_bins_ h)
     || negb (n_data_bins_ other =? n_data_bins_ h)
  then Error "There seemed to be a mismatch during consolidation"
  else
    (* going to simply assume that contents of data_bin_edges_ are
       consistent *)
    counts ← add_counts T (bin_counts_ h) (bin_counts_ other);
    Ok {| n_spatial_bins_ := n_spatial_bins_ h;
          n_data_bins_ := n_data_bins_ h;
          bin_counts_ := counts;
          data_bin_edges_ := data_bin_edges_ h |}.

Definition flt_val_props {T} (h : t T) : list (string * Z) :=
  if is_int64 T then [] else [("bin_weights_", n_data_bins_ h)].

Definition i64_val_props {T} (h : t T) : list (string * Z) :=
  if is_int64 T then [("bin_counts_", n_data_bins_ h)] else [].

(** [copy_vals<Tbuf>]: copies when [Tbuf] is [T], does nothing otherwise. *)
Definition copy_vals {T} (Tbuf : dtype) (h : t T) (out_vals : list (val_t Tbuf))
    (offset : Z) : list (val_t Tbuf) :=
  match decide (T = Tbuf) with
  | left e =>
      foldl (fun (out : list (val_t Tbuf)) (i : nat) =>
               buf_write out offset (Z.of_nat i)
                 (eq_rect T val_t (bin_counts_ h !!! i) Tbuf e))
        out_vals (seq 0 (length (bin_counts_ h)))
  | right _ => out_vals
  end.

(** [import_vals<Tbuf>]: reads when [Tbuf] is [T], does nothing otherwise. *)
Definition import_vals {T} (Tbuf : dtype) (h : t T) (in_vals : list (val_t Tbuf))
    (offset : Z) : t T :=
  match decide (Tbuf = T) with
  | left e =>
      {| n_spatial_bins_ := n_spatial_bins_ h;
         n_data_bins_ := n_data_bins_ h;
         bin_counts_ :=
           foldl (fun (counts : list (val_t T)) (i : nat) =>
                    <[i := eq_rect Tbuf val_t
                             (buf_read in_vals offset (Z.of_nat i)) T e]> counts)
             (bin_counts_ h) (seq 0 (length (bin_counts_ h)));
         data_bin_edges_ := data_bin_edges_ h |}
  | right _ => h
  end.

Definition n_spatial_bins {T} (h : t T) : Z := n_spatial_bins_ h.

End GenericHistogramAccumCollection.

#[global] Instance GenericHistogramAccumCollection_AccumCollection (T : dtype)
    : AccumCollection (GenericHistogramAccumCollection.t T) := {
  collec_stat_name := fun _ => Ok (GenericHistogramAccumCollection.stat_name T);
  collec_requires_weight :=
    fun _ => GenericHistogramAccumCollection.requires_weight T;
  purge := GenericHistogramAccumCollection.purge;
  add_entry := GenericHistogramAccumCollection.add_entry;
  add_entry_w := GenericHistogramAccumCollection.add_entry_w;
  consolidate_with_other :=
    GenericHistogramAccumCollection.consolidate_with_other;
  flt_val_props := GenericHistogramAccumCollection.flt_val_props;
  i64_val_props := GenericHistogramAccumCollection.i64_val_props;
  copy_vals := fun Tbuf h out offset =>
    Ok (GenericHistogramAccumCollection.copy_vals Tbuf h out offset);
  import_vals := fun Tbuf h in_vals offset =>
    Ok (GenericHistogramAccumCollection.import_vals Tbuf h in_vals offset);
  n_spatial_bins := GenericHistogramAccumCollection.n_spatial_bins
}.

(** ** [compound_accumulator.hpp] *)

(** [CopyValsHelper_<T>]: the functor applied to every entry of the tuple;
    [offset_] runs over the buffer at [data_ptr_]. *)
Record CopyValsHelper_ (T : dtype) := {
  data_ptr_ : list (val_t T) * Z;
  offset_ : Z
}.
Arguments data_ptr_ {T} _.
Arguments offset_ {T} _.

(** [operator()] of [CopyValsHelper_] *)
Definition CopyValsHelper_call {T : dtype} {C : Type} `{AccumCollection C}
    (helper : CopyValsHelper_ T) (accum_collec : C)
    : result (CopyValsHelper_ T) :=
  buf ← copy_vals T accum_collec (data_ptr_ helper).1
          ((data_ptr_ helper).2 + offset_ helper);
  let val_props :=
    if is_int64 T then i64_val_props accum_collec
    else flt_val_props accum_collec in
  let n_spatial_bins := n_spatial_bins accum_collec in
  let offset :=
    foldl (fun (offset : Z) (prop : string * Z) =>
             wrap64 (offset + wrap64 (n_spatial_bins * prop.2)))
      (offset_ helper) val_props in
  Ok {| data_ptr_ := (buf, (data_ptr_ helper).2); offset_ := offset |}.

(** A [std::tuple] of accumulator collections, as nested pairs ending in
    [unit]; the members are what [for_each_tuple_entry] does with each of
    the functors of [CompoundAccumCollection], first entry first.  In
    [consolidate_with_other] the functor finds the entry of [other] with
    [std::get<T>], by its type: the entry at the same position, since
    [std::get<T>] asks for a tuple whose types are distinct. *)
Class AccumCollectionTuple (Tup : Type) := {
  tuple_size : nat;
  tuple_add_entry : Tup -> Z -> double -> result Tup;
  tuple_add_entry_w : Tup -> Z -> double -> double -> result Tup;
  tuple_consolidate_with_other : Tup -> Tup -> result Tup;
  tuple_copy_vals :
    forall T : dtype, Tup -> CopyValsHelper_ T -> result (CopyValsHelper_ T);
  tuple_requires_weight : Tup -> bool -> bool
}.

#[global] Instance AccumCollectionTuple_nil : AccumCollectionTuple unit := {
  tuple_size := 0;
  tuple_add_entry := fun tup _ _ => Ok tup;
  tuple_add_entry_w := fun tup _ _ _ => Ok tup;
  tuple_consolidate_with_other := fun tup _ => Ok tup;
  tuple_copy_vals := fun _ _ helper => Ok helper;
  tuple_requires_weight := fun _ out => out
}.

#[global] Instance AccumCollectionTuple_cons (C Tup : Type)
    `{AccumCollection C} `{AccumCollectionTuple Tup}
    : AccumCollectionTuple (C * Tup) := {
  tuple_size := S (tuple_size (Tup := Tup));
  tuple_add_entry := fun tup spatial_bin_index val =>
    e ← add_entry tup.1 spatial_bin_index val;
    rest ← tuple_add_entry tup.2 spatial_bin_index val;
    Ok (e, rest);
  tuple_add_entry_w := fun tup spatial_bin_index val weight =>
    e ← add_entry_w tup.1 spatial_bin_index val weight;
    rest ← tuple_add_entry_w tup.2 spatial_bin_index val weight;
    Ok (e, rest);
  tuple_consolidate_with_other := fun tup other =>
    e ← consolidate_with_other tup.1 other.1;
    rest ← tuple_consolidate_with_other tup.2 other.2;
    Ok (e, rest);
  tuple_copy_vals := fun T tup helper =>
    helper' ← CopyValsHelper_call helper tup.1;
    tuple_copy_vals T tup.2 helper';
  tuple_requires_weight := fun tup out =>
    tuple_requires_weight tup.2 (out || collec_requires_weight tup.1)
}.

Module CompoundAccumCollection.

Record t (Tup : Type) := {
  accum_collec_tuple_ : Tup
}.
Arguments accum_collec_tuple_ {Tup} _.

Section WithTuple.
Context {Tup : Type} `{AccumCollectionTuple Tup}.

Definition n_accum : nat := tuple_size (Tup := Tup).

Definition add_entry (c : t Tup) (spatial_bin_index : Z) (val : double)
    : result (t Tup) :=
  tup ← tuple_add_entry (accum_collec_tuple_ c) spatial_bin_index val;
  Ok {| accum_collec_tuple_ := tup |}.

Definition add_entry_w (c : t Tup) (spatial_bin_index : Z) (val weight : double)
    : result (t Tup) :=
  tup ← tuple_add_entry_w (accum_collec_tuple_ c) spatial_bin_index val weight;
  Ok {| accum_collec_tuple_ := tup |}.

Definition consolidate_with_other (c other : t Tup) : result (t Tup) :=
  tup ← tuple_consolidate_with_other (accum_collec_tuple_ c)
          (accum_collec_tuple_ other);
  Ok {| accum_collec_tuple_ := tup |}.

Definition copy_vals (T : dtype) (c : t Tup) (out_vals : list (val_t T))
    (offset : Z) : result (list (val_t T)) :=
  helper ← tuple_copy_vals T (accum_collec_tuple_ c)
             {| data_ptr_ := (out_vals, offset); offset_ := 0 |};
  Ok (data_ptr_ helper).1.

(** Dummy method that needs to be defined to match interface *)
Definition flt_val_props (c : t Tup) : result (list (string * Z)) :=
  Error "Not Implemented".

(** Dummy method that needs to be defined to match interface *)
Definition i64_val_props (c : t Tup) : result (list (string * Z)) :=
  Error "Not Implemented".

Definition requires_weight (c : t Tup) : bool :=
  tuple_requires_weight (accum_collec_tuple_ c) false.

(** Dummy method that needs to be defined to match interface *)
Definition import_vals (T : dtype) (c : t Tup) (in_vals : list (val_t T))
    (offset : Z) : result (t Tup) :=
  Error "Not Implemented".

End WithTuple.

End CompoundAccumCollection.

(** ** [vsf.cpp] *)

(** Modelled from the spec: [struct PointProps] of [vsf.hpp].  [positions]
    and [values] are pointers to [double], written as addresses of the
    memory the caller owns, [0] for [nullptr]; the three lanes of a point
    [i] are at [i], [i + spatial_dim_stride] and
    [i + 2 * spatial_dim_stride]. *)
Record PointProps := {
  positions : Z;
  values : Z;
  n_points : Z;
  n_spatial_dims : Z;
  spatial_dim_stride : Z
}.

(** Modelled from the spec: [struct ParallelSpec] of [vsf.hpp]. *)
Record ParallelSpec := {
  nproc : Z;
  force_sequential : bool
}.

(** Modelled from the spec: [struct StatListItem] of [vsf.hpp], a requested
    statistic: its name and, for a histogram, the specification of its data
    bins. *)
Record StatListItem := {
  statistic : string;
  arg : option BinSpecification
}.

Inductive PairOperation := vec_diff | correlate.

Definition calc_dist_sqr (x0 x1 y0 y1 z0 z1 : double) : double :=
  let dx := d_sub x0 x1 in
  let dy := d_sub y0 y1 in
  let dz := d_sub z0 z1 in
  d_add (d_add (d_mul dx dx) (d_mul dy dy)) (d_mul dz dz).

Record pair_rslt := { dist_sqr : double; abs_vdiff : double }.

(** What the templates of [vsf.cpp] ask of their parameter
    [AccumCollection]: [add_entry] in [process_data],
    [consolidate_with_other] in [calc_vsf_props_parallel_], and the copies to
    the output buffers ([copy_flt_vals] and [copy_i64_vals] in [vsf.cpp],
    [copy_vals<double>] and [copy_vals<std::int64_t>] in the library). *)
Class KernelAccumCollection (C : Type) := {
  kernel_add_entry : C -> Z -> double -> result C;
  kernel_consolidate_with_other : C -> C -> result C;
  kernel_copy_vals :
    forall T : dtype, C -> list (val_t T) -> Z -> result (list (val_t T))
}.

#[global] Instance AccumCollection_Kernel (C : Type) `{AccumCollection C}
    : KernelAccumCollection C := {
  kernel_add_entry := add_entry;
  kernel_consolidate_with_other := consolidate_with_other;
  kernel_copy_vals := copy_vals
}.

#[global] Instance CompoundAccumCollection_Kernel (Tup : Type)
    `{AccumCollectionTuple Tup}
    : KernelAccumCollection (CompoundAccumCollection.t Tup) := {
  kernel_add_entry := CompoundAccumCollection.add_entry;
  kernel_consolidate_with_other :=
    CompoundAccumCollection.consolidate_with_other;
  kernel_copy_vals := CompoundAccumCollection.copy_vals
}.

Section Kernel.
Context {C : Type} `{KernelAccumCollection C}.

(** The memory of the caller: the [double] at each address. *)
Variable mem : Z -> double.

Definition legacy_calc_pair_rslt (x_a y_a z_a vx_a vy_a vz_a : double)
    (pos_b vel_b i_b spatial_dim_stride_b : Z) : pair_rslt :=
  let x_b := mem (pos_b + i_b) in
  let y_b := mem (pos_b + wrap64 (i_b + spatial_dim_stride_b)) in
  let z_b := mem (pos_b + wrap64 (i_b + wrap64 (2 * spatial_dim_stride_b))) in
  let vx_b := mem (vel_b + i_b) in
  let vy_b := mem (vel_b + wrap64 (i_b + spatial_dim_stride_b)) in
  let vz_b := mem (vel_b + wrap64 (i_b + wrap64 (2 * spatial_dim_stride_b))) in
  let dist_sqr := calc_dist_sqr x_a x_b y_a y_b z_a z_b in
  let abs_vdiff := d_sqrt (calc_dist_sqr vx_a vx_b vy_a vy_b vz_a vz_b) in
  {| dist_sqr := dist_sqr; abs_vdiff := abs_vdiff |}.

(** The [pair_rslt] computed in the body of the inner loop of
    [process_data] for the points [i_a] and [i_b]. *)
Definition pair_rslt_of (choice : PairOperation) (points_a points_b : PointProps)
    (i_a i_b : Z) : pair_rslt :=
  let spatial_dim_stride_a := spatial_dim_stride points_a in
  let pos_a := positions points_a in
  let spatial_dim_stride_b := spatial_dim_stride points_b in
  let pos_b := positions points_b in
  match choice with
  | correlate =>
      let values_a := values points_a in
      let values_b := values points_b in
      let x_a := mem (pos_a + i_a) in
      let y_a := mem (pos_a + wrap64 (i_a + spatial_dim_stride_a)) in
      let z_a :=
        mem (pos_a + wrap64 (i_a + wrap64 (2 * spatial_dim_stride_a))) in
      let scalar_a := mem (values_a + i_a) in
      let x_b := mem (pos_b + i_b) in
      let y_b := mem (pos_b + wrap64 (i_b + spatial_dim_stride_b)) in
      let z_b :=
        mem (pos_b + wrap64 (i_b + wrap64 (2 * spatial_dim_stride_b))) in
      let scalar_b := mem (values_b + i_b) in
      {| dist_sqr := calc_dist_sqr x_a x_b y_a y_b z_a z_b;
         abs_vdiff := d_mul scalar_a scalar_b |}
  | vec_diff =>
      let vel_a := values points_a in
      let vel_b := values points_b in
      let x_a := mem (pos_a + i_a) in
      let y_a := mem (pos_a + wrap64 (i_a + spatial_dim_stride_a)) in
      let z_a :=
        mem (pos_a + wrap64 (i_a + wrap64 (2 * spatial_dim_stride_a))) in
      let vx_a := mem (vel_a + i_a) in
      let vy_a := mem (vel_a + wrap64 (i_a + spatial_dim_stride_a)) in
      let vz_a :=
        mem (vel_a + wrap64 (i_a + wrap64 (2 * spatial_dim_stride_a))) in
      legacy_calc_pair_rslt x_a y_a z_a vx_a vy_a vz_a pos_b vel_b i_b
        spatial_dim_stride_b
  end.

(** The body of the inner loop of [process_data]. *)
Definition process_pair (choice : PairOperation) (points_a points_b : PointProps)
    (dist_sqr_bin_edges : list double) (nbins : Z) (accumulators : C)
    (pair : Z * Z) : result C :=
  let tmp := pair_rslt_of choice points_a points_b pair.1 pair.2 in
  let bin_ind :=
    identify_bin_index d_ltb (dist_sqr tmp) dist_sqr_bin_edges nbins in
  if bin_ind <? nbins then kernel_add_entry accumulators bin_ind (abs_vdiff tmp)
  else Ok accumulators.

Definition process_data (duplicated_points : bool) (choice : PairOperation)
    (points_a points_b : PointProps) (dist_sqr_bin_edges : list double)
    (nbins : Z) (accumulators : C) : result C :=
  foldM (process_pair choice points_a points_b dist_sqr_bin_edges nbins)
    (process_data_pairs duplicated_points (n_points points_a)
       (n_points points_b))
    accumulators.

Definition calc_vsf_props_helper_ (choice : PairOperation)
    (points_a points_b : PointProps) (dist_sqr_bin_edges : list double)
    (nbins : Z) (accumulators : C) (duplicated_points : bool) : result C :=
  if duplicated_points then
    process_data true choice points_a points_b dist_sqr_bin_edges nbins
      accumulators
  else
    process_data false choice points_a points_b dist_sqr_bin_edges nbins
      accumulators.

(** The body of the loop of [process_TaskIt_] for one task. *)
Definition process_StatTask (choice : PairOperation)
    (points_a points_b : PointProps) (dist_sqr_bin_edges : list double)
    (nbins : Z) (accumulators : C) (duplicated_points : bool)
    (stat_task : StatTask) : result C :=
  let cur_points_a :=
    {| positions := positions points_a + start_A stat_task;
       values := values points_a + start_A stat_task;
       n_points := wrap64 (stop_A stat_task - start_A stat_task);
       n_spatial_dims := n_spatial_dims points_a;
       spatial_dim_stride := spatial_dim_stride points_a |} in
  let cur_points_b :=
    {| positions := positions points_b + start_B stat_task;
       values := values points_b + start_B stat_task;
       n_points := wrap64 (stop_B stat_task - start_B stat_task);
       n_spatial_dims := n_spatial_dims points_b;
       spatial_dim_stride := spatial_dim_stride points_b |} in
  if duplicated_points then
    if (start_B stat_task =? stop_B stat_task) && (stop_B stat_task =? 0) then
      (* not a typo, use cur_points_a twice *)
      process_data true choice cur_points_a cur_points_a dist_sqr_bin_edges
        nbins accumulators
    else
      process_data false choice cur_points_a cur_points_b dist_sqr_bin_edges
        nbins accumulators
  else
    process_data false choice cur_points_a cur_points_b dist_sqr_bin_edges
      nbins accumulators.

Fixpoint process_TaskIt_ (fuel : nat) (choice : PairOperation)
    (points_a points_b : PointProps) (dist_sqr_bin_edges : list double)
    (nbins : Z) (accumulators : C) (duplicated_points : bool)
    (task_iter : TaskIt) : result C :=
  if has_next task_iter then
    match fuel with
    | O => Error "process_TaskIt_: loop did not finish"
    | S fuel' =>
        '(stat_task, task_iter') ← next task_iter;
        accumulators' ← process_StatTask choice points_a points_b
                          dist_sqr_bin_edges nbins accumulators
                          duplicated_points stat_task;
        process_TaskIt_ fuel' choice points_a points_b dist_sqr_bin_edges
          nbins accumulators' duplicated_points task_iter'
    end
  else Ok accumulators.

(** The value of the environment variable [OMP_NUM_THREADS] after [atoi],
    [None] when the variable is not set. *)
Variable OMP_NUM_THREADS : option Z.

Definition get_nominal_nproc_ (parallel_spec : ParallelSpec) : result Z :=
  if nproc parallel_spec =? 0 then
    match OMP_NUM_THREADS with
    | None => Ok 1
    | Some tmp =>
        if tmp <=? 0 then Error "OMP_NUM_THREADS has an invalid value"
        else Ok tmp
    end
  else Ok (nproc parallel_spec).

(** Whether the library is compiled with OpenMP ([#ifdef _OPENMP]). *)
Variable OPENMP : bool.

(** The loop over [proc_id] of the parallel region: every worker runs its
    tasks into its own copy of the accumulators, so the copies after the
    region do not depend on the schedule. *)
Definition run_workers (choice : PairOperation) (points_a points_b : PointProps)
    (dist_sqr_bin_edges : list double) (nbins : Z) (duplicated_points : bool)
    (factory : TaskItFactory) (partition_dest : list C) : result (list C) :=
  foldM (fun (done : list C) (proc_id : nat) =>
           match partition_dest !! proc_id with
           | None => Error "proc_id out of range"
           | Some local_accums =>
               task_iter ← build_TaskIt factory (Z.of_nat proc_id);
               local_accums' ←
                 process_TaskIt_
                   (Z.to_nat (index_stop_1D_ task_iter
                              - next_index_1D_ task_iter))
                   choice points_a points_b dist_sqr_bin_edges nbins
                   local_accums duplicated_points task_iter;
               Ok (done ++ [local_accums'])
           end)
    (seq 0 (length partition_dest)) [].

Definition calc_vsf_props_parallel_ (choice : PairOperation)
    (points_a points_b : PointProps) (dist_sqr_bin_edges : list double)
    (nbins : Z) (parallel_spec : ParallelSpec) (accumulators : C)
    (duplicated_points : bool) : result C :=
  if negb OPENMP then
    Error ("calc_vsf_props_parallel_ should not be called unless the library "
           +:+ "is compiled with support for OPENMP")
  else
    nominal_nproc ← get_nominal_nproc_ parallel_spec;
    factory ← TaskItFactory_new nominal_nproc (n_points points_a)
                (if duplicated_points then 0 else n_points points_b) false;
    (* this may be less than the value from parallel_spec.nproc *)
    nproc ← effective_nproc factory;
    let partition_dest := replicate (Z.to_nat nproc) accumulators in
    partition_dest ← run_workers choice points_a points_b dist_sqr_bin_edges
                       nbins duplicated_points factory partition_dest;
    (* lastly, let's consolidate the values *)
    match partition_dest with
    | [] => Error "partition_dest is empty"
    | first :: others => foldM kernel_consolidate_with_other others first
    end.

End Kernel.

(** A collection that records only that an entry was added to it. *)
Record VisitMark := { entry_added : bool }.

#[global] Instance VisitMark_Kernel : KernelAccumCollection VisitMark := {
  kernel_add_entry := fun _ _ _ => Ok {| entry_added := true |};
  kernel_consolidate_with_other := fun mark other =>
    Ok {| entry_added := entry_added mark || entry_added other |};
  kernel_copy_vals := fun _ _ out_vals _ => Ok out_vals
}.

Section CalcVsfProps.

(** [AccumColVariant] and [build_accum_collection] are declared in
    [accum_col_variant.hpp]: the variant of the accumulator collections a
    list of statistics can ask for, and its construction from the list.
    The operations are those [std::visit] reaches in the alternative the
    variant holds. *)
Context {AccumColVariant : Type} `{KernelAccumCollection AccumColVariant}.
Variable build_accum_collection :
  list StatListItem -> Z -> Z -> result AccumColVariant.

Variable mem : Z -> double.
Variable OMP_NUM_THREADS : option Z.
Variable OPENMP : bool.

(** Whether a run of the kernel visits a pair of points.  The body of the
    inner loop of [process_data] starts with the reads of the two points of
    the pair, so that the kernel reads a point of [points_b] exactly when it
    visits a pair.  The kernel itself is asked: it is run on a [VisitMark],
    on points that all lie at the origin and with the one bin from [-1] to
    [1], so that every pair it visits is an entry.  The partition of the
    pairs among the processes depends on the numbers of points and of
    processes only, so that this run visits the pairs, and ends in the
    fatal errors of the partitioner, as the run on the data of the caller
    does. *)
Definition kernel_visits_a_pair (use_serial : bool)
    (operation_choice : PairOperation) (points_a points_b : PointProps)
    (parallel_spec : ParallelSpec) (duplicated_points : bool) : result bool :=
  let origin := fun _ : Z => d_of_Z 0 in
  let around_zero := [d_of_Z (-1); d_of_Z 1] in
  mark ←
    (if use_serial then
       calc_vsf_props_helper_ origin operation_choice points_a points_b
         around_zero 1 {| entry_added := false |} duplicated_points
     else
       calc_vsf_props_parallel_ origin OMP_NUM_THREADS OPENMP
         operation_choice points_a points_b around_zero 1 parallel_spec
         {| entry_added := false |} duplicated_points);
  Ok (entry_added mark).

(** The result of a call that returns: the returned flag and the contents
    of the two output buffers after the call.  The function checks the
    pointers of [points_a] only.  When one of the two pointers of
    [points_b] is null and the other one is not, the points of [points_b]
    are read through the null pointer at the first pair the kernel visits:
    undefined in C++ (in practice the process is killed), a fatal error of
    the model. *)
Definition calc_vsf_props (points_a points_b : PointProps)
    (pairwise_op : string) (stat_list : list StatListItem) (stat_list_len : Z)
    (bin_edges : list double) (nbins : Z) (parallel_spec : ParallelSpec)
    (out_flt_vals : list double) (out_i64_vals : list Z)
    : result (bool * (list double * list Z)) :=
  let duplicated_points :=
    (positions points_b =? 0) && (values points_b =? 0) in
  let my_points_b := if duplicated_points then points_a else points_b in
  if nbins =? 0 then Ok (false, (out_flt_vals, out_i64_vals))
  else if negb (n_spatial_dims points_a =? 3) then
    Ok (false, (out_flt_vals, out_i64_vals))
  else if negb (n_spatial_dims my_points_b =? 3) then
    Ok (false, (out_flt_vals, out_i64_vals))
  else if (positions points_a =? 0) || (values points_a =? 0) then
    Ok (false, (out_flt_vals, out_i64_vals))
  else
    let tmp := pairwise_op in
    let operation_choice :=
      if String.eqb tmp "correlate" then Some correlate
      else if String.eqb tmp "sf" then Some vec_diff
      else None in
    match operation_choice with
    | None => Ok (false, (out_flt_vals, out_i64_vals))
    | Some operation_choice =>
        (* recompute the bin edges so that they are stored as squared
           distances *)
        let dist_sqr_bin_edges_vec :=
          (fun e : double => if d_ltb e (d_of_Z 0) then e else d_mul e e)
            <$> take (Z.to_nat (wrap64 (nbins + 1))) bin_edges in
        accumulators ← build_accum_collection stat_list stat_list_len nbins;
        let use_serial :=
          if OPENMP then nproc parallel_spec =? 1 else true in
        reads_null_pointer ←
          (if negb duplicated_points
              && ((positions points_b =? 0) || (values points_b =? 0))
           then
             kernel_visits_a_pair use_serial operation_choice points_a
               my_points_b parallel_spec duplicated_points
           else Ok false);
        if (reads_null_pointer : bool) then
          Error "read through a null pointer of points_b"
        else
          accumulators ←
            (if use_serial then
               calc_vsf_props_helper_ mem operation_choice points_a
                 my_points_b dist_sqr_bin_edges_vec nbins accumulators
                 duplicated_points
             else
               calc_vsf_props_parallel_ mem OMP_NUM_THREADS OPENMP
                 operation_choice points_a my_points_b dist_sqr_bin_edges_vec
                 nbins parallel_spec accumulators duplicated_points);
          (* now copy the results from the accumulators to the output
             array *)
          out_flt ← kernel_copy_vals Double accumulators out_flt_vals 0;
          out_i64 ← kernel_copy_vals Int64 accumulators out_i64_vals 0;
          Ok (true, (out_flt, out_i64))
    end.

End CalcVsfProps.

(** * Definitions used to state the properties *)

(** The boundary between chunk [k - 1] and chunk [k]: the first
    [array_len mod num_chunks] chunks have one element more. *)
Definition chunk_bound (array_len num_chunks k : Z) : Z :=
  k * (array_len / num_chunks) + Z.min k (array_len mod num_chunks).

(** The 2D indices of the tasks of a strategy, in the order in which
    [increment2D_index] walks them from [(0, 0)]: row-major, with
    [index[1] >= index[0]] for an auto strategy. *)
Definition strat_indices (strat : partition_variant) : list (Z * Z) :=
  match strat with
  | AutoStrat s =>
      i ← seqZ 0 (AutoSFPartitionStrat.num_segments s);
      j ← seqZ i (AutoSFPartitionStrat.num_segments s - i);
      [(i, j)]
  | CrossStrat s =>
      i ← seqZ 0 (CrossSFPartitionStrat.num_segments_A s);
      j ← seqZ 0 (CrossSFPartitionStrat.num_segments_B s);
      [(i, j)]
  end.

(** An unordered pair of points, written smaller index first. *)
Definition unordered_pair (p : Z * Z) : Z * Z := (Z.min p.1 p.2, Z.max p.1 p.2).

(** The pairs visited for the task at [index_2D]: unordered pairs of points
    of the one array for an auto strategy, pairs (point of A, point of B) for
    a cross strategy. *)
Definition strat_pairs (strat : partition_variant) (index_2D : Z * Z)
    : list (Z * Z) :=
  match strat_build_StatTask strat index_2D with
  | Ok stat_task =>
      match strat with
      | AutoStrat _ => unordered_pair <$> StatTask_pairs true stat_task
      | CrossStrat _ => StatTask_pairs false stat_task
      end
  | Error _ => []
  end.

Definition valid_strat (strat : partition_variant) : Prop :=
  match strat with
  | AutoStrat s =>
      2 <= AutoSFPartitionStrat.n_points s < 2 ^ 64
      /\ 1 <= AutoSFPartitionStrat.num_segments s
      /\ 2 * AutoSFPartitionStrat.num_segments s + 1
         <= AutoSFPartitionStrat.n_points s
  | CrossStrat s =>
      1 <= CrossSFPartitionStrat.num_segments_A s
        <= CrossSFPartitionStrat.n_points_A s
      /\ CrossSFPartitionStrat.n_points_A s < 2 ^ 64
      /\ 1 <= CrossSFPartitionStrat.num_segments_B s
           <= CrossSFPartitionStrat.n_points_B s
      /\ CrossSFPartitionStrat.n_points_B s < 2 ^ 64
  end.

Definition full_pair_set (strat : partition_variant) (p : Z * Z) : Prop :=
  match strat with
  | AutoStrat s => 0 <= p.1 < p.2 /\ p.2 < AutoSFPartitionStrat.n_points s
  | CrossStrat s =>
      0 <= p.1 < CrossSFPartitionStrat.n_points_A s
      /\ 0 <= p.2 < CrossSFPartitionStrat.n_points_B s
  end.

(** [S] segments give at least three chunks per process. *)
Definition enough_chunks (nproc S : Z) : Prop := 3 * nproc <= S * (S + 1) / 2.

(** The specification's choice: the smallest [S] of [2, max_segments] with
    enough chunks, clamped to [max_segments]. *)
Definition spec_num_segments (nproc max_segments S : Z) : Prop :=
  (2 <= S <= max_segments /\ enough_chunks nproc S
   /\ forall S', 2 <= S' < S -> ~ enough_chunks nproc S')
  \/ (S = max_segments
      /\ forall S', 2 <= S' <= max_segments -> ~ enough_chunks nproc S').

Definition spec_max_segments (n_points : Z) : Z :=
  if n_points <=? 4 then 1 else (n_points - 1) / 2.

(** The claim of the specification about [create], at one input. *)
Definition create_chooses_spec_segments (nproc n_points : Z)
    (skip_small_prob_check : bool) : Prop :=
  exists S,
    AutoSFPartitionStrat.create nproc n_points skip_small_prob_check
    = Ok {| AutoSFPartitionStrat.n_points := n_points;
            AutoSFPartitionStrat.num_segments := S |}
    /\ spec_num_segments nproc (spec_max_segments n_points) S
    /\ 2 * S + 1 <= n_points.

(** The shape of a histogram collection agrees with the length of
    [bin_counts_], as the constructors leave it and every method keeps it. *)
Definition histogram_wf {T : dtype} (h : GenericHistogramAccumCollection.t T)
    : Prop :=
  length (GenericHistogramAccumCollection.bin_counts_ h)
  = Z.to_nat (wrap64 (GenericHistogramAccumCollection.n_data_bins_ h
                      * GenericHistogramAccumCollection.n_spatial_bins_ h)).

(** The conditions under which the specification has [calc_vsf_props]
    reject its arguments: no bin, a point set that is not three-dimensional
    ([points_b] is [points_a] when both pointers of [points_b] are null), a
    null [positions] or [values] of [points_a], or an operation that is
    neither ["sf"] nor ["correlate"]. *)
Definition calc_vsf_props_rejects (points_a points_b : PointProps)
    (pairwise_op : string) (nbins : Z) : bool :=
  let resolved_points_b :=
    if (positions points_b =? 0) && (values points_b =? 0) then points_a
    else points_b in
  (nbins =? 0)
  || negb (n_spatial_dims points_a =? 3)
  || negb (n_spatial_dims resolved_points_b =? 3)
  || (positions points_a =? 0) || (values points_a =? 0)
  || negb (String.eqb pairwise_op "sf" || String.eqb pairwise_op "correlate").

(** [x == 0] for a [double] *)
Definition is_zero (x : double) : bool := d_eqb x (d_of_Z 0).

(** The mean held by a central-moment accumulator. *)
Definition accum_mean {Order : nat} {CountT : dtype}
    (a : CentralMomentAccum.t Order CountT) : double :=
  CentralMomentAccum.moment_accums a !!! CentralMomentAccum.LUT_mean.

(** The invariant [count == 0 => mean == 0] of the weighted central-moment
    accumulator. *)
Definition count_zero_mean_zero {Order : nat}
    (a : CentralMomentAccum.t Order Double) : Prop :=
  is_zero (CentralMomentAccum.count a) = true -> is_zero (accum_mean a) = true.

(** The operations that change a weighted central-moment accumulator. *)
Inductive accum_op (Order : nat) :=
| OpAddEntry (val weight : double)
| OpConsolidate (other : CentralMomentAccum.t Order Double).
Arguments OpAddEntry {Order} val weight.
Arguments OpConsolidate {Order} other.

Definition apply_accum_op {Order : nat} (a : CentralMomentAccum.t Order Double)
    (op : accum_op Order) : result (CentralMomentAccum.t Order Double) :=
  match op with
  | OpAddEntry val weight => CentralMomentAccum.add_entry_w a val weight
  | OpConsolidate other => CentralMomentAccum.consolidate_with_other a other
  end.

(** The sum of two weights cancels to zero only when both are zero. *)
Definition no_cancellation (c w : double) : Prop :=
  is_zero (d_add c w) = true -> is_zero c = true /\ is_zero w = true.

(** [x >= 0] for a [double]: a zero, the positive infinity or a positive
    finite number.  (The exponent of a finite binary64 number is not below
    [emin = -1074].) *)
Definition nonneg_double (x : double) : bool :=
  match x with
  | S754_zero _ => true
  | S754_infinity s => negb s
  | S754_finite s m e => negb s && (emin d_prec d_emax <=? e)
  | S754_nan => false
  end.

(** An operation with a weight that is not negative: an entry with a finite
    value and such a weight, or a merge with an accumulator that satisfies
    the invariant and has such a weight sum. *)
Definition nonneg_accum_op {Order : nat} (op : accum_op Order) : Prop :=
  match op with
  | OpAddEntry val weight =>
      is_finite val = true /\ nonneg_double weight = true
  | OpConsolidate other =>
      count_zero_mean_zero other
      /\ nonneg_double (CentralMomentAccum.count other) = true
  end.

(** The sum of [bin_counts_] over all data bins and all spatial bins. *)
Definition histogram_total (h : GenericHistogramAccumCollection.t Int64) : Z :=
  foldr Z.add 0 (GenericHistogramAccumCollection.bin_counts_ h).

(** The bin search of the kernel finds a spatial bin for the pair. *)
Definition pair_in_spatial_bins (mem : Z -> double) (choice : PairOperation)
    (points_a points_b : PointProps) (dist_sqr_bin_edges : list double)
    (nbins : Z) (pair : Z * Z) : bool :=
  identify_bin_index d_ltb
    (dist_sqr (pair_rslt_of mem choice points_a points_b pair.1 pair.2))
    dist_sqr_bin_edges nbins <? nbins.

(** The bin search of the histogram finds a data bin for the value of the
    pair. *)
Definition pair_in_data_bins (mem : Z -> double) (choice : PairOperation)
    (points_a points_b : PointProps)
    (h : GenericHistogramAccumCollection.t Int64) (pair : Z * Z) : bool :=
  identify_bin_index d_ltb
    (abs_vdiff (pair_rslt_of mem choice points_a points_b pair.1 pair.2))
    (GenericHistogramAccumCollection.data_bin_edges_ h)
    (GenericHistogramAccumCollection.n_data_bins_ h)
  <? GenericHistogramAccumCollection.n_data_bins_ h.

(** A memory made of arrays of integers: [(a, l)] puts the values of [l],
    converted to [double], at the addresses [a], [a + 1], ...; the other
    addresses hold zero. *)
Definition mem_of_arrays (arrays : list (Z * list Z)) (address : Z) : double :=
  match
    list_find
      (fun r : Z * list Z =>
         bool_decide (r.1 <= address < r.1 + Z.of_nat (length r.2))) arrays
  with
  | Some (_, r) => d_of_Z (r.2 !!! Z.to_nat (address - r.1))
  | None => d_of_Z 0
  end.

(** Two points, [(0, 0, 0)] with the velocity [(0, 0, 0)] and [(1, 0, 0)]
    with the velocity [(3, 4, 0)]: positions at address 100, velocities at
    address 200, stride 2. *)
Definition two_points_mem : Z -> double :=
  mem_of_arrays [(100, [0; 1; 0; 0; 0; 0]); (200, [0; 3; 0; 4; 0; 0])].

Definition two_points : PointProps :=
  {| positions := 100; values := 200; n_points := 2;
     n_spatial_dims := 3; spatial_dim_stride := 2 |}.

Definition null_points : PointProps :=
  {| positions := 0; values := 0; n_points := 0;
     n_spatial_dims := 0; spatial_dim_stride := 0 |}.

(** Three points on the x axis, at [x = 0, 1, 3], with the velocities
    [(1, 0, 0)], [(2, 0, 0)] and [(5, 0, 0)]: positions at address 100,
    velocities at address 200, stride 3. *)
Definition three_points_mem : Z -> double :=
  mem_of_arrays [(100, [0; 1; 3; 0; 0; 0; 0; 0; 0]);
                 (200, [1; 2; 5; 0; 0; 0; 0; 0; 0])].

Definition three_points : PointProps :=
  {| positions := 100; values := 200; n_points := 3;
     n_spatial_dims := 3; spatial_dim_stride := 3 |}.

(** The collection a list of statistics that asks for the mean is given. *)
Definition build_mean_collection (stat_list : list StatListItem)
    (stat_list_len nbins : Z)
    : result (ScalarAccumCollection.t (CentralMomentAccum.t 1 Int64)) :=
  ScalarAccumCollection.new nbins (@None BinSpecification).

(** The state of a histogram during a run of the kernel: the shape of [h0],
    no negative count. *)
Definition histogram_like (h0 h : GenericHistogramAccumCollection.t Int64)
    : Prop :=
  GenericHistogramAccumCollection.n_spatial_bins_ h = GenericHistogramAccumCollection.n_spatial_bins_ h0
  /\ GenericHistogramAccumCollection.n_data_bins_ h = GenericHistogramAccumCollection.n_data_bins_ h0
  /\ GenericHistogramAccumCollection.data_bin_edges_ h = GenericHistogramAccumCollection.data_bin_edges_ h0
  /\ length (GenericHistogramAccumCollection.bin_counts_ h) = length (GenericHistogramAccumCollection.bin_counts_ h0)
  /\ Forall (fun c => 0 <= c) (GenericHistogramAccumCollection.bin_counts_ h).

(** The array [moment_accums] of an accumulator has [Order] elements. *)
Definition central_wf {Order : nat} {CountT : dtype}
    (a : CentralMomentAccum.t Order CountT) : Prop :=
  length (CentralMomentAccum.moment_accums a) = Order.

Definition origin_wf {Order : nat} {CountT : dtype}
    (a : OriginMomentAccum.t Order CountT) : Prop :=
  length (OriginMomentAccum.moment_accums a) = Order.

(** The field [j] of type [T] of a central-moment accumulator: the count is
    the one integer field of the unweighted accumulator and the first
    floating-point field of the weighted one; the moments follow. *)
Definition central_field {Order : nat} {CountT : dtype} (T : dtype)
    (a : CentralMomentAccum.t Order CountT) (j : Z) : val_t T :=
  match T, CountT return CentralMomentAccum.t Order CountT -> val_t T with
  | Int64, Int64 => fun a => CentralMomentAccum.count a
  | Int64, Double => fun _ => 0
  | Double, Int64 => fun a => CentralMomentAccum.moment_accums a !!! Z.to_nat j
  | Double, Double => fun a =>
      if j =? 0 then CentralMomentAccum.count a
      else CentralMomentAccum.moment_accums a !!! Z.to_nat (j - 1)
  end a.

Definition origin_field {Order : nat} {CountT : dtype} (T : dtype)
    (a : OriginMomentAccum.t Order CountT) (j : Z) : val_t T :=
  match T, CountT return OriginMomentAccum.t Order CountT -> val_t T with
  | Int64, Int64 => fun a => OriginMomentAccum.count a
  | Int64, Double => fun _ => 0
  | Double, Int64 => fun a => OriginMomentAccum.moment_accums a !!! Z.to_nat j
  | Double, Double => fun a =>
      if j =? 0 then OriginMomentAccum.count a
      else OriginMomentAccum.moment_accums a !!! Z.to_nat (j - 1)
  end a.

(** A collection of two unweighted variance accumulators, after the entries
    1 and 3 in the bin 0 and the entry 5 in the bin 1. *)
Definition variance_collection_example
    : result (ScalarAccumCollection.t (CentralMomentAccum.t 2 Int64)) :=
  c ← ScalarAccumCollection.new 2 (@None BinSpecification);
  c ← add_entry c 0 (d_of_Z 1);
  c ← add_entry c 0 (d_of_Z 3);
  add_entry c 1 (d_of_Z 5).

(** A compound accumulator of a mean collection and a histogram, one
    spatial bin each. *)
Definition compound_example
    : CompoundAccumCollection.t
        (ScalarAccumCollection.t (CentralMomentAccum.t 1 Int64)
         * (GenericHistogramAccumCollection.t Int64 * unit)) :=
  {| CompoundAccumCollection.accum_collec_tuple_ :=
       ({| ScalarAccumCollection.accum_list_ :=
             [CentralMomentAccum.Build_t 1 Int64 2 [d_of_Z 7]] |},
        (GenericHistogramAccumCollection.Build_t Int64 1 2 [4; 5]
           [d_of_Z 0; d_of_Z 1; d_of_Z 2],
         tt)) |}.

#[global] Instance CentralMomentAccum_inhabited (Order : nat) (CountT : dtype)
    : Inhabited (CentralMomentAccum.t Order CountT) :=
  populate (CentralMomentAccum.new Order CountT).

#[global] Instance OriginMomentAccum_inhabited (Order : nat) (CountT : dtype)
    : Inhabited (OriginMomentAccum.t Order CountT) :=
  populate (OriginMomentAccum.new Order CountT).

(** The [count] 2D indices that [increment2D_index] reaches one after the
    other from [index_2D], [index_2D] first. *)
Fixpoint indices_from (strat : partition_variant) (count : nat)
    (index_2D : Z * Z) : list (Z * Z) :=
  match count with
  | O => []
  | S count' =>
      index_2D
      :: indices_from strat count' (strat_increment2D_index strat index_2D)
  end.

(** The tasks at a list of 2D indices, up to the first fatal error. *)
Fixpoint tasks_at (strat : partition_variant) (indices : list (Z * Z))
    : result (list StatTask) :=
  match indices with
  | [] => Ok []
  | index_2D :: indices' =>
      stat_task ← strat_build_StatTask strat index_2D;
      rest ← tasks_at strat indices';
      Ok (stat_task :: rest)
  end.

(** ** Definitions used to state the further properties *)

(** The 2D indices of the tasks of the worker [proc_id]: the chunk
    [proc_id] of the 2D indices of the strategy, cut into
    [min(nproc_, n_partitions)] chunks. *)
Definition worker_indices (f : TaskItFactory) (proc_id : Z) : list (Z * Z) :=
  let n := factory_n_partitions f in
  let e := Z.min (nproc_ f) n in
  take (Z.to_nat (chunk_bound n e (proc_id + 1) - chunk_bound n e proc_id))
    (drop (Z.to_nat (chunk_bound n e proc_id))
       (strat_indices (factory_partition_strat_ f))).

(** The bound on the number of segments under which the number of
    partitions of a strategy is computed without overflow. *)
Definition few_segments (strat : partition_variant) : Prop :=
  match strat with
  | AutoStrat s => AutoSFPartitionStrat.num_segments s < 2 ^ 31
  | CrossStrat s =>
      CrossSFPartitionStrat.num_segments_A s
      * CrossSFPartitionStrat.num_segments_B s < 2 ^ 64
  end.

(** The numbers of segments [(num_segments_A, num_segments_B)] of a cross
    strategy for [nproc] processes: one segment per axis for a small problem
    (at most 1000 pairs and fewer than 1000 points per axis, unless the
    check is skipped) or when both axes have fewer points than there are
    processes; otherwise one axis is cut into [nproc] segments: an axis
    whose number of points is a multiple of [nproc], A first, and failing
    that the axis with more points, A when both have as many. *)
Definition cross_segments (nproc n_points_A n_points_B : Z)
    (skip_small_problem_check : bool) : Z * Z :=
  let small :=
    (n_points_A * n_points_B <=? 1000)
    && (n_points_A <? 1000) && (n_points_B <? 1000) in
  if (small && negb skip_small_problem_check)
     || ((n_points_A <? nproc) && (n_points_B <? nproc))
  then (1, 1)
  else if (nproc <=? n_points_A) && (n_points_A mod nproc =? 0) then (nproc, 1)
  else if (nproc <=? n_points_B) && (n_points_B mod nproc =? 0) then (1, nproc)
  else if n_points_A <? n_points_B then (1, nproc)
  else (nproc, 1).

(** The spatial bin the bin search gives a pair of points ([nbins] when
    the squared distance of the pair is in no bin). *)
Definition pair_bin (mem : Z -> double) (choice : PairOperation)
    (points_a points_b : PointProps) (dist_sqr_bin_edges : list double)
    (nbins : Z) (pair : Z * Z) : Z :=
  identify_bin_index d_ltb
    (dist_sqr (pair_rslt_of mem choice points_a points_b pair.1 pair.2))
    dist_sqr_bin_edges nbins.

(** The number of the pairs of a list that the bin search puts in the
    spatial bin [k]. *)
Definition pairs_in_bin (mem : Z -> double) (choice : PairOperation)
    (points_a points_b : PointProps) (dist_sqr_bin_edges : list double)
    (nbins : Z) (k : Z) (pairs : list (Z * Z)) : Z :=
  Z.of_nat
    (length
       (List.filter
          (fun pair =>
             pair_bin mem choice points_a points_b dist_sqr_bin_edges nbins
               pair =? k)
          pairs)).

(** A run of the kernel on a collection of scalar accumulators with the
    counts [cnt] returns, keeps the number of spatial bins, leaves the
    accumulators of the bins from [nbins] on as they are, and adds to the
    count of every bin [k < nbins] the number of the enumerated pairs that
    the bin search puts in the bin [k] (in the arithmetic of
    [std::int64_t]). *)
Definition counts_pairs_per_bin {A : Type} `{Accum A} (cnt : A -> Z)
    (mem : Z -> double) (duplicated_points : bool) (choice : PairOperation)
    (points_a points_b : PointProps) (dist_sqr_bin_edges : list double)
    (nbins : Z) (c : ScalarAccumCollection.t A) : Prop :=
  exists c',
    process_data mem duplicated_points choice points_a points_b
      dist_sqr_bin_edges nbins c = Ok c'
    /\ ScalarAccumCollection.n_spatial_bins c'
       = ScalarAccumCollection.n_spatial_bins c
    /\ forall (k : nat) (a : A),
         ScalarAccumCollection.accum_list_ c !! k = Some a ->
         exists a',
           ScalarAccumCollection.accum_list_ c' !! k = Some a'
           /\ (nbins <= Z.of_nat k -> a' = a)
           /\ (Z.of_nat k < nbins -> - 2 ^ 63 <= cnt a < 2 ^ 63 ->
               cnt a'
               = wrap_i64
                   (cnt a
                    + pairs_in_bin mem choice points_a points_b
                        dist_sqr_bin_edges nbins (Z.of_nat k)
                        (process_data_pairs duplicated_points
                           (n_points points_a) (n_points points_b)))).

(** The pairs of points of the tasks at a list of 2D indices, in the order
    in which [process_TaskIt_] visits them. *)
Definition indices_pairs (strat : partition_variant) (duplicated_points : bool)
    (indices : list (Z * Z)) : list (Z * Z) :=
  index_2D ← indices;
  match strat_build_StatTask strat index_2D with
  | Ok stat_task => StatTask_pairs duplicated_points stat_task
  | Error _ => []
  end.

(** The pairs of points the worker [proc_id] visits. *)
Definition worker_pairs (f : TaskItFactory) (duplicated_points : bool)
    (proc_id : Z) : list (Z * Z) :=
  indices_pairs (factory_partition_strat_ f) duplicated_points
    (worker_indices f proc_id).

(** The results of [f] on the elements of a list, up to the first fatal
    error. *)
Fixpoint collect_results {X Y : Type} (f : X -> result Y) (l : list X)
    : result (list Y) :=
  match l with
  | [] => Ok []
  | x :: l' => y ← f x; rest ← collect_results f l'; Ok (y :: rest)
  end.

(** The place in [bin_counts_] that the kernel increments for a pair: the
    data bin of the value of the pair in the spatial bin of its squared
    distance; [None] when the pair has no spatial bin or no data bin. *)
Definition histogram_slot (h : GenericHistogramAccumCollection.t Int64)
    (mem : Z -> double) (choice : PairOperation)
    (points_a points_b : PointProps) (dist_sqr_bin_edges : list double)
    (nbins : Z) (pair : Z * Z) : option nat :=
  let tmp := pair_rslt_of mem choice points_a points_b pair.1 pair.2 in
  let bin_ind :=
    identify_bin_index d_ltb (dist_sqr tmp) dist_sqr_bin_edges nbins in
  if bin_ind <? nbins then
    let data_bin_index :=
      identify_bin_index d_ltb (abs_vdiff tmp)
        (GenericHistogramAccumCollection.data_bin_edges_ h)
        (GenericHistogramAccumCollection.n_data_bins_ h) in
    if data_bin_index <? GenericHistogramAccumCollection.n_data_bins_ h then
      Some (Z.to_nat
              (data_bin_index
               + bin_ind * GenericHistogramAccumCollection.n_data_bins_ h))
    else None
  else None.

(** [bin_counts_[i]++] at the place of a pair. *)
Definition bump_counts (counts : list Z) (slot : option nat) : list Z :=
  match slot with
  | Some i => <[i := wrap_i64 (counts !!! i + 1)]> counts
  | None => counts
  end.

(** A histogram with other counts. *)
Definition with_counts (h : GenericHistogramAccumCollection.t Int64)
    (counts : list Z) : GenericHistogramAccumCollection.t Int64 :=
  GenericHistogramAccumCollection.Build_t Int64
    (GenericHistogramAccumCollection.n_spatial_bins_ h)
    (GenericHistogramAccumCollection.n_data_bins_ h)
    counts
    (GenericHistogramAccumCollection.data_bin_edges_ h).

(** The number of times the place [k] occurs in a list of places. *)
Definition occurrences (k : nat) (slots : list (option nat)) : Z :=
  Z.of_nat (length (filter (fun slot => slot = Some k) slots)).

(** The list [counts] holds, at every place, the number of the occurrences
    of the place in [slots] (as a [std::int64_t]). *)
Definition counts_slots (len : nat) (counts : list Z)
    (slots : list (option nat)) : Prop :=
  length counts = len
  /\ forall k, (k < len)%nat ->
       counts !! k = Some (wrap_i64 (occurrences k slots)).

(** Unfolds the [add_entry] that the kernel calls on a collection, for
    the two collection templates. *)
Ltac unfold_kernel_add_entry :=
  cbn [kernel_add_entry AccumCollection_Kernel add_entry
       ScalarAccumCollection_AccumCollection
       GenericHistogramAccumCollection_AccumCollection].

(** Unfolds the [add_entry] that the kernel calls on a compound
    collection, down to the [add_entry] of its first member. *)
Ltac unfold_compound_add_entry :=
  cbn [kernel_add_entry CompoundAccumCollection_Kernel
       AccumCollection_Kernel];
  unfold CompoundAccumCollection.add_entry;
  cbn [CompoundAccumCollection.accum_collec_tuple_ tuple_add_entry
       AccumCollectionTuple_cons AccumCollectionTuple_nil fst snd].

(** Whether the bin search puts some pair of a list in a spatial bin. *)
Definition some_pair_in_bin (mem : Z -> double) (choice : PairOperation)
    (points_a points_b : PointProps) (dist_sqr_bin_edges : list double)
    (nbins : Z) (pairs : list (Z * Z)) : bool :=
  existsb
    (fun pair =>
       pair_bin mem choice points_a points_b dist_sqr_bin_edges nbins pair
       <? nbins)
    pairs.

(** Unfolds the [consolidate_with_other] that the parallel kernel calls on
    a collection of scalar accumulators. *)
Ltac unfold_kernel_consolidate :=
  cbn [kernel_consolidate_with_other AccumCollection_Kernel
       consolidate_with_other ScalarAccumCollection_AccumCollection].

(** A run of the parallel kernel on a collection of scalar accumulators
    with the counts [cnt] returns, keeps the number of spatial bins, and
    leaves in every bin [k < nbins] the number of the pairs of the two
    point sets that the bin search puts in the bin [k], and no count in
    the bins from [nbins] on. *)
Definition parallel_counts_pairs_per_bin {A : Type} `{Accum A} (cnt : A -> Z)
    (mem : Z -> double) (OMP_NUM_THREADS : option Z)
    (duplicated_points : bool) (choice : PairOperation)
    (points_a points_b : PointProps) (dist_sqr_bin_edges : list double)
    (nbins : Z) (parallel_spec : ParallelSpec)
    (c : ScalarAccumCollection.t A) : Prop :=
  exists c',
    calc_vsf_props_parallel_ mem OMP_NUM_THREADS true choice points_a
      points_b dist_sqr_bin_edges nbins parallel_spec c duplicated_points
    = Ok c'
    /\ ScalarAccumCollection.n_spatial_bins c'
       = ScalarAccumCollection.n_spatial_bins c
    /\ forall (k : nat) (a' : A),
         ScalarAccumCollection.accum_list_ c' !! k = Some a' ->
         cnt a'
         = if Z.of_nat k <? nbins then
             pairs_in_bin mem choice points_a points_b dist_sqr_bin_edges
               nbins (Z.of_nat k)
               (process_data_pairs duplicated_points (n_points points_a)
                  (n_points points_b))
           else 0.

(** The one-argument [add_entry] of the interface of the collections. *)
Abbreviation collec_add_entry := (@add_entry _ _) (only parsing).

(** ** Definitions used to state what [calc_vsf_props] returns *)

(** The operation a value of [pairwise_op] asks for. *)
Definition operation_of (pairwise_op : string) : option PairOperation :=
  if String.eqb pairwise_op "correlate" then Some correlate
  else if String.eqb pairwise_op "sf" then Some vec_diff
  else None.

(** The bin edges as the kernel is given them: as squared distances, the
    negative ones as they are. *)
Definition squared_bin_edges (bin_edges : list double) (nbins : Z)
    : list double :=
  (fun e : double => if d_ltb e (d_of_Z 0) then e else d_mul e e)
    <$> take (Z.to_nat (wrap64 (nbins + 1))) bin_edges.

(** One of the two pointers of a point set is null and the other one is
    not. *)
Definition one_null_pointer (points : PointProps) : bool :=
  negb ((positions points =? 0) && (values points =? 0))
  && ((positions points =? 0) || (values points =? 0)).

(** What the serial kernel leaves in the collection [accumulators0]: the
    entries of the pairs of the two loops of [process_data], in their
    order, that have a spatial bin. *)
Definition serial_accumulated {C : Type} `{KernelAccumCollection C}
    (mem : Z -> double) (choice : PairOperation)
    (points_a points_b : PointProps) (dist_sqr_bin_edges : list double)
    (nbins : Z) (duplicated_points : bool) (accumulators0 accumulators : C)
    : Prop :=
  foldM (process_pair mem choice points_a points_b dist_sqr_bin_edges nbins)
    (process_data_pairs duplicated_points (n_points points_a)
       (n_points points_b))
    accumulators0
  = Ok accumulators.

(** What the parallel kernel leaves in the collection [accumulators0]:
    every worker of the factory adds to its own copy of [accumulators0] the
    entries of the pairs of its tasks, the copies are consolidated, the
    first one with the second and so on; and the pairs of the workers are
    the pairs of the two loops of [process_data], each one once. *)
Definition parallel_accumulated {C : Type} `{KernelAccumCollection C}
    (mem : Z -> double) (choice : PairOperation)
    (points_a points_b : PointProps) (dist_sqr_bin_edges : list double)
    (nbins : Z) (parallel_spec : ParallelSpec) (duplicated_points : bool)
    (accumulators0 accumulators : C) : Prop :=
  exists f,
    TaskItFactory_new (nproc parallel_spec) (n_points points_a)
      (if duplicated_points then 0 else n_points points_b) false = Ok f
    /\ let workers :=
         seqZ 0 (Z.min (nproc parallel_spec) (factory_n_partitions f)) in
       (partition_dest ←
          collect_results
            (fun proc_id =>
               foldM (process_pair mem choice points_a points_b
                        dist_sqr_bin_edges nbins)
                 (worker_pairs f duplicated_points proc_id) accumulators0)
            workers;
        match partition_dest with
        | [] => Error "partition_dest is empty"
        | first :: others => foldM kernel_consolidate_with_other others first
        end)
       = Ok accumulators
       /\ let visited :=
            concat (worker_pairs f duplicated_points <$> workers) in
          (if duplicated_points then unordered_pair <$> visited else visited)
          ≡ₚ process_data_pairs duplicated_points (n_points points_a)
               (n_points points_b).

(** The collection a list of statistics that asks for the mean and for a
    histogram with the data bins [data_bins] is given: a compound of the
    two collections. *)
Definition build_mean_histogram_collection (data_bins : BinSpecification)
    (stat_list : list StatListItem) (stat_list_len nbins : Z)
    : result
        (CompoundAccumCollection.t
           (ScalarAccumCollection.t (CentralMomentAccum.t 1 Int64)
            * (GenericHistogramAccumCollection.t Int64 * unit))) :=
  mean ← ScalarAccumCollection.new nbins (@None BinSpecification);
  histogram ← GenericHistogramAccumCollection.new Int64 nbins (Some data_bins);
  Ok {| CompoundAccumCollection.accum_collec_tuple_ :=
          (mean, (histogram, tt)) |}.

(** The two points of [two_points] without the pointer to the
    positions. *)
Definition two_points_no_positions : PointProps :=
  {| positions := 0; values := 200; n_points := 2;
     n_spatial_dims := 3; spatial_dim_stride := 2 |}.

(** One point at the origin, at rest (positions at address 100, velocities
    at address 200, stride 1), and the 1000 points at [x = 0, 1, ..., 999]
    with the velocity [(1, 0, 0)] (positions at address 1000, velocities at
    address 5000, stride 1000). *)
Definition line_points_mem (address : Z) : double :=
  if (1000 <=? address) && (address <? 2000) then d_of_Z (address - 1000)
  else if (5000 <=? address) && (address <? 6000) then d_of_Z 1
  else d_of_Z 0.

Definition origin_point : PointProps :=
  {| positions := 100; values := 200; n_points := 1;
     n_spatial_dims := 3; spatial_dim_stride := 1 |}.

Definition line_points : PointProps :=
  {| positions := 1000; values := 5000; n_points := 1000;
     n_spatial_dims := 3; spatial_dim_stride := 1000 |}.

(** The data bins of the histogram of the examples: from 0 to 2 and from 2
    to 10. *)
Definition example_data_bins : BinSpecification :=
  {| bin_edges := [d_of_Z 0; d_of_Z 2; d_of_Z 10]; n_bins := 2 |}.

(** ** [src/accumulators.hpp]: the accumulators before the library *)

Module MeanAccum.

(** [count] is the number of entries included (so far), [mean] the
    current mean. *)
Record t := {
  count : Z;
  mean : double
}.

Definition new : t := {| count := 0; mean := d_of_Z 0 |}.

Definition get_flt_val (a : t) (i : Z) : result double :=
  if i =? 0 then Ok (mean a)
  else Error "MeanAccum only has 1 float_val".

Definition add_entry (a : t) (val : double) : t :=
  let count := wrap_i64 (count a + 1) in
  let val_minus_last_mean := d_sub val (mean a) in
  {| count := count;
     mean := d_add (mean a) (d_div val_minus_last_mean (d_of_Z count)) |}.

End MeanAccum.

Module VarAccum.

(** [count] is the number of entries included (so far), [mean] the
    current mean, [cur_M2] the sum of differences from the current mean. *)
Record t := {
  count : Z;
  mean : double;
  cur_M2 : double
}.

Definition new : t := {| count := 0; mean := d_of_Z 0; cur_M2 := d_of_Z 0 |}.

Definition get_flt_val (a : t) (i : Z) : result double :=
  if i =? 0 then Ok (mean a)
  else if i =? 1 then
    Ok (if 1 <? count a then
          d_div (cur_M2 a) (d_of_Z (wrap_i64 (count a - 1)))
        else d_of_Z 0)
  else Error "VarAccum only has 2 float_vals".

Definition add_entry (a : t) (val : double) : t :=
  let count := wrap_i64 (count a + 1) in
  let val_minus_last_mean := d_sub val (mean a) in
  let mean := d_add (mean a) (d_div val_minus_last_mean (d_of_Z count)) in
  let val_minus_cur_mean := d_sub val mean in
  {| count := count;
     mean := mean;
     cur_M2 :=
       d_add (cur_M2 a) (d_mul val_minus_last_mean val_minus_cur_mean) |}.

End VarAccum.

(** The state of a [CentralMomentAccum<1, int64_t>] that holds what a
    [MeanAccum] holds, and the state of a [CentralMomentAccum<2, int64_t>]
    that holds what a [VarAccum] holds. *)
Definition of_MeanAccum (a : MeanAccum.t) : CentralMomentAccum.t 1 Int64 :=
  CentralMomentAccum.Build_t 1 Int64 (MeanAccum.count a) [MeanAccum.mean a].

Definition of_VarAccum (a : VarAccum.t) : CentralMomentAccum.t 2 Int64 :=
  CentralMomentAccum.Build_t 2 Int64 (VarAccum.count a)
    [VarAccum.mean a; VarAccum.cur_M2 a].

(** * Properties *)

(** ** Machine integers, folds *)

Lemma wrap64_small z : 0 <= z < 2 ^ 64 -> wrap64 z = z.
Proof. intros H. unfold wrap64. apply Z.mod_small. exact H. Qed.

Lemma safe_cast_u64_small z : 0 <= z < 2 ^ 64 -> safe_cast_u64 z = Ok z.
Proof.
  intros H. unfold safe_cast_u64, safe_cast.
  destruct (Z.ltb_spec z 0); [lia|].
  destruct (Z.ltb_spec (2 ^ 64 - 1) z); [lia|]. reflexivity.
Qed.

Lemma wrap_i64_small z : - 2 ^ 63 <= z < 2 ^ 63 -> wrap_i64 z = z.
Proof. intros Hz. unfold wrap_i64. rewrite Z.mod_small; lia. Qed.

Lemma foldM_app {A B : Type} (f : B -> A -> result B) (l1 l2 : list A) (b : B) :
  foldM f (l1 ++ l2) b = foldM f l1 b ≫= foldM f l2.
Proof.
  revert b. induction l1 as [|a l1 IH]; intros b; simpl; [reflexivity|].
  destruct (f b a) as [b'|msg]; simpl; [apply IH|reflexivity].
Qed.

Lemma foldM_fmap {A A' B : Type} (g : A' -> A) (f : B -> A -> result B)
    (l : list A') (b : B) :
  foldM f (g <$> l) b = foldM (fun b a' => f b (g a')) l b.
Proof.
  revert b. induction l as [|a l IH]; intros b; simpl; [reflexivity|].
  destruct (f b (g a)) as [b'|msg]; simpl; [apply IH|reflexivity].
Qed.

Lemma foldM_ext_in {A B : Type} (f g : B -> A -> result B) (l : list A) (b : B) :
  (forall b' a, a ∈ l -> f b' a = g b' a) -> foldM f l b = foldM g l b.
Proof.
  revert b. induction l as [|a l IH]; intros b Hfg; simpl; [reflexivity|].
  rewrite Hfg by apply list_elem_of_here.
  destruct (g b a) as [b'|msg]; simpl; [|reflexivity].
  apply IH. intros b'' a' Hin. apply Hfg. apply list_elem_of_further. exact Hin.
Qed.

Lemma bind_singleton_fmap {A B : Type} (g : A -> B) (l : list A) :
  l ≫= (fun a => [g a]) = g <$> l.
Proof. induction l as [|a l IH]; csimpl; [reflexivity|]. rewrite IH. reflexivity. Qed.

(** ** Chunk slices tile the array *)

Section ChunkBound.
Variables array_len num_chunks : Z.
Hypothesis Hchunks : 0 < num_chunks <= array_len.

Let q := array_len / num_chunks.
Let r := array_len mod num_chunks.

Lemma chunk_div_mod : array_len = num_chunks * q + r /\ 0 <= r < num_chunks /\ 1 <= q.
Proof.
  subst q r. split; [apply Z.div_mod; lia|]. split; [apply Z.mod_pos_bound; lia|].
  apply Z.div_le_lower_bound; lia.
Qed.

Lemma chunk_bound_0 : chunk_bound array_len num_chunks 0 = 0.
Proof.
  unfold chunk_bound. pose proof chunk_div_mod as (_ & ? & _). fold r. lia.
Qed.

Lemma chunk_bound_last : chunk_bound array_len num_chunks num_chunks = array_len.
Proof.
  unfold chunk_bound. pose proof chunk_div_mod as (? & ? & _). fold q r. lia.
Qed.

Lemma chunk_bound_succ k :
  chunk_bound array_len num_chunks (k + 1)
  = chunk_bound array_len num_chunks k + q + (if k <? r then 1 else 0).
Proof.
  unfold chunk_bound. fold q r. destruct (Z.ltb_spec k r); lia.
Qed.

Lemma chunk_bound_step k :
  chunk_bound array_len num_chunks k < chunk_bound array_len num_chunks (k + 1).
Proof.
  rewrite chunk_bound_succ. pose proof chunk_div_mod as (_ & _ & ?).
  destruct (k <? r); lia.
Qed.

Lemma chunk_bound_mono k k' :
  k <= k' ->
  chunk_bound array_len num_chunks k <= chunk_bound array_len num_chunks k'.
Proof.
  intros H. unfold chunk_bound. fold q r.
  pose proof chunk_div_mod as (_ & _ & ?). nia.
Qed.

Lemma chunk_bound_lt k k' :
  k < k' ->
  chunk_bound array_len num_chunks k < chunk_bound array_len num_chunks k'.
Proof.
  intros H. pose proof (chunk_bound_step k).
  pose proof (chunk_bound_mono (k + 1) k'). lia.
Qed.

Lemma chunk_bound_range k :
  0 <= k <= num_chunks ->
  0 <= chunk_bound array_len num_chunks k <= array_len.
Proof.
  intros H. pose proof (chunk_bound_mono 0 k). pose proof (chunk_bound_mono k num_chunks).
  rewrite chunk_bound_0 in *. rewrite chunk_bound_last in *. lia.
Qed.

(** Every element of the array lies in exactly one chunk. *)
Lemma chunk_bound_cover x :
  0 <= x < array_len ->
  exists k, 0 <= k < num_chunks
    /\ chunk_bound array_len num_chunks k <= x
       < chunk_bound array_len num_chunks (k + 1).
Proof.
  intros Hx.
  assert (forall n : nat, Z.of_nat n <= num_chunks ->
            x < chunk_bound array_len num_chunks (Z.of_nat n) ->
            exists k, 0 <= k < num_chunks
              /\ chunk_bound array_len num_chunks k <= x
                 < chunk_bound array_len num_chunks (k + 1)) as Hind.
  { induction n as [|n IH]; intros Hn Hlt.
    - change (Z.of_nat 0) with 0 in Hlt. rewrite chunk_bound_0 in Hlt. lia.
    - destruct (Z_lt_le_dec x (chunk_bound array_len num_chunks (Z.of_nat n)))
        as [Hlt'|Hge].
      + apply IH; lia.
      + exists (Z.of_nat n). replace (Z.of_nat n + 1) with (Z.of_nat (S n)) by lia.
        lia. }
  apply (Hind (Z.to_nat num_chunks)); [lia|].
  rewrite Z2Nat.id by lia. rewrite chunk_bound_last. lia.
Qed.

Lemma chunk_bound_unique x k k' :
  chunk_bound array_len num_chunks k <= x
    < chunk_bound array_len num_chunks (k + 1) ->
  chunk_bound array_len num_chunks k' <= x
    < chunk_bound array_len num_chunks (k' + 1) ->
  k = k'.
Proof.
  intros H H'.
  destruct (Z.lt_trichotomy k k') as [Hlt|[Heq|Hgt]]; [|exact Heq|].
  - pose proof (chunk_bound_mono (k + 1) k'). lia.
  - pose proof (chunk_bound_mono (k' + 1) k). lia.
Qed.

Hypothesis Hlen : array_len < 2 ^ 64.

Lemma calc_chunk_size_eq k :
  0 <= k ->
  calc_chunk_size array_len num_chunks k = q + (if k <? r then 1 else 0).
Proof.
  intros Hk. unfold calc_chunk_size. fold q r. apply wrap64_small.
  pose proof chunk_div_mod as (? & ? & ?).
  destruct (Z.ltb_spec k r); nia.
Qed.

Lemma chunk_slice_loop_eq chunk_index fuel cur start_index stop_index :
  0 <= chunk_index < num_chunks ->
  0 <= cur <= chunk_index + 1 ->
  fuel = Z.to_nat (chunk_index + 1 - cur) ->
  stop_index = chunk_bound array_len num_chunks cur ->
  (cur = chunk_index + 1 ->
   start_index = chunk_bound array_len num_chunks chunk_index) ->
  chunk_slice_loop array_len num_chunks chunk_index fuel cur
    start_index stop_index
  = Some (chunk_bound array_len num_chunks chunk_index,
          chunk_bound array_len num_chunks (chunk_index + 1)).
Proof.
  intros Hci. revert cur start_index stop_index.
  induction fuel as [|fuel IH]; intros cur start_index stop_index Hcur Hfuel Hstop Hstart.
  - assert (cur = chunk_index + 1) as -> by lia.
    simpl. destruct (Z.leb_spec (chunk_index + 1) chunk_index); [lia|].
    rewrite Hstart by reflexivity. rewrite Hstop. reflexivity.
  - simpl. destruct (Z.leb_spec cur chunk_index); [|lia].
    rewrite calc_chunk_size_eq by lia.
    assert (wrap64 (cur + 1) = cur + 1) as -> by (apply wrap64_small; lia).
    assert (wrap64 (stop_index + (q + (if cur <? r then 1 else 0)))
            = chunk_bound array_len num_chunks (cur + 1)) as ->.
    { rewrite chunk_bound_succ, <- Hstop, Z.add_assoc. apply wrap64_small.
      pose proof (chunk_bound_range (cur + 1)) as Hr.
      rewrite chunk_bound_succ, <- Hstop in Hr. lia. }
    apply IH; [lia|lia|reflexivity|].
    intros Heq. assert (cur = chunk_index) as -> by lia. exact Hstop.
Qed.

Lemma calc_chunk_slice_eq chunk_index :
  0 <= chunk_index < num_chunks ->
  calc_chunk_slice chunk_index array_len num_chunks
  = Ok {| start := chunk_bound array_len num_chunks chunk_index;
          stop := chunk_bound array_len num_chunks (chunk_index + 1) |}.
Proof.
  intros Hci. unfold calc_chunk_slice.
  destruct (Z.ltb_spec array_len num_chunks); [lia|].
  destruct (Z.leb_spec num_chunks chunk_index); [lia|]. simpl.
  rewrite (chunk_slice_loop_eq chunk_index _ 0 0 0); try lia.
  - pose proof (chunk_bound_range chunk_index).
    pose proof (chunk_bound_range (chunk_index + 1)).
    rewrite !safe_cast_u64_small by lia. reflexivity.
  - symmetry. apply chunk_bound_0.
Qed.

End ChunkBound.

(** ** The pairs of one kernel run *)

Lemma elem_of_process_data_pairs_dup n a b :
  0 <= n < 2 ^ 64 ->
  (a, b) ∈ process_data_pairs true n n <-> 0 <= a /\ a < b < n.
Proof.
  intros Hn. unfold process_data_pairs. rewrite list_elem_of_bind. split.
  - intros (i_a & Hin & Hia). apply elem_of_seqZ in Hia.
    rewrite wrap64_small in Hin by lia.
    apply list_elem_of_bind in Hin as (i_b & Hin & Hib).
    apply elem_of_seqZ in Hib. apply list_elem_of_singleton in Hin.
    inversion Hin; subst. lia.
  - intros (Ha & Hab). exists a. split; [|apply elem_of_seqZ; lia].
    rewrite wrap64_small by lia. apply list_elem_of_bind. exists b.
    split; [apply list_elem_of_singleton; reflexivity|apply elem_of_seqZ; lia].
Qed.

Lemma elem_of_process_data_pairs_cross n_a n_b a b :
  (a, b) ∈ process_data_pairs false n_a n_b <-> 0 <= a < n_a /\ 0 <= b < n_b.
Proof.
  unfold process_data_pairs. rewrite list_elem_of_bind. split.
  - intros (i_a & Hin & Hia). apply elem_of_seqZ in Hia.
    apply list_elem_of_bind in Hin as (i_b & Hin & Hib).
    apply elem_of_seqZ in Hib. apply list_elem_of_singleton in Hin.
    inversion Hin; subst. lia.
  - intros (Ha & Hb). exists a. split; [|apply elem_of_seqZ; lia].
    apply list_elem_of_bind. exists b.
    split; [apply list_elem_of_singleton; reflexivity|apply elem_of_seqZ; lia].
Qed.

Lemma NoDup_process_data_pairs dup n_a n_b :
  NoDup (process_data_pairs dup n_a n_b).
Proof.
  unfold process_data_pairs. apply NoDup_bind; [| |apply NoDup_seqZ].
  - intros a1 a2 p _ _ H1 H2.
    apply list_elem_of_bind in H1 as (b1 & H1 & _).
    apply list_elem_of_bind in H2 as (b2 & H2 & _).
    apply list_elem_of_singleton in H1, H2. congruence.
  - intros a _. apply NoDup_bind; [| |apply NoDup_seqZ].
    + intros b1 b2 p _ _ H1 H2.
      apply list_elem_of_singleton in H1, H2. congruence.
    + intros b _. apply NoDup_singleton.
Qed.

Lemma NoDup_StatTask_pairs dup stat_task : NoDup (StatTask_pairs dup stat_task).
Proof.
  unfold StatTask_pairs.
  repeat match goal with |- context [if ?c then _ else _] => destruct c end;
    (apply NoDup_fmap_2_strong; [|apply NoDup_process_data_pairs]);
    intros [a b] [a' b'] _ _ Heq; simpl in Heq; inversion Heq; f_equal; lia.
Qed.

(** The pairs of a task, in the terms of its four bounds: an auto task
    visits [a] in [start_A, stop_A) and [b] in [a + 1, stop_A); a cross task
    visits the product of [start_A, stop_A) and [start_B, stop_B). *)
Lemma elem_of_StatTask_pairs_auto stat_task a b :
  start_B stat_task = 0 -> stop_B stat_task = 0 ->
  0 <= start_A stat_task <= stop_A stat_task ->
  stop_A stat_task < 2 ^ 64 ->
  (a, b) ∈ StatTask_pairs true stat_task
  <-> start_A stat_task <= a < stop_A stat_task
      /\ a + 1 <= b < stop_A stat_task.
Proof.
  intros HsB HeB HA HA64. unfold StatTask_pairs.
  rewrite HsB, HeB. simpl. rewrite wrap64_small by lia.
  rewrite list_elem_of_fmap. split.
  - intros ([i_a i_b] & Heq & Hin). simpl in Heq. inversion Heq; subst.
    apply elem_of_process_data_pairs_dup in Hin; lia.
  - intros (Ha & Hb). exists (a - start_A stat_task, b - start_A stat_task).
    split; [simpl; f_equal; lia|].
    apply elem_of_process_data_pairs_dup; lia.
Qed.

Lemma elem_of_StatTask_pairs_cross duplicated_points stat_task a b :
  duplicated_points = false \/ start_B stat_task < stop_B stat_task ->
  0 <= start_A stat_task <= stop_A stat_task ->
  stop_A stat_task < 2 ^ 64 ->
  0 <= start_B stat_task <= stop_B stat_task ->
  stop_B stat_task < 2 ^ 64 ->
  (a, b) ∈ StatTask_pairs duplicated_points stat_task
  <-> start_A stat_task <= a < stop_A stat_task
      /\ start_B stat_task <= b < stop_B stat_task.
Proof.
  intros Hcross HA HA64 HB HB64. unfold StatTask_pairs.
  assert ((if duplicated_points
           then
             if (start_B stat_task =? stop_B stat_task)
                && (stop_B stat_task =? 0)
             then
               (fun p : Z * Z =>
                  (start_A stat_task + p.1, start_A stat_task + p.2))
                 <$> process_data_pairs true
                       (wrap64 (stop_A stat_task - start_A stat_task))
                       (wrap64 (stop_A stat_task - start_A stat_task))
             else
               (fun p : Z * Z =>
                  (start_A stat_task + p.1, start_B stat_task + p.2))
                 <$> process_data_pairs false
                       (wrap64 (stop_A stat_task - start_A stat_task))
                       (wrap64 (stop_B stat_task - start_B stat_task))
           else
             (fun p : Z * Z =>
                (start_A stat_task + p.1, start_B stat_task + p.2))
               <$> process_data_pairs false
                     (wrap64 (stop_A stat_task - start_A stat_task))
                     (wrap64 (stop_B stat_task - start_B stat_task)))
          = (fun p : Z * Z =>
               (start_A stat_task + p.1, start_B stat_task + p.2))
              <$> process_data_pairs false
                    (stop_A stat_task - start_A stat_task)
                    (stop_B stat_task - start_B stat_task)) as ->.
  { rewrite !wrap64_small by lia. destruct duplicated_points; [|reflexivity].
    destruct Hcross as [?|Hlt]; [discriminate|].
    destruct (Z.eqb_spec (start_B stat_task) (stop_B stat_task)); [lia|].
    reflexivity. }
  rewrite list_elem_of_fmap. split.
  - intros ([i_a i_b] & Heq & Hin). simpl in Heq. inversion Heq; subst.
    apply elem_of_process_data_pairs_cross in Hin. lia.
  - intros (Ha & Hb). exists (a - start_A stat_task, b - start_B stat_task).
    split; [simpl; f_equal; lia|].
    apply elem_of_process_data_pairs_cross; lia.
Qed.

(** ** The 2D indices and the pair set of a strategy *)

Lemma elem_of_auto_indices s i j :
  (i, j) ∈ strat_indices (AutoStrat s)
  <-> 0 <= i <= j /\ j < AutoSFPartitionStrat.num_segments s.
Proof.
  simpl. rewrite list_elem_of_bind. split.
  - intros (i' & Hin & Hi). apply elem_of_seqZ in Hi.
    apply list_elem_of_bind in Hin as (j' & Hin & Hj).
    apply elem_of_seqZ in Hj. apply list_elem_of_singleton in Hin.
    inversion Hin; subst. lia.
  - intros H. exists i. split; [|apply elem_of_seqZ; lia].
    apply list_elem_of_bind. exists j.
    split; [apply list_elem_of_singleton; reflexivity|apply elem_of_seqZ; lia].
Qed.

Lemma elem_of_cross_indices s i j :
  (i, j) ∈ strat_indices (CrossStrat s)
  <-> 0 <= i < CrossSFPartitionStrat.num_segments_A s
      /\ 0 <= j < CrossSFPartitionStrat.num_segments_B s.
Proof.
  simpl. rewrite list_elem_of_bind. split.
  - intros (i' & Hin & Hi). apply elem_of_seqZ in Hi.
    apply list_elem_of_bind in Hin as (j' & Hin & Hj).
    apply elem_of_seqZ in Hj. apply list_elem_of_singleton in Hin.
    inversion Hin; subst. lia.
  - intros H. exists i. split; [|apply elem_of_seqZ; lia].
    apply list_elem_of_bind. exists j.
    split; [apply list_elem_of_singleton; reflexivity|apply elem_of_seqZ; lia].
Qed.

(** ** Auto strategy *)

Section AutoPairs.
Variable s : AutoSFPartitionStrat.t.
Hypothesis Hvalid : valid_strat (AutoStrat s).

Let N := AutoSFPartitionStrat.n_points s.
Let S := AutoSFPartitionStrat.num_segments s.
Let bnd := chunk_bound (N - 1) S.

Lemma auto_valid_facts : 2 <= N < 2 ^ 64 /\ 0 < S <= N - 1.
Proof. destruct Hvalid as (? & ? & ?). subst N S. lia. Qed.

Lemma auto_bnd_range k : 0 <= k <= S -> 0 <= bnd k <= N - 1.
Proof.
  pose proof auto_valid_facts. intros Hk. apply chunk_bound_range; lia.
Qed.

Lemma auto_build_diag i :
  0 <= i < S ->
  AutoSFPartitionStrat.build_StatTask s (i, i)
  = Ok {| start_A := bnd i; stop_A := bnd (i + 1) + 1;
          start_B := 0; stop_B := 0 |}.
Proof.
  intros Hi. pose proof auto_valid_facts as (HN & HS).
  unfold AutoSFPartitionStrat.build_StatTask. fold N S. simpl.
  destruct (Z.leb_spec N 1); [lia|]. rewrite Z.eqb_refl.
  rewrite (wrap64_small (N - 1)) by lia.
  rewrite calc_chunk_slice_eq by lia. simpl.
  pose proof (auto_bnd_range (i + 1)). fold bnd.
  rewrite wrap64_small by lia. reflexivity.
Qed.

Lemma auto_build_offdiag i j :
  0 <= i < j -> j < S ->
  AutoSFPartitionStrat.build_StatTask s (i, j)
  = Ok {| start_A := bnd j + 1; stop_A := bnd (j + 1) + 1;
          start_B := bnd i; stop_B := bnd (i + 1) |}.
Proof.
  intros Hi Hj. pose proof auto_valid_facts as (HN & HS).
  unfold AutoSFPartitionStrat.build_StatTask. fold N S. simpl.
  destruct (Z.leb_spec N 1); [lia|].
  destruct (Z.eqb_spec i j); [lia|].
  rewrite (wrap64_small (N - 1)) by lia.
  rewrite !calc_chunk_slice_eq by lia. simpl. fold bnd.
  pose proof (auto_bnd_range j). pose proof (auto_bnd_range (j + 1)).
  rewrite !wrap64_small by lia. reflexivity.
Qed.

Lemma auto_build_ok idx :
  idx ∈ strat_indices (AutoStrat s) ->
  is_Ok (strat_build_StatTask (AutoStrat s) idx).
Proof.
  destruct idx as [i j]. intros Hin%elem_of_auto_indices. fold S in Hin.
  simpl. destruct (Z.eq_dec i j) as [->|Hne].
  - rewrite auto_build_diag by lia. eexists; reflexivity.
  - rewrite auto_build_offdiag by lia. eexists; reflexivity.
Qed.

(** The unordered pair [{x, y}], [x < y], is the entry (row [x], column
    [y - 1]) of the distance matrix; the task at [(i, j)] visits the entries
    with row in segment [i] and column in segment [j]. *)
Lemma elem_of_auto_pairs i j x y :
  0 <= i <= j -> j < S ->
  (x, y) ∈ strat_pairs (AutoStrat s) (i, j)
  <-> x < y /\ bnd i <= x < bnd (i + 1) /\ bnd j <= y - 1 < bnd (j + 1).
Proof.
  intros Hi Hj. pose proof auto_valid_facts as (HN & HS).
  pose proof (auto_bnd_range i). pose proof (auto_bnd_range (i + 1)).
  pose proof (auto_bnd_range j). pose proof (auto_bnd_range (j + 1)).
  assert (bnd i < bnd (i + 1)) by (apply chunk_bound_step; lia).
  assert (bnd j < bnd (j + 1)) by (apply chunk_bound_step; lia).
  unfold strat_pairs. simpl. destruct (Z.eq_dec i j) as [->|Hne].
  - rewrite auto_build_diag by lia. unfold StatTask_pairs. simpl.
    rewrite (wrap64_small (bnd (j + 1) + 1 - bnd j)) by lia.
    rewrite list_elem_of_fmap. split.
    + intros ([a b] & Heq & Hin).
      apply list_elem_of_fmap in Hin as ([a' b'] & Heq' & Hin).
      apply elem_of_process_data_pairs_dup in Hin; [|lia].
      simpl in Heq'. inversion Heq'; subst. unfold unordered_pair in Heq.
      simpl in Heq. inversion Heq; subst. lia.
    + intros (Hxy & Hx & Hy). exists (x, y). split.
      { unfold unordered_pair. simpl. f_equal; lia. }
      apply list_elem_of_fmap. exists (x - bnd j, y - bnd j). split.
      { simpl. f_equal; lia. }
      apply elem_of_process_data_pairs_dup; lia.
  - assert (bnd (i + 1) <= bnd j) by (apply chunk_bound_mono; lia).
    rewrite auto_build_offdiag by lia. unfold StatTask_pairs. simpl.
    destruct (Z.eqb_spec (bnd i) (bnd (i + 1))); [lia|]. simpl.
    rewrite list_elem_of_fmap. split.
    + intros ([a b] & Heq & Hin).
      apply list_elem_of_fmap in Hin as ([a' b'] & Heq' & Hin).
      apply elem_of_process_data_pairs_cross in Hin.
      rewrite !wrap64_small in Hin by lia.
      simpl in Heq'. inversion Heq'; subst. unfold unordered_pair in Heq.
      simpl in Heq. inversion Heq; subst. lia.
    + intros (Hxy & Hx & Hy). exists (y, x). split.
      { unfold unordered_pair. simpl. f_equal; lia. }
      apply list_elem_of_fmap. exists (y - (bnd j + 1), x - bnd i). split.
      { simpl. f_equal; lia. }
      apply elem_of_process_data_pairs_cross. rewrite !wrap64_small by lia. lia.
Qed.

Lemma NoDup_auto_pairs i j :
  0 <= i <= j -> j < S -> NoDup (strat_pairs (AutoStrat s) (i, j)).
Proof.
  intros Hi Hj. pose proof auto_valid_facts as (HN & HS).
  pose proof (auto_bnd_range i). pose proof (auto_bnd_range (i + 1)).
  pose proof (auto_bnd_range j). pose proof (auto_bnd_range (j + 1)).
  assert (bnd i < bnd (i + 1)) by (apply chunk_bound_step; lia).
  assert (bnd j < bnd (j + 1)) by (apply chunk_bound_step; lia).
  unfold strat_pairs. cbn [strat_build_StatTask].
  destruct (Z.eq_dec i j) as [->|Hne].
  - rewrite auto_build_diag by lia.
    apply NoDup_fmap_2_strong; [|apply NoDup_StatTask_pairs].
    unfold StatTask_pairs. simpl.
    rewrite (wrap64_small (bnd (j + 1) + 1 - bnd j)) by lia.
    intros [a b] [a' b'] ([a0 b0] & Heq & Hin)%list_elem_of_fmap
      ([a1 b1] & Heq' & Hin')%list_elem_of_fmap.
    apply elem_of_process_data_pairs_dup in Hin, Hin'; [|lia..].
    simpl in Heq, Heq'. inversion Heq; inversion Heq'; subst.
    unfold unordered_pair. simpl. intros Hu. inversion Hu. f_equal; lia.
  - assert (bnd (i + 1) <= bnd j) by (apply chunk_bound_mono; lia).
    rewrite auto_build_offdiag by lia.
    apply NoDup_fmap_2_strong; [|apply NoDup_StatTask_pairs].
    unfold StatTask_pairs. simpl.
    destruct (Z.eqb_spec (bnd i) (bnd (i + 1))); [lia|]. simpl.
    intros [a b] [a' b']
      ([a0 b0] & Heq & Hin%elem_of_process_data_pairs_cross)%list_elem_of_fmap
      ([a1 b1] & Heq' & Hin'%elem_of_process_data_pairs_cross)%list_elem_of_fmap.
    rewrite !wrap64_small in Hin by lia. rewrite !wrap64_small in Hin' by lia.
    simpl in Heq, Heq'. inversion Heq; inversion Heq'; subst.
    unfold unordered_pair. simpl. intros Hu. inversion Hu. f_equal; lia.
Qed.

Lemma auto_pairs_disjoint idx1 idx2 p :
  idx1 ∈ strat_indices (AutoStrat s) ->
  idx2 ∈ strat_indices (AutoStrat s) ->
  p ∈ strat_pairs (AutoStrat s) idx1 ->
  p ∈ strat_pairs (AutoStrat s) idx2 ->
  idx1 = idx2.
Proof.
  destruct idx1 as [i j], idx2 as [i' j'], p as [x y].
  intros H1%elem_of_auto_indices H2%elem_of_auto_indices. fold S in H1, H2.
  intros Hp1%elem_of_auto_pairs Hp2%elem_of_auto_pairs; try lia.
  pose proof auto_valid_facts as (HN & HS).
  f_equal; eapply (chunk_bound_unique (N - 1) S); try lia;
    [apply Hp1|apply Hp2|apply Hp1|apply Hp2].
Qed.

Lemma auto_pairs_cover p :
  (exists idx, idx ∈ strat_indices (AutoStrat s)
               /\ p ∈ strat_pairs (AutoStrat s) idx)
  <-> full_pair_set (AutoStrat s) p.
Proof.
  destruct p as [x y]. pose proof auto_valid_facts as (HN & HS).
  simpl. fold N. split.
  - intros ([i j] & Hidx%elem_of_auto_indices & Hp). fold S in Hidx.
    apply elem_of_auto_pairs in Hp; [|lia..].
    pose proof (auto_bnd_range i). pose proof (auto_bnd_range (j + 1)). lia.
  - intros (Hx & Hy).
    destruct (chunk_bound_cover (N - 1) S ltac:(lia) x ltac:(lia))
      as (i & Hi & Hxi).
    destruct (chunk_bound_cover (N - 1) S ltac:(lia) (y - 1) ltac:(lia))
      as (j & Hj & Hyj).
    assert (i <= j).
    { destruct (Z_le_gt_dec i j); [assumption|].
      pose proof (chunk_bound_mono (N - 1) S ltac:(lia) (j + 1) i). lia. }
    exists (i, j). split; [apply elem_of_auto_indices; fold S; lia|].
    apply elem_of_auto_pairs; [lia..|]. fold bnd in Hxi, Hyj. lia.
Qed.

End AutoPairs.

(** ** Cross strategy *)

Section CrossPairs.
Variable s : CrossSFPartitionStrat.t.
Hypothesis Hvalid : valid_strat (CrossStrat s).

Let NA := CrossSFPartitionStrat.n_points_A s.
Let SA := CrossSFPartitionStrat.num_segments_A s.
Let NB := CrossSFPartitionStrat.n_points_B s.
Let SB := CrossSFPartitionStrat.num_segments_B s.
Let bndA := chunk_bound NA SA.
Let bndB := chunk_bound NB SB.

Lemma cross_valid_facts : 0 < SA <= NA /\ NA < 2 ^ 64 /\ 0 < SB <= NB /\ NB < 2 ^ 64.
Proof. destruct Hvalid as (? & ? & ? & ?). subst NA SA NB SB. lia. Qed.

Lemma cross_build i j :
  0 <= i < SA -> 0 <= j < SB ->
  CrossSFPartitionStrat.build_StatTask s (i, j)
  = Ok {| start_A := bndA i; stop_A := bndA (i + 1);
          start_B := bndB j; stop_B := bndB (j + 1) |}.
Proof.
  intros Hi Hj. pose proof cross_valid_facts as (? & ? & ? & ?).
  unfold CrossSFPartitionStrat.build_StatTask. fold NA SA NB SB. simpl.
  destruct (Z.leb_spec SA i); [lia|]. destruct (Z.leb_spec SB j); [lia|]. simpl.
  rewrite !calc_chunk_slice_eq by lia. reflexivity.
Qed.

Lemma cross_build_ok idx :
  idx ∈ strat_indices (CrossStrat s) ->
  is_Ok (strat_build_StatTask (CrossStrat s) idx).
Proof.
  destruct idx as [i j]. intros Hin%elem_of_cross_indices. fold SA SB in Hin.
  simpl. rewrite cross_build by lia. eexists; reflexivity.
Qed.

Lemma elem_of_cross_pairs i j x y :
  0 <= i < SA -> 0 <= j < SB ->
  (x, y) ∈ strat_pairs (CrossStrat s) (i, j)
  <-> bndA i <= x < bndA (i + 1) /\ bndB j <= y < bndB (j + 1).
Proof.
  intros Hi Hj. pose proof cross_valid_facts as (? & ? & ? & ?).
  pose proof (chunk_bound_range NA SA ltac:(lia) i ltac:(lia)).
  pose proof (chunk_bound_range NA SA ltac:(lia) (i + 1) ltac:(lia)).
  pose proof (chunk_bound_range NB SB ltac:(lia) j ltac:(lia)).
  pose proof (chunk_bound_range NB SB ltac:(lia) (j + 1) ltac:(lia)).
  pose proof (chunk_bound_step NA SA ltac:(lia) i).
  pose proof (chunk_bound_step NB SB ltac:(lia) j).
  unfold strat_pairs. cbn [strat_build_StatTask]. rewrite cross_build by lia.
  unfold StatTask_pairs, bndA, bndB. simpl. rewrite !wrap64_small by lia.
  rewrite list_elem_of_fmap. split.
  - intros ([a b] & Heq & Hin%elem_of_process_data_pairs_cross).
    simpl in Heq. inversion Heq; subst. lia.
  - intros (Hx & Hy).
    exists (x - chunk_bound NA SA i, y - chunk_bound NB SB j). split.
    { simpl. f_equal; lia. }
    apply elem_of_process_data_pairs_cross. lia.
Qed.

Lemma cross_pairs_disjoint idx1 idx2 p :
  idx1 ∈ strat_indices (CrossStrat s) ->
  idx2 ∈ strat_indices (CrossStrat s) ->
  p ∈ strat_pairs (CrossStrat s) idx1 ->
  p ∈ strat_pairs (CrossStrat s) idx2 ->
  idx1 = idx2.
Proof.
  destruct idx1 as [i j], idx2 as [i' j'], p as [x y].
  intros H1%elem_of_cross_indices H2%elem_of_cross_indices.
  fold SA SB in H1, H2.
  intros Hp1%elem_of_cross_pairs Hp2%elem_of_cross_pairs; try lia.
  pose proof cross_valid_facts as (? & ? & ? & ?).
  f_equal.
  - eapply (chunk_bound_unique NA SA); [lia|apply Hp1|apply Hp2].
  - eapply (chunk_bound_unique NB SB); [lia|apply Hp1|apply Hp2].
Qed.

Lemma cross_pairs_cover p :
  (exists idx, idx ∈ strat_indices (CrossStrat s)
               /\ p ∈ strat_pairs (CrossStrat s) idx)
  <-> full_pair_set (CrossStrat s) p.
Proof.
  destruct p as [x y]. pose proof cross_valid_facts as (? & ? & ? & ?).
  simpl. fold NA NB. split.
  - intros ([i j] & Hidx%elem_of_cross_indices & Hp). fold SA SB in Hidx.
    apply elem_of_cross_pairs in Hp; [|lia..].
    pose proof (chunk_bound_range NA SA ltac:(lia) i ltac:(lia)).
    pose proof (chunk_bound_range NA SA ltac:(lia) (i + 1) ltac:(lia)).
    pose proof (chunk_bound_range NB SB ltac:(lia) j ltac:(lia)).
    pose proof (chunk_bound_range NB SB ltac:(lia) (j + 1) ltac:(lia)).
    unfold bndA, bndB in Hp. lia.
  - intros (Hx & Hy).
    destruct (chunk_bound_cover NA SA ltac:(lia) x ltac:(lia)) as (i & Hi & Hxi).
    destruct (chunk_bound_cover NB SB ltac:(lia) y ltac:(lia)) as (j & Hj & Hyj).
    exists (i, j). split; [apply elem_of_cross_indices; fold SA SB; lia|].
    apply elem_of_cross_pairs; [lia..|]. unfold bndA, bndB. lia.
Qed.

End CrossPairs.

(** C1.  For every valid auto strategy ([2 <= n_points],
    [1 <= num_segments], [2 * num_segments + 1 <= n_points]) and every valid
    cross strategy, [build_StatTask] succeeds at every 2D index, no pair is
    visited twice by one task, the pair sets of the tasks at two different 2D
    indices are disjoint, and their union is the full pair set of the
    strategy: the unordered pairs [i < j] of [0, n_points) for auto, the
    Cartesian product [0, n_points_A) x [0, n_points_B) for cross. *)
Theorem partition_tasks_disjoint_cover (strat : partition_variant) :
  valid_strat strat ->
  (forall idx, idx ∈ strat_indices strat ->
     is_Ok (strat_build_StatTask strat idx))
  /\ (forall idx, idx ∈ strat_indices strat -> NoDup (strat_pairs strat idx))
  /\ (forall idx1 idx2 p,
        idx1 ∈ strat_indices strat -> idx2 ∈ strat_indices strat ->
        p ∈ strat_pairs strat idx1 -> p ∈ strat_pairs strat idx2 ->
        idx1 = idx2)
  /\ (forall p,
        (exists idx, idx ∈ strat_indices strat /\ p ∈ strat_pairs strat idx)
        <-> full_pair_set strat p).
Proof.
  intros Hvalid. destruct strat as [s|s].
  - split; [apply auto_build_ok; exact Hvalid|].
    split; [|split; [apply auto_pairs_disjoint; exact Hvalid
                    |apply auto_pairs_cover; exact Hvalid]].
    intros [i j] Hin%elem_of_auto_indices.
    apply NoDup_auto_pairs; [exact Hvalid|lia..].
  - split; [apply cross_build_ok; exact Hvalid|].
    split; [|split; [apply cross_pairs_disjoint; exact Hvalid
                    |apply cross_pairs_cover; exact Hvalid]].
    intros idx _. unfold strat_pairs.
    destruct (strat_build_StatTask (CrossStrat s) idx);
      [apply NoDup_StatTask_pairs|apply NoDup_nil_2].
Qed.

Lemma partition_tasks_disjoint_cover_witness :
  let strat :=
    AutoStrat {| AutoSFPartitionStrat.n_points := 12;
                 AutoSFPartitionStrat.num_segments := 3 |} in
  (forall idx, idx ∈ strat_indices strat ->
     is_Ok (strat_build_StatTask strat idx))
  /\ (forall idx, idx ∈ strat_indices strat -> NoDup (strat_pairs strat idx))
  /\ (forall idx1 idx2 p,
        idx1 ∈ strat_indices strat -> idx2 ∈ strat_indices strat ->
        p ∈ strat_pairs strat idx1 -> p ∈ strat_pairs strat idx2 ->
        idx1 = idx2)
  /\ (forall p,
        (exists idx, idx ∈ strat_indices strat /\ p ∈ strat_pairs strat idx)
        <-> full_pair_set strat p).
Proof.
  intros strat. apply (partition_tasks_disjoint_cover strat).
  simpl. split; [split; [lia|reflexivity]|lia].
Defined.

(** The partition of the twelve points of the comment of [partition.hpp]
    into three segments: the tasks at the six 2D indices. *)
Example auto_tasks_12_points_3_segments :
  let s := {| AutoSFPartitionStrat.n_points := 12;
              AutoSFPartitionStrat.num_segments := 3 |} in
  strat_indices (AutoStrat s) = [(0, 0); (0, 1); (0, 2); (1, 1); (1, 2); (2, 2)]
  /\ AutoSFPartitionStrat.build_StatTask s (0, 0)
     = Ok {| start_A := 0; stop_A := 5; start_B := 0; stop_B := 0 |}
  /\ AutoSFPartitionStrat.build_StatTask s (0, 1)
     = Ok {| start_A := 5; stop_A := 9; start_B := 0; stop_B := 4 |}
  /\ AutoSFPartitionStrat.build_StatTask s (0, 2)
     = Ok {| start_A := 9; stop_A := 12; start_B := 0; stop_B := 4 |}
  /\ AutoSFPartitionStrat.build_StatTask s (1, 1)
     = Ok {| start_A := 4; stop_A := 9; start_B := 0; stop_B := 0 |}
  /\ AutoSFPartitionStrat.build_StatTask s (1, 2)
     = Ok {| start_A := 9; stop_A := 12; start_B := 4; stop_B := 8 |}
  /\ AutoSFPartitionStrat.build_StatTask s (2, 2)
     = Ok {| start_A := 8; stop_A := 12; start_B := 0; stop_B := 0 |}.
Proof. vm_compute. repeat split; reflexivity. Qed.

(** ** The number of segments chosen by [AutoSFPartitionStrat::create] *)

Lemma num_dist_array_chunks_auto_eq S :
  1 <= S < 2 ^ 31 -> num_dist_array_chunks_auto S = S * (S + 1) / 2.
Proof.
  intros HS. unfold num_dist_array_chunks_auto.
  assert (2 ^ 31 * 2 ^ 31 < 2 ^ 64) by reflexivity.
  assert (0 <= (S - 1) * S < 2 ^ 64) by nia.
  assert (0 <= (S - 1) * S / 2 <= (S - 1) * S).
  { split; [apply Z.div_pos; lia|apply Z.div_le_upper_bound; lia]. }
  rewrite (wrap64_small (S - 1)) by lia.
  rewrite (wrap64_small ((S - 1) * S)) by lia.
  rewrite (wrap64_small ((S - 1) * S / 2)) by lia.
  replace (S * (S + 1)) with ((S - 1) * S + S * 2) by lia.
  rewrite Z.div_add by lia.
  apply wrap64_small. nia.
Qed.

Section SegmentsLoop.
Variables nproc max_segments : Z.
Hypothesis Hnproc : 1 <= nproc <= 60.

Lemma enough_chunks_19 : enough_chunks nproc 19.
Proof. unfold enough_chunks. change (19 * (19 + 1) / 2) with 190. lia. Qed.

Lemma segments_loop_spec fuel cur :
  2 <= cur <= max_segments ->
  (Z.to_nat (max_segments - cur) <= fuel)%nat ->
  (forall S', 2 <= S' < cur -> ~ enough_chunks nproc S') ->
  exists S,
    AutoSFPartitionStrat.segments_loop nproc max_segments fuel cur = Some S
    /\ spec_num_segments nproc max_segments S.
Proof.
  revert cur. induction fuel as [|fuel IH]; intros cur Hcur Hfuel Hbelow.
  - assert (cur = max_segments) as -> by lia. simpl.
    rewrite Z.leb_refl. exists max_segments. split; [reflexivity|].
    destruct (Z_le_gt_dec (3 * nproc) (max_segments * (max_segments + 1) / 2)).
    + left. unfold enough_chunks. split; [lia|]. split; [lia|exact Hbelow].
    + right. split; [reflexivity|]. intros S' HS'.
      destruct (Z.eq_dec S' max_segments) as [->|]; [unfold enough_chunks; lia|].
      apply Hbelow. lia.
  - simpl. destruct (Z.leb_spec max_segments cur).
    + assert (cur = max_segments) as -> by lia.
      exists max_segments. split; [reflexivity|].
      destruct (Z_le_gt_dec (3 * nproc) (max_segments * (max_segments + 1) / 2)).
      * left. unfold enough_chunks. split; [lia|]. split; [lia|exact Hbelow].
      * right. split; [reflexivity|]. intros S' HS'.
        destruct (Z.eq_dec S' max_segments) as [->|]; [unfold enough_chunks; lia|].
        apply Hbelow. lia.
    + assert (cur <= 19) as Hcur19.
      { destruct (Z_le_gt_dec cur 19); [assumption|].
        exfalso. apply (Hbelow 19); [lia|apply enough_chunks_19]. }
      rewrite num_dist_array_chunks_auto_eq by lia.
      rewrite (wrap64_small (3 * nproc)) by lia.
      destruct (Z.leb_spec (3 * nproc) (cur * (cur + 1) / 2)) as [Hen|Hnot].
      * exists cur. split; [reflexivity|]. left.
        split; [lia|]. split; [exact Hen|exact Hbelow].
      * rewrite (wrap64_small (cur + 1)) by lia.
        apply IH; [lia|lia|]. intros S' HS'.
        destruct (Z.eq_dec S' cur) as [->|]; [unfold enough_chunks; lia|].
        apply Hbelow. lia.
Qed.

Lemma spec_num_segments_range S :
  2 <= max_segments -> spec_num_segments nproc max_segments S ->
  2 <= S <= max_segments.
Proof. intros HM [(? & _)|(-> & _)]; lia. Qed.

End SegmentsLoop.

Lemma spec_max_segments_bound n_points :
  2 <= n_points ->
  1 <= spec_max_segments n_points
  /\ (3 <= n_points -> 2 * spec_max_segments n_points + 1 <= n_points)
  /\ spec_max_segments n_points <= n_points - 1.
Proof.
  intros HN. unfold spec_max_segments. destruct (Z.leb_spec n_points 4); [lia|].
  pose proof (Z.div_mod (n_points - 1) 2 ltac:(lia)).
  pose proof (Z.mod_pos_bound (n_points - 1) 2 ltac:(lia)). lia.
Qed.

(** C5 (amended).  For [1 <= nproc <= 60] and [2 <= n_points], [create]
    reaches no fatal branch.  It returns one segment when the small-problem
    rule applies or [nproc = 1]; otherwise it returns the smallest [S] of
    [2, max_segments] with [S (S + 1) / 2 >= 3 nproc], clamped to
    [max_segments = (n_points <= 4) ? 1 : (n_points - 1) / 2].  The returned
    [S] satisfies [1 <= S <= n_points - 1], and [2 S + 1 <= n_points] as soon
    as [n_points >= 3]. *)
Theorem create_num_segments (nproc n_points : Z) (skip_small_prob_check : bool) :
  1 <= nproc <= 60 ->
  2 <= n_points < 2 ^ 64 ->
  exists S,
    AutoSFPartitionStrat.create nproc n_points skip_small_prob_check
    = Ok {| AutoSFPartitionStrat.n_points := n_points;
            AutoSFPartitionStrat.num_segments := S |}
    /\ (if (negb skip_small_prob_check && (n_points <=? 1000)) || (nproc =? 1)
        then S = 1
        else spec_num_segments nproc (spec_max_segments n_points) S)
    /\ 1 <= S <= n_points - 1
    /\ (3 <= n_points -> 2 * S + 1 <= n_points).
Proof.
  intros Hnproc HN. unfold AutoSFPartitionStrat.create.
  destruct (Z.eqb_spec nproc 0); [lia|].
  destruct (Z.leb_spec n_points 1); [lia|].
  destruct (Z.ltb_spec 60 nproc); [lia|].
  rewrite (wrap64_small (n_points - 1)) by lia.
  fold (spec_max_segments n_points).
  pose proof (spec_max_segments_bound n_points ltac:(lia)) as (HM1 & HM2 & HM3).
  destruct ((negb skip_small_prob_check && (n_points <=? 1000)) || (nproc =? 1))
    eqn:Hsmall.
  - simpl. rewrite safe_cast_u64_small by lia. simpl.
    exists 1. split; [reflexivity|]. split; [reflexivity|]. lia.
  - simpl. destruct (Z.eqb_spec (spec_max_segments n_points) 1) as [HM|HM].
    + rewrite safe_cast_u64_small by lia. simpl.
      exists 1. split; [reflexivity|]. split; [|lia].
      right. rewrite HM. split; [reflexivity|]. intros S' HS'. lia.
    + destruct (segments_loop_spec nproc (spec_max_segments n_points) Hnproc
                  (Z.to_nat (spec_max_segments n_points)) 2)
        as (S & -> & Hspec); [lia|lia|intros S' HS'; lia|].
      pose proof (spec_num_segments_range nproc (spec_max_segments n_points) S
                  ltac:(lia) Hspec) as HS.
      rewrite (wrap64_small (S * 2)) by lia.
      rewrite (wrap64_small (S * 2 + 1)) by lia.
      destruct (Z.ltb_spec n_points (S * 2 + 1)); [lia|].
      rewrite !safe_cast_u64_small by lia. simpl.
      exists S. split; [reflexivity|]. split; [exact Hspec|]. lia.
Qed.

Lemma create_num_segments_witness :
  exists S,
    AutoSFPartitionStrat.create 4 2001 false
    = Ok {| AutoSFPartitionStrat.n_points := 2001;
            AutoSFPartitionStrat.num_segments := S |}
    /\ (if (negb false && (2001 <=? 1000)) || (4 =? 1)
        then S = 1
        else spec_num_segments 4 (spec_max_segments 2001) S)
    /\ 1 <= S <= 2001 - 1
    /\ (3 <= 2001 -> 2 * S + 1 <= 2001).
Proof. apply (create_num_segments 4 2001 false); [lia|split; [lia|reflexivity]]. Defined.

(** The claim as stated fails when [nproc = 1] (one segment is returned
    although two segments are the smallest choice of [2, max_segments]), and
    when [n_points = 2] (the one segment returned has [2 S + 1 = 3 > 2]). *)
Lemma create_chooses_spec_segments_counterexample :
  ~ create_chooses_spec_segments 1 2000 false
  /\ ~ create_chooses_spec_segments 2 2 true.
Proof.
  split; intros (S & Hcreate & Hspec & Hbound).
  - vm_compute in Hcreate. inversion Hcreate; subst S.
    destruct Hspec as [(? & _)|(Heq & _)]; [lia|]. vm_compute in Heq. discriminate.
  - vm_compute in Hcreate. inversion Hcreate; subst S. lia.
Qed.

(** ** The task iterator walks the 2D indices of the strategy *)

Section AutoIndices.
Variable s : AutoSFPartitionStrat.t.
Hypothesis HS : 1 <= AutoSFPartitionStrat.num_segments s < 2 ^ 31.

Lemma auto_row_indices (d : nat) (i j : Z) (rest : nat) :
  0 <= i <= j ->
  j + Z.of_nat d + 1 = AutoSFPartitionStrat.num_segments s ->
  indices_from (AutoStrat s) (S d + rest) (i, j)
  = (pair i <$> seqZ j (Z.of_nat (S d)))
    ++ indices_from (AutoStrat s) rest (i + 1, i + 1).
Proof.
  revert j. induction d as [|d IH]; intros j Hi Hj.
  - simpl. unfold AutoSFPartitionStrat.increment2D_index. simpl.
    rewrite !wrap64_small by lia.
    destruct (Z.eqb_spec (j + 1) (AutoSFPartitionStrat.num_segments s)); [|lia].
    reflexivity.
  - change (S (S d) + rest)%nat with (S (S d + rest)).
    cbn [indices_from]. rewrite seqZ_cons by lia. rewrite fmap_cons.
    simpl strat_increment2D_index.
    unfold AutoSFPartitionStrat.increment2D_index. cbn [fst snd].
    rewrite wrap64_small by lia.
    destruct (Z.eqb_spec (j + 1) (AutoSFPartitionStrat.num_segments s)); [lia|].
    rewrite (IH (j + 1)) by lia. simpl app. f_equal. f_equal. f_equal.
    f_equal; lia.
Qed.

Lemma auto_rows_indices (r : nat) (i : Z) :
  0 <= i -> i + Z.of_nat r = AutoSFPartitionStrat.num_segments s ->
  let rows :=
    i' ← seqZ i (Z.of_nat r);
    j ← seqZ i' (AutoSFPartitionStrat.num_segments s - i'); [(i', j)] in
  indices_from (AutoStrat s) (length rows) (i, i) = rows
  /\ 2 * Z.of_nat (length rows) = Z.of_nat r * (Z.of_nat r + 1).
Proof.
  revert i. induction r as [|r IH]; intros i Hi Hr rows.
  - subst rows. simpl. split; [reflexivity|lia].
  - subst rows. rewrite seqZ_cons by lia. csimpl.
    rewrite bind_singleton_fmap.
    destruct (IH (Z.succ i) ltac:(lia) ltac:(lia)) as (IH1 & IH2).
    replace (Z.pred (Z.of_nat (S r))) with (Z.of_nat r) by lia.
    set (rest := i' ← seqZ (Z.succ i) (Z.of_nat r);
                 j ← seqZ i' (AutoSFPartitionStrat.num_segments s - i');
                 [(i', j)]) in *.
    replace (AutoSFPartitionStrat.num_segments s - i) with (Z.of_nat (S r))
      by lia.
    rewrite length_app, length_fmap, length_seqZ.
    replace (Z.to_nat (Z.of_nat (S r))) with (S r) by lia.
    split.
    + rewrite (auto_row_indices r i i (length rest)) by lia.
      f_equal. replace (i + 1) with (Z.succ i) by lia. exact IH1.
    + lia.
Qed.

Lemma auto_indices_from :
  indices_from (AutoStrat s) (length (strat_indices (AutoStrat s))) (0, 0)
  = strat_indices (AutoStrat s)
  /\ AutoSFPartitionStrat.n_partitions s
     = Z.of_nat (length (strat_indices (AutoStrat s))).
Proof.
  destruct (auto_rows_indices
              (Z.to_nat (AutoSFPartitionStrat.num_segments s)) 0
              ltac:(lia) ltac:(lia)) as (H1 & H2).
  rewrite Z2Nat.id in H1, H2 by lia.
  split; [exact H1|].
  unfold AutoSFPartitionStrat.n_partitions.
  rewrite num_dist_array_chunks_auto_eq by lia.
  simpl strat_indices. symmetry. apply Z.div_unique_exact; lia.
Qed.

End AutoIndices.

Section CrossIndices.
Variable s : CrossSFPartitionStrat.t.
Hypothesis HSA : 0 <= CrossSFPartitionStrat.num_segments_A s.
Hypothesis HSB : 1 <= CrossSFPartitionStrat.num_segments_B s < 2 ^ 64.

Lemma cross_row_indices (d : nat) (i j : Z) (rest : nat) :
  0 <= j ->
  j + Z.of_nat d + 1 = CrossSFPartitionStrat.num_segments_B s ->
  indices_from (CrossStrat s) (S d + rest) (i, j)
  = (pair i <$> seqZ j (Z.of_nat (S d)))
    ++ indices_from (CrossStrat s) rest (wrap64 (i + 1), 0).
Proof.
  revert j. induction d as [|d IH]; intros j Hi Hj.
  - simpl. unfold CrossSFPartitionStrat.increment2D_index. simpl.
    rewrite (wrap64_small (j + 1)) by lia.
    destruct (Z.eqb_spec (j + 1) (CrossSFPartitionStrat.num_segments_B s));
      [|lia].
    reflexivity.
  - change (S (S d) + rest)%nat with (S (S d + rest)).
    cbn [indices_from]. rewrite seqZ_cons by lia. rewrite fmap_cons.
    simpl strat_increment2D_index.
    unfold CrossSFPartitionStrat.increment2D_index. cbn [fst snd].
    rewrite (wrap64_small (j + 1)) by lia.
    destruct (Z.eqb_spec (j + 1) (CrossSFPartitionStrat.num_segments_B s));
      [lia|].
    rewrite (IH (j + 1)) by lia. simpl app. f_equal. f_equal. f_equal.
    f_equal; lia.
Qed.

Lemma cross_rows_indices (r : nat) (i : Z) :
  0 <= i -> i + Z.of_nat r < 2 ^ 64 ->
  let rows :=
    i' ← seqZ i (Z.of_nat r);
    j ← seqZ 0 (CrossSFPartitionStrat.num_segments_B s); [(i', j)] in
  indices_from (CrossStrat s) (length rows) (i, 0) = rows
  /\ Z.of_nat (length rows)
     = Z.of_nat r * CrossSFPartitionStrat.num_segments_B s.
Proof.
  revert i. induction r as [|r IH]; intros i Hi Hr rows.
  - subst rows. simpl. split; [reflexivity|lia].
  - subst rows. rewrite (seqZ_cons i) by lia. csimpl.
    rewrite bind_singleton_fmap.
    destruct (IH (Z.succ i) ltac:(lia) ltac:(lia)) as (IH1 & IH2).
    replace (Z.pred (Z.of_nat (S r))) with (Z.of_nat r) by lia.
    set (rest := i' ← seqZ (Z.succ i) (Z.of_nat r);
                 j ← seqZ 0 (CrossSFPartitionStrat.num_segments_B s);
                 [(i', j)]) in *.
    rewrite length_app, length_fmap, length_seqZ.
    split; [|lia].
    destruct (Z.to_nat (CrossSFPartitionStrat.num_segments_B s)) as [|d] eqn:Hd;
      [lia|].
    replace (CrossSFPartitionStrat.num_segments_B s) with (Z.of_nat (S d))
      at 1 by lia.
    rewrite (cross_row_indices d i 0 (length rest)) by lia.
    f_equal. rewrite wrap64_small by lia.
    replace (i + 1) with (Z.succ i) by lia. exact IH1.
Qed.

Lemma cross_indices_from :
  CrossSFPartitionStrat.num_segments_A s
  * CrossSFPartitionStrat.num_segments_B s < 2 ^ 64 ->
  indices_from (CrossStrat s) (length (strat_indices (CrossStrat s))) (0, 0)
  = strat_indices (CrossStrat s)
  /\ CrossSFPartitionStrat.n_partitions s
     = Z.of_nat (length (strat_indices (CrossStrat s))).
Proof.
  intros Hsize.
  destruct (cross_rows_indices
              (Z.to_nat (CrossSFPartitionStrat.num_segments_A s)) 0
              ltac:(lia) ltac:(nia)) as (H1 & H2).
  rewrite Z2Nat.id in H1, H2 by lia.
  split; [exact H1|].
  unfold CrossSFPartitionStrat.n_partitions. simpl strat_indices.
  rewrite H2. apply wrap64_small. nia.
Qed.

End CrossIndices.

Lemma TaskIt_tasks_indices (fuel : nat) (it : TaskIt) :
  0 <= next_index_1D_ it -> index_stop_1D_ it < 2 ^ 64 ->
  (Z.to_nat (index_stop_1D_ it - next_index_1D_ it) <= fuel)%nat ->
  TaskIt_tasks fuel it
  = tasks_at (partition_strat_ it)
      (indices_from (partition_strat_ it)
         (Z.to_nat (index_stop_1D_ it - next_index_1D_ it))
         (next_index_2D_ it)).
Proof.
  revert it. induction fuel as [|fuel IH]; intros it Hnext Hstop Hfuel;
    unfold TaskIt_tasks; fold TaskIt_tasks; unfold has_next.
  - destruct (Z.ltb_spec (next_index_1D_ it) (index_stop_1D_ it)); [lia|].
    replace (Z.to_nat (index_stop_1D_ it - next_index_1D_ it)) with O by lia.
    reflexivity.
  - destruct (Z.ltb_spec (next_index_1D_ it) (index_stop_1D_ it)) as [Hlt|Hge].
    + destruct (Z.to_nat (index_stop_1D_ it - next_index_1D_ it)) as [|k] eqn:Hk;
        [lia|].
      cbn [indices_from tasks_at]. unfold next.
      destruct (strat_build_StatTask (partition_strat_ it) (next_index_2D_ it))
        as [stat_task|msg]; simpl; [|reflexivity].
      rewrite IH; simpl; rewrite ?wrap64_small by lia; try lia.
      replace (Z.to_nat (index_stop_1D_ it - (next_index_1D_ it + 1))) with k
        by lia.
      reflexivity.
    + replace (Z.to_nat (index_stop_1D_ it - next_index_1D_ it)) with O by lia.
      reflexivity.
Qed.

(** The tasks of the iterator over all the 1D indices of a strategy are the
    tasks at the 2D indices [strat_indices], in this order. *)
Lemma TaskIt_visits_strat_indices (strat : partition_variant) :
  valid_strat strat ->
  match strat with
  | AutoStrat s => AutoSFPartitionStrat.num_segments s < 2 ^ 31
  | CrossStrat s =>
      CrossSFPartitionStrat.num_segments_A s
      * CrossSFPartitionStrat.num_segments_B s < 2 ^ 64
  end ->
  exists it,
    TaskIt_new 0 (strat_n_partitions strat) strat = Ok it
    /\ TaskIt_tasks (Z.to_nat (strat_n_partitions strat)) it
       = tasks_at strat (strat_indices strat).
Proof.
  intros Hvalid Hsmall.
  assert (indices_from strat (length (strat_indices strat)) (0, 0)
          = strat_indices strat
          /\ strat_n_partitions strat
             = Z.of_nat (length (strat_indices strat))
          /\ 1 <= strat_n_partitions strat < 2 ^ 64) as (Hidx & Hn & Hrange).
  { destruct strat as [s|s]; simpl in Hvalid, Hsmall.
    - destruct (auto_indices_from s ltac:(lia)) as (H1 & H2).
      split; [exact H1|]. split; [exact H2|]. simpl.
      unfold AutoSFPartitionStrat.n_partitions.
      rewrite num_dist_array_chunks_auto_eq by lia.
      assert (2 ^ 31 * 2 ^ 31 < 2 ^ 64) by reflexivity.
      split; [apply Z.div_le_lower_bound; nia|].
      apply Z.div_lt_upper_bound; nia.
    - destruct (cross_indices_from s ltac:(lia) ltac:(lia) Hsmall) as (H1 & H2).
      split; [exact H1|]. split; [exact H2|]. simpl.
      unfold CrossSFPartitionStrat.n_partitions.
      rewrite wrap64_small by nia. nia. }
  unfold TaskIt_new.
  destruct (Z.leb_spec (strat_n_partitions strat) 0); [lia|].
  simpl. eexists. split; [reflexivity|].
  rewrite TaskIt_tasks_indices; simpl; try lia.
  rewrite Z.sub_0_r, Hn, Nat2Z.id, Hidx. reflexivity.
Qed.

(** ** Statistic names *)

(** C8.  The name of the unweighted accumulator of order 2 is ["variance"],
    but the instantiation of [stat_name] at order 3 reaches the
    [static_assert] of the last branch: the guard before ["cmoment3"] tests
    [Order == 2] again, so no name is returned for order 3. *)
Theorem CentralMomentAccum_stat_name_order_3 :
  CentralMomentAccum.stat_name 2 Int64 = Ok "variance"
  /\ CentralMomentAccum.stat_name 3 Int64
     = Error "weird template specialization"
  /\ forall Order CountT,
       CentralMomentAccum.stat_name Order CountT <> Ok "cmoment3".
Proof.
  split; [reflexivity|]. split; [reflexivity|].
  intros Order CountT. unfold CentralMomentAccum.stat_name.
  destruct (Order =? 1)%nat, (Order =? 2)%nat, CountT; simpl; discriminate.
Qed.

(** ** The weight argument of the unweighted accumulators *)

(** C9.  For the accumulators with an integer count, central moments and
    moments about the origin alike, [add_entry(val, weight)] gives the state
    [add_entry(val)] gives, whatever the state, the value and the weight. *)
Theorem unweighted_add_entry_ignores_weight (Order : nat) :
  (forall (a : CentralMomentAccum.t Order Int64) (val weight : double),
     CentralMomentAccum.add_entry_w a val weight
     = CentralMomentAccum.add_entry a val)
  /\ (forall (a : OriginMomentAccum.t Order Int64) (val weight : double),
        OriginMomentAccum.add_entry_w a val weight
        = OriginMomentAccum.add_entry a val).
Proof. split; intros a val weight; reflexivity. Qed.

(** ** Bin search *)

(** [lower_bound] returns the position [p] such that every element before
    [p] is less than [x] and the element at [p], if any, is not. *)
Lemma lower_bound_spec {T : Type} `{Inhabited T} (ltb : T -> T -> bool)
    (range : list T) (x : T) :
  let p := lower_bound ltb range x in
  (p <= length range)%nat
  /\ (forall k, (k < p)%nat -> ltb (range !!! k) x = true)
  /\ ((p < length range)%nat -> ltb (range !!! p) x = false).
Proof.
  induction range as [|e range IH]; simpl.
  - split; [lia|]. split; intros; lia.
  - destruct (ltb e x) eqn:He.
    + destruct IH as (IH1 & IH2 & IH3). split; [lia|]. split.
      * intros [|k] Hk; [exact He|]. simpl. apply IH2. lia.
      * intros Hp. simpl. apply IH3. lia.
    + split; [lia|]. split; [intros; lia|]. intros _. exact He.
Qed.

(** What [identify_bin_index] returns: the data bins are open on the left
    and closed on the right.  A result [i < nbins] has
    [bin_edges[i] < x] and not [bin_edges[i + 1] < x]. *)
Lemma identify_bin_index_interval {T : Type} `{Inhabited T}
    (ltb : T -> T -> bool) (x : T) (bin_edges : list T) (nbins : Z) :
  0 <= nbins -> nbins + 1 < 2 ^ 64 ->
  Z.to_nat (nbins + 1) = length bin_edges ->
  let i := identify_bin_index ltb x bin_edges nbins in
  0 <= i <= nbins
  /\ (i < nbins ->
      ltb (bin_edges !!! Z.to_nat i) x = true
      /\ ltb (bin_edges !!! Z.to_nat (i + 1)) x = false).
Proof.
  intros Hn Hn64 Hlen. unfold identify_bin_index.
  assert (wrap64 (nbins + 1) = nbins + 1) as -> by (apply Z.mod_small; lia).
  rewrite Hlen, firstn_all.
  pose proof (lower_bound_spec ltb bin_edges x) as (Hp1 & Hp2 & Hp3).
  set (p := lower_bound ltb bin_edges x) in *.
  destruct (Z.eqb_spec (Z.of_nat p) 0); simpl; [lia|].
  destruct (Z.eqb_spec (Z.of_nat p) (nbins + 1)); simpl; [lia|].
  assert (wrap64 (Z.of_nat p - 1) = Z.of_nat p - 1) as ->
      by (apply Z.mod_small; lia).
  split; [lia|]. intros _. split.
  - apply Hp2. lia.
  - replace (Z.to_nat (Z.of_nat p - 1 + 1)) with p by lia. apply Hp3. lia.
Qed.

(** C2.  With the edges [0, 1, 2] and [nbins = 2], the value [1] lies in bin
    1, [1 <= x < 2], but [identify_bin_index] returns 0; the value [0] lies
    in bin 0 but [nbins] is returned, and the value [2], not less than the
    last edge, is put in bin 1.  A value that is not finite, and a finite
    value outside of the edges, do get [nbins]. *)
Theorem identify_bin_index_at_edges :
  let bin_edges := [d_of_Z 0; d_of_Z 1; d_of_Z 2] in
  identify_bin_index d_ltb (d_of_Z 1) bin_edges 2 = 0
  /\ identify_bin_index d_ltb (d_of_Z 0) bin_edges 2 = 2
  /\ identify_bin_index d_ltb (d_of_Z 2) bin_edges 2 = 1
  /\ identify_bin_index d_ltb S754_nan bin_edges 2 = 2
  /\ identify_bin_index d_ltb (S754_infinity false) bin_edges 2 = 2
  /\ identify_bin_index d_ltb (S754_infinity true) bin_edges 2 = 2
  /\ identify_bin_index d_ltb (d_of_Z (-1)) bin_edges 2 = 2
  /\ identify_bin_index d_ltb (d_of_Z 3) bin_edges 2 = 2.
Proof. vm_compute. repeat split; reflexivity. Qed.

(** ** Sums of doubles that are not negative *)

Lemma iter_pos_nat {A : Type} (f : A -> A) (p : positive) (x : A) :
  SpecFloat.iter_pos f p x = Nat.iter (Pos.to_nat p) f x.
Proof.
  revert x. induction p as [p IH|p IH|]; intros x.
  - cbn [SpecFloat.iter_pos]. rewrite !IH.
    replace (Pos.to_nat p~1) with (Pos.to_nat p + S (Pos.to_nat p))%nat by lia.
    rewrite Nat.iter_add. rewrite Nat.iter_succ_r. reflexivity.
  - cbn [SpecFloat.iter_pos]. rewrite !IH.
    replace (Pos.to_nat p~0) with (Pos.to_nat p + Pos.to_nat p)%nat by lia.
    rewrite Nat.iter_add. reflexivity.
  - reflexivity.
Qed.

Lemma shr_1_pos (m : positive) (r s : bool) :
  1 < Z.pos (digits2_pos m) ->
  exists m' r' s',
    shr_1 {| shr_m := Z.pos m; shr_r := r; shr_s := s |}
    = {| shr_m := Z.pos m'; shr_r := r'; shr_s := s' |}
    /\ Z.pos (digits2_pos m') = Z.pos (digits2_pos m) - 1.
Proof.
  intros Hd. destruct m as [p|p|]; simpl in *; try lia;
    eexists; eexists; eexists; (split; [reflexivity|lia]).
Qed.

Lemma iter_shr_1_pos (n : nat) (m : positive) (r s : bool) :
  Z.of_nat n < Z.pos (digits2_pos m) ->
  exists m' r' s',
    Nat.iter n shr_1 {| shr_m := Z.pos m; shr_r := r; shr_s := s |}
    = {| shr_m := Z.pos m'; shr_r := r'; shr_s := s' |}
    /\ Z.pos (digits2_pos m') = Z.pos (digits2_pos m) - Z.of_nat n.
Proof.
  induction n as [|n IH]; intros Hn.
  - exists m, r, s. split; [reflexivity|lia].
  - destruct IH as (m1 & r1 & s1 & Heq & Hd); [lia|].
    simpl. rewrite Heq.
    destruct (shr_1_pos m1 r1 s1 ltac:(lia)) as (m' & r' & s' & Heq' & Hd').
    exists m', r', s'. split; [exact Heq'|lia].
Qed.

Lemma shr_fexp_pos (m : positive) (e : Z) (l : location) :
  emin d_prec d_emax <= e ->
  exists m' r' s' e',
    shr_fexp d_prec d_emax (Z.pos m) e l
    = ({| shr_m := Z.pos m'; shr_r := r'; shr_s := s' |}, e')
    /\ emin d_prec d_emax <= e'.
Proof.
  intros He. unfold shr_fexp, shr.
  assert (exists r s, shr_record_of_loc (Z.pos m) l
                      = {| shr_m := Z.pos m; shr_r := r; shr_s := s |})
    as (r & s & ->).
  { destruct l as [|[| |]]; simpl; eauto. }
  destruct (fexp d_prec d_emax (Zdigits2 (Z.pos m) + e) - e) as [|p|p] eqn:Hn;
    try (exists m, r, s, e; split; [reflexivity|exact He]).
  unfold fexp in Hn. simpl Zdigits2 in Hn.
  rewrite iter_pos_nat.
  destruct (iter_shr_1_pos (Pos.to_nat p) m r s) as (m' & r' & s' & Heq & _).
  { rewrite positive_nat_Z. unfold d_prec in *. lia. }
  exists m', r', s', (e + Z.pos p). split; [rewrite Heq; reflexivity|lia].
Qed.

Lemma round_nearest_even_pos (m : positive) (l : location) :
  exists m', round_nearest_even (Z.pos m) l = Z.pos m'.
Proof.
  destruct l as [|[| |]]; cbn [round_nearest_even].
  - exists m. reflexivity.
  - destruct (Z.even (Z.pos m)); [exists m|exists (m + 1)%positive]; reflexivity.
  - exists m. reflexivity.
  - exists (m + 1)%positive. reflexivity.
Qed.

(** A finite or infinite double that is not negative and whose exponent, if
    any, is not below the smallest exponent of the format. *)
Lemma binary_round_aux_pos (m : positive) (e : Z) (l : location) :
  emin d_prec d_emax <= e ->
  binary_round_aux d_prec d_emax false (Z.pos m) e l = S754_infinity false
  \/ exists m' e',
       binary_round_aux d_prec d_emax false (Z.pos m) e l
       = S754_finite false m' e'
       /\ emin d_prec d_emax <= e'.
Proof.
  intros He. unfold binary_round_aux.
  destruct (shr_fexp_pos m e l He) as (m1 & r1 & s1 & e1 & -> & He1).
  cbn [shr_m].
  destruct (round_nearest_even_pos m1
              (loc_of_shr_record
                 {| shr_m := Z.pos m1; shr_r := r1; shr_s := s1 |}))
    as (m2 & ->).
  destruct (shr_fexp_pos m2 e1 loc_Exact He1) as (m3 & r3 & s3 & e3 & -> & He3).
  cbn [shr_m].
  destruct (e3 <=? d_emax - d_prec); [right; eauto|left; reflexivity].
Qed.

Lemma binary_normalize_pos (m : positive) (e : Z) :
  emin d_prec d_emax <= e ->
  binary_normalize d_prec d_emax (Z.pos m) e false = S754_infinity false
  \/ exists m' e',
       binary_normalize d_prec d_emax (Z.pos m) e false
       = S754_finite false m' e'
       /\ emin d_prec d_emax <= e'.
Proof.
  intros He. unfold binary_normalize, binary_round.
  destruct (shl_align m e
              (fexp d_prec d_emax (Z.pos (digits2_pos m) + e)))
    as [mz ez] eqn:Hal.
  apply binary_round_aux_pos.
  unfold shl_align in Hal.
  unfold fexp in Hal.
  destruct (Z.max (Z.pos (digits2_pos m) + e - d_prec) (emin d_prec d_emax) - e)
    eqn:Hd; inversion Hal; subst; lia.
Qed.

(** The sum of two doubles that are not negative is not negative, and it
    is zero only when both are zero. *)
Lemma d_add_nonneg (c w : double) :
  nonneg_double c = true -> nonneg_double w = true ->
  nonneg_double (d_add c w) = true /\ no_cancellation c w.
Proof.
  unfold no_cancellation.
  destruct c as [sc|sc| |sc mc ec], w as [sw|sw| |sw mw ew]; simpl;
    try discriminate; intros Hc Hw.
  - destruct sc, sw; split; auto.
  - destruct sw; try discriminate. split; [reflexivity|discriminate].
  - split; [exact Hw|]. intros Hz. destruct sw; discriminate.
  - destruct sc; try discriminate. split; [reflexivity|discriminate].
  - destruct sc, sw; try discriminate. split; [reflexivity|discriminate].
  - destruct sc; try discriminate. split; [reflexivity|discriminate].
  - split; [exact Hc|]. intros Hz. destruct sc; discriminate.
  - destruct sw; try discriminate. split; [reflexivity|discriminate].
  - apply andb_true_iff in Hc as (Hsc & Hec), Hw as (Hsw & Hew).
    destruct sc, sw; try discriminate. apply Z.leb_le in Hec, Hew.
    unfold d_add, SFadd. cbn [cond_Zopp].
    change (Z.pos ?a + Z.pos ?b) with (Z.pos (a + b)).
    destruct (binary_normalize_pos
                (fst (shl_align mc ec (Z.min ec ew))
                 + fst (shl_align mw ew (Z.min ec ew))) (Z.min ec ew))
      as [Hinf|(m' & e' & Hfin & He')]; [lia| |].
    + change (IntDef.Z.min ec ew) with (Z.min ec ew). rewrite Hinf.
      split; [reflexivity|discriminate].
    + change (IntDef.Z.min ec ew) with (Z.min ec ew). rewrite Hfin.
      split; [|discriminate]. simpl. apply Z.leb_le. exact He'.
Qed.

(** ** The weighted central-moment accumulator *)

Lemma is_zero_inv (x : double) : is_zero x = true -> exists s, x = S754_zero s.
Proof.
  destruct x as [s|s| |s m e]; try (exists s; reflexivity);
    try destruct s; intros Hx; vm_compute in Hx; discriminate.
Qed.

Lemma is_zero_S754_zero s : is_zero (S754_zero s) = true.
Proof. reflexivity. Qed.

(** The update of the mean in [add_entry(val, weight)] when the weight sum
    stays zero: the divisor is 1 and the mean stays zero. *)
Lemma weighted_mean_update_zero (val : double) (s1 s2 s3 : bool) :
  is_finite val = true ->
  let weight_sum := d_add (S754_zero s1) (S754_zero s2) in
  is_zero
    (d_add (S754_zero s3)
       (d_div (d_mul (d_sub val (S754_zero s3)) (S754_zero s2))
          (d_add weight_sum
             (d_of_Z (if d_eqb weight_sum (d_of_Z 0) then 1 else 0)))))
  = true.
Proof.
  intros Hfin.
  destruct val as [s4|s4| |s4 m e]; try discriminate;
    destruct s1, s2, s3, s4; reflexivity.
Qed.

Lemma add_entry_w_weighted_ok {Order : nat}
    (a : CentralMomentAccum.t Order Double) (val weight : double) :
  exists a', CentralMomentAccum.add_entry_w a val weight = Ok a'
    /\ CentralMomentAccum.count a' = d_add (CentralMomentAccum.count a) weight.
Proof.
  unfold CentralMomentAccum.add_entry_w.
  destruct (1 <? Order)%nat; eexists; split; reflexivity.
Qed.

Lemma add_entry_w_keeps_invariant {Order : nat}
    (a a' : CentralMomentAccum.t Order Double) (val weight : double) :
  count_zero_mean_zero a ->
  is_finite val = true ->
  no_cancellation (CentralMomentAccum.count a) weight ->
  CentralMomentAccum.add_entry_w a val weight = Ok a' ->
  count_zero_mean_zero a'.
Proof.
  intros Hinv Hfin Hnc Hadd Hzero.
  assert (CentralMomentAccum.count a' = d_add (CentralMomentAccum.count a) weight)
    as Hcount.
  { destruct (add_entry_w_weighted_ok a val weight) as (a'' & Heq & Hc).
    congruence. }
  rewrite Hcount in Hzero.
  destruct (Hnc Hzero) as (Hc0 & Hw0).
  specialize (Hinv Hc0).
  apply is_zero_inv in Hc0 as [s1 Hc0], Hw0 as [s2 Hw0], Hinv as [s3 Hm0].
  revert Hadd. unfold CentralMomentAccum.add_entry_w, accum_mean in *.
  rewrite Hc0, Hw0.
  destruct (CentralMomentAccum.moment_accums a) as [|m0 rest] eqn:Hma.
  - destruct (1 <? Order)%nat; intros Heq; inversion Heq; reflexivity.
  - simpl in Hm0. subst m0.
    destruct (1 <? Order)%nat; intros Heq; inversion Heq; subst a'; simpl;
      apply weighted_mean_update_zero; exact Hfin.
Qed.

Lemma consolidate_weighted_keeps_invariant {Order : nat}
    (a other : CentralMomentAccum.t Order Double) :
  count_zero_mean_zero a ->
  count_zero_mean_zero other ->
  no_cancellation (CentralMomentAccum.count a) (CentralMomentAccum.count other) ->
  exists a', CentralMomentAccum.consolidate_with_other a other = Ok a'
    /\ count_zero_mean_zero a'.
Proof.
  intros Hinv Hother Hnc. unfold CentralMomentAccum.consolidate_with_other.
  change (val_eqb_Z Double ?c 0) with (is_zero c).
  destruct (is_zero (CentralMomentAccum.count a)) eqn:Hc; [eauto|].
  destruct (is_zero (CentralMomentAccum.count other)) eqn:Hc'; [eauto|].
  rewrite !andb_false_r.
  eexists. split; [reflexivity|].
  intros Hzero. simpl in Hzero.
  destruct (Hnc Hzero) as (Hc0 & _). congruence.
Qed.

Lemma consolidate_weighted_count {Order : nat}
    (a other a' : CentralMomentAccum.t Order Double) :
  nonneg_double (CentralMomentAccum.count a) = true ->
  nonneg_double (CentralMomentAccum.count other) = true ->
  CentralMomentAccum.consolidate_with_other a other = Ok a' ->
  nonneg_double (CentralMomentAccum.count a') = true.
Proof.
  intros Hc Hc'. unfold CentralMomentAccum.consolidate_with_other.
  change (val_eqb_Z Double ?c 0) with (is_zero c).
  destruct (is_zero (CentralMomentAccum.count a));
    [intros Heq; inversion Heq; subst a'; exact Hc'|].
  destruct (is_zero (CentralMomentAccum.count other));
    [intros Heq; inversion Heq; subst a'; exact Hc|].
  rewrite !andb_false_r. intros Heq; inversion Heq; subst a'. simpl.
  apply d_add_nonneg; assumption.
Qed.

Lemma apply_accum_op_keeps_invariant {Order : nat}
    (a : CentralMomentAccum.t Order Double) (op : accum_op Order) :
  count_zero_mean_zero a ->
  nonneg_double (CentralMomentAccum.count a) = true ->
  nonneg_accum_op op ->
  exists a', apply_accum_op a op = Ok a'
    /\ count_zero_mean_zero a'
    /\ nonneg_double (CentralMomentAccum.count a') = true.
Proof.
  intros Hinv Hc Hop. destruct op as [val weight|other]; simpl in *.
  - destruct Hop as (Hfin & Hw).
    destruct (add_entry_w_weighted_ok a val weight) as (a' & Heq & Hcount).
    destruct (d_add_nonneg _ _ Hc Hw) as (Hsum & Hnc).
    exists a'. split; [exact Heq|]. split.
    + eapply add_entry_w_keeps_invariant; eassumption.
    + rewrite Hcount. exact Hsum.
  - destruct Hop as (Hother & Hc').
    destruct (d_add_nonneg _ _ Hc Hc') as (_ & Hnc).
    destruct (consolidate_weighted_keeps_invariant a other Hinv Hother Hnc)
      as (a' & Heq & Hinv').
    exists a'. split; [exact Heq|]. split; [exact Hinv'|].
    exact (consolidate_weighted_count a other a' Hc Hc' Heq).
Qed.

(** C3 (amended).  For the weighted central-moment accumulator,
    [add_entry(v, w)] with [w == 0] and a finite [v] on a freshly
    initialized accumulator leaves the count and the mean at zero; and the
    invariant [count == 0 => mean == 0] is kept by every sequence of
    [add_entry] calls with finite values and weights that are not negative
    and of [consolidate_with_other] calls with accumulators that satisfy the
    invariant and have a weight sum that is not negative (the weight sum
    then stays not negative). *)
Theorem weighted_count_zero_mean_zero (Order : nat) :
  (forall val weight : double,
     is_finite val = true -> is_zero weight = true ->
     exists a',
       CentralMomentAccum.add_entry_w (CentralMomentAccum.new Order Double)
         val weight = Ok a'
       /\ is_zero (CentralMomentAccum.count a') = true
       /\ is_zero (accum_mean a') = true)
  /\ (forall (ops : list (accum_op Order))
        (a : CentralMomentAccum.t Order Double),
        count_zero_mean_zero a ->
        nonneg_double (CentralMomentAccum.count a) = true ->
        Forall nonneg_accum_op ops ->
        exists a', foldM apply_accum_op ops a = Ok a'
                   /\ count_zero_mean_zero a'
                   /\ nonneg_double (CentralMomentAccum.count a') = true).
Proof.
  split.
  - intros val weight Hfin Hw.
    destruct (add_entry_w_weighted_ok (CentralMomentAccum.new Order Double)
                val weight) as (a' & Heq & Hcount).
    exists a'. split; [exact Heq|].
    apply is_zero_inv in Hw as [s Hw]. subst weight.
    assert (is_zero (CentralMomentAccum.count a') = true) as Hzero.
    { rewrite Hcount. destruct s; reflexivity. }
    split; [exact Hzero|].
    refine (add_entry_w_keeps_invariant _ a' val (S754_zero s) _ Hfin _ Heq Hzero).
    + intros _. unfold accum_mean. simpl. destruct Order; reflexivity.
    + intros _. split; [reflexivity|apply is_zero_S754_zero].
  - induction ops as [|op ops IH]; intros a Hinv Hc Hops; simpl.
    + exists a. split; [reflexivity|]. split; assumption.
    + apply Forall_cons in Hops as (Hop & Hops).
      destruct (apply_accum_op_keeps_invariant a op Hinv Hc Hop)
        as (a1 & Heq & Hinv1 & Hc1).
      rewrite Heq. simpl. apply IH; assumption.
Qed.

Lemma weighted_count_zero_mean_zero_witness :
  (exists a',
     CentralMomentAccum.add_entry_w (CentralMomentAccum.new 2 Double)
       (d_of_Z 3) (d_of_Z 0) = Ok a'
     /\ is_zero (CentralMomentAccum.count a') = true
     /\ is_zero (accum_mean a') = true)
  /\ (exists a',
        foldM apply_accum_op
          [OpAddEntry (d_of_Z 3) (d_of_Z 0); OpAddEntry (d_of_Z 4) (d_of_Z 2)]
          (CentralMomentAccum.new 2 Double) = Ok a'
        /\ count_zero_mean_zero a'
        /\ nonneg_double (CentralMomentAccum.count a') = true).
Proof.
  destruct (weighted_count_zero_mean_zero 2) as [Hfresh Hseq]. split.
  - apply Hfresh; reflexivity.
  - apply Hseq.
    + intros _. reflexivity.
    + reflexivity.
    + repeat constructor.
Defined.

(** The claim as stated fails.  A negative weight can bring the weight sum
    back to zero while the mean is not zero: after [add_entry(5, 1)] and
    [add_entry(7, -1)] the count is 0 and the mean is 3.  And a value that
    is not finite, with the weight 0 on a fresh accumulator, makes the mean
    a NaN. *)
Lemma weighted_count_zero_mean_zero_counterexample :
  (exists a1 a2,
     CentralMomentAccum.add_entry_w (CentralMomentAccum.new 1 Double)
       (d_of_Z 5) (d_of_Z 1) = Ok a1
     /\ CentralMomentAccum.add_entry_w a1 (d_of_Z 7) (d_of_Z (-1)) = Ok a2
     /\ count_zero_mean_zero (CentralMomentAccum.new 1 Double)
     /\ count_zero_mean_zero a1
     /\ is_zero (CentralMomentAccum.count a2) = true
     /\ accum_mean a2 = d_of_Z 3
     /\ ~ count_zero_mean_zero a2)
  /\ (exists a',
        CentralMomentAccum.add_entry_w (CentralMomentAccum.new 1 Double)
          (S754_infinity false) (d_of_Z 0) = Ok a'
        /\ is_zero (accum_mean a') = false).
Proof.
  split.
  - eexists. eexists. split; [vm_compute; reflexivity|].
    split; [vm_compute; reflexivity|].
    split; [intros _; reflexivity|].
    split; [intros Hz; vm_compute in Hz; discriminate|].
    split; [reflexivity|]. split; [reflexivity|].
    intros Hinv. specialize (Hinv eq_refl). vm_compute in Hinv. discriminate.
  - eexists. split; [vm_compute; reflexivity|]. reflexivity.
Qed.

(** ** Serialization round trip *)

(** A sequence of writes at distinct positions of a buffer: every position
    written holds the value written there, the others are as before. *)
Lemma foldM_writes {X I : Type} (pos : I -> nat) (val : I -> X) (l : list I)
    (out : list X) :
  NoDup (pos <$> l) ->
  (forall ij, ij ∈ l -> (pos ij < length out)%nat) ->
  exists out',
    foldM (fun (out : list X) (ij : I) => Ok (<[pos ij := val ij]> out)) l out
    = Ok out'
    /\ length out' = length out
    /\ (forall ij, ij ∈ l -> out' !! pos ij = Some (val ij))
    /\ (forall k, k ∉ pos <$> l -> out' !! k = out !! k).
Proof.
  revert out. induction l as [|ij0 l IH]; intros out Hnodup Hlen.
  - exists out. simpl. split; [reflexivity|]. split; [reflexivity|].
    split; [intros ij Hin; inversion Hin|reflexivity].
  - rewrite fmap_cons in Hnodup. apply NoDup_cons in Hnodup as [Hnotin Hnodup].
    destruct (IH (<[pos ij0 := val ij0]> out) Hnodup) as (out' & Hfold & Hl & Hin' & Hout').
    { intros ij Hij. rewrite length_insert. apply Hlen.
      apply list_elem_of_further. exact Hij. }
    exists out'. simpl. split; [exact Hfold|].
    split; [rewrite Hl; apply length_insert|]. split.
    + intros ij [->|Hij]%elem_of_cons; [|apply Hin'; exact Hij].
      rewrite Hout' by exact Hnotin.
      apply list_lookup_insert_eq. apply Hlen. apply list_elem_of_here.
    + intros k Hk. simpl in Hk.
      apply not_elem_of_cons in Hk as [Hne Hk].
      rewrite Hout' by exact Hk. apply list_lookup_insert_ne. congruence.
Qed.

Lemma elem_of_bin_val_indices n_bins num_vals i j :
  (i, j) ∈ ScalarAccumCollection.bin_val_indices n_bins num_vals
  <-> 0 <= i < n_bins /\ 0 <= j < num_vals.
Proof.
  unfold ScalarAccumCollection.bin_val_indices. rewrite list_elem_of_bind. split.
  - intros (i' & Hin & Hi). apply elem_of_seqZ in Hi.
    apply list_elem_of_bind in Hin as (j' & Hin & Hj).
    apply elem_of_seqZ in Hj. apply list_elem_of_singleton in Hin.
    inversion Hin; subst. lia.
  - intros (Hi & Hj). exists i. split; [|apply elem_of_seqZ; lia].
    apply list_elem_of_bind. exists j.
    split; [apply list_elem_of_singleton; reflexivity|apply elem_of_seqZ; lia].
Qed.

Lemma NoDup_bin_val_indices n_bins num_vals :
  NoDup (ScalarAccumCollection.bin_val_indices n_bins num_vals).
Proof.
  unfold ScalarAccumCollection.bin_val_indices.
  apply NoDup_bind; [| |apply NoDup_seqZ].
  - intros a1 a2 p _ _ H1 H2.
    apply list_elem_of_bind in H1 as (b1 & H1 & _).
    apply list_elem_of_bind in H2 as (b2 & H2 & _).
    apply list_elem_of_singleton in H1, H2. congruence.
  - intros a _. apply NoDup_bind; [| |apply NoDup_seqZ].
    + intros b1 b2 p _ _ H1 H2.
      apply list_elem_of_singleton in H1, H2. congruence.
    + intros b _. apply NoDup_singleton.
Qed.

(** The accumulators whose fields [access] reads and [assign] writes one by
    one: [get T a j] is the field [j] of type [T] of a well-formed [a]. *)
Section ScalarRoundTrip.
Context {A : Type} `{Accum A} `{Inhabited A}.
Variable wf : A -> Prop.
Variable get : forall T : dtype, A -> Z -> val_t T.

Hypothesis access_get : forall T a j,
  wf a -> 0 <= j < num_type_vals_per_bin_ A T ->
  accum_access T a j = Ok (get T a j).

Hypothesis assign_get : forall T a j v,
  wf a -> 0 <= j < num_type_vals_per_bin_ A T ->
  exists a',
    accum_assign T a j v = Ok a' /\ wf a' /\ get T a' j = v
    /\ (forall T' j', 0 <= j' < num_type_vals_per_bin_ A T' ->
          T' <> T \/ j' <> j -> get T' a' j' = get T' a j').

Hypothesis get_ext : forall a b,
  wf a -> wf b ->
  (forall T j, 0 <= j < num_type_vals_per_bin_ A T -> get T a j = get T b j) ->
  a = b.

Lemma assign_fields T (vals : Z -> val_t T) (js : list Z) (a : A) :
  wf a -> NoDup js ->
  (forall j, j ∈ js -> 0 <= j < num_type_vals_per_bin_ A T) ->
  exists a',
    foldM (fun a j => accum_assign T a j (vals j)) js a = Ok a'
    /\ wf a'
    /\ (forall j, j ∈ js -> get T a' j = vals j)
    /\ (forall T' j', 0 <= j' < num_type_vals_per_bin_ A T' ->
          T' <> T \/ j' ∉ js -> get T' a' j' = get T' a j').
Proof.
  revert a. induction js as [|j0 js IH]; intros a Hwf Hnodup Hrange.
  - exists a. simpl. split; [reflexivity|]. split; [exact Hwf|].
    split; [intros j Hj; inversion Hj|reflexivity].
  - apply NoDup_cons in Hnodup as [Hnotin Hnodup].
    destruct (assign_get T a j0 (vals j0) Hwf) as (a1 & Hassign & Hwf1 & Hget1 & Hframe1).
    { apply Hrange. apply list_elem_of_here. }
    destruct (IH a1 Hwf1 Hnodup) as (a' & Hfold & Hwf' & Hget' & Hframe').
    { intros j Hj. apply Hrange. apply list_elem_of_further. exact Hj. }
    exists a'. simpl. rewrite Hassign. simpl.
    split; [exact Hfold|]. split; [exact Hwf'|]. split.
    + intros j [->|Hj]%elem_of_cons; [|apply Hget'; exact Hj].
      rewrite Hframe'; [exact Hget1| |right; exact Hnotin].
      apply Hrange. apply list_elem_of_here.
    + intros T' j' Hj' Hne. rewrite Hframe'.
      * apply Hframe1; [exact Hj'|]. destruct Hne as [Hne|Hne]; [left; exact Hne|].
        right. intros ->. apply Hne. apply list_elem_of_here.
      * exact Hj'.
      * destruct Hne as [Hne|Hne]; [left; exact Hne|].
        right. intros Hin. apply Hne. apply list_elem_of_further. exact Hin.
Qed.

(** The inner loop of [import_vals] for the bin [i] assigns the fields of
    [accum_list_[i]] and leaves the other bins alone. *)
Lemma import_row T (vals : Z -> Z -> val_t T) (i : Z) (js : list Z)
    (ys : list A) (y : A) :
  ys !! Z.to_nat i = Some y ->
  foldM (fun (c : ScalarAccumCollection.t A) (j : Z) =>
           match ScalarAccumCollection.accum_list_ c !! Z.to_nat i with
           | Some a =>
               a' ← accum_assign T a j (vals i j);
               Ok {| ScalarAccumCollection.accum_list_ :=
                       <[Z.to_nat i := a']> (ScalarAccumCollection.accum_list_ c) |}
           | None => Error "bin index out of range"
           end)
    js {| ScalarAccumCollection.accum_list_ := ys |}
  = (y' ← foldM (fun a j => accum_assign T a j (vals i j)) js y;
     Ok {| ScalarAccumCollection.accum_list_ := <[Z.to_nat i := y']> ys |}).
Proof.
  revert ys y. induction js as [|j js IH]; intros ys y Hy; simpl.
  - rewrite list_insert_id by exact Hy. reflexivity.
  - rewrite Hy. destruct (accum_assign T y j (vals i j)) as [y1|msg]; simpl;
      [|reflexivity].
    rewrite (IH _ y1).
    + destruct (foldM _ js y1) as [y'|msg]; simpl; [|reflexivity].
      rewrite list_insert_insert_eq. reflexivity.
    + apply list_lookup_insert_eq. apply lookup_lt_Some in Hy. exact Hy.
Qed.

Lemma import_rows T (vals : Z -> Z -> val_t T) (num_vals : Z) (bins : list Z)
    (ys : list A) :
  0 <= num_vals <= num_type_vals_per_bin_ A T ->
  Forall wf ys -> NoDup bins ->
  (forall i, i ∈ bins -> 0 <= i < Z.of_nat (length ys)) ->
  exists ys',
    foldM (fun (c : ScalarAccumCollection.t A) (ij : Z * Z) =>
             match ScalarAccumCollection.accum_list_ c !! Z.to_nat ij.1 with
             | Some a =>
                 a' ← accum_assign T a ij.2 (vals ij.1 ij.2);
                 Ok {| ScalarAccumCollection.accum_list_ :=
                         <[Z.to_nat ij.1 := a']>
                           (ScalarAccumCollection.accum_list_ c) |}
             | None => Error "bin index out of range"
             end)
      (i ← bins; j ← seqZ 0 num_vals; [(i, j)])
      {| ScalarAccumCollection.accum_list_ := ys |}
    = Ok {| ScalarAccumCollection.accum_list_ := ys' |}
    /\ length ys' = length ys
    /\ Forall wf ys'
    /\ (forall i, i ∈ bins ->
          forall j, 0 <= j < num_vals ->
            get T (ys' !!! Z.to_nat i) j = vals i j)
    /\ (forall k T' j', 0 <= j' < num_type_vals_per_bin_ A T' ->
          T' <> T \/ Z.of_nat k ∉ bins ->
          get T' (ys' !!! k) j' = get T' (ys !!! k) j').
Proof.
  intros Hnum. revert ys. induction bins as [|i bins IH]; intros ys Hwf Hnodup Hrange.
  - exists ys. simpl. split; [reflexivity|]. split; [reflexivity|].
    split; [exact Hwf|]. split; [intros i Hi; inversion Hi|reflexivity].
  - apply NoDup_cons in Hnodup as [Hnotin Hnodup].
    assert (0 <= i < Z.of_nat (length ys)) as Hi
        by (apply Hrange; apply list_elem_of_here).
    destruct (lookup_lt_is_Some_2 ys (Z.to_nat i) ltac:(lia)) as [y Hy].
    assert (wf y) as Hwfy.
    { eapply Forall_lookup_1; [exact Hwf|exact Hy]. }
    destruct (assign_fields T (vals i) (seqZ 0 num_vals) y Hwfy (NoDup_seqZ _ _))
      as (y' & Hassign & Hwfy' & Hgety' & Hframey').
    { intros j Hj%elem_of_seqZ. lia. }
    destruct (IH (<[Z.to_nat i := y']> ys)) as (ys' & Hfold & Hlen & Hwf' & Hget' & Hframe').
    { apply Forall_insert; assumption. }
    { exact Hnodup. }
    { intros i' Hi'. rewrite length_insert. apply Hrange.
      apply list_elem_of_further. exact Hi'. }
    exists ys'. csimpl. rewrite foldM_app, bind_singleton_fmap, foldM_fmap.
    simpl. rewrite (import_row T vals i (seqZ 0 num_vals) ys y Hy).
    rewrite Hassign. simpl.
    split; [exact Hfold|]. split; [rewrite Hlen; apply length_insert|].
    split; [exact Hwf'|]. split.
    + intros i' [->|Hi']%elem_of_cons j Hj; [|apply Hget'; assumption].
      rewrite Hframe'; [|lia|right; rewrite Z2Nat.id by lia; exact Hnotin].
      rewrite list_lookup_total_insert_eq by lia.
      apply Hgety'. apply elem_of_seqZ. lia.
    + intros k T' j' Hj' Hne. rewrite Hframe'.
      * destruct (decide (k = Z.to_nat i)) as [->|Hk].
        -- rewrite list_lookup_total_insert_eq by lia.
           rewrite (list_lookup_total_correct _ _ _ Hy).
           apply Hframey'; [exact Hj'|].
           destruct Hne as [Hne|Hne]; [left; exact Hne|].
           exfalso. apply Hne. rewrite Z2Nat.id by lia. apply list_elem_of_here.
        -- rewrite list_lookup_total_insert_ne by congruence. reflexivity.
      * exact Hj'.
      * destruct Hne as [Hne|Hne]; [left; exact Hne|].
        right. intros Hin. apply Hne. apply list_elem_of_further. exact Hin.
Qed.

Lemma scalar_copy_vals_spec T (xs : list A) (out : list (val_t T)) (offset : Z) :
  Forall wf xs ->
  Z.of_nat (length xs) * num_type_vals_per_bin_ A T < 2 ^ 64 ->
  0 <= offset ->
  offset + Z.of_nat (length xs) * num_type_vals_per_bin_ A T
    <= Z.of_nat (length out) ->
  exists out',
    ScalarAccumCollection.copy_vals T
      {| ScalarAccumCollection.accum_list_ := xs |} out offset = Ok out'
    /\ length out' = length out
    /\ forall i j,
         0 <= i < Z.of_nat (length xs) ->
         0 <= j < num_type_vals_per_bin_ A T ->
         buf_read out' offset (wrap64 (i + wrap64 (j * Z.of_nat (length xs))))
         = get T (xs !!! Z.to_nat i) j.
Proof.
  intros Hwf Hsize Hoff Hlen. unfold ScalarAccumCollection.copy_vals. simpl.
  set (n := Z.of_nat (length xs)) in *.
  set (num := num_type_vals_per_bin_ A T) in *.
  assert (forall i j, 0 <= i < n -> 0 <= j < num ->
            wrap64 (i + wrap64 (j * n)) = i + j * n
            /\ 0 <= i + j * n < n * num) as Hidx.
  { intros i j Hi Hj. assert (0 <= j * n /\ i + j * n < n * num) by nia.
    rewrite (wrap64_small (j * n)) by lia. rewrite wrap64_small by lia. lia. }
  set (pos := fun ij : Z * Z => Z.to_nat (offset + (ij.1 + ij.2 * n))).
  set (val := fun ij : Z * Z => get T (xs !!! Z.to_nat ij.1) ij.2).
  rewrite (foldM_ext_in _
             (fun (out : list (val_t T)) ij => Ok (<[pos ij := val ij]> out))).
  2:{ intros out0 [i j] (Hi & Hj)%elem_of_bin_val_indices. simpl.
      destruct (lookup_lt_is_Some_2 xs (Z.to_nat i) ltac:(lia)) as [x Hx].
      rewrite Hx.
      rewrite access_get; [|eapply Forall_lookup_1; eassumption|lia].
      simpl. unfold buf_write, pos, val. simpl.
      destruct (Hidx i j Hi Hj) as [-> _].
      rewrite (list_lookup_total_correct _ _ _ Hx). reflexivity. }
  destruct (foldM_writes pos val
              (ScalarAccumCollection.bin_val_indices n num) out)
    as (out' & Hfold & Hlen' & Hin & _).
  - apply NoDup_fmap_2_strong; [|apply NoDup_bin_val_indices].
    intros [i j] [i' j'] (Hi & Hj)%elem_of_bin_val_indices
      (Hi' & Hj')%elem_of_bin_val_indices Heq.
    unfold pos in Heq. simpl in Heq.
    assert (i + j * n = i' + j' * n) as Heq' by nia.
    assert (j = j') by nia. subst j'. f_equal. lia.
  - intros [i j] (Hi & Hj)%elem_of_bin_val_indices. unfold pos. simpl.
    destruct (Hidx i j Hi Hj) as [_ ?]. lia.
  - exists out'. split; [exact Hfold|]. split; [exact Hlen'|].
    intros i j Hi Hj. destruct (Hidx i j Hi Hj) as [-> _].
    unfold buf_read. apply list_lookup_total_correct.
    apply (Hin (i, j)). apply elem_of_bin_val_indices. lia.
Qed.

Lemma scalar_import_vals_spec T (ys : list A) (in_vals : list (val_t T))
    (offset : Z) :
  Forall wf ys ->
  exists ys',
    ScalarAccumCollection.import_vals T
      {| ScalarAccumCollection.accum_list_ := ys |} in_vals offset
    = Ok {| ScalarAccumCollection.accum_list_ := ys' |}
    /\ length ys' = length ys
    /\ Forall wf ys'
    /\ (forall i j,
          0 <= i < Z.of_nat (length ys) ->
          0 <= j < num_type_vals_per_bin_ A T ->
          get T (ys' !!! Z.to_nat i) j
          = buf_read in_vals offset
              (wrap64 (i + wrap64 (j * Z.of_nat (length ys)))))
    /\ (forall k T' j',
          0 <= j' < num_type_vals_per_bin_ A T' -> T' <> T ->
          get T' (ys' !!! k) j' = get T' (ys !!! k) j').
Proof.
  intros Hwf. unfold ScalarAccumCollection.import_vals. simpl.
  set (n := Z.of_nat (length ys)).
  assert (0 <= num_type_vals_per_bin_ A T) as Hnum
      by (unfold num_type_vals_per_bin_; destruct T; lia).
  destruct (import_rows T
              (fun i j => buf_read in_vals offset (wrap64 (i + wrap64 (j * n))))
              (num_type_vals_per_bin_ A T) (seqZ 0 n) ys
              (conj Hnum (Z.le_refl _)) Hwf (NoDup_seqZ _ _))
    as (ys' & Hfold & Hlen & Hwf' & Hget & Hframe).
  { intros i Hi%elem_of_seqZ. lia. }
  exists ys'. split; [exact Hfold|]. split; [exact Hlen|]. split; [exact Hwf'|].
  split.
  - intros i j Hi Hj. apply Hget; [apply elem_of_seqZ; lia|exact Hj].
  - intros k T' j' Hj' Hne. apply Hframe; [exact Hj'|left; exact Hne].
Qed.

(** Writing the integer and the floating-point fields of [X] to two buffers
    and reading the buffers back into a collection [Y] with as many bins
    gives [X]. *)
Lemma scalar_round_trip (X Y : ScalarAccumCollection.t A)
    (out_i64 : list Z) (offset_i64 : Z) (out_flt : list double)
    (offset_flt : Z) :
  Forall wf (ScalarAccumCollection.accum_list_ X) ->
  Forall wf (ScalarAccumCollection.accum_list_ Y) ->
  length (ScalarAccumCollection.accum_list_ Y)
  = length (ScalarAccumCollection.accum_list_ X) ->
  (forall T, ScalarAccumCollection.n_spatial_bins X
             * num_type_vals_per_bin_ A T < 2 ^ 64) ->
  0 <= offset_i64 ->
  offset_i64 + ScalarAccumCollection.n_spatial_bins X
               * num_type_vals_per_bin_ A Int64 <= Z.of_nat (length out_i64) ->
  0 <= offset_flt ->
  offset_flt + ScalarAccumCollection.n_spatial_bins X
               * num_type_vals_per_bin_ A Double <= Z.of_nat (length out_flt) ->
  exists (buf_i64 : list Z) (buf_flt : list double) Y1,
    copy_vals Int64 X out_i64 offset_i64 = Ok buf_i64
    /\ copy_vals Double X out_flt offset_flt = Ok buf_flt
    /\ import_vals Int64 Y buf_i64 offset_i64 = Ok Y1
    /\ import_vals Double Y1 buf_flt offset_flt = Ok X.
Proof.
  destruct X as [xs], Y as [ys]. unfold ScalarAccumCollection.n_spatial_bins.
  simpl. intros HwfX HwfY Hlen Hsize Hoi Hli Hof Hlf.
  destruct (scalar_copy_vals_spec Int64 xs out_i64 offset_i64 HwfX (Hsize Int64)
              Hoi Hli) as (buf_i64 & Hci & _ & Hbi).
  destruct (scalar_copy_vals_spec Double xs out_flt offset_flt HwfX
              (Hsize Double) Hof Hlf) as (buf_flt & Hcf & _ & Hbf).
  destruct (scalar_import_vals_spec Int64 ys buf_i64 offset_i64 HwfY)
    as (ys1 & Hii & Hlen1 & Hwf1 & Hget1 & _).
  destruct (scalar_import_vals_spec Double ys1 buf_flt offset_flt Hwf1)
    as (ys2 & Hif & Hlen2 & Hwf2 & Hget2 & Hframe2).
  exists buf_i64, buf_flt, {| ScalarAccumCollection.accum_list_ := ys1 |}.
  split; [exact Hci|]. split; [exact Hcf|]. split; [exact Hii|].
  simpl. unfold ScalarAccumCollection_AccumCollection. simpl.
  rewrite Hif. do 2 f_equal.
  apply list_eq_same_length with (length xs); [reflexivity|lia|].
  intros k y x Hk Hy Hx.
  apply get_ext.
  - exact (Forall_lookup_1 _ _ _ _ Hwf2 Hy).
  - exact (Forall_lookup_1 _ _ _ _ HwfX Hx).
  - intros T j Hj.
    rewrite <- (list_lookup_total_correct _ _ _ Hy).
    rewrite <- (list_lookup_total_correct _ _ _ Hx).
    replace k with (Z.to_nat (Z.of_nat k)) by lia.
    destruct T.
    + rewrite Hframe2 by (try exact Hj; discriminate).
      rewrite Hget1 by lia. rewrite Hlen. apply Hbi; lia.
    + rewrite Hget2 by lia. rewrite Hlen1, Hlen. apply Hbf; lia.
Qed.

End ScalarRoundTrip.

(** *** The two accumulators meet the conditions of the round trip *)

Lemma central_num_vals (Order : nat) (CountT : dtype) (T : dtype) :
  (1 <= Order <= 3)%nat ->
  num_type_vals_per_bin_ (CentralMomentAccum.t Order CountT) T
  = match T, CountT with
    | Int64, Int64 => 1
    | Int64, Double => 0
    | Double, Int64 => Z.of_nat Order
    | Double, Double => Z.of_nat Order + 1
    end.
Proof.
  intros HO. assert (Order = 1 \/ Order = 2 \/ Order = 3)%nat as [->|[->| ->]] by lia;
    destruct T, CountT; reflexivity.
Qed.

Lemma origin_num_vals (Order : nat) (CountT : dtype) (T : dtype) :
  (1 <= Order)%nat ->
  num_type_vals_per_bin_ (OriginMomentAccum.t Order CountT) T
  = match T, CountT with
    | Int64, Int64 => 1
    | Int64, Double => 0
    | Double, Int64 => Z.of_nat Order
    | Double, Double => Z.of_nat Order + 1
    end.
Proof.
  intros HO. unfold num_type_vals_per_bin_. simpl.
  unfold OriginMomentAccum.i64_val_names, OriginMomentAccum.flt_val_names.
  destruct T, CountT; simpl; try reflexivity;
    rewrite ?length_app, length_fmap, length_seq; simpl; lia.
Qed.

Lemma list_eq_lookup_total {X : Type} `{Inhabited X} (l1 l2 : list X) :
  length l1 = length l2 ->
  (forall k, (k < length l1)%nat -> l1 !!! k = l2 !!! k) ->
  l1 = l2.
Proof.
  intros Hlen Heq. apply list_eq. intros k.
  destruct (Nat.lt_ge_cases k (length l1)) as [Hk|Hk].
  - rewrite (list_lookup_lookup_total_lt l1) by exact Hk.
    rewrite (list_lookup_lookup_total_lt l2) by lia.
    rewrite Heq by exact Hk. reflexivity.
  - rewrite !lookup_ge_None_2 by lia. reflexivity.
Qed.

Section CentralFields.
Variable Order : nat.
Variable CountT : dtype.
Hypothesis HOrder : (1 <= Order <= 3)%nat.

Lemma central_access_field T (a : CentralMomentAccum.t Order CountT) j :
  central_wf a ->
  0 <= j < num_type_vals_per_bin_ (CentralMomentAccum.t Order CountT) T ->
  accum_access T a j = Ok (central_field T a j).
Proof.
  intros Hwf. rewrite central_num_vals by exact HOrder.
  unfold central_field. simpl. unfold CentralMomentAccum.access.
  destruct T, CountT; intros Hj.
  - destruct (Z.eqb_spec j 0); [reflexivity|lia].
  - lia.
  - destruct (Z.leb_spec (Z.of_nat Order) j); [lia|reflexivity].
  - destruct (Z.ltb_spec (Z.of_nat Order) j); [lia|].
    destruct (Z.eqb_spec j 0); [reflexivity|].
    rewrite wrap64_small by lia. reflexivity.
Qed.

Lemma central_assign_field T (a : CentralMomentAccum.t Order CountT) j v :
  central_wf a ->
  0 <= j < num_type_vals_per_bin_ (CentralMomentAccum.t Order CountT) T ->
  exists a',
    accum_assign T a j v = Ok a' /\ central_wf a' /\ central_field T a' j = v
    /\ (forall T' j',
          0 <= j' < num_type_vals_per_bin_ (CentralMomentAccum.t Order CountT) T' ->
          T' <> T \/ j' <> j -> central_field T' a' j' = central_field T' a j').
Proof.
  intros Hwf. rewrite central_num_vals by exact HOrder.
  unfold central_wf, central_field in *. simpl.
  unfold CentralMomentAccum.assign.
  destruct T, CountT; intros Hj.
  - destruct (Z.eqb_spec j 0); [|lia]. simpl.
    eexists. split; [reflexivity|]. split; [exact Hwf|]. split; [reflexivity|].
    intros T' j'. rewrite central_num_vals by exact HOrder.
    destruct T'; intros Hj' [Hne|Hne]; try contradiction; try reflexivity. lia.
  - lia.
  - destruct (Z.leb_spec (Z.of_nat Order) j); [lia|].
    eexists. split; [reflexivity|]. simpl.
    split; [rewrite length_insert; exact Hwf|].
    split; [apply list_lookup_total_insert_eq; lia|].
    intros T' j'. rewrite central_num_vals by exact HOrder.
    destruct T'; intros Hj' [Hne|Hne]; try contradiction; try reflexivity.
    apply list_lookup_total_insert_ne. lia.
  - destruct (Z.ltb_spec (Z.of_nat Order) j); [lia|].
    destruct (Z.eqb_spec j 0) as [->|Hj0].
    + eexists. split; [reflexivity|]. simpl. split; [exact Hwf|].
      split; [reflexivity|].
      intros T' j'. rewrite central_num_vals by exact HOrder.
      destruct T'; intros Hj' [Hne|Hne]; try contradiction; try lia.
      destruct (Z.eqb_spec j' 0); [lia|reflexivity].
    + rewrite wrap64_small by lia.
      eexists. split; [reflexivity|]. simpl.
      split; [rewrite length_insert; exact Hwf|].
      split; [apply list_lookup_total_insert_eq; lia|].
      intros T' j'. rewrite central_num_vals by exact HOrder.
      destruct T'; intros Hj' [Hne|Hne]; try contradiction; try lia.
      destruct (Z.eqb_spec j' 0); [reflexivity|].
      apply list_lookup_total_insert_ne. lia.
Qed.

Lemma central_field_ext (a b : CentralMomentAccum.t Order CountT) :
  central_wf a -> central_wf b ->
  (forall T j,
     0 <= j < num_type_vals_per_bin_ (CentralMomentAccum.t Order CountT) T ->
     central_field T a j = central_field T b j) ->
  a = b.
Proof.
  intros Hwfa Hwfb Heq.
  assert (forall T j,
            0 <= j < match T, CountT with
                     | Int64, Int64 => 1
                     | Int64, Double => 0
                     | Double, Int64 => Z.of_nat Order
                     | Double, Double => Z.of_nat Order + 1
                     end ->
            central_field T a j = central_field T b j) as Heq'.
  { intros T j Hj. apply Heq. rewrite central_num_vals by exact HOrder. exact Hj. }
  clear Heq. unfold central_wf, central_field in *.
  destruct a as [ca ma], b as [cb mb]. simpl in *.
  assert (ma = mb) as ->.
  { apply list_eq_lookup_total; [congruence|]. intros k Hk.
    destruct CountT.
    - specialize (Heq' Double (Z.of_nat k) ltac:(lia)). simpl in Heq'.
      rewrite Nat2Z.id in Heq'. exact Heq'.
    - specialize (Heq' Double (Z.of_nat k + 1) ltac:(lia)). simpl in Heq'.
      destruct (Z.eqb_spec (Z.of_nat k + 1) 0); [lia|].
      replace (Z.to_nat (Z.of_nat k + 1 - 1)) with k in Heq' by lia.
      exact Heq'. }
  f_equal. destruct CountT.
  - exact (Heq' Int64 0 ltac:(lia)).
  - exact (Heq' Double 0 ltac:(lia)).
Qed.

End CentralFields.

Section OriginFields.
Variable Order : nat.
Variable CountT : dtype.
Hypothesis HOrder : (1 <= Order)%nat.
Hypothesis HOrder64 : Z.of_nat Order < 2 ^ 64 - 1.

Lemma origin_access_field T (a : OriginMomentAccum.t Order CountT) j :
  origin_wf a ->
  0 <= j < num_type_vals_per_bin_ (OriginMomentAccum.t Order CountT) T ->
  accum_access T a j = Ok (origin_field T a j).
Proof.
  intros Hwf. rewrite origin_num_vals by exact HOrder.
  unfold origin_field. simpl. unfold OriginMomentAccum.access.
  destruct T, CountT; intros Hj.
  - destruct (Z.eqb_spec j 0); [reflexivity|lia].
  - lia.
  - destruct (Z.leb_spec (Z.of_nat Order) j); [lia|reflexivity].
  - destruct (Z.ltb_spec (Z.of_nat Order) j); [lia|].
    destruct (Z.eqb_spec j 0); [reflexivity|].
    rewrite wrap64_small by lia. reflexivity.
Qed.

Lemma origin_assign_field T (a : OriginMomentAccum.t Order CountT) j v :
  origin_wf a ->
  0 <= j < num_type_vals_per_bin_ (OriginMomentAccum.t Order CountT) T ->
  exists a',
    accum_assign T a j v = Ok a' /\ origin_wf a' /\ origin_field T a' j = v
    /\ (forall T' j',
          0 <= j' < num_type_vals_per_bin_ (OriginMomentAccum.t Order CountT) T' ->
          T' <> T \/ j' <> j -> origin_field T' a' j' = origin_field T' a j').
Proof.
  intros Hwf. rewrite origin_num_vals by exact HOrder.
  unfold origin_wf, origin_field in *. simpl.
  unfold OriginMomentAccum.assign.
  destruct T, CountT; intros Hj.
  - destruct (Z.eqb_spec j 0); [|lia]. simpl.
    eexists. split; [reflexivity|]. split; [exact Hwf|]. split; [reflexivity|].
    intros T' j'. rewrite origin_num_vals by exact HOrder.
    destruct T'; intros Hj' [Hne|Hne]; try contradiction; try reflexivity. lia.
  - lia.
  - destruct (Z.leb_spec (Z.of_nat Order) j); [lia|].
    eexists. split; [reflexivity|]. simpl.
    split; [rewrite length_insert; exact Hwf|].
    split; [apply list_lookup_total_insert_eq; lia|].
    intros T' j'. rewrite origin_num_vals by exact HOrder.
    destruct T'; intros Hj' [Hne|Hne]; try contradiction; try reflexivity.
    apply list_lookup_total_insert_ne. lia.
  - destruct (Z.ltb_spec (Z.of_nat Order) j); [lia|].
    destruct (Z.eqb_spec j 0) as [->|Hj0].
    + eexists. split; [reflexivity|]. simpl. split; [exact Hwf|].
      split; [reflexivity|].
      intros T' j'. rewrite origin_num_vals by exact HOrder.
      destruct T'; intros Hj' [Hne|Hne]; try contradiction; try lia.
      destruct (Z.eqb_spec j' 0); [lia|reflexivity].
    + rewrite wrap64_small by lia.
      eexists. split; [reflexivity|]. simpl.
      split; [rewrite length_insert; exact Hwf|].
      split; [apply list_lookup_total_insert_eq; lia|].
      intros T' j'. rewrite origin_num_vals by exact HOrder.
      destruct T'; intros Hj' [Hne|Hne]; try contradiction; try lia.
      destruct (Z.eqb_spec j' 0); [reflexivity|].
      apply list_lookup_total_insert_ne. lia.
Qed.

Lemma origin_field_ext (a b : OriginMomentAccum.t Order CountT) :
  origin_wf a -> origin_wf b ->
  (forall T j,
     0 <= j < num_type_vals_per_bin_ (OriginMomentAccum.t Order CountT) T ->
     origin_field T a j = origin_field T b j) ->
  a = b.
Proof.
  intros Hwfa Hwfb Heq.
  assert (forall T j,
            0 <= j < match T, CountT with
                     | Int64, Int64 => 1
                     | Int64, Double => 0
                     | Double, Int64 => Z.of_nat Order
                     | Double, Double => Z.of_nat Order + 1
                     end ->
            origin_field T a j = origin_field T b j) as Heq'.
  { intros T j Hj. apply Heq. rewrite origin_num_vals by exact HOrder. exact Hj. }
  clear Heq. unfold origin_wf, origin_field in *.
  destruct a as [ca ma], b as [cb mb]. simpl in *.
  assert (ma = mb) as ->.
  { apply list_eq_lookup_total; [congruence|]. intros k Hk.
    destruct CountT.
    - specialize (Heq' Double (Z.of_nat k) ltac:(lia)). simpl in Heq'.
      rewrite Nat2Z.id in Heq'. exact Heq'.
    - specialize (Heq' Double (Z.of_nat k + 1) ltac:(lia)). simpl in Heq'.
      destruct (Z.eqb_spec (Z.of_nat k + 1) 0); [lia|].
      replace (Z.to_nat (Z.of_nat k + 1 - 1)) with k in Heq' by lia.
      exact Heq'. }
  f_equal. destruct CountT.
  - exact (Heq' Int64 0 ltac:(lia)).
  - exact (Heq' Double 0 ltac:(lia)).
Qed.

End OriginFields.

(** *** Histogram collections *)

Lemma foldl_writes {X I : Type} (pos : I -> nat) (val : I -> X) (l : list I)
    (out : list X) :
  NoDup (pos <$> l) ->
  (forall i, i ∈ l -> (pos i < length out)%nat) ->
  let out' := foldl (fun (out : list X) (i : I) => <[pos i := val i]> out) out l in
  length out' = length out
  /\ (forall i, i ∈ l -> out' !! pos i = Some (val i))
  /\ (forall k, k ∉ pos <$> l -> out' !! k = out !! k).
Proof.
  revert out. induction l as [|i0 l IH]; intros out Hnodup Hlen.
  - simpl. split; [reflexivity|].
    split; [intros i Hin; inversion Hin|reflexivity].
  - simpl in Hnodup. apply NoDup_cons in Hnodup as [Hnotin Hnodup].
    destruct (IH (<[pos i0 := val i0]> out) Hnodup) as (Hl & Hin' & Hout').
    { intros i Hi. rewrite length_insert. apply Hlen.
      apply list_elem_of_further. exact Hi. }
    simpl. split; [rewrite Hl; apply length_insert|]. split.
    + intros i [->|Hi]%elem_of_cons; [|apply Hin'; exact Hi].
      rewrite Hout' by exact Hnotin.
      apply list_lookup_insert_eq. apply Hlen. apply list_elem_of_here.
    + intros k Hk. simpl in Hk.
      apply not_elem_of_cons in Hk as [Hne Hk].
      rewrite Hout' by exact Hk. apply list_lookup_insert_ne. congruence.
Qed.

Lemma histogram_copy_import (X : Type) `{Inhabited X} (counts ycounts out : list X)
    (offset : Z) :
  length ycounts = length counts ->
  0 <= offset ->
  offset + Z.of_nat (length counts) <= Z.of_nat (length out) ->
  let buf :=
    foldl (fun (out : list X) (i : nat) =>
             buf_write out offset (Z.of_nat i) (counts !!! i))
      out (seq 0 (length counts)) in
  foldl (fun (c : list X) (i : nat) =>
           <[i := buf_read buf offset (Z.of_nat i)]> c)
    ycounts (seq 0 (length ycounts))
  = counts.
Proof.
  intros Hlen Hoff Hroom buf.
  destruct (foldl_writes (fun i : nat => Z.to_nat (offset + Z.of_nat i))
              (fun i : nat => counts !!! i) (seq 0 (length counts)) out)
    as (Hbl & Hbuf & _).
  { apply NoDup_fmap_2_strong; [|apply NoDup_seq].
    intros i i' _ _ Heq. lia. }
  { intros i Hi%elem_of_seq. lia. }
  fold buf in Hbl, Hbuf.
  destruct (foldl_writes (fun i : nat => i)
              (fun i : nat => buf_read buf offset (Z.of_nat i))
              (seq 0 (length ycounts)) ycounts)
    as (Hcl & Hc & _).
  { rewrite list_fmap_id. apply NoDup_seq. }
  { intros i Hi%elem_of_seq. lia. }
  apply list_eq_same_length with (length counts); [reflexivity|lia|].
  intros k y x Hk Hy Hx.
  assert (k ∈ seq 0 (length counts)) as Hin by (apply elem_of_seq; lia).
  rewrite Hc in Hy by (apply elem_of_seq; lia).
  inversion Hy; subst y. unfold buf_read.
  rewrite (list_lookup_total_correct _ _ _ (Hbuf k Hin)).
  apply list_lookup_total_correct. exact Hx.
Qed.

Lemma histogram_round_trip (T : dtype)
    (X Y : GenericHistogramAccumCollection.t T)
    (out_i64 : list Z) (offset_i64 : Z) (out_flt : list double)
    (offset_flt : Z) :
  GenericHistogramAccumCollection.n_spatial_bins_ Y
  = GenericHistogramAccumCollection.n_spatial_bins_ X ->
  GenericHistogramAccumCollection.n_data_bins_ Y
  = GenericHistogramAccumCollection.n_data_bins_ X ->
  length (GenericHistogramAccumCollection.bin_counts_ Y)
  = length (GenericHistogramAccumCollection.bin_counts_ X) ->
  0 <= offset_i64 -> 0 <= offset_flt ->
  match T with
  | Int64 =>
      offset_i64
      + Z.of_nat (length (GenericHistogramAccumCollection.bin_counts_ X))
      <= Z.of_nat (length out_i64)
  | Double =>
      offset_flt
      + Z.of_nat (length (GenericHistogramAccumCollection.bin_counts_ X))
      <= Z.of_nat (length out_flt)
  end ->
  exists (buf_i64 : list Z) (buf_flt : list double) Y1 Y2,
    copy_vals Int64 X out_i64 offset_i64 = Ok buf_i64
    /\ copy_vals Double X out_flt offset_flt = Ok buf_flt
    /\ import_vals Int64 Y buf_i64 offset_i64 = Ok Y1
    /\ import_vals Double Y1 buf_flt offset_flt = Ok Y2
    /\ Y2
       = GenericHistogramAccumCollection.Build_t T
           (GenericHistogramAccumCollection.n_spatial_bins_ X)
           (GenericHistogramAccumCollection.n_data_bins_ X)
           (GenericHistogramAccumCollection.bin_counts_ X)
           (GenericHistogramAccumCollection.data_bin_edges_ Y)
    /\ (Y2 = X
        <-> GenericHistogramAccumCollection.data_bin_edges_ Y
            = GenericHistogramAccumCollection.data_bin_edges_ X).
Proof.
  destruct X as [xs xd xc xe], Y as [ys yd yc ye]. simpl.
  intros -> -> Hlen Hoi Hof Hroom.
  assert (Hiff : GenericHistogramAccumCollection.Build_t T xs xd xc ye
                 = GenericHistogramAccumCollection.Build_t T xs xd xc xe
                 <-> ye = xe).
  { split; [intros [= ->]; reflexivity|intros ->; reflexivity]. }
  destruct T; simpl in *.
  - eexists. eexists. eexists.
    exists (GenericHistogramAccumCollection.Build_t Int64 xs xd xc ye).
    split; [reflexivity|]. split; [reflexivity|]. split; [reflexivity|].
    split; [|split; [reflexivity|exact Hiff]].
    unfold GenericHistogramAccumCollection.import_vals. simpl. do 2 f_equal.
    apply (histogram_copy_import Z); assumption.
  - eexists. eexists. eexists.
    exists (GenericHistogramAccumCollection.Build_t Double xs xd xc ye).
    split; [reflexivity|]. split; [reflexivity|]. split; [reflexivity|].
    split; [|split; [reflexivity|exact Hiff]].
    unfold GenericHistogramAccumCollection.import_vals. simpl. do 2 f_equal.
    apply (histogram_copy_import double); assumption.
Qed.

(** The copies of a compound accumulator are the copies of its members, one
    after the other. *)
Example compound_copy_vals_layout :
  CompoundAccumCollection.copy_vals Int64 compound_example [0; 0; 0; 0] 0
  = Ok [2; 4; 5; 0]
  /\ CompoundAccumCollection.copy_vals Double compound_example [d_of_Z 0] 0
     = Ok [d_of_Z 7].
Proof. split; reflexivity. Qed.

(** C4 (amended).  For every collection [X] of central-moment accumulators
    ([1 <= Order <= 3]) and every collection [X] of origin-moment
    accumulators ([1 <= Order]): the integer and the floating-point values
    of [X] written by [copy_vals] to two buffers that have room for them,
    and read back by [import_vals] into a collection [Y] with as many
    spatial bins, give [X].  For every histogram collection [X] and every
    histogram collection [Y] of the shape of [X] (as many spatial bins, data
    bins and counts), they give the shape and the counts of [X] with the
    edges of the data bins of [Y], which [import_vals] does not touch: this
    is [X] exactly when [Y] has the edges of [X].
    ([CompoundAccumCollection::import_vals] is not implemented.) *)
Theorem copy_import_round_trip :
  (forall (Order : nat) (CountT : dtype)
      (X Y : ScalarAccumCollection.t (CentralMomentAccum.t Order CountT))
      (out_i64 : list Z) (offset_i64 : Z) (out_flt : list double)
      (offset_flt : Z),
      (1 <= Order <= 3)%nat ->
      Forall central_wf (ScalarAccumCollection.accum_list_ X) ->
      Forall central_wf (ScalarAccumCollection.accum_list_ Y) ->
      length (ScalarAccumCollection.accum_list_ Y)
      = length (ScalarAccumCollection.accum_list_ X) ->
      n_spatial_bins X * (Z.of_nat Order + 1) < 2 ^ 64 ->
      0 <= offset_i64 ->
      offset_i64
      + n_spatial_bins X
        * num_type_vals_per_bin_ (CentralMomentAccum.t Order CountT) Int64
      <= Z.of_nat (length out_i64) ->
      0 <= offset_flt ->
      offset_flt
      + n_spatial_bins X
        * num_type_vals_per_bin_ (CentralMomentAccum.t Order CountT) Double
      <= Z.of_nat (length out_flt) ->
      exists (buf_i64 : list Z) (buf_flt : list double) Y1,
        copy_vals Int64 X out_i64 offset_i64 = Ok buf_i64
        /\ copy_vals Double X out_flt offset_flt = Ok buf_flt
        /\ import_vals Int64 Y buf_i64 offset_i64 = Ok Y1
        /\ import_vals Double Y1 buf_flt offset_flt = Ok X)
  /\ (forall (Order : nat) (CountT : dtype)
        (X Y : ScalarAccumCollection.t (OriginMomentAccum.t Order CountT))
        (out_i64 : list Z) (offset_i64 : Z) (out_flt : list double)
        (offset_flt : Z),
        (1 <= Order)%nat ->
        Forall origin_wf (ScalarAccumCollection.accum_list_ X) ->
        Forall origin_wf (ScalarAccumCollection.accum_list_ Y) ->
        length (ScalarAccumCollection.accum_list_ Y)
        = length (ScalarAccumCollection.accum_list_ X) ->
        Z.of_nat Order < 2 ^ 64 - 1 ->
        n_spatial_bins X * (Z.of_nat Order + 1) < 2 ^ 64 ->
        0 <= offset_i64 ->
        offset_i64
        + n_spatial_bins X
          * num_type_vals_per_bin_ (OriginMomentAccum.t Order CountT) Int64
        <= Z.of_nat (length out_i64) ->
        0 <= offset_flt ->
        offset_flt
        + n_spatial_bins X
          * num_type_vals_per_bin_ (OriginMomentAccum.t Order CountT) Double
        <= Z.of_nat (length out_flt) ->
        exists (buf_i64 : list Z) (buf_flt : list double) Y1,
          copy_vals Int64 X out_i64 offset_i64 = Ok buf_i64
          /\ copy_vals Double X out_flt offset_flt = Ok buf_flt
          /\ import_vals Int64 Y buf_i64 offset_i64 = Ok Y1
          /\ import_vals Double Y1 buf_flt offset_flt = Ok X)
  /\ (forall (T : dtype) (X Y : GenericHistogramAccumCollection.t T)
        (out_i64 : list Z) (offset_i64 : Z) (out_flt : list double)
        (offset_flt : Z),
        GenericHistogramAccumCollection.n_spatial_bins_ Y
        = GenericHistogramAccumCollection.n_spatial_bins_ X ->
        GenericHistogramAccumCollection.n_data_bins_ Y
        = GenericHistogramAccumCollection.n_data_bins_ X ->
        length (GenericHistogramAccumCollection.bin_counts_ Y)
        = length (GenericHistogramAccumCollection.bin_counts_ X) ->
        0 <= offset_i64 -> 0 <= offset_flt ->
        match T with
        | Int64 =>
            offset_i64
            + Z.of_nat (length (GenericHistogramAccumCollection.bin_counts_ X))
            <= Z.of_nat (length out_i64)
        | Double =>
            offset_flt
            + Z.of_nat (length (GenericHistogramAccumCollection.bin_counts_ X))
            <= Z.of_nat (length out_flt)
        end ->
        exists (buf_i64 : list Z) (buf_flt : list double) Y1 Y2,
          copy_vals Int64 X out_i64 offset_i64 = Ok buf_i64
          /\ copy_vals Double X out_flt offset_flt = Ok buf_flt
          /\ import_vals Int64 Y buf_i64 offset_i64 = Ok Y1
          /\ import_vals Double Y1 buf_flt offset_flt = Ok Y2
          /\ Y2
             = GenericHistogramAccumCollection.Build_t T
                 (GenericHistogramAccumCollection.n_spatial_bins_ X)
                 (GenericHistogramAccumCollection.n_data_bins_ X)
                 (GenericHistogramAccumCollection.bin_counts_ X)
                 (GenericHistogramAccumCollection.data_bin_edges_ Y)
          /\ (Y2 = X
              <-> GenericHistogramAccumCollection.data_bin_edges_ Y
                  = GenericHistogramAccumCollection.data_bin_edges_ X)).
Proof.
  split; [|split].
  - intros Order CountT X Y out_i64 offset_i64 out_flt offset_flt HO HwfX HwfY
      Hlen Hsize Hoi Hli Hof Hlf.
    assert (0 <= n_spatial_bins X) as Hn
        by (simpl; unfold ScalarAccumCollection.n_spatial_bins; lia).
    apply (scalar_round_trip central_wf (@central_field Order CountT));
      try assumption.
    + intros T a j. apply central_access_field; assumption.
    + intros T a j v. apply central_assign_field; assumption.
    + intros a b. apply central_field_ext; assumption.
    + intros T. rewrite central_num_vals by exact HO. simpl in *.
      destruct T, CountT; nia.
  - intros Order CountT X Y out_i64 offset_i64 out_flt offset_flt HO HwfX HwfY
      Hlen HO64 Hsize Hoi Hli Hof Hlf.
    assert (0 <= n_spatial_bins X) as Hn
        by (simpl; unfold ScalarAccumCollection.n_spatial_bins; lia).
    apply (scalar_round_trip origin_wf (@origin_field Order CountT));
      try assumption.
    + intros T a j. apply origin_access_field; assumption.
    + intros T a j v. apply origin_assign_field; assumption.
    + intros a b. apply origin_field_ext; assumption.
    + intros T. rewrite origin_num_vals by exact HO. simpl in *.
      destruct T, CountT; nia.
  - intros T X Y. apply histogram_round_trip.
Qed.

Lemma copy_import_round_trip_witness :
  exists X Y1 (buf_i64 : list Z) (buf_flt : list double),
    variance_collection_example = Ok X
    /\ copy_vals Int64 X [0; 0; 0] 1 = Ok buf_i64
    /\ copy_vals Double X (replicate 4 (d_of_Z 0)) 0 = Ok buf_flt
    /\ import_vals Int64 (purge X) buf_i64 1 = Ok Y1
    /\ import_vals Double Y1 buf_flt 0 = Ok X.
Proof.
  destruct copy_import_round_trip as (Hcentral & _ & _).
  destruct variance_collection_example as [X|] eqn:HX; [|discriminate].
  vm_compute in HX. inversion HX; subst X. clear HX.
  eexists.
  edestruct (Hcentral 2%nat Int64) as (buf_i64 & buf_flt & Y1 & Hci & Hcf & Hii & Hif);
    [| | | | | | | | |exists Y1, buf_i64, buf_flt;
       split; [reflexivity|]; split; [exact Hci|]; split; [exact Hcf|];
       split; [exact Hii|exact Hif]].
  - lia.
  - repeat constructor.
  - repeat constructor.
  - reflexivity.
  - reflexivity.
  - lia.
  - vm_compute. discriminate.
  - lia.
  - vm_compute. discriminate.
Defined.

(** The claim as stated fails for the compound accumulators:
    [import_vals] of [CompoundAccumCollection] is the fatal error
    "Not Implemented", so that the values [copy_vals] wrote are not read
    back.  It fails for the histograms as well when the collection that
    reads the values has other edges of the data bins: it keeps them. *)
Lemma copy_import_round_trip_counterexample :
  (exists (buf_i64 : list Z) (buf_flt : list double),
     CompoundAccumCollection.copy_vals Int64 compound_example [0; 0; 0] 0
     = Ok buf_i64
     /\ CompoundAccumCollection.copy_vals Double compound_example [d_of_Z 0] 0
        = Ok buf_flt
     /\ CompoundAccumCollection.import_vals Int64 compound_example buf_i64 0
        = Error "Not Implemented"
     /\ CompoundAccumCollection.import_vals Double compound_example buf_flt 0
        = Error "Not Implemented"
     /\ CompoundAccumCollection.import_vals Double compound_example buf_flt 0
        <> Ok compound_example)
  /\ (let X :=
        GenericHistogramAccumCollection.Build_t Int64 1 2 [4; 5]
          [d_of_Z 0; d_of_Z 1; d_of_Z 2] in
      let Y :=
        GenericHistogramAccumCollection.Build_t Int64 1 2 [0; 0]
          [d_of_Z 0; d_of_Z 10; d_of_Z 20] in
      exists (buf_i64 : list Z) (buf_flt : list double) Y1 Y2,
        copy_vals Int64 X [0; 0] 0 = Ok buf_i64
        /\ copy_vals Double X [] 0 = Ok buf_flt
        /\ import_vals Int64 Y buf_i64 0 = Ok Y1
        /\ import_vals Double Y1 buf_flt 0 = Ok Y2
        /\ GenericHistogramAccumCollection.bin_counts_ Y2 = [4; 5]
        /\ GenericHistogramAccumCollection.data_bin_edges_ Y2
           = [d_of_Z 0; d_of_Z 10; d_of_Z 20]
        /\ Y2 <> X).
Proof.
  split.
  - eexists. eexists. split; [reflexivity|]. split; [reflexivity|].
    split; [reflexivity|]. split; [reflexivity|]. discriminate.
  - cbv zeta. eexists. eexists. eexists. eexists.
    split; [reflexivity|]. split; [reflexivity|]. split; [reflexivity|].
    split; [reflexivity|]. split; [reflexivity|]. split; [reflexivity|].
    vm_compute. discriminate.
Qed.

(** ** Histogram conservation *)

Import GenericHistogramAccumCollection.

Lemma sum_insert (l : list Z) (i : nat) (c x : Z) :
  l !! i = Some c -> foldr Z.add 0 (<[i := x]> l) = foldr Z.add 0 l - c + x.
Proof.
  revert i. induction l as [|y l IH]; intros [|i] Hi; simpl in *;
    try discriminate.
  - inversion Hi; subst. lia.
  - rewrite (IH i Hi). lia.
Qed.

Lemma sum_lookup_le (l : list Z) (i : nat) (c : Z) :
  Forall (fun c => 0 <= c) l -> l !! i = Some c -> 0 <= c <= foldr Z.add 0 l.
Proof.
  intros Hpos. revert i. induction Hpos as [|y l Hy Hpos IH]; intros [|i] Hi;
    simpl in *; try discriminate.
  - inversion Hi; subst.
    assert (0 <= foldr Z.add 0 l).
    { clear -Hpos. induction Hpos; simpl; lia. }
    lia.
  - specialize (IH i Hi). lia.
Qed.

Lemma identify_bin_index_range {T : Type} (ltb : T -> T -> bool) (x : T)
    (bin_edges : list T) (nbins : Z) :
  0 <= nbins -> nbins + 1 < 2 ^ 64 ->
  0 <= identify_bin_index ltb x bin_edges nbins <= nbins.
Proof.
  intros Hn Hn64. unfold identify_bin_index.
  assert (wrap64 (nbins + 1) = nbins + 1) as -> by (apply Z.mod_small; lia).
  set (range := take (Z.to_nat (nbins + 1)) bin_edges).
  assert (lower_bound ltb range x <= length range)%nat as Hle.
  { clear. induction range as [|e range IH]; simpl; [lia|].
    destruct (ltb e x); simpl; lia. }
  assert (length range <= Z.to_nat (nbins + 1))%nat
    by (subst range; rewrite length_take; lia).
  destruct (Z.eqb_spec (Z.of_nat (lower_bound ltb range x)) 0); simpl; [lia|].
  destruct (Z.eqb_spec (Z.of_nat (lower_bound ltb range x)) (nbins + 1));
    simpl; [lia|].
  unfold wrap64. rewrite Z.mod_small; lia.
Qed.

Section HistogramRun.
Variable h0 : GenericHistogramAccumCollection.t Int64.
Hypothesis Hwf : histogram_wf h0.
Hypothesis Hdata : 0 <= n_data_bins_ h0 /\ n_data_bins_ h0 + 1 < 2 ^ 64.
Hypothesis Hsize : n_data_bins_ h0 * n_spatial_bins_ h0 < 2 ^ 64.

Lemma histogram_add_entry_total h spatial_bin_index val :
  histogram_like h0 h ->
  0 <= spatial_bin_index < n_spatial_bins_ h0 ->
  histogram_total h + 1 < 2 ^ 63 ->
  exists h',
    add_entry h spatial_bin_index val = Ok h'
    /\ histogram_like h0 h'
    /\ histogram_total h'
       = histogram_total h
         + (if identify_bin_index d_ltb val (data_bin_edges_ h0)
                 (n_data_bins_ h0) <? n_data_bins_ h0
            then 1 else 0).
Proof.
  intros (Hs & Hd & He & Hlen & Hpos) Hbin Htot.
  unfold add_entry. rewrite He, Hd.
  pose proof (identify_bin_index_range d_ltb val (data_bin_edges_ h0)
                (n_data_bins_ h0) ltac:(lia) ltac:(lia)) as Hrange.
  set (data_bin_index :=
         identify_bin_index d_ltb val (data_bin_edges_ h0) (n_data_bins_ h0))
    in *.
  destruct (Z.ltb_spec data_bin_index (n_data_bins_ h0)) as [Hin|Hout].
  - assert (0 <= spatial_bin_index * n_data_bins_ h0
            /\ data_bin_index + spatial_bin_index * n_data_bins_ h0
               < n_data_bins_ h0 * n_spatial_bins_ h0) as Hidx by nia.
    rewrite (wrap64_small (spatial_bin_index * n_data_bins_ h0)) by lia.
    rewrite (wrap64_small (data_bin_index + _)) by lia.
    set (i := data_bin_index + spatial_bin_index * n_data_bins_ h0) in *.
    assert (Z.to_nat i < length (bin_counts_ h))%nat as Hi.
    { rewrite Hlen, Hwf. rewrite wrap64_small by nia. lia. }
    apply lookup_lt_is_Some_2 in Hi as [c Hc].
    unfold bump. rewrite Hc.
    pose proof (sum_lookup_le _ _ _ Hpos Hc) as Hcle.
    unfold histogram_total in *.
    eexists. split; [reflexivity|]. simpl.
    rewrite wrap_i64_small by lia.
    split.
    + repeat split; try assumption; simpl.
      * rewrite length_insert. exact Hlen.
      * apply Forall_insert; [exact Hpos|lia].
    + rewrite (sum_insert _ _ c) by exact Hc. lia.
  - exists h. split; [reflexivity|]. split; [repeat split; assumption|lia].
Qed.

Variable mem : Z -> double.
Variable choice : PairOperation.
Variables points_a points_b : PointProps.
Variable dist_sqr_bin_edges : list double.
Variable nbins : Z.
Hypothesis Hnbins : 0 <= nbins <= n_spatial_bins_ h0 /\ nbins + 1 < 2 ^ 64.

Let counted (pair : Z * Z) : bool :=
  pair_in_spatial_bins mem choice points_a points_b dist_sqr_bin_edges nbins pair
  && pair_in_data_bins mem choice points_a points_b h0 pair.

Lemma histogram_process_pair_total (pair : Z * Z) h :
  histogram_like h0 h ->
  histogram_total h + 1 < 2 ^ 63 ->
  exists h',
    process_pair mem choice points_a points_b dist_sqr_bin_edges nbins h pair
    = Ok h'
    /\ histogram_like h0 h'
    /\ histogram_total h'
       = histogram_total h + (if counted pair then 1 else 0).
Proof.
  intros Hlike Htot. unfold process_pair, counted.
  unfold pair_in_spatial_bins, pair_in_data_bins.
  set (tmp := pair_rslt_of mem choice points_a points_b pair.1 pair.2).
  pose proof (identify_bin_index_range d_ltb (dist_sqr tmp)
                dist_sqr_bin_edges nbins ltac:(lia) ltac:(lia)) as Hrange.
  destruct (Z.ltb_spec (identify_bin_index d_ltb (dist_sqr tmp)
                          dist_sqr_bin_edges nbins) nbins) as [Hin|Hout].
  - destruct (histogram_add_entry_total h
                (identify_bin_index d_ltb (dist_sqr tmp) dist_sqr_bin_edges
                   nbins) (abs_vdiff tmp) Hlike ltac:(lia) ltac:(lia))
      as (h1 & Hadd & Hlike1 & Htot1).
    exists h1. split; [exact Hadd|]. split; [exact Hlike1|exact Htot1].
  - exists h. split; [reflexivity|]. split; [exact Hlike|simpl; lia].
Qed.

Lemma histogram_process_pairs_total (pairs : list (Z * Z)) h :
  histogram_like h0 h ->
  histogram_total h + Z.of_nat (length pairs) < 2 ^ 63 ->
  exists h',
    foldM (process_pair mem choice points_a points_b dist_sqr_bin_edges nbins)
      pairs h = Ok h'
    /\ histogram_like h0 h'
    /\ histogram_total h'
       = histogram_total h + Z.of_nat (length (List.filter counted pairs)).
Proof.
  revert h. induction pairs as [|pair pairs IH]; intros h Hlike Htot.
  - exists h. simpl. split; [reflexivity|]. split; [exact Hlike|lia].
  - simpl length in Htot.
    destruct (histogram_process_pair_total pair h Hlike ltac:(lia))
      as (h1 & Hstep & Hlike1 & Htot1).
    destruct (IH h1 Hlike1 ltac:(destruct (counted pair); lia))
      as (h' & Hfold & Hlike' & Htot').
    exists h'. simpl. rewrite Hstep. simpl.
    split; [exact Hfold|]. split; [exact Hlike'|].
    rewrite Htot', Htot1. destruct (counted pair); simpl length; lia.
Qed.

End HistogramRun.

(** C6 (amended).  A run of the pair kernel on an integer histogram adds to
    the sum of [bin_counts_] over all data bins and all spatial bins the
    number of enumerated pairs for which the bin search on the squared
    distance returned a spatial bin (an index less than [nbins]) and the bin
    search of the histogram on the value of the pair returned a data bin (an
    index less than [n_data_bins_]).  Started from a purged histogram, the
    sum is that number. *)
Theorem histogram_conservation (mem : Z -> double) (duplicated_points : bool)
    (choice : PairOperation) (points_a points_b : PointProps)
    (dist_sqr_bin_edges : list double) (nbins : Z)
    (h : GenericHistogramAccumCollection.t Int64) :
  histogram_wf h ->
  0 <= n_data_bins_ h /\ n_data_bins_ h + 1 < 2 ^ 64 ->
  n_data_bins_ h * n_spatial_bins_ h < 2 ^ 64 ->
  0 <= nbins <= n_spatial_bins_ h /\ nbins + 1 < 2 ^ 64 ->
  Forall (fun c => 0 <= c) (bin_counts_ h) ->
  histogram_total h
  + Z.of_nat (length (process_data_pairs duplicated_points
                        (n_points points_a) (n_points points_b))) < 2 ^ 63 ->
  exists h',
    process_data mem duplicated_points choice points_a points_b
      dist_sqr_bin_edges nbins h = Ok h'
    /\ histogram_total h'
       = histogram_total h
         + Z.of_nat
             (length
                (List.filter
                   (fun pair =>
                      pair_in_spatial_bins mem choice points_a points_b
                        dist_sqr_bin_edges nbins pair
                      && pair_in_data_bins mem choice points_a points_b h pair)
                   (process_data_pairs duplicated_points (n_points points_a)
                      (n_points points_b)))).
Proof.
  intros Hwf Hdata Hsize Hnbins Hpos Htot. unfold process_data.
  destruct (histogram_process_pairs_total h Hwf Hdata Hsize mem choice
              points_a points_b dist_sqr_bin_edges nbins Hnbins
              (process_data_pairs duplicated_points (n_points points_a)
                 (n_points points_b)) h)
    as (h' & Hfold & _ & Htot'); [|exact Htot|].
  - repeat split; try reflexivity. exact Hpos.
  - exists h'. split; [exact Hfold|exact Htot'].
Qed.

Lemma histogram_conservation_witness :
  let h := Build_t Int64 1 1 [0] [d_of_Z 0; d_of_Z 10] in
  let dist_sqr_bin_edges := [d_of_Z 0; d_of_Z 100] in
  exists h',
    process_data two_points_mem true vec_diff two_points two_points
      dist_sqr_bin_edges 1 h = Ok h'
    /\ histogram_total h' = 1.
Proof.
  intros h dist_sqr_bin_edges.
  destruct (histogram_conservation two_points_mem true vec_diff two_points
              two_points dist_sqr_bin_edges 1 h)
    as (h' & Hrun & Htot).
  - reflexivity.
  - split; [discriminate|reflexivity].
  - reflexivity.
  - split; [split; discriminate|reflexivity].
  - repeat constructor; discriminate.
  - reflexivity.
  - exists h'. split; [exact Hrun|]. rewrite Htot. vm_compute. reflexivity.
Defined.

(** The claim as stated fails: the pair of [two_points] has the squared
    distance 1, inside of the one spatial bin [0, 100), but its value 5 is
    outside of the one data bin of the histogram, so that no count is
    incremented although one pair got a spatial bin. *)
Lemma histogram_conservation_counterexample :
  let h := Build_t Int64 1 1 [0] [d_of_Z 0; d_of_Z 1] in
  let dist_sqr_bin_edges := [d_of_Z 0; d_of_Z 100] in
  exists h',
    process_data two_points_mem true vec_diff two_points two_points
      dist_sqr_bin_edges 1 h = Ok h'
    /\ histogram_total h' = 0
    /\ length
         (List.filter
            (pair_in_spatial_bins two_points_mem vec_diff two_points
               two_points dist_sqr_bin_edges 1)
            (process_data_pairs true (n_points two_points)
               (n_points two_points))) = 1%nat.
Proof.
  intros h dist_sqr_bin_edges. eexists.
  split; [vm_compute; reflexivity|]. split; reflexivity.
Qed.

(** ** Merging histogram collections *)

Import GenericHistogramAccumCollection.

Lemma add_counts_zip_with (T : dtype) (counts other_counts : list (val_t T)) :
  length counts = length other_counts ->
  add_counts T counts other_counts
  = Ok (zip_with (val_add T) counts other_counts).
Proof.
  revert other_counts.
  induction counts as [|c counts IH]; intros [|o other_counts] Hlen;
    simpl in *; try discriminate; [reflexivity|].
  rewrite IH by lia. reflexivity.
Qed.

Lemma add_counts_not_mismatch (T : dtype) (counts other_counts : list (val_t T)) :
  add_counts T counts other_counts
  <> Error "There seemed to be a mismatch during consolidation".
Proof.
  revert other_counts.
  induction counts as [|c counts IH]; intros [|o other_counts]; simpl;
    try discriminate.
  specialize (IH other_counts).
  destruct (add_counts T counts other_counts); simpl; [discriminate|].
  intros Heq. apply IH. exact Heq.
Qed.

(** C10.  [consolidate_with_other] looks at the shapes only.  It raises the
    mismatch error exactly when [n_spatial_bins_] or [n_data_bins_] differ;
    for equal shapes it succeeds with the element-wise sum of the two
    [bin_counts_], keeping the data-bin edges of [*this], whatever the
    data-bin edges of [other] are. *)
Theorem histogram_consolidate_compares_shapes (T : dtype)
    (h other : GenericHistogramAccumCollection.t T) :
  histogram_wf h -> histogram_wf other ->
  (consolidate_with_other h other
   = Error "There seemed to be a mismatch during consolidation"
   <-> (n_spatial_bins_ other <> n_spatial_bins_ h
        \/ n_data_bins_ other <> n_data_bins_ h))
  /\ (n_spatial_bins_ other = n_spatial_bins_ h ->
      n_data_bins_ other = n_data_bins_ h ->
      consolidate_with_other h other
      = Ok {| n_spatial_bins_ := n_spatial_bins_ h;
              n_data_bins_ := n_data_bins_ h;
              bin_counts_ :=
                zip_with (val_add T) (bin_counts_ h) (bin_counts_ other);
              data_bin_edges_ := data_bin_edges_ h |}).
Proof.
  intros Hwf Hwf'. unfold consolidate_with_other. split.
  - destruct (Z.eqb_spec (n_spatial_bins_ other) (n_spatial_bins_ h)) as [Hs|Hs];
      destruct (Z.eqb_spec (n_data_bins_ other) (n_data_bins_ h)) as [Hd|Hd];
      simpl; try (split; [intros _; tauto|reflexivity]).
    split; [|intros [?|?]; contradiction].
    intros Heq. exfalso.
    pose proof (add_counts_not_mismatch T (bin_counts_ h) (bin_counts_ other)) as Hne.
    destruct (add_counts T (bin_counts_ h) (bin_counts_ other));
      simpl in Heq; [discriminate|]. apply Hne. congruence.
  - intros Hs Hd. rewrite Hs, Hd, !Z.eqb_refl. simpl.
    rewrite add_counts_zip_with; [reflexivity|].
    unfold histogram_wf in *. rewrite Hwf, Hwf', Hs, Hd. reflexivity.
Qed.

Lemma histogram_consolidate_compares_shapes_witness :
  let h :=
    Build_t Int64 1 2 [3; 4] [d_of_Z 0; d_of_Z 1; d_of_Z 2] in
  let other :=
    Build_t Int64 1 2 [10; 20] [d_of_Z 5; d_of_Z 6; d_of_Z 7] in
  consolidate_with_other h other
  = Ok (Build_t Int64 1 2 [13; 24] [d_of_Z 0; d_of_Z 1; d_of_Z 2]).
Proof.
  intros h other.
  destruct (histogram_consolidate_compares_shapes Int64 h other) as [_ Hsum];
    [reflexivity|reflexivity|].
  rewrite Hsum; reflexivity.
Defined.

(** * Further properties of the partitioner *)

(** ** [calc_chunk_slice] *)

(** X1.  [calc_chunk_slice] ends with the fatal error exactly when the array
    has fewer elements than there are chunks or the chunk index is not one
    of the chunks (zero chunks included); in every other case it returns a
    slice that is not empty and lies in the array. *)
Theorem calc_chunk_slice_rejects (chunk_index array_len num_chunks : Z) :
  0 <= chunk_index < 2 ^ 64 ->
  0 <= array_len < 2 ^ 64 ->
  0 <= num_chunks < 2 ^ 64 ->
  match calc_chunk_slice chunk_index array_len num_chunks with
  | Error msg =>
      msg = "something is very wrong"
      /\ (array_len < num_chunks \/ num_chunks <= chunk_index)
  | Ok slc =>
      chunk_index < num_chunks <= array_len
      /\ 0 <= start slc < stop slc /\ stop slc <= array_len
  end.
Proof.
  intros Hci Hlen Hnum.
  destruct (Z_lt_le_dec array_len num_chunks) as [Hlt|Hge].
  - unfold calc_chunk_slice.
    destruct (Z.ltb_spec array_len num_chunks); [|lia].
    split; [reflexivity|lia].
  - destruct (Z_le_gt_dec num_chunks chunk_index) as [Hle|Hgt].
    + unfold calc_chunk_slice.
      destruct (Z.ltb_spec array_len num_chunks); [lia|].
      destruct (Z.leb_spec num_chunks chunk_index); [|lia].
      split; [reflexivity|lia].
    + assert (0 < num_chunks <= array_len) as Hchunks by lia.
      rewrite (calc_chunk_slice_eq array_len num_chunks Hchunks) by lia.
      simpl.
      pose proof (chunk_bound_range array_len num_chunks Hchunks chunk_index).
      pose proof (chunk_bound_range array_len num_chunks Hchunks
                    (chunk_index + 1)).
      pose proof (chunk_bound_step array_len num_chunks Hchunks chunk_index).
      lia.
Qed.

Lemma calc_chunk_slice_rejects_witness :
  match calc_chunk_slice 3 10 3 with
  | Error msg =>
      msg = "something is very wrong" /\ (10 < 3 \/ 3 <= 3)
  | Ok slc => 3 < 3 <= 10 /\ 0 <= start slc < stop slc /\ stop slc <= 10
  end.
Proof.
  apply (calc_chunk_slice_rejects 3 10 3); (split; [lia|reflexivity]).
Defined.

(** X2.  The slices of the chunks [0], ..., [num_chunks - 1] tile the array:
    the first one starts at 0, each one stops where the next one starts, the
    last one stops at [array_len]; and they are balanced: the first
    [array_len mod num_chunks] chunks have [array_len / num_chunks + 1]
    elements, the other ones [array_len / num_chunks]. *)
Theorem calc_chunk_slice_tiles (array_len num_chunks : Z) :
  0 < num_chunks <= array_len -> array_len < 2 ^ 64 ->
  forall chunk_index, 0 <= chunk_index < num_chunks ->
    exists slc,
      calc_chunk_slice chunk_index array_len num_chunks = Ok slc
      /\ stop slc - start slc
         = array_len / num_chunks
           + (if chunk_index <? array_len mod num_chunks then 1 else 0)
      /\ (chunk_index = 0 -> start slc = 0)
      /\ (chunk_index = num_chunks - 1 -> stop slc = array_len)
      /\ (chunk_index + 1 < num_chunks ->
          exists slc',
            calc_chunk_slice (chunk_index + 1) array_len num_chunks = Ok slc'
            /\ start slc' = stop slc).
Proof.
  intros Hchunks Hlen chunk_index Hci.
  rewrite (calc_chunk_slice_eq array_len num_chunks Hchunks) by lia.
  eexists. split; [reflexivity|]. simpl.
  split; [rewrite chunk_bound_succ by exact Hchunks; lia|].
  split; [intros ->; apply chunk_bound_0; exact Hchunks|].
  split.
  - intros ->. replace (num_chunks - 1 + 1) with num_chunks by lia.
    apply chunk_bound_last. exact Hchunks.
  - intros Hnext.
    rewrite (calc_chunk_slice_eq array_len num_chunks Hchunks) by lia.
    eexists. split; reflexivity.
Qed.

Lemma calc_chunk_slice_tiles_witness :
  exists slc,
    calc_chunk_slice 1 11 3 = Ok slc
    /\ stop slc - start slc = 11 / 3 + (if 1 <? 11 mod 3 then 1 else 0)
    /\ (1 = 0 -> start slc = 0)
    /\ (1 = 3 - 1 -> stop slc = 11)
    /\ (1 + 1 < 3 ->
        exists slc',
          calc_chunk_slice (1 + 1) 11 3 = Ok slc' /\ start slc' = stop slc).
Proof.
  apply (calc_chunk_slice_tiles 11 3); [lia|reflexivity|lia].
Defined.

(** ** [TaskIt] *)

Lemma length_indices_from strat n index_2D :
  length (indices_from strat n index_2D) = n.
Proof.
  revert index_2D. induction n as [|n IH]; intros index_2D; simpl;
    [reflexivity|]. rewrite IH. reflexivity.
Qed.

Lemma indices_from_app strat n m index_2D :
  indices_from strat (n + m) index_2D
  = indices_from strat n index_2D
    ++ indices_from strat m
         (Nat.iter n (strat_increment2D_index strat) index_2D).
Proof.
  revert index_2D. induction n as [|n IH]; intros index_2D; simpl;
    [reflexivity|].
  rewrite IH. f_equal. f_equal.
  rewrite <- Nat.iter_succ, Nat.iter_succ_r. reflexivity.
Qed.

(** The [count] indices that follow the first [skip] ones. *)
Lemma indices_from_drop_take strat skip count total index_2D :
  (skip + count <= total)%nat ->
  indices_from strat count
    (Nat.iter skip (strat_increment2D_index strat) index_2D)
  = take count (drop skip (indices_from strat total index_2D)).
Proof.
  intros Hle.
  replace total with (skip + (count + (total - skip - count)))%nat by lia.
  rewrite indices_from_app, drop_app_length'
    by (symmetry; apply length_indices_from).
  rewrite indices_from_app, take_app_length'
    by (symmetry; apply length_indices_from).
  reflexivity.
Qed.

(** The loop of the constructor of [TaskIt] stops at [index_start_1D], at
    the 2D index reached by as many increments. *)
Lemma TaskIt_advance_spec (fuel : nat) (index_start_1D : Z) (it : TaskIt) :
  0 <= next_index_1D_ it <= index_start_1D -> index_start_1D < 2 ^ 64 ->
  (Z.to_nat (index_start_1D - next_index_1D_ it) <= fuel)%nat ->
  TaskIt_advance fuel index_start_1D it
  = Some {| index_stop_1D_ := index_stop_1D_ it;
            partition_strat_ := partition_strat_ it;
            next_index_1D_ := index_start_1D;
            next_index_2D_ :=
              Nat.iter (Z.to_nat (index_start_1D - next_index_1D_ it))
                (strat_increment2D_index (partition_strat_ it))
                (next_index_2D_ it) |}.
Proof.
  revert it. induction fuel as [|fuel IH]; intros it Hnext Hstart Hfuel; simpl.
  - destruct (Z.ltb_spec (next_index_1D_ it) index_start_1D); [lia|].
    replace (Z.to_nat (index_start_1D - next_index_1D_ it)) with O by lia.
    assert (index_start_1D = next_index_1D_ it) as -> by lia.
    destruct it; reflexivity.
  - destruct (Z.ltb_spec (next_index_1D_ it) index_start_1D) as [Hlt|Hge].
    + rewrite IH; simpl; rewrite ?wrap64_small by lia; try lia.
      f_equal. f_equal.
      replace (Z.to_nat (index_start_1D - next_index_1D_ it))
        with (S (Z.to_nat (index_start_1D - (next_index_1D_ it + 1)))) by lia.
      rewrite Nat.iter_succ_r. reflexivity.
    + replace (Z.to_nat (index_start_1D - next_index_1D_ it)) with O by lia.
      assert (index_start_1D = next_index_1D_ it) as -> by lia.
      destruct it; reflexivity.
Qed.

(** The 2D indices of a valid strategy are those [increment2D_index] walks
    from [(0, 0)], and there are [n_partitions] of them. *)
Lemma strat_indices_from (strat : partition_variant) :
  valid_strat strat ->
  match strat with
  | AutoStrat s => AutoSFPartitionStrat.num_segments s < 2 ^ 31
  | CrossStrat s =>
      CrossSFPartitionStrat.num_segments_A s
      * CrossSFPartitionStrat.num_segments_B s < 2 ^ 64
  end ->
  indices_from strat (length (strat_indices strat)) (0, 0)
  = strat_indices strat
  /\ strat_n_partitions strat = Z.of_nat (length (strat_indices strat))
  /\ 1 <= strat_n_partitions strat < 2 ^ 64.
Proof.
  intros Hvalid Hsmall. destruct strat as [s|s]; simpl in Hvalid, Hsmall.
  - destruct (auto_indices_from s ltac:(lia)) as (H1 & H2).
    split; [exact H1|]. split; [exact H2|]. simpl.
    unfold AutoSFPartitionStrat.n_partitions.
    rewrite num_dist_array_chunks_auto_eq by lia.
    assert (2 ^ 31 * 2 ^ 31 < 2 ^ 64) by reflexivity.
    split; [apply Z.div_le_lower_bound; nia|].
    apply Z.div_lt_upper_bound; nia.
  - destruct (cross_indices_from s ltac:(lia) ltac:(lia) Hsmall) as (H1 & H2).
    split; [exact H1|]. split; [exact H2|]. simpl.
    unfold CrossSFPartitionStrat.n_partitions.
    rewrite wrap64_small by nia. nia.
Qed.

Lemma strat_build_ok (strat : partition_variant) (index_2D : Z * Z) :
  valid_strat strat -> index_2D ∈ strat_indices strat ->
  is_Ok (strat_build_StatTask strat index_2D).
Proof.
  intros Hvalid Hin. destruct strat as [s|s].
  - apply auto_build_ok; assumption.
  - apply cross_build_ok; assumption.
Qed.

Lemma tasks_at_ok (strat : partition_variant) (indices : list (Z * Z)) :
  (forall index_2D, index_2D ∈ indices ->
     is_Ok (strat_build_StatTask strat index_2D)) ->
  exists tasks,
    tasks_at strat indices = Ok tasks
    /\ Forall2 (fun index_2D stat_task =>
                  strat_build_StatTask strat index_2D = Ok stat_task)
         indices tasks.
Proof.
  induction indices as [|index_2D indices IH]; intros Hok; simpl.
  - exists []. split; [reflexivity|constructor].
  - destruct (Hok index_2D ltac:(apply list_elem_of_here)) as (t & Ht).
    destruct IH as (tasks & Htasks & Hall).
    { intros idx Hin. apply Hok. apply list_elem_of_further. exact Hin. }
    rewrite Ht. simpl. rewrite Htasks. simpl.
    exists (t :: tasks). split; [reflexivity|]. constructor; assumption.
Qed.

(** The iterator built for the 1D indices [index_start_1D, index_stop_1D). *)
Lemma TaskIt_new_tasks (strat : partition_variant)
    (index_start_1D index_stop_1D : Z) :
  valid_strat strat ->
  match strat with
  | AutoStrat s => AutoSFPartitionStrat.num_segments s < 2 ^ 31
  | CrossStrat s =>
      CrossSFPartitionStrat.num_segments_A s
      * CrossSFPartitionStrat.num_segments_B s < 2 ^ 64
  end ->
  0 <= index_start_1D < index_stop_1D ->
  index_stop_1D <= strat_n_partitions strat ->
  exists it,
    TaskIt_new index_start_1D index_stop_1D strat = Ok it
    /\ index_stop_1D_ it = index_stop_1D
    /\ next_index_1D_ it = index_start_1D
    /\ partition_strat_ it = strat
    /\ forall fuel,
         (Z.to_nat (index_stop_1D - index_start_1D) <= fuel)%nat ->
         TaskIt_tasks fuel it
         = tasks_at strat
             (take (Z.to_nat (index_stop_1D - index_start_1D))
                (drop (Z.to_nat index_start_1D) (strat_indices strat))).
Proof.
  intros Hvalid Hsmall Hrange Hstop.
  destruct (strat_indices_from strat Hvalid Hsmall) as (Hidx & Hn & Hn64).
  unfold TaskIt_new.
  destruct (Z.leb_spec index_stop_1D index_start_1D); [lia|].
  rewrite TaskIt_advance_spec; simpl; try lia.
  eexists. split; [reflexivity|]. simpl.
  split; [reflexivity|]. split; [reflexivity|]. split; [reflexivity|].
  intros fuel Hfuel.
  rewrite TaskIt_tasks_indices; simpl; try lia.
  rewrite Z.sub_0_r.
  rewrite (indices_from_drop_take strat _ _ (length (strat_indices strat)))
    by lia.
  rewrite Hidx. reflexivity.
Qed.

Lemma NoDup_strat_indices (strat : partition_variant) :
  NoDup (strat_indices strat).
Proof.
  destruct strat as [s|s]; simpl;
    (apply NoDup_bind; [| |apply NoDup_seqZ]).
  - intros a1 a2 p _ _ H1 H2.
    apply list_elem_of_bind in H1 as (b1 & H1 & _).
    apply list_elem_of_bind in H2 as (b2 & H2 & _).
    apply list_elem_of_singleton in H1, H2. congruence.
  - intros a _. apply NoDup_bind; [| |apply NoDup_seqZ].
    + intros b1 b2 p _ _ H1 H2.
      apply list_elem_of_singleton in H1, H2. congruence.
    + intros b _. apply NoDup_singleton.
  - intros a1 a2 p _ _ H1 H2.
    apply list_elem_of_bind in H1 as (b1 & H1 & _).
    apply list_elem_of_bind in H2 as (b2 & H2 & _).
    apply list_elem_of_singleton in H1, H2. congruence.
  - intros a _. apply NoDup_bind; [| |apply NoDup_seqZ].
    + intros b1 b2 p _ _ H1 H2.
      apply list_elem_of_singleton in H1, H2. congruence.
    + intros b _. apply NoDup_singleton.
Qed.

(** X3.  The iterator [TaskIt(index_start_1D, index_stop_1D, strat)] of a
    valid strategy hands out, until [has_next] is false, the tasks number
    [index_start_1D], ..., [index_stop_1D - 1] of the row-major order of the
    2D indices: the constructor skips the first [index_start_1D] indices,
    and every [next] builds its task without a fatal error. *)
Theorem TaskIt_hands_out_range (strat : partition_variant)
    (index_start_1D index_stop_1D : Z) :
  valid_strat strat ->
  match strat with
  | AutoStrat s => AutoSFPartitionStrat.num_segments s < 2 ^ 31
  | CrossStrat s =>
      CrossSFPartitionStrat.num_segments_A s
      * CrossSFPartitionStrat.num_segments_B s < 2 ^ 64
  end ->
  0 <= index_start_1D < index_stop_1D ->
  index_stop_1D <= strat_n_partitions strat ->
  exists it tasks,
    TaskIt_new index_start_1D index_stop_1D strat = Ok it
    /\ TaskIt_tasks (Z.to_nat (index_stop_1D - index_start_1D)) it = Ok tasks
    /\ Z.of_nat (length tasks) = index_stop_1D - index_start_1D
    /\ forall k stat_task,
         tasks !! k = Some stat_task ->
         exists index_2D,
           strat_indices strat !! (Z.to_nat index_start_1D + k)%nat
           = Some index_2D
           /\ strat_build_StatTask strat index_2D = Ok stat_task.
Proof.
  intros Hvalid Hsmall Hrange Hstop.
  destruct (TaskIt_new_tasks strat index_start_1D index_stop_1D Hvalid Hsmall
              Hrange Hstop) as (it & Hnew & _ & _ & _ & Htasks).
  destruct (strat_indices_from strat Hvalid Hsmall) as (_ & Hn & _).
  set (part := take (Z.to_nat (index_stop_1D - index_start_1D))
                 (drop (Z.to_nat index_start_1D) (strat_indices strat))) in *.
  destruct (tasks_at_ok strat part) as (tasks & Hat & Hall).
  { intros index_2D Hin. apply strat_build_ok; [exact Hvalid|].
    subst part. apply elem_of_take in Hin as (k & Hk & _).
    rewrite lookup_drop in Hk. eapply list_elem_of_lookup_2. exact Hk. }
  exists it, tasks. split; [exact Hnew|].
  split; [rewrite Htasks by lia; exact Hat|].
  assert (length part = Z.to_nat (index_stop_1D - index_start_1D)) as Hlen.
  { subst part. rewrite length_take, length_drop. lia. }
  split; [rewrite <- (Forall2_length _ _ _ Hall), Hlen; lia|].
  intros k stat_task Hk.
  destruct (Forall2_lookup_r _ _ _ _ _ Hall Hk) as (index_2D & Hidx & Hbuild).
  exists index_2D. split; [|exact Hbuild].
  subst part. apply lookup_take_Some in Hidx as (Hidx & _).
  rewrite lookup_drop in Hidx. exact Hidx.
Qed.

Lemma TaskIt_hands_out_range_witness :
  let strat :=
    AutoStrat {| AutoSFPartitionStrat.n_points := 12;
                 AutoSFPartitionStrat.num_segments := 3 |} in
  exists it tasks,
    TaskIt_new 2 5 strat = Ok it
    /\ TaskIt_tasks (Z.to_nat (5 - 2)) it = Ok tasks
    /\ Z.of_nat (length tasks) = 5 - 2
    /\ forall k stat_task,
         tasks !! k = Some stat_task ->
         exists index_2D,
           strat_indices strat !! (Z.to_nat 2 + k)%nat = Some index_2D
           /\ strat_build_StatTask strat index_2D = Ok stat_task.
Proof.
  intros strat. apply (TaskIt_hands_out_range strat 2 5).
  - simpl. split; [split; [lia|reflexivity]|lia].
  - reflexivity.
  - lia.
  - vm_compute. discriminate.
Defined.

(** X4.  An auto strategy with [S] segments has [S (S + 1) / 2] partitions,
    and [increment2D_index] walks from [(0, 0)], in that many steps, through
    every 2D index [(i, j)] with [i <= j < S] once and through nothing
    else. *)
Theorem auto_partitions_triangle (s : AutoSFPartitionStrat.t) :
  1 <= AutoSFPartitionStrat.num_segments s < 2 ^ 31 ->
  let S := AutoSFPartitionStrat.num_segments s in
  let walk :=
    indices_from (AutoStrat s)
      (Z.to_nat (AutoSFPartitionStrat.n_partitions s)) (0, 0) in
  AutoSFPartitionStrat.n_partitions s = S * (S + 1) / 2
  /\ NoDup walk
  /\ forall i j, (i, j) ∈ walk <-> 0 <= i <= j /\ j < S.
Proof.
  intros HS S walk.
  destruct (auto_indices_from s ltac:(lia)) as (Hidx & Hn).
  split.
  - unfold AutoSFPartitionStrat.n_partitions.
    apply num_dist_array_chunks_auto_eq. lia.
  - assert (walk = strat_indices (AutoStrat s)) as ->.
    { subst walk. rewrite Hn, Nat2Z.id. exact Hidx. }
    split; [apply NoDup_strat_indices|].
    intros i j. apply elem_of_auto_indices.
Qed.

Lemma auto_partitions_triangle_witness :
  let s := {| AutoSFPartitionStrat.n_points := 12;
              AutoSFPartitionStrat.num_segments := 3 |} in
  let walk :=
    indices_from (AutoStrat s)
      (Z.to_nat (AutoSFPartitionStrat.n_partitions s)) (0, 0) in
  AutoSFPartitionStrat.n_partitions s = 3 * (3 + 1) / 2
  /\ NoDup walk
  /\ forall i j, (i, j) ∈ walk <-> 0 <= i <= j /\ j < 3.
Proof.
  intros s. apply (auto_partitions_triangle s). simpl.
  split; [lia|reflexivity].
Defined.

(** ** [TaskItFactory] *)

(** Consecutive slices of a list, cut at the bounds [bound 0 = 0],
    [bound 1], ..., give the list back. *)
Lemma concat_slices {A : Type} (l : list A) (bound : Z -> Z) (k : nat) :
  bound 0 = 0 ->
  (forall p, 0 <= p < Z.of_nat k -> bound p <= bound (p + 1)) ->
  0 <= bound (Z.of_nat k)
  /\ concat ((fun p => take (Z.to_nat (bound (p + 1) - bound p))
                         (drop (Z.to_nat (bound p)) l))
               <$> seqZ 0 (Z.of_nat k))
     = take (Z.to_nat (bound (Z.of_nat k))) l.
Proof.
  intros H0 Hmono. induction k as [|k IH].
  - change (Z.of_nat 0) with 0. rewrite H0. split; [lia|reflexivity].
  - destruct IH as (Hpos & IH); [intros; apply Hmono; lia|].
    pose proof (Hmono (Z.of_nat k) ltac:(lia)) as Hstep.
    replace (Z.of_nat (S k)) with (Z.of_nat k + 1) by lia.
    split; [lia|].
    rewrite seqZ_app by lia. rewrite fmap_app, concat_app, IH.
    rewrite Z.add_0_l. change (seqZ (Z.of_nat k) 1) with [Z.of_nat k].
    simpl. rewrite app_nil_r.
    replace (Z.to_nat (bound (Z.of_nat k + 1)))
      with (Z.to_nat (bound (Z.of_nat k))
            + Z.to_nat (bound (Z.of_nat k + 1)%Z - bound (Z.of_nat k))%Z)%nat
      by lia.
    apply take_take_drop.
Qed.

Section FactoryTasks.
Variable f : TaskItFactory.
Hypothesis Hvalid : valid_strat (factory_partition_strat_ f).
Hypothesis Hfew : few_segments (factory_partition_strat_ f).
Hypothesis Hnproc : 1 <= nproc_ f < 2 ^ 64.

Let strat := factory_partition_strat_ f.
Let n := factory_n_partitions f.
Let e := Z.min (nproc_ f) n.

Lemma factory_facts :
  indices_from strat (length (strat_indices strat)) (0, 0)
  = strat_indices strat
  /\ n = Z.of_nat (length (strat_indices strat))
  /\ 1 <= n < 2 ^ 64 /\ 1 <= e <= n /\ e <= nproc_ f.
Proof.
  destruct (strat_indices_from strat Hvalid Hfew) as (H1 & H2 & H3).
  change (strat_n_partitions strat) with n in H2, H3.
  assert (e = Z.min (nproc_ f) n) as He by reflexivity.
  split; [exact H1|]. split; [exact H2|]. lia.
Qed.

Lemma factory_effective_nproc : effective_nproc f = Ok e.
Proof.
  pose proof factory_facts as (_ & _ & Hn & _).
  unfold effective_nproc. fold n. rewrite safe_cast_u64_small by lia.
  reflexivity.
Qed.

Lemma length_worker_indices proc_id :
  0 <= proc_id < e ->
  Z.of_nat (length (worker_indices f proc_id))
  = chunk_bound n e (proc_id + 1) - chunk_bound n e proc_id
  /\ 0 <= chunk_bound n e proc_id < chunk_bound n e (proc_id + 1)
  /\ chunk_bound n e (proc_id + 1) <= n.
Proof.
  intros Hp. pose proof factory_facts as (_ & Hlen & Hn & He & _).
  assert (0 < e <= n) as Hchunks by lia.
  pose proof (chunk_bound_range n e Hchunks proc_id ltac:(lia)).
  pose proof (chunk_bound_range n e Hchunks (proc_id + 1) ltac:(lia)).
  pose proof (chunk_bound_step n e Hchunks proc_id).
  unfold worker_indices. fold n e strat.
  rewrite length_take, length_drop. lia.
Qed.

Lemma concat_worker_indices :
  concat (worker_indices f <$> seqZ 0 e) = strat_indices strat.
Proof.
  pose proof factory_facts as (_ & Hlen & Hn & He & _).
  assert (0 < e <= n) as Hchunks by lia.
  destruct (concat_slices (strat_indices strat) (chunk_bound n e) (Z.to_nat e))
    as (_ & Hconcat).
  - apply chunk_bound_0. exact Hchunks.
  - intros p Hp. apply chunk_bound_mono; [exact Hchunks|lia].
  - rewrite Z2Nat.id in Hconcat by lia.
    rewrite (chunk_bound_last n e Hchunks) in Hconcat.
    unfold worker_indices. fold n e strat. rewrite Hconcat.
    apply take_ge. lia.
Qed.

Lemma factory_build_TaskIt proc_id :
  0 <= proc_id < e ->
  exists it,
    build_TaskIt f proc_id = Ok it
    /\ index_stop_1D_ it - next_index_1D_ it
       = Z.of_nat (length (worker_indices f proc_id))
    /\ partition_strat_ it = strat
    /\ forall fuel,
         (length (worker_indices f proc_id) <= fuel)%nat ->
         TaskIt_tasks fuel it = tasks_at strat (worker_indices f proc_id).
Proof.
  intros Hp. pose proof factory_facts as (_ & Hlen & Hn & He & Hle).
  assert (0 < e <= n) as Hchunks by lia.
  destruct (length_worker_indices proc_id Hp) as (Hwlen & Hb & Hb').
  unfold build_TaskIt.
  destruct (Z.leb_spec (nproc_ f) proc_id); [lia|].
  fold n. rewrite safe_cast_u64_small by lia. simpl.
  rewrite factory_effective_nproc. simpl.
  rewrite (calc_chunk_slice_eq n e Hchunks) by lia. simpl.
  rewrite !safe_cast_u64_small by lia. simpl.
  destruct (TaskIt_new_tasks strat (chunk_bound n e proc_id)
              (chunk_bound n e (proc_id + 1)) Hvalid Hfew ltac:(lia))
    as (it & Hnew & Hstop & Hnext & Hstrat & Htasks).
  { change (strat_n_partitions strat) with n. lia. }
  exists it. fold strat. split; [exact Hnew|].
  split; [rewrite Hstop, Hnext; lia|]. split; [exact Hstrat|].
  intros fuel Hfuel. rewrite Htasks by lia. reflexivity.
Qed.

End FactoryTasks.

(** X5.  The workers of a factory share the tasks: there are
    [min(nproc_, n_partitions)] of them, [build_TaskIt] gives each one an
    iterator that hands out the tasks at its own run of consecutive 2D
    indices without a fatal error, the runs put one after the other are the
    2D indices of the strategy (no task is left out, none is given twice),
    and the runs are balanced: each has [n_partitions / nproc] tasks or one
    more. *)
Theorem TaskItFactory_workers_share_tasks (f : TaskItFactory) :
  valid_strat (factory_partition_strat_ f) ->
  few_segments (factory_partition_strat_ f) ->
  1 <= nproc_ f < 2 ^ 64 ->
  let strat := factory_partition_strat_ f in
  let n := factory_n_partitions f in
  let e := Z.min (nproc_ f) n in
  effective_nproc f = Ok e
  /\ 1 <= e
  /\ concat (worker_indices f <$> seqZ 0 e) = strat_indices strat
  /\ forall proc_id, 0 <= proc_id < e ->
       n / e <= Z.of_nat (length (worker_indices f proc_id)) <= n / e + 1
       /\ exists it tasks,
            build_TaskIt f proc_id = Ok it
            /\ TaskIt_tasks
                 (Z.to_nat (index_stop_1D_ it - next_index_1D_ it)) it
               = Ok tasks
            /\ Forall2 (fun index_2D stat_task =>
                          strat_build_StatTask strat index_2D = Ok stat_task)
                 (worker_indices f proc_id) tasks.
Proof.
  intros Hvalid Hfew Hnproc strat n e.
  pose proof (factory_facts f Hvalid Hfew Hnproc) as (_ & Hlen & Hn & He & _).
  fold strat n e in Hlen, Hn, He.
  split; [apply factory_effective_nproc; assumption|].
  split; [lia|].
  split; [apply concat_worker_indices; assumption|].
  intros proc_id Hp.
  destruct (length_worker_indices f Hvalid Hfew Hnproc proc_id Hp)
    as (Hwlen & _).
  fold n e in Hwlen. split.
  - rewrite Hwlen, chunk_bound_succ by lia.
    destruct (proc_id <? n mod e); lia.
  - destruct (factory_build_TaskIt f Hvalid Hfew Hnproc proc_id Hp)
      as (it & Hbuild & Hdiff & _ & Htasks).
    destruct (tasks_at_ok strat (worker_indices f proc_id))
      as (tasks & Hat & Hall).
    { intros index_2D Hin. apply strat_build_ok; [exact Hvalid|].
      unfold worker_indices in Hin.
      apply elem_of_take in Hin as (k & Hk & _).
      rewrite lookup_drop in Hk. eapply list_elem_of_lookup_2. exact Hk. }
    exists it, tasks. split; [exact Hbuild|]. split; [|exact Hall].
    rewrite Htasks by lia. exact Hat.
Qed.

Lemma TaskItFactory_workers_share_tasks_witness :
  let f := {| nproc_ := 4;
              factory_partition_strat_ :=
                AutoStrat {| AutoSFPartitionStrat.n_points := 12;
                             AutoSFPartitionStrat.num_segments := 3 |} |} in
  let strat := factory_partition_strat_ f in
  let n := factory_n_partitions f in
  let e := Z.min (nproc_ f) n in
  effective_nproc f = Ok e
  /\ 1 <= e
  /\ concat (worker_indices f <$> seqZ 0 e) = strat_indices strat
  /\ forall proc_id, 0 <= proc_id < e ->
       n / e <= Z.of_nat (length (worker_indices f proc_id)) <= n / e + 1
       /\ exists it tasks,
            build_TaskIt f proc_id = Ok it
            /\ TaskIt_tasks
                 (Z.to_nat (index_stop_1D_ it - next_index_1D_ it)) it
               = Ok tasks
            /\ Forall2 (fun index_2D stat_task =>
                          strat_build_StatTask strat index_2D = Ok stat_task)
                 (worker_indices f proc_id) tasks.
Proof.
  intros f. apply (TaskItFactory_workers_share_tasks f).
  - simpl. split; [split; [lia|reflexivity]|lia].
  - reflexivity.
  - split; [simpl; lia|reflexivity].
Defined.

(** X6.  [build_TaskIt] ends with a fatal error for every process id that
    is not the id of a worker: "proc_id is too large" from [nproc_] on, and
    the error of [calc_chunk_slice] for the ids from the number of
    partitions on, when there are fewer partitions than processes. *)
Theorem build_TaskIt_rejects (f : TaskItFactory) (proc_id : Z) :
  valid_strat (factory_partition_strat_ f) ->
  few_segments (factory_partition_strat_ f) ->
  1 <= nproc_ f < 2 ^ 64 ->
  0 <= proc_id ->
  (nproc_ f <= proc_id ->
   build_TaskIt f proc_id = Error "proc_id is too large")
  /\ (factory_n_partitions f <= proc_id < nproc_ f ->
      build_TaskIt f proc_id = Error "something is very wrong").
Proof.
  intros Hvalid Hfew Hnproc Hp.
  pose proof (factory_facts f Hvalid Hfew Hnproc) as (_ & _ & Hn & He & _).
  split; intros Hbad; unfold build_TaskIt.
  - destruct (Z.leb_spec (nproc_ f) proc_id); [reflexivity|lia].
  - destruct (Z.leb_spec (nproc_ f) proc_id); [lia|].
    rewrite safe_cast_u64_small by lia. simpl.
    rewrite factory_effective_nproc by assumption. simpl.
    unfold calc_chunk_slice.
    destruct (Z.ltb_spec (factory_n_partitions f)
                (Z.min (nproc_ f) (factory_n_partitions f))); [reflexivity|].
    destruct (Z.leb_spec (Z.min (nproc_ f) (factory_n_partitions f)) proc_id);
      [reflexivity|lia].
Qed.

Lemma build_TaskIt_rejects_witness :
  let f := {| nproc_ := 8;
              factory_partition_strat_ :=
                AutoStrat {| AutoSFPartitionStrat.n_points := 12;
                             AutoSFPartitionStrat.num_segments := 3 |} |} in
  build_TaskIt f 8 = Error "proc_id is too large"
  /\ build_TaskIt f 6 = Error "something is very wrong".
Proof.
  intros f.
  assert (valid_strat (factory_partition_strat_ f)) as Hvalid
    by (simpl; split; [split; [lia|reflexivity]|lia]).
  assert (few_segments (factory_partition_strat_ f)) as Hfew by reflexivity.
  assert (1 <= nproc_ f < 2 ^ 64) as Hnproc
    by (split; [simpl; lia|reflexivity]).
  split.
  - apply (build_TaskIt_rejects f 8 Hvalid Hfew Hnproc); simpl; lia.
  - apply (build_TaskIt_rejects f 6 Hvalid Hfew Hnproc); [lia|].
    vm_compute. split; [discriminate|reflexivity].
Defined.

(** ** [CrossSFPartitionStrat::create] *)

(** The test of [create] that works around the overflow of the product
    [n_points_A * n_points_B] decides what the product of the integers
    decides. *)
Lemma exceed_small_npairs_eq (n_points_A n_points_B : Z) :
  1 <= n_points_A < 2 ^ 64 -> 1 <= n_points_B < 2 ^ 64 ->
  (1000 <? wrap64 (n_points_A * n_points_B))
  || ((1000 <=? n_points_A) && (0 <? n_points_B))
  || ((1000 <=? n_points_B) && (0 <? n_points_A))
  = negb ((n_points_A * n_points_B <=? 1000)
          && (n_points_A <? 1000) && (n_points_B <? 1000)).
Proof.
  intros HA HB.
  destruct (Z.leb_spec 1000 n_points_A) as [HA'|HA'];
    destruct (Z.ltb_spec n_points_A 1000); try lia;
    destruct (Z.ltb_spec 0 n_points_B); try lia;
    destruct (Z.ltb_spec 0 n_points_A); try lia;
    destruct (Z.leb_spec 1000 n_points_B) as [HB'|HB'];
    destruct (Z.ltb_spec n_points_B 1000); try lia;
    rewrite ?andb_false_r, ?orb_true_r; simpl; try reflexivity.
  rewrite !orb_false_r, andb_true_r.
  rewrite wrap64_small by nia.
  destruct (Z.ltb_spec 1000 (n_points_A * n_points_B));
    destruct (Z.leb_spec (n_points_A * n_points_B) 1000); try lia; reflexivity.
Qed.

Lemma cross_create_spec (nproc n_points_A n_points_B : Z)
    (skip_small_problem_check : bool) :
  1 <= nproc < 2 ^ 64 ->
  1 <= n_points_A < 2 ^ 64 -> 1 <= n_points_B < 2 ^ 64 ->
  let segments :=
    cross_segments nproc n_points_A n_points_B skip_small_problem_check in
  let s :=
    {| CrossSFPartitionStrat.n_points_A := n_points_A;
       CrossSFPartitionStrat.num_segments_A := segments.1;
       CrossSFPartitionStrat.n_points_B := n_points_B;
       CrossSFPartitionStrat.num_segments_B := segments.2 |} in
  CrossSFPartitionStrat.create nproc n_points_A n_points_B
    skip_small_problem_check = Ok s
  /\ valid_strat (CrossStrat s)
  /\ (segments = (1, 1) \/ segments = (nproc, 1) \/ segments = (1, nproc)).
Proof.
  intros Hnproc HA HB segments s. subst s segments.
  unfold CrossSFPartitionStrat.create, cross_segments.
  destruct (Z.eqb_spec nproc 0); [lia|].
  cbv zeta. rewrite exceed_small_npairs_eq by assumption.
  rewrite negb_involutive.
  set (small := (n_points_A * n_points_B <=? 1000)
                && (n_points_A <? 1000) && (n_points_B <? 1000)).
  unfold CrossSFPartitionStrat.builder.
  destruct (small && negb skip_small_problem_check); simpl.
  { rewrite !safe_cast_u64_small by lia. simpl.
    split; [reflexivity|]. split; [lia|]. left. reflexivity. }
  assert (n_points_A = nproc -> n_points_A mod nproc = 0) as HmodA
    by (intros ->; apply Z_mod_same_full).
  assert (n_points_B = nproc -> n_points_B mod nproc = 0) as HmodB
    by (intros ->; apply Z_mod_same_full).
  destruct (Z.ltb_spec n_points_A nproc) as [HAn|HAn];
    destruct (Z.ltb_spec n_points_B nproc) as [HBn|HBn]; simpl;
    destruct (Z.leb_spec nproc n_points_A); try lia;
    destruct (Z.leb_spec nproc n_points_B); try lia; simpl;
    repeat match goal with
           | |- context [?a mod ?b =? 0] => destruct (Z.eqb_spec (a mod b) 0)
           | |- context [?a <? ?b] => destruct (Z.ltb_spec a b); try lia
           end; simpl;
    rewrite ?safe_cast_u64_small by lia; simpl;
    try lia;
    (split; [reflexivity|]); (split; [lia|]); auto.
Qed.

(** X7.  [CrossSFPartitionStrat::create] reaches no fatal error for
    [nproc >= 1] and two sets that are not empty.  It keeps the numbers of
    points and cuts at most one axis, into [nproc] segments: none for a
    small problem or when [nproc] exceeds both numbers of points, otherwise
    an axis whose number of points is a multiple of [nproc] (A first),
    otherwise the axis with more points.  The axis that is cut has at least
    [nproc] points, so that the strategy is valid, there are 1 or [nproc]
    partitions, and the test of the small problem is not fooled by the
    overflow of [n_points_A * n_points_B]. *)
Theorem cross_create_segments (nproc n_points_A n_points_B : Z)
    (skip_small_problem_check : bool) :
  1 <= nproc < 2 ^ 64 ->
  1 <= n_points_A < 2 ^ 64 -> 1 <= n_points_B < 2 ^ 64 ->
  let segments :=
    cross_segments nproc n_points_A n_points_B skip_small_problem_check in
  let s :=
    {| CrossSFPartitionStrat.n_points_A := n_points_A;
       CrossSFPartitionStrat.num_segments_A := segments.1;
       CrossSFPartitionStrat.n_points_B := n_points_B;
       CrossSFPartitionStrat.num_segments_B := segments.2 |} in
  CrossSFPartitionStrat.create nproc n_points_A n_points_B
    skip_small_problem_check = Ok s
  /\ valid_strat (CrossStrat s)
  /\ (CrossSFPartitionStrat.n_partitions s = 1
      \/ CrossSFPartitionStrat.n_partitions s = nproc).
Proof.
  intros Hnproc HA HB segments s.
  destruct (cross_create_spec nproc n_points_A n_points_B
              skip_small_problem_check Hnproc HA HB)
    as (Hcreate & Hvalid & Hsegments).
  split; [exact Hcreate|]. split; [exact Hvalid|].
  unfold CrossSFPartitionStrat.n_partitions. subst s. simpl.
  fold segments in Hsegments.
  destruct Hsegments as [->|[->| ->]]; simpl;
    rewrite wrap64_small by lia; lia.
Qed.

Lemma cross_create_segments_witness :
  let segments := cross_segments 4 10 2001 false in
  let s :=
    {| CrossSFPartitionStrat.n_points_A := 10;
       CrossSFPartitionStrat.num_segments_A := segments.1;
       CrossSFPartitionStrat.n_points_B := 2001;
       CrossSFPartitionStrat.num_segments_B := segments.2 |} in
  CrossSFPartitionStrat.create 4 10 2001 false = Ok s
  /\ valid_strat (CrossStrat s)
  /\ (CrossSFPartitionStrat.n_partitions s = 1
      \/ CrossSFPartitionStrat.n_partitions s = 4).
Proof.
  apply (cross_create_segments 4 10 2001 false);
    (split; [lia|reflexivity]).
Defined.

(** * Further properties of the accumulators *)

(** ** Integers that a [double] holds exactly *)

Lemma digits2_pos_bound (p : positive) :
  2 ^ (Z.pos (digits2_pos p) - 1) <= Z.pos p < 2 ^ Z.pos (digits2_pos p).
Proof.
  induction p as [p IH|p IH|]; cbn [digits2_pos].
  - rewrite Pos2Z.inj_succ.
    replace (Z.succ (Z.pos (digits2_pos p)) - 1)
      with (Z.succ (Z.pos (digits2_pos p) - 1)) by lia.
    rewrite !Z.pow_succ_r by lia. lia.
  - rewrite Pos2Z.inj_succ.
    replace (Z.succ (Z.pos (digits2_pos p)) - 1)
      with (Z.succ (Z.pos (digits2_pos p) - 1)) by lia.
    rewrite !Z.pow_succ_r by lia. lia.
  - simpl. lia.
Qed.

Lemma iter_xO (d m : positive) :
  Z.pos (Pos.iter xO m d) = Z.pos m * 2 ^ Z.pos d
  /\ Z.pos (digits2_pos (Pos.iter xO m d)) = Z.pos (digits2_pos m) + Z.pos d.
Proof.
  induction d as [|d IH] using Pos.peano_ind.
  - simpl. split; lia.
  - rewrite Pos.iter_succ. destruct IH as (IH1 & IH2).
    cbn [digits2_pos]. rewrite !Pos2Z.inj_succ, Z.pow_succ_r by lia. lia.
Qed.

(** The rounding of a number that has 53 digits and an exponent in range
    changes nothing. *)
Lemma binary_round_aux_exact (s : bool) (m : positive) (e : Z) :
  fexp d_prec d_emax (Z.pos (digits2_pos m) + e) = e ->
  e <= d_emax - d_prec ->
  binary_round_aux d_prec d_emax s (Z.pos m) e loc_Exact = S754_finite s m e.
Proof.
  intros Hfexp He. unfold binary_round_aux, shr_fexp. cbn [Zdigits2].
  rewrite Hfexp, Z.sub_diag. cbn [shr shr_record_of_loc shr_m loc_of_shr_record
                                  round_nearest_even Zdigits2].
  rewrite Hfexp, Z.sub_diag. cbn [shr shr_m].
  destruct (Z.leb_spec e (d_emax - d_prec)); [reflexivity|lia].
Qed.

Lemma d_of_Z_small (s : bool) (p : positive) :
  Z.pos p < 2 ^ 53 ->
  exists m e,
    binary_round d_prec d_emax s p 0 = S754_finite s m e
    /\ - 52 <= e <= 0 /\ Z.pos m = Z.pos p * 2 ^ (- e).
Proof.
  intros Hp. pose proof (digits2_pos_bound p) as Hd.
  assert (Z.pos (digits2_pos p) <= 53) as Hd53.
  { destruct (Z_le_gt_dec (Z.pos (digits2_pos p)) 53) as [|Hgt]; [assumption|].
    assert (2 ^ 53 <= 2 ^ (Z.pos (digits2_pos p) - 1))
      by (apply Z.pow_le_mono_r; lia). lia. }
  unfold binary_round. rewrite Z.add_0_r.
  assert (fexp d_prec d_emax (Z.pos (digits2_pos p))
          = Z.pos (digits2_pos p) - 53) as Hfexp.
  { unfold fexp, emin, d_prec, d_emax.
    change (IntDef.Z.max ?a ?b) with (Z.max a b). lia. }
  rewrite Hfexp. unfold shl_align.
  destruct (Z.pos (digits2_pos p) - 53 - 0) as [|k|k] eqn:Hk; try lia.
  - exists p, 0. rewrite binary_round_aux_exact.
    + replace (Z.pos (digits2_pos p) - 53) with 0 by lia.
      split; [reflexivity|]. split; [lia|]. simpl. lia.
    + rewrite Z.add_0_r, Hfexp. lia.
    + unfold d_emax, d_prec. lia.
  - destruct (iter_xO k p) as (Hm & Hdig).
    change (PosDef.Pos.iter xO p k) with (Pos.iter xO p k).
    exists (Pos.iter xO p k), (Z.pos (digits2_pos p) - 53).
    rewrite binary_round_aux_exact.
    + split; [reflexivity|]. split; [lia|].
      rewrite Hm. f_equal. f_equal. lia.
    + rewrite Hdig. unfold fexp, emin, d_prec, d_emax.
      change (IntDef.Z.max ?a ?b) with (Z.max a b). lia.
    + unfold d_emax, d_prec. lia.
Qed.

(** An integer of at most 53 bits survives the conversion to [double] and
    back. *)
Lemma d_to_i64_of_Z (z : Z) : - 2 ^ 53 < z < 2 ^ 53 -> d_to_i64 (d_of_Z z) = z.
Proof.
  intros Hz. unfold d_of_Z, binary_normalize.
  destruct z as [|p|p]; [reflexivity| |].
  - destruct (d_of_Z_small false p ltac:(lia)) as (m & e & -> & He & Hm).
    unfold d_to_i64. destruct (Z.leb_spec 0 e).
    + assert (e = 0) as -> by lia. simpl in Hm. rewrite Z.pow_0_r.
      replace (Z.pos m * 1) with (Z.pos p) by lia.
      destruct (Z.ltb_spec (Z.pos p) (2 ^ 63)); [reflexivity|].
      assert (2 ^ 53 < 2 ^ 63) by reflexivity. lia.
    + rewrite Hm, Z.div_mul by (apply Z.pow_nonzero; lia).
      destruct (Z.ltb_spec (Z.pos p) (2 ^ 63)); [reflexivity|].
      assert (2 ^ 53 < 2 ^ 63) by reflexivity. lia.
  - destruct (d_of_Z_small true p ltac:(lia)) as (m & e & -> & He & Hm).
    unfold d_to_i64. destruct (Z.leb_spec 0 e).
    + assert (e = 0) as -> by lia. simpl in Hm. rewrite Z.pow_0_r.
      replace (Z.pos m * 1) with (Z.pos p) by lia.
      destruct (Z.ltb_spec (Z.pos p) (2 ^ 63)); [reflexivity|].
      assert (2 ^ 53 < 2 ^ 63) by reflexivity. lia.
    + rewrite Hm, Z.div_mul by (apply Z.pow_nonzero; lia).
      destruct (Z.ltb_spec (Z.pos p) (2 ^ 63)); [reflexivity|].
      assert (2 ^ 53 < 2 ^ 63) by reflexivity. lia.
Qed.

(** ** The count of a merge *)

Lemma central_add_entry_count {Order : nat}
    (a : CentralMomentAccum.t Order Int64) (val : double) :
  exists a', CentralMomentAccum.add_entry a val = Ok a'
    /\ CentralMomentAccum.count a' = wrap_i64 (CentralMomentAccum.count a + 1).
Proof.
  unfold CentralMomentAccum.add_entry.
  destruct (1 <? Order)%nat; eexists; split; reflexivity.
Qed.

Lemma origin_add_entry_count {Order : nat}
    (a : OriginMomentAccum.t Order Int64) (val : double) :
  exists a', OriginMomentAccum.add_entry a val = Ok a'
    /\ OriginMomentAccum.count a' = wrap_i64 (OriginMomentAccum.count a + 1).
Proof. eexists; split; reflexivity. Qed.

Lemma central_consolidate_count {Order : nat}
    (this other : CentralMomentAccum.t Order Int64) :
  - 2 ^ 53 < CentralMomentAccum.count this + CentralMomentAccum.count other
    < 2 ^ 53 ->
  exists merged,
    CentralMomentAccum.consolidate_with_other this other = Ok merged
    /\ CentralMomentAccum.count merged
       = CentralMomentAccum.count this + CentralMomentAccum.count other.
Proof.
  intros Hsum. assert (2 ^ 53 < 2 ^ 63) by reflexivity.
  unfold CentralMomentAccum.consolidate_with_other.
  cbn [val_eqb_Z is_int64].
  destruct (Z.eqb_spec (CentralMomentAccum.count this) 0) as [H0|H0];
    [exists other; split; [reflexivity|lia]|].
  destruct (Z.eqb_spec (CentralMomentAccum.count other) 0) as [H0'|H0'];
    [exists this; split; [reflexivity|lia]|].
  destruct (Z.eqb_spec (CentralMomentAccum.count this) 1) as [H1|H1];
    cbn [andb].
  { destruct (central_add_entry_count other
                (CentralMomentAccum.moment_accums this
                   !!! CentralMomentAccum.LUT_mean)) as (a' & -> & Hc).
    exists a'. split; [reflexivity|]. rewrite Hc, wrap_i64_small; lia. }
  destruct (Z.eqb_spec (CentralMomentAccum.count other) 1) as [H1'|H1'];
    cbn [andb].
  { destruct (central_add_entry_count this
                (CentralMomentAccum.moment_accums other
                   !!! CentralMomentAccum.LUT_mean)) as (a' & -> & Hc).
    exists a'. split; [reflexivity|]. rewrite Hc, wrap_i64_small; lia. }
  eexists. split; [reflexivity|].
  cbn [CentralMomentAccum.count val_of_double val_to_double val_add].
  rewrite wrap_i64_small by lia. apply d_to_i64_of_Z. exact Hsum.
Qed.

Lemma origin_consolidate_count {Order : nat}
    (this other : OriginMomentAccum.t Order Int64) :
  - 2 ^ 53 < OriginMomentAccum.count this + OriginMomentAccum.count other
    < 2 ^ 53 ->
  exists merged,
    OriginMomentAccum.consolidate_with_other this other = Ok merged
    /\ OriginMomentAccum.count merged
       = OriginMomentAccum.count this + OriginMomentAccum.count other.
Proof.
  intros Hsum. assert (2 ^ 53 < 2 ^ 63) by reflexivity.
  unfold OriginMomentAccum.consolidate_with_other.
  cbn [val_eqb_Z is_int64].
  destruct (Z.eqb_spec (OriginMomentAccum.count this) 0) as [H0|H0];
    [exists other; split; [reflexivity|lia]|].
  destruct (Z.eqb_spec (OriginMomentAccum.count other) 0) as [H0'|H0'];
    [exists this; split; [reflexivity|lia]|].
  destruct (Z.eqb_spec (OriginMomentAccum.count this) 1) as [H1|H1];
    cbn [andb].
  { destruct (origin_add_entry_count other
                (OriginMomentAccum.moment_accums this !!! 0%nat))
      as (a' & -> & Hc).
    exists a'. split; [reflexivity|]. rewrite Hc, wrap_i64_small; lia. }
  destruct (Z.eqb_spec (OriginMomentAccum.count other) 1) as [H1'|H1'];
    cbn [andb].
  { destruct (origin_add_entry_count this
                (OriginMomentAccum.moment_accums other !!! 0%nat))
      as (a' & -> & Hc).
    exists a'. split; [reflexivity|]. rewrite Hc, wrap_i64_small; lia. }
  eexists. split; [reflexivity|].
  cbn [OriginMomentAccum.count val_of_double val_to_double val_add].
  rewrite wrap_i64_small by lia. apply d_to_i64_of_Z. exact Hsum.
Qed.

(** X8.  The merge of two accumulators with integer counts never fails and
    adds the counts, as long as the sum is below [2^53]: the general case
    computes the sum as a [double] and converts it back.  Above [2^53] the
    count of the merge can be wrong: the counts [2^53] and [3] merge into
    [2^53 + 4]. *)
Theorem unweighted_consolidate_adds_counts (Order : nat) :
  (forall this other : CentralMomentAccum.t Order Int64,
     - 2 ^ 53 < CentralMomentAccum.count this + CentralMomentAccum.count other
       < 2 ^ 53 ->
     exists merged,
       CentralMomentAccum.consolidate_with_other this other = Ok merged
       /\ CentralMomentAccum.count merged
          = CentralMomentAccum.count this + CentralMomentAccum.count other)
  /\ (forall this other : OriginMomentAccum.t Order Int64,
        - 2 ^ 53 < OriginMomentAccum.count this + OriginMomentAccum.count other
          < 2 ^ 53 ->
        exists merged,
          OriginMomentAccum.consolidate_with_other this other = Ok merged
          /\ OriginMomentAccum.count merged
             = OriginMomentAccum.count this + OriginMomentAccum.count other)
  /\ (exists (this other merged : CentralMomentAccum.t Order Int64),
        CentralMomentAccum.count this = 2 ^ 53
        /\ CentralMomentAccum.count other = 3
        /\ CentralMomentAccum.consolidate_with_other this other = Ok merged
        /\ CentralMomentAccum.count merged = 2 ^ 53 + 4).
Proof.
  split; [intros this other; apply central_consolidate_count|].
  split; [intros this other; apply origin_consolidate_count|].
  exists (CentralMomentAccum.Build_t Order Int64 (2 ^ 53)
            (replicate Order (d_of_Z 0))),
         (CentralMomentAccum.Build_t Order Int64 3
            (replicate Order (d_of_Z 0))).
  eexists. split; [reflexivity|]. split; [reflexivity|].
  unfold CentralMomentAccum.consolidate_with_other. simpl.
  split; [reflexivity|]. vm_compute. reflexivity.
Qed.

Lemma unweighted_consolidate_adds_counts_witness :
  exists merged,
    CentralMomentAccum.consolidate_with_other
      (CentralMomentAccum.Build_t 2 Int64 5 [d_of_Z 1; d_of_Z 2])
      (CentralMomentAccum.Build_t 2 Int64 7 [d_of_Z 3; d_of_Z 4]) = Ok merged
    /\ CentralMomentAccum.count merged = 5 + 7.
Proof.
  apply (proj1 (unweighted_consolidate_adds_counts 2)
           (CentralMomentAccum.Build_t 2 Int64 5 [d_of_Z 1; d_of_Z 2])
           (CentralMomentAccum.Build_t 2 Int64 7 [d_of_Z 3; d_of_Z 4])).
  simpl. split; reflexivity.
Defined.

(** * Further properties of the pair kernel *)

(** ** The counts of the scalar accumulators *)

Lemma wrap_i64_add_l (a b : Z) : wrap_i64 (wrap_i64 a + b) = wrap_i64 (a + b).
Proof.
  unfold wrap_i64. f_equal.
  replace ((a + 2 ^ 63) mod 2 ^ 64 - 2 ^ 63 + b + 2 ^ 63)
    with ((a + 2 ^ 63) mod 2 ^ 64 + b) by lia.
  rewrite Zplus_mod_idemp_l. f_equal. lia.
Qed.

Lemma wrap_i64_idem (z : Z) : wrap_i64 (wrap_i64 z) = wrap_i64 z.
Proof.
  pose proof (wrap_i64_add_l z 0) as Hz. rewrite !Z.add_0_r in Hz. exact Hz.
Qed.

Section ScalarCounts.
Context {A : Type} `{Accum A}.
Variable cnt : A -> Z.
Hypothesis add_entry_cnt : forall (a : A) (val : double),
  exists a', accum_add_entry a val = Ok a' /\ cnt a' = wrap_i64 (cnt a + 1).

Variable mem : Z -> double.
Variable choice : PairOperation.
Variables points_a points_b : PointProps.
Variable dist_sqr_bin_edges : list double.
Variable nbins : Z.
Hypothesis Hnbins : 0 <= nbins /\ nbins + 1 < 2 ^ 64.

Let bin_of := pair_bin mem choice points_a points_b dist_sqr_bin_edges nbins.

Let hit (k : nat) (pair : Z * Z) : bool :=
  (bin_of pair =? Z.of_nat k) && (Z.of_nat k <? nbins).

Lemma scalar_process_pair_counts (pair : Z * Z)
    (c : ScalarAccumCollection.t A) :
  nbins <= Z.of_nat (length (ScalarAccumCollection.accum_list_ c)) ->
  exists c',
    process_pair mem choice points_a points_b dist_sqr_bin_edges nbins c pair
    = Ok c'
    /\ length (ScalarAccumCollection.accum_list_ c')
       = length (ScalarAccumCollection.accum_list_ c)
    /\ forall (k : nat) (a : A),
         ScalarAccumCollection.accum_list_ c !! k = Some a ->
         exists a',
           ScalarAccumCollection.accum_list_ c' !! k = Some a'
           /\ (if hit k pair then cnt a' = wrap_i64 (cnt a + 1) else a' = a).
Proof.
  intros Hlen. unfold process_pair, hit.
  fold (pair_bin mem choice points_a points_b dist_sqr_bin_edges nbins pair).
  fold (bin_of pair).
  pose proof (identify_bin_index_range d_ltb
                (dist_sqr (pair_rslt_of mem choice points_a points_b
                             pair.1 pair.2))
                dist_sqr_bin_edges nbins ltac:(lia) ltac:(lia)) as Hrange.
  fold (pair_bin mem choice points_a points_b dist_sqr_bin_edges nbins pair)
    in Hrange.
  fold (bin_of pair) in Hrange.
  destruct (Z.ltb_spec (bin_of pair) nbins) as [Hin|Hout].
  - unfold_kernel_add_entry.
    unfold ScalarAccumCollection.add_entry.
    destruct (lookup_lt_is_Some_2 (ScalarAccumCollection.accum_list_ c)
                (Z.to_nat (bin_of pair)) ltac:(lia)) as [a0 Ha0].
    rewrite Ha0.
    destruct (add_entry_cnt a0
                (abs_vdiff (pair_rslt_of mem choice points_a points_b
                              pair.1 pair.2))) as (a0' & -> & Hcnt).
    eexists. split; [reflexivity|]. cbn [ScalarAccumCollection.accum_list_].
    split; [apply length_insert|].
    intros k a Hk. destruct (decide (Z.to_nat (bin_of pair) = k)) as [<-|Hne].
    + exists a0'.
      rewrite list_lookup_insert_eq by (eapply lookup_lt_Some; eassumption).
      split; [reflexivity|].
      rewrite Z2Nat.id by lia. rewrite Z.eqb_refl.
      destruct (Z.ltb_spec (bin_of pair) nbins); [|lia]. simpl.
      assert (a = a0) as -> by congruence. exact Hcnt.
    + exists a. rewrite list_lookup_insert_ne by exact Hne.
      split; [exact Hk|].
      destruct (Z.eqb_spec (bin_of pair) (Z.of_nat k)); [lia|]. reflexivity.
  - exists c. split; [reflexivity|]. split; [reflexivity|].
    intros k a Hk. exists a. split; [exact Hk|].
    destruct (Z.eqb_spec (bin_of pair) (Z.of_nat k)); [|reflexivity].
    destruct (Z.ltb_spec (Z.of_nat k) nbins); [lia|]. reflexivity.
Qed.

Lemma scalar_process_pairs_counts (pairs : list (Z * Z))
    (c : ScalarAccumCollection.t A) :
  nbins <= Z.of_nat (length (ScalarAccumCollection.accum_list_ c)) ->
  exists c',
    foldM (process_pair mem choice points_a points_b dist_sqr_bin_edges nbins)
      pairs c = Ok c'
    /\ length (ScalarAccumCollection.accum_list_ c')
       = length (ScalarAccumCollection.accum_list_ c)
    /\ forall (k : nat) (a : A),
         ScalarAccumCollection.accum_list_ c !! k = Some a ->
         exists a',
           ScalarAccumCollection.accum_list_ c' !! k = Some a'
           /\ (List.filter (hit k) pairs = [] -> a' = a)
           /\ (wrap_i64 (cnt a) = cnt a ->
               cnt a'
               = wrap_i64
                   (cnt a + Z.of_nat (length (List.filter (hit k) pairs)))).
Proof.
  revert c. induction pairs as [|pair pairs IH]; intros c Hlen.
  - exists c. split; [reflexivity|]. split; [reflexivity|].
    intros k a Hk. exists a. split; [exact Hk|]. split; [reflexivity|].
    intros Hw. simpl. rewrite Z.add_0_r. symmetry. exact Hw.
  - destruct (scalar_process_pair_counts pair c Hlen) as (c1 & Hstep & Hlen1 & H1).
    destruct (IH c1 ltac:(lia)) as (c' & Hfold & Hlen' & H').
    exists c'. cbn [foldM]. rewrite Hstep. split; [exact Hfold|].
    split; [lia|].
    intros k a Hk. destruct (H1 k a Hk) as (a1 & Hk1 & Ha1).
    destruct (H' k a1 Hk1) as (a' & Hk' & Hnone & Hcnt).
    exists a'. split; [exact Hk'|]. cbn [List.filter].
    destruct (hit k pair) eqn:Hhit.
    + split; [discriminate|]. intros Hw. cbn [length].
      rewrite Hcnt by (rewrite Ha1; apply wrap_i64_idem).
      rewrite Ha1, wrap_i64_add_l. f_equal. lia.
    + subst a1. split; [exact Hnone|exact Hcnt].
Qed.

End ScalarCounts.

Lemma filter_nil_of_false {X : Type} (f : X -> bool) (l : list X) :
  (forall x, f x = false) -> List.filter f l = [].
Proof.
  intros Hf. induction l as [|x l IH]; simpl; [reflexivity|].
  rewrite Hf. exact IH.
Qed.

Lemma scalar_counts_pairs_per_bin {A : Type} `{Accum A} (cnt : A -> Z)
    (mem : Z -> double) (duplicated_points : bool) (choice : PairOperation)
    (points_a points_b : PointProps) (dist_sqr_bin_edges : list double)
    (nbins : Z) (c : ScalarAccumCollection.t A) :
  (forall (a : A) (val : double),
     exists a', accum_add_entry a val = Ok a'
                /\ cnt a' = wrap_i64 (cnt a + 1)) ->
  0 <= nbins <= ScalarAccumCollection.n_spatial_bins c ->
  nbins + 1 < 2 ^ 64 ->
  counts_pairs_per_bin cnt mem duplicated_points choice points_a points_b
    dist_sqr_bin_edges nbins c.
Proof.
  intros Hadd Hnbins Hn64. unfold counts_pairs_per_bin, process_data.
  unfold ScalarAccumCollection.n_spatial_bins in *.
  destruct (scalar_process_pairs_counts cnt Hadd mem choice points_a points_b
              dist_sqr_bin_edges nbins ltac:(lia)
              (process_data_pairs duplicated_points (n_points points_a)
                 (n_points points_b)) c ltac:(lia))
    as (c' & Hfold & Hlen & Hbins).
  exists c'. split; [exact Hfold|]. split; [lia|].
  intros k a Hk. destruct (Hbins k a Hk) as (a' & Hk' & Hnone & Hcnt).
  exists a'. split; [exact Hk'|]. split.
  - intros Hout. apply Hnone. apply filter_nil_of_false. intros pair.
    destruct (Z.ltb_spec (Z.of_nat k) nbins); [lia|]. apply andb_false_r.
  - intros Hin Hrange. rewrite Hcnt by (apply wrap_i64_small; lia).
    unfold pairs_in_bin. erewrite List.filter_ext; [reflexivity|].
    intros pair. cbv beta.
    destruct (Z.ltb_spec (Z.of_nat k) nbins); [|lia]. apply andb_true_r.
Qed.

(** X9.  A run of the pair kernel on a collection of unweighted scalar
    accumulators (central moments or moments about the origin, of any
    order) returns, and the count of every spatial bin grows by the number
    of the enumerated pairs that the bin search has put in that bin; the
    bins from [nbins] on are left as they are. *)
Theorem process_data_counts_pairs_per_bin (Order : nat) (mem : Z -> double)
    (duplicated_points : bool) (choice : PairOperation)
    (points_a points_b : PointProps) (dist_sqr_bin_edges : list double)
    (nbins : Z) :
  0 <= nbins -> nbins + 1 < 2 ^ 64 ->
  (forall c : ScalarAccumCollection.t (CentralMomentAccum.t Order Int64),
     nbins <= ScalarAccumCollection.n_spatial_bins c ->
     counts_pairs_per_bin (@CentralMomentAccum.count Order Int64) mem
       duplicated_points
       choice points_a points_b dist_sqr_bin_edges nbins c)
  /\ (forall c : ScalarAccumCollection.t (OriginMomentAccum.t Order Int64),
        nbins <= ScalarAccumCollection.n_spatial_bins c ->
        counts_pairs_per_bin (@OriginMomentAccum.count Order Int64) mem
          duplicated_points
          choice points_a points_b dist_sqr_bin_edges nbins c).
Proof.
  intros Hnbins Hn64. split; intros c Hc;
    apply scalar_counts_pairs_per_bin; try lia.
  - intros a val. apply central_add_entry_count.
  - intros a val. apply origin_add_entry_count.
Qed.

Lemma process_data_counts_pairs_per_bin_witness :
  counts_pairs_per_bin (@CentralMomentAccum.count 2 Int64) three_points_mem
    true
    vec_diff three_points three_points
    [d_of_Z 0; d_of_Z 2; d_of_Z 25] 2
    {| ScalarAccumCollection.accum_list_ :=
         [CentralMomentAccum.new 2 Int64; CentralMomentAccum.new 2 Int64] |}.
Proof.
  apply (proj1 (process_data_counts_pairs_per_bin 2 three_points_mem true
                  vec_diff three_points three_points
                  [d_of_Z 0; d_of_Z 2; d_of_Z 25] 2
                  ltac:(lia) ltac:(reflexivity))).
  unfold ScalarAccumCollection.n_spatial_bins. simpl. lia.
Defined.

(** ** The result of a pair does not depend on the order of its points *)

Lemma binary_round_aux_opp (mx ex : Z) (lx : location) :
  binary_round_aux d_prec d_emax true mx ex lx
  = SFopp (binary_round_aux d_prec d_emax false mx ex lx).
Proof.
  unfold binary_round_aux.
  destruct (shr_fexp d_prec d_emax mx ex lx) as [mrs' e'].
  destruct (shr_fexp d_prec d_emax
              (round_nearest_even (shr_m mrs') (loc_of_shr_record mrs')) e'
              loc_Exact) as [mrs'' e''].
  destruct (shr_m mrs''); [reflexivity| |reflexivity].
  destruct (e'' <=? d_emax - d_prec); reflexivity.
Qed.

Lemma binary_normalize_opp (z e : Z) :
  z <> 0 ->
  binary_normalize d_prec d_emax (- z) e false
  = SFopp (binary_normalize d_prec d_emax z e false).
Proof.
  intros Hz. destruct z as [|p|p]; [contradiction| |]; simpl;
    unfold binary_round;
    destruct (shl_align p e (fexp d_prec d_emax (Z.pos (digits2_pos p) + e)))
      as [mz ez];
    rewrite binary_round_aux_opp; [reflexivity|].
  destruct (binary_round_aux d_prec d_emax false (Z.pos mz) ez loc_Exact)
    as [[]|[]| |[] ? ?]; reflexivity.
Qed.

(** [x - y] and [y - x] have the same magnitude. *)
Lemma d_sub_swap (x y : double) :
  d_sub x y = d_sub y x \/ d_sub x y = SFopp (d_sub y x).
Proof.
  destruct x as [sx|sx| |sx mx ex], y as [sy|sy| |sy my ey];
    try (destruct sx, sy; simpl; auto; fail);
    try (destruct sx; simpl; auto; fail);
    try (destruct sy; simpl; auto; fail); try (simpl; auto; fail).
  unfold d_sub, SFsub.
  change (IntDef.Z.min ?a ?b) with (Z.min a b).
  rewrite (Z.min_comm ey ex).
  set (a := cond_Zopp sx (Z.pos (fst (shl_align mx ex (Z.min ex ey))))).
  set (b := cond_Zopp sy (Z.pos (fst (shl_align my ey (Z.min ex ey))))).
  destruct (Z.eq_dec (b - a) 0) as [H0|H0].
  - left. replace (a - b) with 0 by lia. rewrite H0. reflexivity.
  - right. replace (a - b) with (- (b - a)) by lia.
    apply binary_normalize_opp. exact H0.
Qed.

Lemma d_mul_square_opp (x : double) : d_mul (SFopp x) (SFopp x) = d_mul x x.
Proof. destruct x as [[]|[]| |[] m e]; reflexivity. Qed.

Lemma d_mul_comm (x y : double) : d_mul x y = d_mul y x.
Proof.
  unfold d_mul, SFmul.
  destruct x as [sx|sx| |sx mx ex], y as [sy|sy| |sy my ey];
    try rewrite (xorb_comm sx sy); try reflexivity.
  rewrite (Pos.mul_comm mx my), (Z.add_comm ex ey). reflexivity.
Qed.

Lemma calc_dist_sqr_swap (x0 x1 y0 y1 z0 z1 : double) :
  calc_dist_sqr x0 x1 y0 y1 z0 z1 = calc_dist_sqr x1 x0 y1 y0 z1 z0.
Proof.
  unfold calc_dist_sqr.
  assert (forall u v : double,
            d_mul (d_sub u v) (d_sub u v) = d_mul (d_sub v u) (d_sub v u))
    as Hsq.
  { intros u v. destruct (d_sub_swap u v) as [->| ->];
      [reflexivity|apply d_mul_square_opp]. }
  rewrite (Hsq x0 x1), (Hsq y0 y1), (Hsq z0 z1). reflexivity.
Qed.

Lemma pair_rslt_of_swap (mem : Z -> double) (choice : PairOperation)
    (points_a points_b : PointProps) (i_a i_b : Z) :
  pair_rslt_of mem choice points_a points_b i_a i_b
  = pair_rslt_of mem choice points_b points_a i_b i_a.
Proof.
  unfold pair_rslt_of, legacy_calc_pair_rslt. destruct choice; cbv zeta.
  - f_equal; [apply calc_dist_sqr_swap|]. f_equal. apply calc_dist_sqr_swap.
  - f_equal; [apply calc_dist_sqr_swap|apply d_mul_comm].
Qed.

(** X10.  The kernel computes for the pair of the point [i_a] of a set A and
    the point [i_b] of a set B what it computes for the pair of the point
    [i_b] of B and the point [i_a] of A: the same squared distance and the
    same value (the magnitude of the difference of the vectors, or the
    product of the scalars), bit for bit; so the pair goes to the same
    spatial bin. *)
Theorem pair_result_symmetric (mem : Z -> double) (choice : PairOperation)
    (points_a points_b : PointProps) (i_a i_b : Z)
    (dist_sqr_bin_edges : list double) (nbins : Z) :
  pair_rslt_of mem choice points_a points_b i_a i_b
  = pair_rslt_of mem choice points_b points_a i_b i_a
  /\ pair_bin mem choice points_a points_b dist_sqr_bin_edges nbins (i_a, i_b)
     = pair_bin mem choice points_b points_a dist_sqr_bin_edges nbins
         (i_b, i_a).
Proof.
  split; [apply pair_rslt_of_swap|].
  unfold pair_bin. simpl. rewrite pair_rslt_of_swap. reflexivity.
Qed.

(** ** The tasks of the parallel kernel, as pairs of points *)

(** The points of a task are read at the places of the points of the whole
    arrays: a point set advanced by [start_index] has at its index [i] the
    point [start_index + i]. *)
Lemma pair_rslt_of_shift (mem : Z -> double) (choice : PairOperation)
    (points_a points_b cur_points_a cur_points_b : PointProps)
    (start_index_a start_index_b i_a i_b : Z) :
  positions cur_points_a = positions points_a + start_index_a ->
  values cur_points_a = values points_a + start_index_a ->
  spatial_dim_stride cur_points_a = spatial_dim_stride points_a ->
  positions cur_points_b = positions points_b + start_index_b ->
  values cur_points_b = values points_b + start_index_b ->
  spatial_dim_stride cur_points_b = spatial_dim_stride points_b ->
  0 <= spatial_dim_stride points_a -> 0 <= spatial_dim_stride points_b ->
  0 <= start_index_a -> 0 <= i_a ->
  start_index_a + i_a + 2 * spatial_dim_stride points_a < 2 ^ 64 ->
  0 <= start_index_b -> 0 <= i_b ->
  start_index_b + i_b + 2 * spatial_dim_stride points_b < 2 ^ 64 ->
  pair_rslt_of mem choice cur_points_a cur_points_b i_a i_b
  = pair_rslt_of mem choice points_a points_b
      (start_index_a + i_a) (start_index_b + i_b).
Proof.
  intros Hpa Hva Hsa Hpb Hvb Hsb Hstride_a Hstride_b Ha Hia Ha64 Hb Hib Hb64.
  unfold pair_rslt_of, legacy_calc_pair_rslt. cbv zeta.
  rewrite Hpa, Hva, Hsa, Hpb, Hvb, Hsb.
  rewrite !(wrap64_small (2 * _)) by lia.
  rewrite !(wrap64_small (_ + _)) by lia.
  replace (positions points_a + start_index_a + i_a)
    with (positions points_a + (start_index_a + i_a)) by lia.
  replace (positions points_a + start_index_a
           + (i_a + spatial_dim_stride points_a))
    with (positions points_a
          + (start_index_a + i_a + spatial_dim_stride points_a)) by lia.
  replace (positions points_a + start_index_a
           + (i_a + 2 * spatial_dim_stride points_a))
    with (positions points_a
          + (start_index_a + i_a + 2 * spatial_dim_stride points_a)) by lia.
  replace (values points_a + start_index_a + i_a)
    with (values points_a + (start_index_a + i_a)) by lia.
  replace (values points_a + start_index_a
           + (i_a + spatial_dim_stride points_a))
    with (values points_a
          + (start_index_a + i_a + spatial_dim_stride points_a)) by lia.
  replace (values points_a + start_index_a
           + (i_a + 2 * spatial_dim_stride points_a))
    with (values points_a
          + (start_index_a + i_a + 2 * spatial_dim_stride points_a)) by lia.
  replace (positions points_b + start_index_b + i_b)
    with (positions points_b + (start_index_b + i_b)) by lia.
  replace (positions points_b + start_index_b
           + (i_b + spatial_dim_stride points_b))
    with (positions points_b
          + (start_index_b + i_b + spatial_dim_stride points_b)) by lia.
  replace (positions points_b + start_index_b
           + (i_b + 2 * spatial_dim_stride points_b))
    with (positions points_b
          + (start_index_b + i_b + 2 * spatial_dim_stride points_b)) by lia.
  replace (values points_b + start_index_b + i_b)
    with (values points_b + (start_index_b + i_b)) by lia.
  replace (values points_b + start_index_b
           + (i_b + spatial_dim_stride points_b))
    with (values points_b
          + (start_index_b + i_b + spatial_dim_stride points_b)) by lia.
  replace (values points_b + start_index_b
           + (i_b + 2 * spatial_dim_stride points_b))
    with (values points_b
          + (start_index_b + i_b + 2 * spatial_dim_stride points_b)) by lia.
  reflexivity.
Qed.

Section TaskPairs.
Context {C : Type} `{KernelAccumCollection C}.
Variable mem : Z -> double.
Variable choice : PairOperation.
Variables points_a points_b : PointProps.
Variable dist_sqr_bin_edges : list double.
Variable nbins : Z.
Variable duplicated_points : bool.
Hypothesis Hdup : duplicated_points = true -> points_b = points_a.
Hypothesis Hstride_a :
  0 <= spatial_dim_stride points_a
  /\ n_points points_a + 2 * spatial_dim_stride points_a < 2 ^ 64.
Hypothesis Hstride_b :
  0 <= spatial_dim_stride points_b
  /\ n_points points_b + 2 * spatial_dim_stride points_b < 2 ^ 64.

(** What [process_TaskIt_] does with one task is what the inner loop does
    with the pairs of the task, read in the whole arrays. *)
Lemma process_StatTask_pairs (stat_task : StatTask) (accumulators : C) :
  0 <= start_A stat_task <= stop_A stat_task ->
  stop_A stat_task <= n_points points_a ->
  0 <= start_B stat_task <= stop_B stat_task ->
  stop_B stat_task <= n_points points_b ->
  process_StatTask mem choice points_a points_b dist_sqr_bin_edges nbins
    accumulators duplicated_points stat_task
  = foldM (process_pair mem choice points_a points_b dist_sqr_bin_edges nbins)
      (StatTask_pairs duplicated_points stat_task) accumulators.
Proof.
  intros HA HA' HB HB'.
  assert (forall sA sB (pa pb : PointProps) n_a n_b dup acc,
            0 <= sA -> sA + n_a <= n_points pa ->
            0 <= sB -> sB + n_b <= n_points pb ->
            0 <= n_a < 2 ^ 64 ->
            (dup = true -> n_b = n_a) ->
            0 <= spatial_dim_stride pa
            /\ n_points pa + 2 * spatial_dim_stride pa < 2 ^ 64 ->
            0 <= spatial_dim_stride pb
            /\ n_points pb + 2 * spatial_dim_stride pb < 2 ^ 64 ->
            process_data mem dup choice
              {| positions := positions pa + sA; values := values pa + sA;
                 n_points := n_a; n_spatial_dims := n_spatial_dims pa;
                 spatial_dim_stride := spatial_dim_stride pa |}
              {| positions := positions pb + sB; values := values pb + sB;
                 n_points := n_b; n_spatial_dims := n_spatial_dims pb;
                 spatial_dim_stride := spatial_dim_stride pb |}
              dist_sqr_bin_edges nbins acc
            = foldM (process_pair mem choice pa pb dist_sqr_bin_edges nbins)
                ((fun p : Z * Z => (sA + p.1, sB + p.2))
                   <$> process_data_pairs dup n_a n_b) acc) as Hdata.
  { intros sA sB pa pb n_a n_b dup acc HsA HnA HsB HnB Hna Hdupn Hsa Hsb.
    unfold process_data. cbn [n_points]. rewrite foldM_fmap.
    apply foldM_ext_in. intros acc' [i j] Hin. unfold process_pair.
    cbn [fst snd].
    assert (0 <= i < n_a /\ 0 <= j < n_b) as (Hi & Hj).
    { destruct dup.
      - rewrite (Hdupn eq_refl) in Hin |- *.
        apply elem_of_process_data_pairs_dup in Hin; lia.
      - apply elem_of_process_data_pairs_cross in Hin. exact Hin. }
    rewrite (pair_rslt_of_shift mem choice pa pb _ _ sA sB i j);
      cbn [positions values spatial_dim_stride]; try reflexivity; lia. }
  unfold process_StatTask, StatTask_pairs.
  destruct duplicated_points eqn:Hd.
  - rewrite (Hdup eq_refl) in *.
    destruct ((start_B stat_task =? stop_B stat_task)
              && (stop_B stat_task =? 0)).
    + rewrite wrap64_small by lia.
      apply (Hdata (start_A stat_task) (start_A stat_task) points_a points_a);
        try lia; auto.
    + rewrite !wrap64_small by lia.
      apply (Hdata (start_A stat_task) (start_B stat_task) points_a points_a);
        try lia; try assumption; try discriminate.
  - rewrite !wrap64_small by lia.
    apply (Hdata (start_A stat_task) (start_B stat_task) points_a points_b);
      try lia; try assumption; try discriminate.
Qed.

(** The loop of [process_TaskIt_] over the tasks of the iterator. *)
Lemma process_TaskIt_tasks (fuel : nat) (task_iter : TaskIt)
    (tasks : list StatTask) (accumulators : C) :
  TaskIt_tasks fuel task_iter = Ok tasks ->
  process_TaskIt_ mem fuel choice points_a points_b dist_sqr_bin_edges nbins
    accumulators duplicated_points task_iter
  = foldM (fun acc stat_task =>
             process_StatTask mem choice points_a points_b dist_sqr_bin_edges
               nbins acc duplicated_points stat_task)
      tasks accumulators.
Proof.
  revert task_iter tasks accumulators.
  induction fuel as [|fuel IH]; intros task_iter tasks accumulators;
    cbn [TaskIt_tasks process_TaskIt_]; destruct (has_next task_iter).
  - discriminate.
  - intros Heq. inversion Heq; subst. reflexivity.
  - destruct (next task_iter) as [[stat_task task_iter']|msg];
      cbn [mbind result_bind]; [|discriminate].
    destruct (TaskIt_tasks fuel task_iter') as [rest|msg] eqn:Hrest;
      cbn [mbind result_bind]; [|discriminate].
    intros Heq. inversion Heq; subst. cbn [foldM].
    destruct (process_StatTask mem choice points_a points_b
                dist_sqr_bin_edges nbins accumulators duplicated_points
                stat_task) as [acc'|msg]; cbn [mbind result_bind];
      [|reflexivity].
    apply IH. exact Hrest.
  - intros Heq. inversion Heq; subst. reflexivity.
Qed.

End TaskPairs.

Lemma foldM_concat {X B : Type} (f : B -> X -> result B) (ls : list (list X))
    (b : B) :
  foldM f (concat ls) b = foldM (fun b' l => foldM f l b') ls b.
Proof.
  revert b. induction ls as [|l ls IH]; intros b; simpl; [reflexivity|].
  rewrite foldM_app. destruct (foldM f l b) as [b'|msg]; simpl;
    [apply IH|reflexivity].
Qed.

Section Workers.
Context {C : Type} `{KernelAccumCollection C}.
Variable mem : Z -> double.
Variable choice : PairOperation.
Variables points_a points_b : PointProps.
Variable dist_sqr_bin_edges : list double.
Variable nbins : Z.
Variable duplicated_points : bool.

(** The loop over [proc_id] gives the list of what the workers give. *)
Lemma run_workers_collect (factory : TaskItFactory) (partition_dest : list C)
    (worker : Z -> C -> result C) :
  (forall (proc_id : nat) (local_accums : C),
     partition_dest !! proc_id = Some local_accums ->
     (task_iter ← build_TaskIt factory (Z.of_nat proc_id);
      process_TaskIt_ mem
        (Z.to_nat (index_stop_1D_ task_iter - next_index_1D_ task_iter))
        choice points_a points_b dist_sqr_bin_edges nbins local_accums
        duplicated_points task_iter)
     = worker (Z.of_nat proc_id) local_accums) ->
  run_workers mem choice points_a points_b dist_sqr_bin_edges nbins
    duplicated_points factory partition_dest
  = collect_results (fun pa : Z * C => worker pa.1 pa.2)
      (zip (seqZ 0 (Z.of_nat (length partition_dest))) partition_dest).
Proof.
  intros Hworker. unfold run_workers.
  set (body := fun (done : list C) (proc_id : nat) => _).
  assert (forall (n s : nat) (done : list C),
            (s + n = length partition_dest)%nat ->
            foldM body (seq s n) done
            = (rest ← collect_results (fun pa : Z * C => worker pa.1 pa.2)
                        (zip (seqZ (Z.of_nat s) (Z.of_nat n))
                           (drop s partition_dest));
               Ok (done ++ rest))) as Hloop.
  { induction n as [|n IH]; intros s done Hlen.
    - simpl. rewrite app_nil_r. reflexivity.
    - destruct (lookup_lt_is_Some_2 partition_dest s ltac:(lia)) as [a Ha].
      assert (body done s
              = (r ← worker (Z.of_nat s) a; Ok (done ++ [r]))) as Hbody.
      { unfold body. rewrite Ha, <- (Hworker s a Ha).
        destruct (build_TaskIt factory (Z.of_nat s)); reflexivity. }
      change (seq s (S n)) with (s :: seq (S s) n).
      change (foldM body (s :: seq (S s) n) done)
        with (body done s ≫= foldM body (seq (S s) n)).
      rewrite Hbody.
      rewrite (drop_S _ _ _ Ha).
      rewrite seqZ_cons by lia. cbn [zip zip_with collect_results fst snd].
      destruct (worker (Z.of_nat s) a) as [r|msg]; cbn [mbind result_bind];
        [|reflexivity].
      rewrite IH by lia.
      replace (Z.succ (Z.of_nat s)) with (Z.of_nat (S s)) by lia.
      replace (Z.pred (Z.of_nat (S n))) with (Z.of_nat n) by lia.
      destruct (collect_results _ _) as [rest|msg]; cbn [mbind result_bind];
        [|reflexivity].
      rewrite <- app_assoc. reflexivity. }
  rewrite (Hloop (length partition_dest) 0%nat []) by lia.
  rewrite drop_0. change (Z.of_nat 0) with 0.
  destruct (collect_results _ _); reflexivity.
Qed.

End Workers.

(** ** The strategy of the parallel kernel *)

Lemma auto_create_valid (nproc n_points : Z) (skip_small_prob_check : bool) :
  1 <= nproc <= 60 -> 2 <= n_points < 2 ^ 64 ->
  exists S,
    AutoSFPartitionStrat.create nproc n_points skip_small_prob_check
    = Ok {| AutoSFPartitionStrat.n_points := n_points;
            AutoSFPartitionStrat.num_segments := S |}
    /\ 1 <= S <= 19 /\ S <= n_points - 1
    /\ (3 <= n_points -> 2 * S + 1 <= n_points).
Proof.
  intros Hnproc HN. unfold AutoSFPartitionStrat.create.
  destruct (Z.eqb_spec nproc 0); [lia|].
  destruct (Z.leb_spec n_points 1); [lia|].
  destruct (Z.ltb_spec 60 nproc); [lia|].
  rewrite (wrap64_small (n_points - 1)) by lia.
  fold (spec_max_segments n_points).
  pose proof (spec_max_segments_bound n_points ltac:(lia)) as (HM1 & HM2 & HM3).
  destruct ((negb skip_small_prob_check && (n_points <=? 1000)) || (nproc =? 1))
    eqn:Hsmall.
  - simpl. rewrite safe_cast_u64_small by lia. simpl.
    exists 1. split; [reflexivity|]. lia.
  - simpl. destruct (Z.eqb_spec (spec_max_segments n_points) 1) as [HM|HM].
    + rewrite safe_cast_u64_small by lia. simpl.
      exists 1. split; [reflexivity|]. lia.
    + destruct (segments_loop_spec nproc (spec_max_segments n_points) Hnproc
                  (Z.to_nat (spec_max_segments n_points)) 2)
        as (S & -> & Hspec); [lia|lia|intros S' HS'; lia|].
      pose proof (spec_num_segments_range nproc (spec_max_segments n_points) S
                  ltac:(lia) Hspec) as HS.
      rewrite (wrap64_small (S * 2)) by lia.
      rewrite (wrap64_small (S * 2 + 1)) by lia.
      destruct (Z.ltb_spec n_points (S * 2 + 1)); [lia|].
      rewrite !safe_cast_u64_small by lia. simpl.
      exists S. split; [reflexivity|].
      assert (S <= 19); [|lia].
      pose proof (enough_chunks_19 nproc Hnproc) as H19.
      destruct Hspec as [(_ & _ & Hmin)|(-> & Hnone)].
      * destruct (Z_le_gt_dec S 19); [assumption|].
        exfalso. apply (Hmin 19); [lia|exact H19].
      * destruct (Z_le_gt_dec (spec_max_segments n_points) 19); [assumption|].
        exfalso. apply (Hnone 19); [lia|exact H19].
Qed.

(** ** The parallel kernel *)

(** The bounds of the tasks of a valid strategy lie in the arrays. *)
Lemma strat_task_bounds (strat : partition_variant) (index_2D : Z * Z)
    (stat_task : StatTask) :
  valid_strat strat -> index_2D ∈ strat_indices strat ->
  strat_build_StatTask strat index_2D = Ok stat_task ->
  let n_a := match strat with
             | AutoStrat s => AutoSFPartitionStrat.n_points s
             | CrossStrat s => CrossSFPartitionStrat.n_points_A s
             end in
  let n_b := match strat with
             | AutoStrat s => AutoSFPartitionStrat.n_points s
             | CrossStrat s => CrossSFPartitionStrat.n_points_B s
             end in
  0 <= start_A stat_task <= stop_A stat_task /\ stop_A stat_task <= n_a
  /\ 0 <= start_B stat_task <= stop_B stat_task /\ stop_B stat_task <= n_b.
Proof.
  intros Hvalid Hin Hbuild. destruct strat as [s|s]; destruct index_2D as [i j].
  - apply elem_of_auto_indices in Hin.
    pose proof (auto_valid_facts s Hvalid) as (HN & HS).
    pose proof (auto_bnd_range s Hvalid i ltac:(lia)).
    pose proof (auto_bnd_range s Hvalid (i + 1) ltac:(lia)).
    pose proof (auto_bnd_range s Hvalid j ltac:(lia)).
    pose proof (auto_bnd_range s Hvalid (j + 1) ltac:(lia)).
    pose proof (chunk_bound_step (AutoSFPartitionStrat.n_points s - 1)
                  (AutoSFPartitionStrat.num_segments s) ltac:(lia) i).
    pose proof (chunk_bound_step (AutoSFPartitionStrat.n_points s - 1)
                  (AutoSFPartitionStrat.num_segments s) ltac:(lia) j).
    simpl in Hbuild. destruct (Z.eq_dec i j) as [->|Hne].
    + rewrite (auto_build_diag s Hvalid) in Hbuild by lia.
      inversion Hbuild; subst; simpl. lia.
    + rewrite (auto_build_offdiag s Hvalid) in Hbuild by lia.
      inversion Hbuild; subst; simpl. lia.
  - apply elem_of_cross_indices in Hin.
    pose proof (cross_valid_facts s Hvalid) as (HA & HA64 & HB & HB64).
    simpl in Hbuild. rewrite (cross_build s Hvalid) in Hbuild by lia.
    inversion Hbuild; subst; simpl.
    pose proof (chunk_bound_range _ _ HA i ltac:(lia)).
    pose proof (chunk_bound_range _ _ HA (i + 1) ltac:(lia)).
    pose proof (chunk_bound_step _ _ HA i).
    pose proof (chunk_bound_range _ _ HB j ltac:(lia)).
    pose proof (chunk_bound_range _ _ HB (j + 1) ltac:(lia)).
    pose proof (chunk_bound_step _ _ HB j).
    lia.
Qed.

Lemma indices_pairs_cons strat duplicated_points index_2D indices stat_task :
  strat_build_StatTask strat index_2D = Ok stat_task ->
  indices_pairs strat duplicated_points (index_2D :: indices)
  = StatTask_pairs duplicated_points stat_task
    ++ indices_pairs strat duplicated_points indices.
Proof. intros Hbuild. unfold indices_pairs. csimpl. rewrite Hbuild. reflexivity. Qed.

Lemma collect_results_zip_replicate {X Y : Type} (g : Z -> X -> result Y)
    (x : X) (l : list Z) :
  collect_results (fun px : Z * X => g px.1 px.2) (zip l (replicate (length l) x))
  = collect_results (fun p => g p x) l.
Proof.
  induction l as [|p l IH]; [reflexivity|].
  change (zip (p :: l) (replicate (length (p :: l)) x))
    with ((p, x) :: zip l (replicate (length l) x)).
  cbn [collect_results fst snd]. rewrite IH. reflexivity.
Qed.

Section ParallelKernel.
Context {C : Type} `{KernelAccumCollection C}.
Variable mem : Z -> double.
Variable OMP_NUM_THREADS : option Z.
Variable choice : PairOperation.
Variables points_a points_b : PointProps.
Variable dist_sqr_bin_edges : list double.
Variable nbins : Z.
Variable duplicated_points : bool.
Hypothesis Hdup : duplicated_points = true -> points_b = points_a.
Hypothesis Hstride_a :
  0 <= spatial_dim_stride points_a
  /\ n_points points_a + 2 * spatial_dim_stride points_a < 2 ^ 64.
Hypothesis Hstride_b :
  0 <= spatial_dim_stride points_b
  /\ n_points points_b + 2 * spatial_dim_stride points_b < 2 ^ 64.

Variable f : TaskItFactory.
Hypothesis Hvalid : valid_strat (factory_partition_strat_ f).
Hypothesis Hfew : few_segments (factory_partition_strat_ f).
Hypothesis Hnproc : 1 <= nproc_ f < 2 ^ 64.
Hypothesis Hfit :
  match factory_partition_strat_ f with
  | AutoStrat s =>
      AutoSFPartitionStrat.n_points s = n_points points_a
      /\ n_points points_a <= n_points points_b
  | CrossStrat s =>
      CrossSFPartitionStrat.n_points_A s = n_points points_a
      /\ CrossSFPartitionStrat.n_points_B s = n_points points_b
  end.

Let strat := factory_partition_strat_ f.
Let e := Z.min (nproc_ f) (factory_n_partitions f).

Lemma tasks_fold_pairs (indices : list (Z * Z)) (tasks : list StatTask)
    (accumulators : C) :
  Forall2 (fun index_2D stat_task =>
             strat_build_StatTask strat index_2D = Ok stat_task)
    indices tasks ->
  (forall index_2D, index_2D ∈ indices -> index_2D ∈ strat_indices strat) ->
  foldM (fun acc stat_task =>
           process_StatTask mem choice points_a points_b dist_sqr_bin_edges
             nbins acc duplicated_points stat_task)
    tasks accumulators
  = foldM (process_pair mem choice points_a points_b dist_sqr_bin_edges nbins)
      (indices_pairs strat duplicated_points indices) accumulators.
Proof.
  intros Hall. revert accumulators.
  induction Hall as [|index_2D stat_task indices tasks Hbuild Hall IH];
    intros accumulators Hin; [reflexivity|].
  rewrite (indices_pairs_cons _ _ _ _ _ Hbuild), foldM_app. cbn [foldM].
  pose proof (strat_task_bounds strat index_2D stat_task Hvalid
                (Hin index_2D ltac:(apply list_elem_of_here)) Hbuild)
    as Hbounds.
  rewrite (process_StatTask_pairs mem choice points_a points_b
             dist_sqr_bin_edges nbins duplicated_points Hdup Hstride_a
             Hstride_b).
  - destruct (foldM _ (StatTask_pairs duplicated_points stat_task)
                accumulators) as [acc'|msg]; cbn [mbind result_bind];
      [|reflexivity].
    apply IH. intros idx Hidx. apply Hin. apply list_elem_of_further.
    exact Hidx.
  - apply Hbounds.
  - fold strat in Hfit. destruct strat; simpl in Hbounds; lia.
  - apply Hbounds.
  - fold strat in Hfit. destruct strat; simpl in Hbounds; lia.
Qed.

Lemma worker_fold_pairs (proc_id : Z) (local_accums : C) :
  0 <= proc_id < e ->
  (task_iter ← build_TaskIt f proc_id;
   process_TaskIt_ mem
     (Z.to_nat (index_stop_1D_ task_iter - next_index_1D_ task_iter))
     choice points_a points_b dist_sqr_bin_edges nbins local_accums
     duplicated_points task_iter)
  = foldM (process_pair mem choice points_a points_b dist_sqr_bin_edges nbins)
      (worker_pairs f duplicated_points proc_id) local_accums.
Proof.
  intros Hp.
  destruct (factory_build_TaskIt f Hvalid Hfew Hnproc proc_id Hp)
    as (it & Hbuild & Hdiff & _ & Htasks).
  assert (forall index_2D, index_2D ∈ worker_indices f proc_id ->
            index_2D ∈ strat_indices strat) as Hsub.
  { intros index_2D Hin. unfold worker_indices in Hin.
    apply elem_of_take in Hin as (k & Hk & _).
    rewrite lookup_drop in Hk. eapply list_elem_of_lookup_2. exact Hk. }
  destruct (tasks_at_ok strat (worker_indices f proc_id))
    as (tasks & Hat & Hall).
  { intros index_2D Hin. apply strat_build_ok; [exact Hvalid|]. auto. }
  rewrite Hbuild. cbn [mbind result_bind].
  rewrite (process_TaskIt_tasks mem choice points_a points_b
             dist_sqr_bin_edges nbins duplicated_points _ it tasks).
  - apply tasks_fold_pairs; assumption.
  - rewrite Htasks by lia. exact Hat.
Qed.

(** The parallel kernel gives every worker a copy of the accumulators,
    feeds it the pairs of the tasks of the worker, and merges what the
    workers give into what the first one gives. *)
Lemma parallel_kernel_workers (parallel_spec : ParallelSpec)
    (accumulators : C) :
  get_nominal_nproc_ OMP_NUM_THREADS parallel_spec = Ok (nproc_ f) ->
  TaskItFactory_new (nproc_ f) (n_points points_a)
    (if duplicated_points then 0 else n_points points_b) false = Ok f ->
  calc_vsf_props_parallel_ mem OMP_NUM_THREADS true choice points_a points_b
    dist_sqr_bin_edges nbins parallel_spec accumulators duplicated_points
  = (partition_dest ←
       collect_results
         (fun proc_id =>
            foldM (process_pair mem choice points_a points_b
                     dist_sqr_bin_edges nbins)
              (worker_pairs f duplicated_points proc_id) accumulators)
         (seqZ 0 e);
     match partition_dest with
     | [] => Error "partition_dest is empty"
     | first :: others => foldM kernel_consolidate_with_other others first
     end).
Proof.
  intros Hnominal Hnew. unfold calc_vsf_props_parallel_. cbn [negb].
  rewrite Hnominal. cbn [mbind result_bind]. rewrite Hnew.
  cbn [mbind result_bind].
  rewrite (factory_effective_nproc f Hvalid Hfew Hnproc).
  cbn [mbind result_bind]. fold e.
  pose proof (factory_facts f Hvalid Hfew Hnproc) as (_ & _ & _ & He & _).
  fold e in He.
  rewrite (run_workers_collect mem choice points_a points_b
             dist_sqr_bin_edges nbins duplicated_points f _
             (fun proc_id local_accums =>
                foldM (process_pair mem choice points_a points_b
                         dist_sqr_bin_edges nbins)
                  (worker_pairs f duplicated_points proc_id) local_accums)).
  - rewrite length_replicate, Z2Nat.id by lia.
    replace (replicate (Z.to_nat e) accumulators)
      with (replicate (length (seqZ 0 e)) accumulators)
      by (rewrite length_seqZ; reflexivity).
    rewrite (collect_results_zip_replicate
               (fun proc_id local_accums =>
                  foldM (process_pair mem choice points_a points_b
                           dist_sqr_bin_edges nbins)
                    (worker_pairs f duplicated_points proc_id) local_accums)).
    reflexivity.
  - intros proc_id local_accums Hlookup.
    apply lookup_lt_Some in Hlookup. rewrite length_replicate in Hlookup.
    apply worker_fold_pairs. lia.
Qed.

End ParallelKernel.

(** ** Every pair is visited once *)

Lemma strat_pairs_permutation (strat : partition_variant) :
  valid_strat strat ->
  (strat_indices strat ≫= strat_pairs strat)
  ≡ₚ match strat with
     | AutoStrat s =>
         process_data_pairs true (AutoSFPartitionStrat.n_points s)
           (AutoSFPartitionStrat.n_points s)
     | CrossStrat s =>
         process_data_pairs false (CrossSFPartitionStrat.n_points_A s)
           (CrossSFPartitionStrat.n_points_B s)
     end.
Proof.
  intros Hvalid. apply NoDup_Permutation.
  - apply NoDup_bind; [| |apply NoDup_strat_indices].
    + intros idx1 idx2 p H1 H2 Hp1 Hp2. destruct strat as [s|s].
      * eapply auto_pairs_disjoint; eassumption.
      * eapply cross_pairs_disjoint; eassumption.
    + intros idx Hidx. destruct strat as [s|s].
      * destruct idx as [i j]. apply elem_of_auto_indices in Hidx.
        apply NoDup_auto_pairs; [exact Hvalid|lia..].
      * unfold strat_pairs.
        destruct (strat_build_StatTask (CrossStrat s) idx);
          [apply NoDup_StatTask_pairs|apply NoDup_nil_2].
  - destruct strat; apply NoDup_process_data_pairs.
  - intros [x y]. rewrite list_elem_of_bind. destruct strat as [s|s].
    + pose proof (auto_valid_facts s Hvalid) as (HN & _).
      rewrite elem_of_process_data_pairs_dup by lia.
      pose proof (auto_pairs_cover s Hvalid (x, y)) as Hcover.
      unfold full_pair_set in Hcover. cbn [fst snd] in Hcover. split.
      * intros (idx & Hp & Hidx).
        assert (0 <= x < y /\ y < AutoSFPartitionStrat.n_points s);
          [|lia].
        apply Hcover. exists idx. auto.
      * intros Hxy. destruct (proj2 Hcover ltac:(lia)) as (idx & Hidx & Hp).
        exists idx. auto.
    + rewrite elem_of_process_data_pairs_cross.
      pose proof (cross_pairs_cover s Hvalid (x, y)) as Hcover.
      unfold full_pair_set in Hcover. cbn [fst snd] in Hcover. split.
      * intros (idx & Hp & Hidx). apply Hcover. exists idx. auto.
      * intros Hxy. destruct (proj2 Hcover Hxy) as (idx & Hidx & Hp).
        exists idx. auto.
Qed.

Lemma indices_pairs_concat strat duplicated_points (ls : list (list (Z * Z))) :
  indices_pairs strat duplicated_points (concat ls)
  = concat (indices_pairs strat duplicated_points <$> ls).
Proof.
  unfold indices_pairs. induction ls as [|l ls IH]; [reflexivity|].
  simpl. rewrite bind_app, IH. reflexivity.
Qed.

Lemma indices_pairs_strat_pairs (strat : partition_variant)
    (duplicated_points : bool) (indices : list (Z * Z)) :
  match strat with
  | AutoStrat _ => duplicated_points = true
  | CrossStrat _ => duplicated_points = false
  end ->
  (if duplicated_points
   then unordered_pair <$> indices_pairs strat duplicated_points indices
   else indices_pairs strat duplicated_points indices)
  = indices ≫= strat_pairs strat.
Proof.
  intros Hmode. unfold indices_pairs, strat_pairs.
  induction indices as [|index_2D indices IH].
  - destruct duplicated_points; reflexivity.
  - destruct strat as [s|s]; subst duplicated_points; csimpl in *.
    + rewrite fmap_app, IH.
      destruct (AutoSFPartitionStrat.build_StatTask s index_2D); reflexivity.
    + destruct (CrossSFPartitionStrat.build_StatTask s index_2D);
        [f_equal; exact IH|exact IH].
Qed.

(** The factory of the parallel kernel: an auto strategy for one set of
    points, a cross strategy for two. *)
Lemma parallel_factory (points_a points_b : PointProps)
    (duplicated_points : bool) (nominal_nproc : Z) :
  1 <= nominal_nproc <= 60 ->
  (duplicated_points = true -> points_b = points_a) ->
  n_points points_a < 2 ^ 64 -> n_points points_b < 2 ^ 64 ->
  (if duplicated_points then 3 <= n_points points_a
   else 1 <= n_points points_a /\ 1 <= n_points points_b) ->
  exists f,
    TaskItFactory_new nominal_nproc (n_points points_a)
      (if duplicated_points then 0 else n_points points_b) false = Ok f
    /\ nproc_ f = nominal_nproc
    /\ valid_strat (factory_partition_strat_ f)
    /\ few_segments (factory_partition_strat_ f)
    /\ match factory_partition_strat_ f with
       | AutoStrat s =>
           duplicated_points = true
           /\ AutoSFPartitionStrat.n_points s = n_points points_a
           /\ n_points points_a <= n_points points_b
       | CrossStrat s =>
           duplicated_points = false
           /\ CrossSFPartitionStrat.n_points_A s = n_points points_a
           /\ CrossSFPartitionStrat.n_points_B s = n_points points_b
       end.
Proof.
  intros Hnproc Hdup HA64 HB64 Hpoints.
  unfold TaskItFactory_new, build_strat_.
  assert (2 ^ 31 < 2 ^ 64) by reflexivity.
  destruct duplicated_points.
  - rewrite (Hdup eq_refl). rewrite Z.eqb_refl.
    destruct (auto_create_valid nominal_nproc (n_points points_a) false
                ltac:(lia) ltac:(lia)) as (S & -> & HS & HS' & HS'').
    eexists. split; [reflexivity|]. cbn [nproc_ factory_partition_strat_].
    split; [reflexivity|].
    split; [simpl; lia|]. split; [simpl; lia|]. simpl. lia.
  - destruct (Z.eqb_spec (n_points points_b) 0); [lia|].
    destruct (cross_create_spec nominal_nproc (n_points points_a)
                (n_points points_b) false ltac:(lia) ltac:(lia) ltac:(lia))
      as (-> & Hvalid & Hsegments).
    eexists. split; [reflexivity|]. cbn [nproc_ factory_partition_strat_].
    split; [reflexivity|]. split; [exact Hvalid|].
    split; [|simpl; lia].
    simpl. destruct Hsegments as [->|[->| ->]]; simpl; lia.
Qed.

(** The pairs of all the workers are the pairs of the serial kernel. *)
Lemma workers_pairs_permutation (f : TaskItFactory) (duplicated_points : bool)
    (points_a points_b : PointProps) :
  valid_strat (factory_partition_strat_ f) ->
  few_segments (factory_partition_strat_ f) ->
  1 <= nproc_ f < 2 ^ 64 ->
  (duplicated_points = true -> points_b = points_a) ->
  match factory_partition_strat_ f with
  | AutoStrat s =>
      duplicated_points = true
      /\ AutoSFPartitionStrat.n_points s = n_points points_a
      /\ n_points points_a <= n_points points_b
  | CrossStrat s =>
      duplicated_points = false
      /\ CrossSFPartitionStrat.n_points_A s = n_points points_a
      /\ CrossSFPartitionStrat.n_points_B s = n_points points_b
  end ->
  let visited :=
    concat (worker_pairs f duplicated_points
              <$> seqZ 0 (Z.min (nproc_ f) (factory_n_partitions f))) in
  (if duplicated_points then unordered_pair <$> visited else visited)
  ≡ₚ process_data_pairs duplicated_points (n_points points_a)
       (n_points points_b).
Proof.
  intros Hvalid Hfew Hnproc Hdup Hfit visited. subst visited.
  unfold worker_pairs.
  rewrite (list_fmap_compose (worker_indices f)
             (indices_pairs (factory_partition_strat_ f) duplicated_points)).
  rewrite <- indices_pairs_concat.
  rewrite (concat_worker_indices f Hvalid Hfew Hnproc).
  rewrite indices_pairs_strat_pairs
    by (destruct (factory_partition_strat_ f); apply Hfit).
  rewrite (strat_pairs_permutation _ Hvalid).
  destruct (factory_partition_strat_ f) as [s|s];
    destruct Hfit as (-> & HA & HB).
  - rewrite (Hdup eq_refl), HA. reflexivity.
  - rewrite HA, HB. reflexivity.
Qed.

(** X11.  The parallel kernel on [nproc] processes builds its strategy
    without a fatal error, gives every worker a copy of the accumulators and
    feeds it the pairs of its own tasks, and merges what the workers give,
    in the order of the workers, into what the first one gives.  The pairs
    of all the workers together are the pairs of the serial kernel, each
    one once (as unordered pairs for one set of points): no pair is left
    out and none is visited twice. *)
Theorem parallel_kernel_visits_each_pair_once {C : Type}
    `{KernelAccumCollection C} (mem : Z -> double)
    (OMP_NUM_THREADS : option Z) (choice : PairOperation)
    (points_a points_b : PointProps) (dist_sqr_bin_edges : list double)
    (nbins : Z) (parallel_spec : ParallelSpec) (accumulators : C)
    (duplicated_points : bool) :
  1 <= nproc parallel_spec <= 60 ->
  (duplicated_points = true -> points_b = points_a) ->
  0 <= spatial_dim_stride points_a
  /\ n_points points_a + 2 * spatial_dim_stride points_a < 2 ^ 64 ->
  0 <= spatial_dim_stride points_b
  /\ n_points points_b + 2 * spatial_dim_stride points_b < 2 ^ 64 ->
  (if duplicated_points then 3 <= n_points points_a
   else 1 <= n_points points_a /\ 1 <= n_points points_b) ->
  exists f,
    TaskItFactory_new (nproc parallel_spec) (n_points points_a)
      (if duplicated_points then 0 else n_points points_b) false = Ok f
    /\ let workers :=
         seqZ 0 (Z.min (nproc parallel_spec) (factory_n_partitions f)) in
       calc_vsf_props_parallel_ mem OMP_NUM_THREADS true choice points_a
         points_b dist_sqr_bin_edges nbins parallel_spec accumulators
         duplicated_points
       = (partition_dest ←
            collect_results
              (fun proc_id =>
                 foldM (process_pair mem choice points_a points_b
                          dist_sqr_bin_edges nbins)
                   (worker_pairs f duplicated_points proc_id) accumulators)
              workers;
          match partition_dest with
          | [] => Error "partition_dest is empty"
          | first :: others =>
              foldM kernel_consolidate_with_other others first
          end)
       /\ let visited :=
            concat (worker_pairs f duplicated_points <$> workers) in
          (if duplicated_points then unordered_pair <$> visited else visited)
          ≡ₚ process_data_pairs duplicated_points (n_points points_a)
               (n_points points_b).
Proof.
  intros Hnproc Hdup Hstride_a Hstride_b Hpoints.
  destruct (parallel_factory points_a points_b duplicated_points
              (nproc parallel_spec) Hnproc Hdup ltac:(lia) ltac:(lia) Hpoints)
    as (f & Hnew & Hf & Hvalid & Hfew & Hfit).
  exists f. split; [exact Hnew|]. intros workers. subst workers.
  rewrite <- Hf in *.
  assert (1 <= nproc_ f < 2 ^ 64) as Hnproc'.
  { assert (60 < 2 ^ 64) by reflexivity. lia. }
  split.
  - apply parallel_kernel_workers; try assumption.
    + destruct (factory_partition_strat_ f); lia.
    + unfold get_nominal_nproc_. rewrite Hf.
      destruct (Z.eqb_spec (nproc parallel_spec) 0); [lia|]. reflexivity.
  - apply (workers_pairs_permutation f duplicated_points points_a points_b);
      assumption.
Qed.

Lemma parallel_kernel_visits_each_pair_once_witness :
  let parallel_spec := {| nproc := 2; force_sequential := false |} in
  let accumulators :=
    {| ScalarAccumCollection.accum_list_ :=
         [CentralMomentAccum.new 1 Int64; CentralMomentAccum.new 1 Int64] |} in
  let dist_sqr_bin_edges :=
    [d_of_Z 0; d_div (d_of_Z 9) (d_of_Z 4); d_of_Z 25] in
  exists f,
    TaskItFactory_new 2 3 0 false = Ok f
    /\ let workers := seqZ 0 (Z.min 2 (factory_n_partitions f)) in
       calc_vsf_props_parallel_ three_points_mem None true vec_diff
         three_points three_points dist_sqr_bin_edges 2 parallel_spec
         accumulators true
       = (partition_dest ←
            collect_results
              (fun proc_id =>
                 foldM (process_pair three_points_mem vec_diff three_points
                          three_points dist_sqr_bin_edges 2)
                   (worker_pairs f true proc_id) accumulators)
              workers;
          match partition_dest with
          | [] => Error "partition_dest is empty"
          | first :: others =>
              foldM kernel_consolidate_with_other others first
          end)
       /\ let visited := concat (worker_pairs f true <$> workers) in
          unordered_pair <$> visited ≡ₚ process_data_pairs true 3 3.
Proof.
  intros parallel_spec accumulators dist_sqr_bin_edges.
  apply (parallel_kernel_visits_each_pair_once three_points_mem None vec_diff
           three_points three_points dist_sqr_bin_edges 2 parallel_spec
           accumulators true).
  - simpl. lia.
  - reflexivity.
  - split; [simpl; lia|reflexivity].
  - split; [simpl; lia|reflexivity].
  - simpl. lia.
Defined.

(** ** Integer histograms: the parallel kernel and the serial kernel *)

Import GenericHistogramAccumCollection.

Lemma length_bump_counts counts slot :
  length (bump_counts counts slot) = length counts.
Proof. destruct slot; simpl; [apply length_insert|reflexivity]. Qed.

Lemma length_foldl_bump_counts slots counts :
  length (foldl bump_counts counts slots) = length counts.
Proof.
  revert counts. induction slots as [|slot slots IH]; intros counts; simpl;
    [reflexivity|]. rewrite IH. apply length_bump_counts.
Qed.

Lemma occurrences_cons k slot slots :
  occurrences k (slot :: slots)
  = (if decide (slot = Some k) then 1 else 0) + occurrences k slots.
Proof.
  unfold occurrences. rewrite filter_cons.
  destruct (decide (slot = Some k)); simpl length; lia.
Qed.

(** The counts after the increments at a list of places. *)
Lemma foldl_bump_counts_lookup slots counts k c :
  counts !! k = Some c -> wrap_i64 c = c ->
  foldl bump_counts counts slots !! k
  = Some (wrap_i64 (c + occurrences k slots)).
Proof.
  revert counts c. induction slots as [|slot slots IH]; intros counts c Hk Hc.
  - simpl. unfold occurrences. simpl. rewrite Z.add_0_r, Hc. exact Hk.
  - cbn [foldl]. rewrite occurrences_cons.
    destruct (decide (slot = Some k)) as [->|Hne].
    + rewrite (IH _ (wrap_i64 (c + 1))).
      * rewrite wrap_i64_add_l. f_equal. f_equal. lia.
      * simpl. rewrite (list_lookup_total_correct _ _ _ Hk).
        apply list_lookup_insert_eq. eapply lookup_lt_Some. exact Hk.
      * apply wrap_i64_idem.
    + rewrite (IH _ c); [reflexivity| |exact Hc].
      destruct slot as [i|]; simpl; [|exact Hk].
      rewrite list_lookup_insert_ne by congruence. exact Hk.
Qed.

Lemma occurrences_Permutation k slots1 slots2 :
  slots1 ≡ₚ slots2 -> occurrences k slots1 = occurrences k slots2.
Proof. intros Hperm. unfold occurrences. rewrite Hperm. reflexivity. Qed.

Lemma occurrences_app k slots1 slots2 :
  occurrences k (slots1 ++ slots2)
  = occurrences k slots1 + occurrences k slots2.
Proof. unfold occurrences. rewrite filter_app, length_app. lia. Qed.

Section HistogramKernel.
Variable h0 : GenericHistogramAccumCollection.t Int64.
Hypothesis Hwf : histogram_wf h0.
Hypothesis Hdata : 0 <= n_data_bins_ h0 /\ n_data_bins_ h0 + 1 < 2 ^ 64.
Hypothesis Hsize : n_data_bins_ h0 * n_spatial_bins_ h0 < 2 ^ 64.
Variable mem : Z -> double.
Variable choice : PairOperation.
Variables points_a points_b : PointProps.
Variable dist_sqr_bin_edges : list double.
Variable nbins : Z.
Hypothesis Hnbins : 0 <= nbins <= n_spatial_bins_ h0 /\ nbins + 1 < 2 ^ 64.

Let slot_of :=
  histogram_slot h0 mem choice points_a points_b dist_sqr_bin_edges nbins.

Lemma histogram_slot_range pair i :
  slot_of pair = Some i -> (i < length (bin_counts_ h0))%nat.
Proof.
  unfold slot_of, histogram_slot. cbv zeta.
  set (tmp := pair_rslt_of mem choice points_a points_b pair.1 pair.2).
  pose proof (identify_bin_index_range d_ltb (dist_sqr tmp)
                dist_sqr_bin_edges nbins ltac:(lia) ltac:(lia)) as Hbin.
  pose proof (identify_bin_index_range d_ltb (abs_vdiff tmp)
                (data_bin_edges_ h0) (n_data_bins_ h0) ltac:(lia) ltac:(lia))
    as Hdbin.
  destruct (Z.ltb_spec (identify_bin_index d_ltb (dist_sqr tmp)
                          dist_sqr_bin_edges nbins) nbins); [|discriminate].
  destruct (Z.ltb_spec (identify_bin_index d_ltb (abs_vdiff tmp)
                          (data_bin_edges_ h0) (n_data_bins_ h0))
              (n_data_bins_ h0)); [|discriminate].
  intros Heq. inversion Heq; subst i. rewrite Hwf.
  rewrite wrap64_small by nia. nia.
Qed.

Lemma histogram_process_pair_slot pair counts :
  length counts = length (bin_counts_ h0) ->
  process_pair mem choice points_a points_b dist_sqr_bin_edges nbins
    (with_counts h0 counts) pair
  = Ok (with_counts h0 (bump_counts counts (slot_of pair))).
Proof.
  intros Hlen. pose proof (histogram_slot_range pair) as Hrange.
  unfold slot_of, histogram_slot in *. unfold process_pair. cbv zeta in *.
  set (tmp := pair_rslt_of mem choice points_a points_b pair.1 pair.2) in *.
  pose proof (identify_bin_index_range d_ltb (dist_sqr tmp)
                dist_sqr_bin_edges nbins ltac:(lia) ltac:(lia)) as Hbin.
  pose proof (identify_bin_index_range d_ltb (abs_vdiff tmp)
                (data_bin_edges_ h0) (n_data_bins_ h0) ltac:(lia) ltac:(lia))
    as Hdbin.
  destruct (Z.ltb_spec (identify_bin_index d_ltb (dist_sqr tmp)
                          dist_sqr_bin_edges nbins) nbins);
    [|reflexivity].
  unfold_kernel_add_entry.
  unfold add_entry. cbn [with_counts data_bin_edges_ n_data_bins_].
  destruct (Z.ltb_spec (identify_bin_index d_ltb (abs_vdiff tmp)
                          (data_bin_edges_ h0) (n_data_bins_ h0))
              (n_data_bins_ h0)); [|reflexivity].
  specialize (Hrange _ eq_refl).
  rewrite (wrap64_small (_ * _)) by nia.
  rewrite wrap64_small by nia.
  unfold bump. cbn [bin_counts_ n_spatial_bins_ n_data_bins_ data_bin_edges_].
  destruct (lookup_lt_is_Some_2 counts
              (Z.to_nat
                 (identify_bin_index d_ltb (abs_vdiff tmp)
                    (data_bin_edges_ h0) (n_data_bins_ h0)
                  + identify_bin_index d_ltb (dist_sqr tmp) dist_sqr_bin_edges
                      nbins * n_data_bins_ h0)) ltac:(lia)) as [c Hc].
  unfold with_counts. cbn [bin_counts_ n_spatial_bins_ n_data_bins_ data_bin_edges_].
  change (val_t Int64) with Z.
  rewrite Hc. unfold bump_counts. cbn [val_add].
  rewrite (list_lookup_total_correct _ _ _ Hc). reflexivity.
Qed.

Lemma histogram_fold_slots pairs counts :
  length counts = length (bin_counts_ h0) ->
  foldM (process_pair mem choice points_a points_b dist_sqr_bin_edges nbins)
    pairs (with_counts h0 counts)
  = Ok (with_counts h0 (foldl bump_counts counts (slot_of <$> pairs))).
Proof.
  revert counts. induction pairs as [|pair pairs IH]; intros counts Hlen;
    [reflexivity|].
  cbn [foldM]. rewrite histogram_process_pair_slot by exact Hlen.
  cbn [mbind result_bind]. rewrite IH by (rewrite length_bump_counts; exact Hlen).
  reflexivity.
Qed.

End HistogramKernel.

Lemma counts_slots_bump (counts : list Z) (slots : list (option nat)) :
  Forall (fun c => c = 0) counts ->
  counts_slots (length counts) (foldl bump_counts counts slots) slots.
Proof.
  intros Hzero. split; [apply length_foldl_bump_counts|].
  intros k Hk. destruct (lookup_lt_is_Some_2 counts k Hk) as [c Hc].
  assert (c = 0) as -> by (eapply Forall_lookup_1 in Hzero; eauto).
  rewrite (foldl_bump_counts_lookup slots counts k 0 Hc eq_refl).
  reflexivity.
Qed.

Lemma counts_slots_zip_with len counts1 counts2 slots1 slots2 :
  counts_slots len counts1 slots1 -> counts_slots len counts2 slots2 ->
  counts_slots len (zip_with (val_add Int64) counts1 counts2)
    (slots1 ++ slots2).
Proof.
  intros (Hlen1 & H1) (Hlen2 & H2). split.
  - rewrite length_zip_with. change (val_t Int64) with Z. lia.
  - intros k Hk. rewrite lookup_zip_with. change (val_t Int64) with Z.
    rewrite (H1 k Hk), (H2 k Hk). simpl.
    rewrite occurrences_app, wrap_i64_add_l, Z.add_comm, wrap_i64_add_l.
    f_equal. f_equal. lia.
Qed.

Lemma counts_slots_Permutation len counts slots1 slots2 :
  slots1 ≡ₚ slots2 -> counts_slots len counts slots1 ->
  counts_slots len counts slots2.
Proof.
  intros Hperm (Hlen & Hk). split; [exact Hlen|].
  intros k Hlt. rewrite (Hk k Hlt), (occurrences_Permutation k _ _ Hperm).
  reflexivity.
Qed.

Lemma counts_slots_eq len counts1 counts2 slots :
  counts_slots len counts1 slots -> counts_slots len counts2 slots ->
  counts1 = counts2.
Proof.
  intros (Hlen1 & H1) (Hlen2 & H2). apply list_eq. intros k.
  destruct (decide (k < len)%nat) as [Hk|Hk].
  - rewrite (H1 k Hk), (H2 k Hk). reflexivity.
  - rewrite !lookup_ge_None_2 by lia. reflexivity.
Qed.

Lemma collect_results_Ok {X Y : Type} (g : X -> Y) (f : X -> result Y)
    (l : list X) :
  (forall x, x ∈ l -> f x = Ok (g x)) -> collect_results f l = Ok (g <$> l).
Proof.
  induction l as [|x l IH]; intros Hf; [reflexivity|].
  cbn [collect_results]. rewrite (Hf x) by apply list_elem_of_here.
  cbn [mbind result_bind]. rewrite IH; [reflexivity|].
  intros y Hy. apply Hf. apply list_elem_of_further. exact Hy.
Qed.

Lemma histogram_consolidate_counts (h0 : GenericHistogramAccumCollection.t Int64)
    (counts1 counts2 : list Z) :
  length counts1 = length counts2 ->
  consolidate_with_other (with_counts h0 counts1) (with_counts h0 counts2)
  = Ok (with_counts h0 (zip_with (val_add Int64) counts1 counts2)).
Proof.
  intros Hlen. unfold consolidate_with_other, with_counts.
  cbn [n_spatial_bins_ n_data_bins_ bin_counts_ data_bin_edges_].
  rewrite !Z.eqb_refl. cbn [negb orb].
  rewrite (add_counts_zip_with Int64) by exact Hlen. reflexivity.
Qed.

(** The merge of the histograms of the workers counts the places of all
    the workers. *)
Lemma histogram_merge_counts (h0 : GenericHistogramAccumCollection.t Int64)
    (len : nat) (others : list (list Z * list (option nat)))
    (counts : list Z) (slots : list (option nat)) :
  counts_slots len counts slots ->
  Forall (fun cs => counts_slots len cs.1 cs.2) others ->
  exists merged,
    foldM (fun this other => consolidate_with_other this other)
      ((fun cs => with_counts h0 cs.1) <$> others) (with_counts h0 counts)
    = Ok (with_counts h0 merged)
    /\ counts_slots len merged (slots ++ concat (snd <$> others)).
Proof.
  intros Hfirst Hothers. revert counts slots Hfirst.
  induction Hothers as [|[counts' slots'] others Hcs Hothers IH];
    intros counts slots Hfirst.
  - exists counts. split; [reflexivity|]. simpl. rewrite app_nil_r.
    exact Hfirst.
  - cbn [fmap list_fmap foldM fst snd concat] in *.
    rewrite histogram_consolidate_counts
      by (destruct Hfirst as [-> _]; destruct Hcs as [-> _]; reflexivity).
    cbn [mbind result_bind].
    destruct (IH _ _ (counts_slots_zip_with _ _ _ _ _ Hfirst Hcs))
      as (merged & Hfold & Hmerged).
    exists merged. split; [exact Hfold|].
    rewrite app_assoc. exact Hmerged.
Qed.

Lemma concat_fmap_fmap {X Y Z' : Type} (g : Y -> Z') (w : X -> list Y)
    (l : list X) :
  concat ((fun x => g <$> w x) <$> l) = g <$> concat (w <$> l).
Proof.
  induction l as [|x l IH]; [reflexivity|].
  cbn [fmap list_fmap concat]. rewrite fmap_app. f_equal. exact IH.
Qed.

Lemma with_counts_self (h : GenericHistogramAccumCollection.t Int64) :
  with_counts h (bin_counts_ h) = h.
Proof. destruct h; reflexivity. Qed.

Lemma histogram_slot_unordered (h : GenericHistogramAccumCollection.t Int64)
    (mem : Z -> double) (choice : PairOperation) (points : PointProps)
    (dist_sqr_bin_edges : list double) (nbins : Z) (pair : Z * Z) :
  histogram_slot h mem choice points points dist_sqr_bin_edges nbins
    (unordered_pair pair)
  = histogram_slot h mem choice points points dist_sqr_bin_edges nbins pair.
Proof.
  destruct pair as [a b]. unfold histogram_slot, unordered_pair. cbn [fst snd].
  destruct (Z.le_ge_cases a b).
  - rewrite Z.min_l, Z.max_r by lia. reflexivity.
  - rewrite Z.min_r, Z.max_l by lia.
    rewrite (pair_rslt_of_swap mem choice points points b a). reflexivity.
Qed.

(** X12.  On an integer histogram that holds no count yet, the parallel
    kernel, on any number of processes from 1 to 60, returns, and it gives
    the histogram the serial kernel gives: the same count in every data bin
    of every spatial bin. *)
Theorem parallel_histogram_equals_serial
    (h0 : GenericHistogramAccumCollection.t Int64) (mem : Z -> double)
    (OMP_NUM_THREADS : option Z) (choice : PairOperation)
    (points_a points_b : PointProps) (dist_sqr_bin_edges : list double)
    (nbins : Z) (parallel_spec : ParallelSpec) (duplicated_points : bool) :
  histogram_wf h0 ->
  0 <= n_data_bins_ h0 /\ n_data_bins_ h0 + 1 < 2 ^ 64 ->
  n_data_bins_ h0 * n_spatial_bins_ h0 < 2 ^ 64 ->
  0 <= nbins <= n_spatial_bins_ h0 /\ nbins + 1 < 2 ^ 64 ->
  Forall (fun c => c = 0) (bin_counts_ h0) ->
  1 <= nproc parallel_spec <= 60 ->
  (duplicated_points = true -> points_b = points_a) ->
  0 <= spatial_dim_stride points_a
  /\ n_points points_a + 2 * spatial_dim_stride points_a < 2 ^ 64 ->
  0 <= spatial_dim_stride points_b
  /\ n_points points_b + 2 * spatial_dim_stride points_b < 2 ^ 64 ->
  (if duplicated_points then 3 <= n_points points_a
   else 1 <= n_points points_a /\ 1 <= n_points points_b) ->
  exists h,
    calc_vsf_props_helper_ mem choice points_a points_b dist_sqr_bin_edges
      nbins h0 duplicated_points = Ok h
    /\ calc_vsf_props_parallel_ mem OMP_NUM_THREADS true choice points_a
         points_b dist_sqr_bin_edges nbins parallel_spec h0 duplicated_points
       = Ok h.
Proof.
  intros Hwf Hdata Hsize Hnbins Hzero Hnproc Hdup Hstride_a Hstride_b Hpoints.
  set (slot_of := histogram_slot h0 mem choice points_a points_b
                    dist_sqr_bin_edges nbins).
  set (serial := process_data_pairs duplicated_points (n_points points_a)
                   (n_points points_b)).
  exists (with_counts h0 (foldl bump_counts (bin_counts_ h0) (slot_of <$> serial))).
  split.
  - assert (calc_vsf_props_helper_ mem choice points_a points_b
              dist_sqr_bin_edges nbins h0 duplicated_points
            = foldM (process_pair mem choice points_a points_b
                       dist_sqr_bin_edges nbins) serial h0) as ->
      by (unfold calc_vsf_props_helper_; destruct duplicated_points;
          reflexivity).
    rewrite <- (with_counts_self h0) at 1.
    apply histogram_fold_slots; auto.
  - destruct (parallel_factory points_a points_b duplicated_points
                (nproc parallel_spec) Hnproc Hdup ltac:(lia) ltac:(lia)
                Hpoints) as (f & Hnew & Hf & Hvalid & Hfew & Hfit).
    rewrite <- Hf in *.
    assert (1 <= nproc_ f < 2 ^ 64) as Hnproc'.
    { assert (60 < 2 ^ 64) by reflexivity. lia. }
    pose proof (factory_facts f Hvalid Hfew Hnproc') as (_ & _ & _ & He & _).
    set (e := Z.min (nproc_ f) (factory_n_partitions f)) in *.
    rewrite (parallel_kernel_workers mem OMP_NUM_THREADS choice points_a
               points_b dist_sqr_bin_edges nbins duplicated_points Hdup
               Hstride_a Hstride_b f Hvalid Hfew Hnproc'); try assumption.
    2:{ destruct (factory_partition_strat_ f); lia. }
    2:{ unfold get_nominal_nproc_. rewrite Hf.
        destruct (Z.eqb_spec (nproc parallel_spec) 0); [lia|]. reflexivity. }
    fold e.
    set (slots := fun proc_id =>
                    slot_of <$> worker_pairs f duplicated_points proc_id).
    set (counts := fun proc_id =>
                     foldl bump_counts (bin_counts_ h0) (slots proc_id)).
    rewrite (collect_results_Ok (fun proc_id => with_counts h0 (counts proc_id))).
    2:{ intros proc_id _. rewrite <- (with_counts_self h0) at 1.
        apply histogram_fold_slots; auto. }
    cbn [mbind result_bind].
    rewrite (seqZ_cons 0 e) by lia. cbn [fmap list_fmap].
    destruct (histogram_merge_counts h0 (length (bin_counts_ h0))
                ((fun proc_id => (counts proc_id, slots proc_id))
                   <$> seqZ (Z.succ 0) (Z.pred e))
                (counts 0) (slots 0)) as (merged & Hfold & Hmerged).
    { apply counts_slots_bump. exact Hzero. }
    { apply Forall_fmap, Forall_forall. intros proc_id _. simpl.
      apply counts_slots_bump. exact Hzero. }
    rewrite <- list_fmap_compose in Hfold.
    change (foldM kernel_consolidate_with_other ?l ?b)
      with (foldM (fun this other => consolidate_with_other this other) l b).
    etransitivity; [exact Hfold|]. f_equal. f_equal.
    apply (counts_slots_eq (length (bin_counts_ h0)) _ _ (slot_of <$> serial));
      [|apply counts_slots_bump; exact Hzero].
    apply (counts_slots_Permutation _ _
             (slots 0 ++ concat (snd <$> ((fun proc_id =>
                                             (counts proc_id, slots proc_id))
                                            <$> seqZ (Z.succ 0) (Z.pred e)))));
      [|exact Hmerged].
    rewrite <- list_fmap_compose.
    change (slots 0 ++ concat ((snd ∘ (fun proc_id =>
                                         (counts proc_id, slots proc_id)))
                                 <$> seqZ (Z.succ 0) (Z.pred e)))
      with (concat (slots <$> (0 :: seqZ (Z.succ 0) (Z.pred e)))).
    rewrite <- (seqZ_cons 0 e) by lia.
    pose proof (workers_pairs_permutation f duplicated_points points_a
                  points_b Hvalid Hfew Hnproc' Hdup Hfit) as Hperm.
    cbv zeta in Hperm. fold e in Hperm. fold serial in Hperm.
    rewrite <- Hperm. unfold slots.
    rewrite (concat_fmap_fmap slot_of (worker_pairs f duplicated_points)).
    destruct duplicated_points; [|reflexivity].
    rewrite <- list_fmap_compose.
    erewrite list_fmap_ext; [reflexivity|].
    intros i pair _. unfold slot_of. simpl. rewrite (Hdup eq_refl).
    symmetry. apply histogram_slot_unordered.
Qed.

Lemma parallel_histogram_equals_serial_witness :
  let h0 :=
    GenericHistogramAccumCollection.Build_t Int64 2 2 [0; 0; 0; 0]
      [d_of_Z 0; d_of_Z 2; d_of_Z 10] in
  let dist_sqr_bin_edges :=
    [d_of_Z 0; d_div (d_of_Z 9) (d_of_Z 4); d_of_Z 25] in
  exists h,
    calc_vsf_props_helper_ three_points_mem vec_diff three_points
      three_points dist_sqr_bin_edges 2 h0 true = Ok h
    /\ calc_vsf_props_parallel_ three_points_mem None true vec_diff
         three_points three_points dist_sqr_bin_edges 2
         {| nproc := 4; force_sequential := false |} h0 true
       = Ok h.
Proof.
  intros h0 dist_sqr_bin_edges.
  apply (parallel_histogram_equals_serial h0 three_points_mem None vec_diff
           three_points three_points dist_sqr_bin_edges 2
           {| nproc := 4; force_sequential := false |} true).
  - reflexivity.
  - split; [simpl; lia|reflexivity].
  - reflexivity.
  - split; [simpl; lia|reflexivity].
  - repeat constructor.
  - simpl. lia.
  - reflexivity.
  - split; [simpl; lia|reflexivity].
  - split; [simpl; lia|reflexivity].
  - simpl. lia.
Defined.

(** ** Compound collections in the kernel *)

Section CompoundKernel.
Context {C Tup : Type} `{AccumCollection C} `{AccumCollectionTuple Tup}.
Variable mem : Z -> double.
Variable choice : PairOperation.
Variables points_a points_b : PointProps.
Variable dist_sqr_bin_edges : list double.
Variable nbins : Z.

(** The body of the inner loop of [process_data] on a compound collection
    is its body on the first member followed by its body on the compound of
    the remaining members. *)
Lemma compound_process_pair (pair : Z * Z) (c : C) (rest : Tup) :
  process_pair mem choice points_a points_b dist_sqr_bin_edges nbins
    (CompoundAccumCollection.Build_t (C * Tup) (c, rest)) pair
  = (e ← process_pair mem choice points_a points_b dist_sqr_bin_edges nbins
           c pair;
     r ← process_pair mem choice points_a points_b dist_sqr_bin_edges nbins
           (CompoundAccumCollection.Build_t Tup rest) pair;
     Ok (CompoundAccumCollection.Build_t (C * Tup)
           (e, CompoundAccumCollection.accum_collec_tuple_ r))).
Proof.
  unfold process_pair. cbv zeta.
  set (tmp := pair_rslt_of mem choice points_a points_b pair.1 pair.2).
  set (bin_ind :=
         identify_bin_index d_ltb (dist_sqr tmp) dist_sqr_bin_edges nbins).
  destruct (bin_ind <? nbins); [|reflexivity].
  unfold_compound_add_entry.
  destruct (collec_add_entry c bin_ind (abs_vdiff tmp)) as [e|msg];
    [|reflexivity].
  cbn [mbind result_bind].
  destruct (tuple_add_entry rest bin_ind (abs_vdiff tmp)) as [r|msg];
    reflexivity.
Qed.

(** The inner loop of [process_data] on a compound collection does to the
    first member what it does to that collection alone, and to the
    remaining members what it does to the compound of them. *)
Lemma compound_fold_pairs (pairs : list (Z * Z)) (c c' : C)
    (rest rest' : Tup) :
  foldM (process_pair mem choice points_a points_b dist_sqr_bin_edges nbins)
    pairs (CompoundAccumCollection.Build_t (C * Tup) (c, rest))
  = Ok (CompoundAccumCollection.Build_t (C * Tup) (c', rest'))
  <-> foldM (process_pair mem choice points_a points_b dist_sqr_bin_edges
               nbins) pairs c = Ok c'
      /\ foldM (process_pair mem choice points_a points_b dist_sqr_bin_edges
                  nbins) pairs (CompoundAccumCollection.Build_t Tup rest)
         = Ok (CompoundAccumCollection.Build_t Tup rest').
Proof.
  revert c rest. induction pairs as [|pair pairs IH]; intros c rest.
  - cbn [foldM]. split.
    + intros [= -> ->]. split; reflexivity.
    + intros [[= ->] [= ->]]. reflexivity.
  - cbn [foldM]. rewrite compound_process_pair.
    destruct (process_pair mem choice points_a points_b dist_sqr_bin_edges
                nbins c pair) as [e|msg]; cbn [mbind result_bind].
    + destruct (process_pair mem choice points_a points_b dist_sqr_bin_edges
                  nbins (CompoundAccumCollection.Build_t Tup rest) pair)
        as [[r]|msg]; cbn [mbind result_bind];
        [apply IH|split; [discriminate|intros [_ [=]]]].
    + split; [discriminate|intros [[=] _]].
Qed.

End CompoundKernel.

(** A compound collection without members stays as it is. *)
Lemma compound_fold_pairs_unit (mem : Z -> double) (choice : PairOperation)
    (points_a points_b : PointProps) (dist_sqr_bin_edges : list double)
    (nbins : Z) (pairs : list (Z * Z)) :
  foldM (process_pair mem choice points_a points_b dist_sqr_bin_edges nbins)
    pairs (CompoundAccumCollection.Build_t unit tt)
  = Ok (CompoundAccumCollection.Build_t unit tt).
Proof.
  induction pairs as [|pair pairs IH]; [reflexivity|].
  cbn [foldM].
  assert (Hstep :
    process_pair mem choice points_a points_b dist_sqr_bin_edges nbins
      (CompoundAccumCollection.Build_t unit tt) pair
    = Ok (CompoundAccumCollection.Build_t unit tt)).
  { unfold process_pair. cbv zeta.
    destruct (_ <? nbins); reflexivity. }
  rewrite Hstep. exact IH.
Qed.

(** X13.  The serial kernel on a compound of two accumulator collections
    succeeds exactly when it succeeds on each of the two collections alone,
    and the members of its result are then the results of these two runs:
    a fatal error of either member is a fatal error of the compound, and no
    member sees an entry the other does not. *)
Theorem compound_kernel_componentwise {C1 C2 : Type} `{AccumCollection C1}
    `{AccumCollection C2} (mem : Z -> double) (choice : PairOperation)
    (points_a points_b : PointProps) (dist_sqr_bin_edges : list double)
    (nbins : Z) (duplicated_points : bool) (c1 c1' : C1) (c2 c2' : C2) :
  calc_vsf_props_helper_ mem choice points_a points_b dist_sqr_bin_edges
    nbins (CompoundAccumCollection.Build_t (C1 * (C2 * unit)) (c1, (c2, tt)))
    duplicated_points
  = Ok (CompoundAccumCollection.Build_t (C1 * (C2 * unit)) (c1', (c2', tt)))
  <-> calc_vsf_props_helper_ mem choice points_a points_b dist_sqr_bin_edges
        nbins c1 duplicated_points = Ok c1'
      /\ calc_vsf_props_helper_ mem choice points_a points_b
           dist_sqr_bin_edges nbins c2 duplicated_points = Ok c2'.
Proof.
  assert (Hfold : forall pairs,
    foldM (process_pair mem choice points_a points_b dist_sqr_bin_edges nbins)
      pairs (CompoundAccumCollection.Build_t (C1 * (C2 * unit)) (c1, (c2, tt)))
    = Ok (CompoundAccumCollection.Build_t (C1 * (C2 * unit)) (c1', (c2', tt)))
    <-> foldM (process_pair mem choice points_a points_b dist_sqr_bin_edges
                 nbins) pairs c1 = Ok c1'
        /\ foldM (process_pair mem choice points_a points_b
                    dist_sqr_bin_edges nbins) pairs c2 = Ok c2').
  { intros pairs. rewrite compound_fold_pairs, compound_fold_pairs.
    pose proof (compound_fold_pairs_unit mem choice points_a points_b
                  dist_sqr_bin_edges nbins pairs) as Hunit.
    tauto. }
  unfold calc_vsf_props_helper_, process_data.
  destruct duplicated_points; apply Hfold.
Qed.

(** ** Weighted collections in the kernel *)

Section KernelRejects.
Context {C : Type} `{KernelAccumCollection C}.
Variable mem : Z -> double.
Variable choice : PairOperation.
Variables points_a points_b : PointProps.
Variable dist_sqr_bin_edges : list double.
Variable nbins : Z.
Hypothesis Hnbins : 0 <= nbins /\ nbins + 1 < 2 ^ 64.
Variable msg : string.
Variable c : C.
Hypothesis Hreject : forall (bin : Z) (val : double),
  0 <= bin < nbins -> kernel_add_entry c bin val = Error msg.

(** When the one-argument [add_entry] of a collection is a fatal error,
    the inner loop of [process_data] stops at the first pair that falls in
    a spatial bin, and leaves the collection as it is when there is none. *)
Lemma reject_fold_pairs (pairs : list (Z * Z)) :
  foldM (process_pair mem choice points_a points_b dist_sqr_bin_edges nbins)
    pairs c
  = if some_pair_in_bin mem choice points_a points_b dist_sqr_bin_edges
         nbins pairs
    then Error msg else Ok c.
Proof.
  induction pairs as [|pair pairs IH]; [reflexivity|].
  assert (Hstep :
    process_pair mem choice points_a points_b dist_sqr_bin_edges nbins c pair
    = if pair_bin mem choice points_a points_b dist_sqr_bin_edges nbins pair
         <? nbins
      then Error msg else Ok c).
  { unfold process_pair, pair_bin. cbv zeta.
    pose proof (identify_bin_index_range d_ltb
                  (dist_sqr (pair_rslt_of mem choice points_a points_b
                               pair.1 pair.2))
                  dist_sqr_bin_edges nbins ltac:(lia) ltac:(lia)) as Hrange.
    destruct (Z.ltb_spec
                (identify_bin_index d_ltb
                   (dist_sqr (pair_rslt_of mem choice points_a points_b
                                pair.1 pair.2))
                   dist_sqr_bin_edges nbins) nbins) as [Hin|Hout];
      [apply Hreject; lia|reflexivity]. }
  cbn [foldM]. rewrite Hstep. unfold some_pair_in_bin. cbn [existsb].
  fold (some_pair_in_bin mem choice points_a points_b dist_sqr_bin_edges
          nbins pairs).
  destruct (pair_bin mem choice points_a points_b dist_sqr_bin_edges nbins
              pair <? nbins); [reflexivity|].
  cbn [mbind result_bind orb]. exact IH.
Qed.

Lemma reject_helper (duplicated_points : bool) :
  calc_vsf_props_helper_ mem choice points_a points_b dist_sqr_bin_edges
    nbins c duplicated_points
  = if some_pair_in_bin mem choice points_a points_b dist_sqr_bin_edges
         nbins
         (process_data_pairs duplicated_points (n_points points_a)
            (n_points points_b))
    then Error msg else Ok c.
Proof.
  unfold calc_vsf_props_helper_, process_data.
  destruct duplicated_points; apply reject_fold_pairs.
Qed.

End KernelRejects.

(** X14.  The kernel never passes a weight: [process_data] calls the
    one-argument [add_entry], which is a fatal error of every weighted
    accumulator.  So with a weighted collection (central or origin moments
    with a [double] weight sum, or a histogram of [double] weights) the
    serial kernel ends in that fatal error as soon as one pair falls in a
    spatial bin, and returns the collection untouched when none does. *)
Theorem kernel_never_passes_weights (Order : nat) (mem : Z -> double)
    (choice : PairOperation) (points_a points_b : PointProps)
    (dist_sqr_bin_edges : list double) (nbins : Z)
    (duplicated_points : bool) :
  0 <= nbins /\ nbins + 1 < 2 ^ 64 ->
  let hit :=
    some_pair_in_bin mem choice points_a points_b dist_sqr_bin_edges nbins
      (process_data_pairs duplicated_points (n_points points_a)
         (n_points points_b)) in
  (forall c : ScalarAccumCollection.t (CentralMomentAccum.t Order Double),
     nbins <= Z.of_nat (length (ScalarAccumCollection.accum_list_ c)) ->
     calc_vsf_props_helper_ mem choice points_a points_b dist_sqr_bin_edges
       nbins c duplicated_points
     = if hit then Error "This version of the function won't work!"
       else Ok c)
  /\ (forall c : ScalarAccumCollection.t (OriginMomentAccum.t Order Double),
        nbins <= Z.of_nat (length (ScalarAccumCollection.accum_list_ c)) ->
        calc_vsf_props_helper_ mem choice points_a points_b
          dist_sqr_bin_edges nbins c duplicated_points
        = if hit then Error "This version of the function won't work!"
          else Ok c)
  /\ (forall h : GenericHistogramAccumCollection.t Double,
        calc_vsf_props_helper_ mem choice points_a points_b
          dist_sqr_bin_edges nbins h duplicated_points
        = if hit then Error "a weight must be provided!" else Ok h).
Proof.
  intros Hnbins hit. repeat split.
  - intros c Hlen. apply reject_helper; [exact Hnbins|].
    intros bin val Hbin. unfold_kernel_add_entry.
    unfold ScalarAccumCollection.add_entry.
    destruct (lookup_lt_is_Some_2 (ScalarAccumCollection.accum_list_ c)
                (Z.to_nat bin) ltac:(lia)) as [a ->].
    reflexivity.
  - intros c Hlen. apply reject_helper; [exact Hnbins|].
    intros bin val Hbin. unfold_kernel_add_entry.
    unfold ScalarAccumCollection.add_entry.
    destruct (lookup_lt_is_Some_2 (ScalarAccumCollection.accum_list_ c)
                (Z.to_nat bin) ltac:(lia)) as [a ->].
    reflexivity.
  - intros h. apply reject_helper; [exact Hnbins|].
    intros bin val Hbin. reflexivity.
Qed.

Lemma kernel_never_passes_weights_witness :
  calc_vsf_props_helper_ three_points_mem vec_diff three_points three_points
    [d_of_Z 0; d_of_Z 4; d_of_Z 25] 2
    (ScalarAccumCollection.Build_t _
       [CentralMomentAccum.new 2 Double; CentralMomentAccum.new 2 Double])
    true
  = Error "This version of the function won't work!".
Proof.
  apply (proj1 (kernel_never_passes_weights 2 three_points_mem vec_diff
                  three_points three_points [d_of_Z 0; d_of_Z 4; d_of_Z 25]
                  2 true ltac:(lia))
           (ScalarAccumCollection.Build_t _
              [CentralMomentAccum.new 2 Double;
               CentralMomentAccum.new 2 Double])).
  simpl. lia.
Defined.

(** ** The counts of the scalar accumulators after a parallel run *)

Lemma length_filter_Permutation {X : Type} (f : X -> bool) (l l' : list X) :
  l ≡ₚ l' -> length (List.filter f l) = length (List.filter f l').
Proof.
  induction 1 as [|x l l' _ IH|x y l|l l' l'' _ IH1 _ IH2]; cbn [List.filter].
  - reflexivity.
  - destruct (f x); cbn [length]; rewrite IH; reflexivity.
  - destruct (f x), (f y); reflexivity.
  - rewrite IH1. exact IH2.
Qed.

Lemma filter_fmap {X Y : Type} (f : Y -> bool) (g : X -> Y) (l : list X) :
  List.filter f (g <$> l) = g <$> List.filter (fun x => f (g x)) l.
Proof.
  induction l as [|x l IH]; [reflexivity|].
  cbn [fmap list_fmap List.filter]. fold (g <$> l). rewrite IH.
  destruct (f (g x)); reflexivity.
Qed.

Lemma pair_bin_unordered (mem : Z -> double) (choice : PairOperation)
    (points : PointProps) (dist_sqr_bin_edges : list double) (nbins : Z)
    (pair : Z * Z) :
  pair_bin mem choice points points dist_sqr_bin_edges nbins
    (unordered_pair pair)
  = pair_bin mem choice points points dist_sqr_bin_edges nbins pair.
Proof.
  destruct pair as [a b]. unfold pair_bin, unordered_pair. cbn [fst snd].
  destruct (Z.le_ge_cases a b).
  - rewrite Z.min_l, Z.max_r by lia. reflexivity.
  - rewrite Z.min_r, Z.max_l by lia.
    rewrite (pair_rslt_of_swap mem choice points points b a). reflexivity.
Qed.

Section ParallelScalarCounts.
Context {A : Type} `{Accum A}.
Variable cnt : A -> Z.
Hypothesis add_entry_cnt : forall (a : A) (val : double),
  exists a', accum_add_entry a val = Ok a' /\ cnt a' = wrap_i64 (cnt a + 1).
Hypothesis consolidate_cnt : forall this other : A,
  - 2 ^ 53 < cnt this + cnt other < 2 ^ 53 ->
  exists merged,
    accum_consolidate_with_other this other = Ok merged
    /\ cnt merged = cnt this + cnt other.
Variable mem : Z -> double.
Variable choice : PairOperation.
Variables points_a points_b : PointProps.
Variable dist_sqr_bin_edges : list double.
Variable nbins : Z.
Hypothesis Hnbins : 0 <= nbins /\ nbins + 1 < 2 ^ 64.

Let hits (k : nat) (pairs : list (Z * Z)) : Z :=
  Z.of_nat
    (length
       (List.filter
          (fun pair =>
             (pair_bin mem choice points_a points_b dist_sqr_bin_edges nbins
                pair =? Z.of_nat k) && (Z.of_nat k <? nbins))
          pairs)).

(** The collection [c] has [n] bins, and the count of its bin [k] is the
    number of the pairs of [pairs] in the bin [k]. *)
Let counts_are (n : nat) (c : ScalarAccumCollection.t A)
    (pairs : list (Z * Z)) : Prop :=
  length (ScalarAccumCollection.accum_list_ c) = n
  /\ forall (k : nat) (a : A),
       ScalarAccumCollection.accum_list_ c !! k = Some a ->
       cnt a = hits k pairs.

Lemma hits_app k pairs1 pairs2 :
  hits k (pairs1 ++ pairs2) = hits k pairs1 + hits k pairs2.
Proof. unfold hits. rewrite List.filter_app, length_app. lia. Qed.

Lemma hits_bounds k pairs : 0 <= hits k pairs <= Z.of_nat (length pairs).
Proof.
  unfold hits.
  pose proof (List.filter_length_le
                (fun pair =>
                   (pair_bin mem choice points_a points_b dist_sqr_bin_edges
                      nbins pair =? Z.of_nat k) && (Z.of_nat k <? nbins))
                pairs).
  lia.
Qed.

(** What a worker leaves in its copy of a collection without counts. *)
Lemma worker_counts (c : ScalarAccumCollection.t A) (pairs : list (Z * Z)) :
  nbins <= Z.of_nat (length (ScalarAccumCollection.accum_list_ c)) ->
  Forall (fun a => cnt a = 0) (ScalarAccumCollection.accum_list_ c) ->
  Z.of_nat (length pairs) < 2 ^ 53 ->
  exists c',
    foldM (process_pair mem choice points_a points_b dist_sqr_bin_edges nbins)
      pairs c = Ok c'
    /\ counts_are (length (ScalarAccumCollection.accum_list_ c)) c' pairs.
Proof.
  intros Hlen Hzero Hsmall. assert (2 ^ 53 < 2 ^ 63) by reflexivity.
  destruct (scalar_process_pairs_counts cnt add_entry_cnt mem choice points_a
              points_b dist_sqr_bin_edges nbins Hnbins pairs c Hlen)
    as (c' & Hfold & Hlen' & Hbins).
  exists c'. split; [exact Hfold|]. split; [exact Hlen'|].
  intros k a' Hk'.
  destruct (lookup_lt_is_Some_2 (ScalarAccumCollection.accum_list_ c) k)
    as [a Hk].
  { rewrite <- Hlen'. eapply lookup_lt_Some. exact Hk'. }
  destruct (Hbins k a Hk) as (a'' & Hk'' & _ & Hcnt).
  rewrite Hk' in Hk''. injection Hk'' as <-.
  assert (cnt a = 0) as Ha.
  { rewrite Forall_forall in Hzero. apply Hzero.
    eapply list_elem_of_lookup_2. exact Hk. }
  rewrite Hcnt by (rewrite Ha; reflexivity).
  rewrite Ha, Z.add_0_l. fold (hits k pairs).
  pose proof (hits_bounds k pairs). apply wrap_i64_small. lia.
Qed.

Lemma consolidate_lists_counts (l other : list A) (g1 g2 : nat -> Z) :
  length other = length l ->
  (forall k, 0 <= g1 k /\ 0 <= g2 k /\ g1 k + g2 k < 2 ^ 53) ->
  (forall k a, l !! k = Some a -> cnt a = g1 k) ->
  (forall k a, other !! k = Some a -> cnt a = g2 k) ->
  exists l',
    ScalarAccumCollection.consolidate_lists l other = Ok l'
    /\ length l' = length l
    /\ forall k a, l' !! k = Some a -> cnt a = g1 k + g2 k.
Proof.
  revert other g1 g2.
  induction l as [|a l IH]; intros [|b other] g1 g2 Hlen Hg H1 H2;
    try discriminate.
  - exists []. split; [reflexivity|]. split; [reflexivity|].
    intros k a Hk. discriminate.
  - cbn [ScalarAccumCollection.consolidate_lists].
    pose proof (H1 0%nat a eq_refl) as Ha.
    pose proof (H2 0%nat b eq_refl) as Hb.
    destruct (consolidate_cnt a b) as (m & -> & Hm).
    { specialize (Hg 0%nat). lia. }
    destruct (IH other (fun k => g1 (S k)) (fun k => g2 (S k)))
      as (l' & -> & Hlen' & Hl').
    { simpl in Hlen. lia. }
    { intros k. apply Hg. }
    { intros k x Hk. apply (H1 (S k)). exact Hk. }
    { intros k x Hk. apply (H2 (S k)). exact Hk. }
    exists (m :: l'). split; [reflexivity|]. split; [simpl; lia|].
    intros [|k] x Hk.
    + injection Hk as <-. lia.
    + apply Hl'. exact Hk.
Qed.

Lemma consolidate_counts (n : nat) (c other : ScalarAccumCollection.t A)
    (pairs1 pairs2 : list (Z * Z)) :
  counts_are n c pairs1 -> counts_are n other pairs2 ->
  Z.of_nat (length (pairs1 ++ pairs2)) < 2 ^ 53 ->
  exists merged,
    ScalarAccumCollection.consolidate_with_other c other = Ok merged
    /\ counts_are n merged (pairs1 ++ pairs2).
Proof.
  intros [Hlen1 H1] [Hlen2 H2] Hsmall.
  unfold ScalarAccumCollection.consolidate_with_other.
  rewrite Hlen1, Hlen2, Nat.eqb_refl. cbn [negb].
  destruct (consolidate_lists_counts (ScalarAccumCollection.accum_list_ c)
              (ScalarAccumCollection.accum_list_ other)
              (fun k => hits k pairs1) (fun k => hits k pairs2))
    as (l' & -> & Hlen' & Hl'); [lia| |exact H1|exact H2|].
  - intros k. pose proof (hits_bounds k pairs1).
    pose proof (hits_bounds k pairs2). rewrite length_app in Hsmall. lia.
  - eexists. split; [reflexivity|]. split; [simpl; lia|].
    intros k a Hk. rewrite hits_app. apply Hl'. exact Hk.
Qed.

(** The consolidation of the collections of the workers, first to last. *)
Lemma merge_counts (n : nat)
    (rs : list (ScalarAccumCollection.t A * list (Z * Z)))
    (first : ScalarAccumCollection.t A) (pairs0 : list (Z * Z)) :
  counts_are n first pairs0 ->
  Forall (fun r => counts_are n r.1 r.2) rs ->
  Z.of_nat (length (pairs0 ++ concat (snd <$> rs))) < 2 ^ 53 ->
  exists merged,
    foldM (fun this other =>
             ScalarAccumCollection.consolidate_with_other this other)
      (fst <$> rs) first = Ok merged
    /\ counts_are n merged (pairs0 ++ concat (snd <$> rs)).
Proof.
  revert first pairs0.
  induction rs as [|[r pairs] rs IH]; intros first pairs0 Hfirst Hrs Hsmall.
  - exists first. split; [reflexivity|].
    cbn [fmap list_fmap concat]. rewrite app_nil_r. exact Hfirst.
  - apply Forall_cons in Hrs as [Hr Hrs]. cbn [fst snd] in Hr.
    cbn [fmap list_fmap concat foldM fst snd] in *.
    fold (fst <$> rs). fold (snd <$> rs) in *.
    rewrite app_assoc in Hsmall |- *.
    destruct (consolidate_counts n first r pairs0 pairs Hfirst Hr)
      as (m & -> & Hm).
    { rewrite length_app in Hsmall. lia. }
    cbn [mbind result_bind]. apply IH; assumption.
Qed.

End ParallelScalarCounts.

Lemma scalar_parallel_counts {A : Type} `{Accum A} (cnt : A -> Z)
    (mem : Z -> double) (OMP_NUM_THREADS : option Z)
    (duplicated_points : bool) (choice : PairOperation)
    (points_a points_b : PointProps) (dist_sqr_bin_edges : list double)
    (nbins : Z) (parallel_spec : ParallelSpec)
    (c : ScalarAccumCollection.t A) :
  (forall (a : A) (val : double),
     exists a', accum_add_entry a val = Ok a'
                /\ cnt a' = wrap_i64 (cnt a + 1)) ->
  (forall this other : A,
     - 2 ^ 53 < cnt this + cnt other < 2 ^ 53 ->
     exists merged,
       accum_consolidate_with_other this other = Ok merged
       /\ cnt merged = cnt this + cnt other) ->
  0 <= nbins /\ nbins + 1 < 2 ^ 64 ->
  1 <= nproc parallel_spec <= 60 ->
  (duplicated_points = true -> points_b = points_a) ->
  0 <= spatial_dim_stride points_a
  /\ n_points points_a + 2 * spatial_dim_stride points_a < 2 ^ 64 ->
  0 <= spatial_dim_stride points_b
  /\ n_points points_b + 2 * spatial_dim_stride points_b < 2 ^ 64 ->
  (if duplicated_points then 3 <= n_points points_a
   else 1 <= n_points points_a /\ 1 <= n_points points_b) ->
  Z.of_nat (length (process_data_pairs duplicated_points (n_points points_a)
                      (n_points points_b))) < 2 ^ 53 ->
  nbins <= ScalarAccumCollection.n_spatial_bins c ->
  Forall (fun a => cnt a = 0) (ScalarAccumCollection.accum_list_ c) ->
  parallel_counts_pairs_per_bin cnt mem OMP_NUM_THREADS duplicated_points
    choice points_a points_b dist_sqr_bin_edges nbins parallel_spec c.
Proof.
  intros Hadd Hcons Hnbins Hnproc Hdup Hstride_a Hstride_b Hpoints Hsmall
    Hlen Hzero.
  unfold ScalarAccumCollection.n_spatial_bins in Hlen.
  set (serial := process_data_pairs duplicated_points (n_points points_a)
                   (n_points points_b)) in *.
  destruct (parallel_factory points_a points_b duplicated_points
              (nproc parallel_spec) Hnproc Hdup ltac:(lia) ltac:(lia)
              Hpoints) as (f & Hnew & Hf & Hvalid & Hfew & Hfit).
  rewrite <- Hf in *.
  assert (1 <= nproc_ f < 2 ^ 64) as Hnproc'.
  { assert (60 < 2 ^ 64) by reflexivity. lia. }
  pose proof (factory_facts f Hvalid Hfew Hnproc') as (_ & _ & _ & He & _).
  set (e := Z.min (nproc_ f) (factory_n_partitions f)) in *.
  pose proof (workers_pairs_permutation f duplicated_points points_a
                points_b Hvalid Hfew Hnproc' Hdup Hfit) as Hperm.
  cbv zeta in Hperm. fold e in Hperm. fold serial in Hperm.
  set (visited := concat (worker_pairs f duplicated_points <$> seqZ 0 e)) in *.
  assert (Hvisited : length visited = length serial).
  { rewrite <- Hperm. destruct duplicated_points;
      [rewrite length_fmap|]; reflexivity. }
  assert (Hworker_small : forall proc_id, proc_id ∈ seqZ 0 e ->
            Z.of_nat (length (worker_pairs f duplicated_points proc_id))
            < 2 ^ 53).
  { intros proc_id Hin.
    assert (length (worker_pairs f duplicated_points proc_id)
            <= length visited)%nat; [|lia].
    unfold visited. apply list_elem_of_split in Hin as (l1 & l2 & ->).
    rewrite fmap_app, concat_app. cbn [fmap list_fmap concat].
    rewrite !length_app. lia. }
  unfold parallel_counts_pairs_per_bin.
  rewrite (parallel_kernel_workers mem OMP_NUM_THREADS choice points_a
             points_b dist_sqr_bin_edges nbins duplicated_points Hdup
             Hstride_a Hstride_b f Hvalid Hfew Hnproc'); try assumption.
  2:{ destruct (factory_partition_strat_ f); lia. }
  2:{ unfold get_nominal_nproc_. rewrite Hf.
      destruct (Z.eqb_spec (nproc parallel_spec) 0); [lia|]. reflexivity. }
  fold e.
  set (run := fun proc_id =>
                foldM (process_pair mem choice points_a points_b
                         dist_sqr_bin_edges nbins)
                  (worker_pairs f duplicated_points proc_id) c).
  set (g := fun proc_id =>
              match run proc_id with Ok r => r | Error _ => c end).
  set (n := length (ScalarAccumCollection.accum_list_ c)) in *.
  assert (Hrun : forall proc_id, proc_id ∈ seqZ 0 e ->
            run proc_id = Ok (g proc_id)
            /\ length (ScalarAccumCollection.accum_list_ (g proc_id)) = n
            /\ forall (k : nat) (a : A),
                 ScalarAccumCollection.accum_list_ (g proc_id) !! k = Some a ->
                 cnt a
                 = Z.of_nat
                     (length
                        (List.filter
                           (fun pair =>
                              (pair_bin mem choice points_a points_b
                                 dist_sqr_bin_edges nbins pair =? Z.of_nat k)
                              && (Z.of_nat k <? nbins))
                           (worker_pairs f duplicated_points proc_id)))).
  { intros proc_id Hin.
    destruct (worker_counts cnt Hadd mem choice points_a points_b
                dist_sqr_bin_edges nbins Hnbins c
                (worker_pairs f duplicated_points proc_id) Hlen Hzero
                (Hworker_small proc_id Hin)) as (c' & Hc' & Hlen' & Hcnt').
    unfold g. fold (run proc_id) in Hc'. rewrite Hc'.
    split; [reflexivity|]. split; [exact Hlen'|exact Hcnt']. }
  rewrite (collect_results_Ok g) by (intros x Hx; apply (Hrun x Hx)).
  cbn [mbind result_bind].
  assert (Hseq : seqZ 0 e = 0 :: seqZ (Z.succ 0) (Z.pred e))
    by (apply seqZ_cons; lia).
  rewrite Hseq. cbn [fmap list_fmap].
  destruct (merge_counts cnt Hcons mem choice points_a points_b
              dist_sqr_bin_edges nbins n
              ((fun proc_id =>
                  (g proc_id, worker_pairs f duplicated_points proc_id))
                 <$> seqZ (Z.succ 0) (Z.pred e))
              (g 0) (worker_pairs f duplicated_points 0))
    as (merged & Hfold & Hlen_m & Hcnt_m).
  { split; apply (Hrun 0); rewrite Hseq; apply list_elem_of_here. }
  { apply Forall_fmap, Forall_forall. intros proc_id Hin. cbn [fst snd].
    split; apply (Hrun proc_id); rewrite Hseq;
      apply list_elem_of_further; exact Hin. }
  { rewrite <- list_fmap_compose.
    change (worker_pairs f duplicated_points 0
            ++ concat ((snd ∘ (fun proc_id =>
                                 (g proc_id,
                                  worker_pairs f duplicated_points proc_id)))
                         <$> seqZ (Z.succ 0) (Z.pred e)))
      with (concat (worker_pairs f duplicated_points
                      <$> (0 :: seqZ (Z.succ 0) (Z.pred e)))).
    rewrite <- Hseq. fold visited. lia. }
  rewrite <- !list_fmap_compose in Hfold, Hcnt_m.
  change (worker_pairs f duplicated_points 0
          ++ concat ((snd ∘ (fun proc_id =>
                               (g proc_id,
                                worker_pairs f duplicated_points proc_id)))
                       <$> seqZ (Z.succ 0) (Z.pred e)))
    with (concat (worker_pairs f duplicated_points
                    <$> (0 :: seqZ (Z.succ 0) (Z.pred e)))) in Hcnt_m.
  rewrite <- Hseq in Hcnt_m. fold visited in Hcnt_m.
  exists merged. split.
  - unfold_kernel_consolidate. exact Hfold.
  - split; [unfold ScalarAccumCollection.n_spatial_bins; f_equal; exact Hlen_m|].
    intros k a' Hk. rewrite (Hcnt_m k a' Hk).
    destruct (Z.ltb_spec (Z.of_nat k) nbins) as [Hin|Hout].
    + unfold pairs_in_bin. f_equal. fold serial.
      rewrite <- (length_filter_Permutation _ _ _ Hperm).
      destruct duplicated_points.
      * rewrite filter_fmap, length_fmap. f_equal.
        apply List.filter_ext. intros pair. rewrite (Hdup eq_refl).
        rewrite pair_bin_unordered. apply andb_true_r.
      * f_equal. apply List.filter_ext. intros pair. apply andb_true_r.
    + rewrite filter_nil_of_false; [reflexivity|].
      intros pair. apply andb_false_r.
Qed.

(** X15.  A parallel run of the pair kernel, on any number of processes
    from 1 to 60, on a collection of unweighted scalar accumulators that
    hold no entry yet (central moments or moments about the origin, of any
    order) returns, and leaves in every spatial bin the number of the pairs
    of the two point sets that the bin search puts in that bin: the counts
    of the serial run, whatever the partition of the pairs among the
    processes, as long as there are fewer than 2^53 pairs. *)
Theorem parallel_run_counts_pairs_per_bin (Order : nat) (mem : Z -> double)
    (OMP_NUM_THREADS : option Z) (duplicated_points : bool)
    (choice : PairOperation) (points_a points_b : PointProps)
    (dist_sqr_bin_edges : list double) (nbins : Z)
    (parallel_spec : ParallelSpec) :
  0 <= nbins /\ nbins + 1 < 2 ^ 64 ->
  1 <= nproc parallel_spec <= 60 ->
  (duplicated_points = true -> points_b = points_a) ->
  0 <= spatial_dim_stride points_a
  /\ n_points points_a + 2 * spatial_dim_stride points_a < 2 ^ 64 ->
  0 <= spatial_dim_stride points_b
  /\ n_points points_b + 2 * spatial_dim_stride points_b < 2 ^ 64 ->
  (if duplicated_points then 3 <= n_points points_a
   else 1 <= n_points points_a /\ 1 <= n_points points_b) ->
  Z.of_nat (length (process_data_pairs duplicated_points (n_points points_a)
                      (n_points points_b))) < 2 ^ 53 ->
  (forall c : ScalarAccumCollection.t (CentralMomentAccum.t Order Int64),
     nbins <= ScalarAccumCollection.n_spatial_bins c ->
     Forall (fun a => @CentralMomentAccum.count Order Int64 a = 0)
       (ScalarAccumCollection.accum_list_ c) ->
     parallel_counts_pairs_per_bin (@CentralMomentAccum.count Order Int64)
       mem OMP_NUM_THREADS duplicated_points choice points_a points_b
       dist_sqr_bin_edges nbins parallel_spec c)
  /\ (forall c : ScalarAccumCollection.t (OriginMomentAccum.t Order Int64),
        nbins <= ScalarAccumCollection.n_spatial_bins c ->
        Forall (fun a => @OriginMomentAccum.count Order Int64 a = 0)
          (ScalarAccumCollection.accum_list_ c) ->
        parallel_counts_pairs_per_bin (@OriginMomentAccum.count Order Int64)
          mem OMP_NUM_THREADS duplicated_points choice points_a points_b
          dist_sqr_bin_edges nbins parallel_spec c).
Proof.
  intros Hnbins Hnproc Hdup Hstride_a Hstride_b Hpoints Hsmall.
  split; intros c Hlen Hzero; apply scalar_parallel_counts; try assumption.
  - intros a val. apply central_add_entry_count.
  - intros this other. apply central_consolidate_count.
  - intros a val. apply origin_add_entry_count.
  - intros this other. apply origin_consolidate_count.
Qed.

Lemma parallel_run_counts_pairs_per_bin_witness :
  parallel_counts_pairs_per_bin (@CentralMomentAccum.count 2 Int64)
    three_points_mem None true vec_diff three_points three_points
    [d_of_Z 0; d_of_Z 2; d_of_Z 25] 2
    {| nproc := 4; force_sequential := false |}
    {| ScalarAccumCollection.accum_list_ :=
         [CentralMomentAccum.new 2 Int64; CentralMomentAccum.new 2 Int64] |}.
Proof.
  assert (H1 : 0 <= 2 /\ 2 + 1 < 2 ^ 64) by (split; [lia|reflexivity]).
  assert (H2 : 1 <= nproc {| nproc := 4; force_sequential := false |} <= 60)
    by (simpl; lia).
  assert (H3 : true = true -> three_points = three_points)
    by reflexivity.
  assert (H4 : 0 <= spatial_dim_stride three_points
               /\ n_points three_points
                  + 2 * spatial_dim_stride three_points < 2 ^ 64)
    by (split; [simpl; lia|reflexivity]).
  assert (H5 : 3 <= n_points three_points) by (simpl; lia).
  assert (H6 : Z.of_nat (length (process_data_pairs true
                                   (n_points three_points)
                                   (n_points three_points))) < 2 ^ 53)
    by reflexivity.
  apply (proj1 (parallel_run_counts_pairs_per_bin 2 three_points_mem None
                  true vec_diff three_points three_points
                  [d_of_Z 0; d_of_Z 2; d_of_Z 25] 2
                  {| nproc := 4; force_sequential := false |}
                  H1 H2 H3 H4 H4 H5 H6)).
  - unfold ScalarAccumCollection.n_spatial_bins. simpl. lia.
  - repeat constructor.
Defined.

(** ** The accumulators before the library and the central moments *)

Lemma MeanAccum_add_entry_central (a : MeanAccum.t) (val : double) :
  CentralMomentAccum.add_entry (of_MeanAccum a) val
  = Ok (of_MeanAccum (MeanAccum.add_entry a val)).
Proof. reflexivity. Qed.

Lemma VarAccum_add_entry_central (a : VarAccum.t) (val : double) :
  CentralMomentAccum.add_entry (of_VarAccum a) val
  = Ok (of_VarAccum (VarAccum.add_entry a val)).
Proof. reflexivity. Qed.

(** X16.  The accumulators of the first version, [MeanAccum] and
    [VarAccum], and the central-moment accumulators of order 1 and 2 of
    the library compute the same thing: from the state their constructors
    leave, every sequence of entries leaves the same count, the same mean
    and the same sum of squared differences in both. *)
Theorem legacy_accumulators_agree (vals : list double) :
  foldM CentralMomentAccum.add_entry vals (CentralMomentAccum.new 1 Int64)
  = Ok (of_MeanAccum (foldl MeanAccum.add_entry MeanAccum.new vals))
  /\ foldM CentralMomentAccum.add_entry vals (CentralMomentAccum.new 2 Int64)
     = Ok (of_VarAccum (foldl VarAccum.add_entry VarAccum.new vals)).
Proof.
  change (CentralMomentAccum.new 1 Int64) with (of_MeanAccum MeanAccum.new).
  change (CentralMomentAccum.new 2 Int64) with (of_VarAccum VarAccum.new).
  generalize MeanAccum.new, VarAccum.new.
  induction vals as [|val vals IH]; intros m v; [split; reflexivity|].
  cbn [foldM foldl].
  rewrite MeanAccum_add_entry_central, VarAccum_add_entry_central.
  cbn [mbind result_bind]. apply IH.
Qed.

(** ** The number of pairs of a run of the kernel *)

(** The length of the rows [0], ..., [m - 1] of the two loops of
    [process_data], the row [i_a] having [row_length i_a] pairs. *)
Lemma length_rows (row : Z -> list (Z * Z)) (row_length : Z -> Z) (m : Z) :
  0 <= m ->
  (forall i_a, 0 <= i_a < m ->
     Z.of_nat (length (row i_a)) = row_length i_a) ->
  Z.of_nat (length (seqZ 0 m ≫= row))
  = foldr (fun i_a total => row_length i_a + total) 0 (seqZ 0 m).
Proof.
  intros Hm Hrow.
  assert (Hin : forall i_a, i_a ∈ seqZ 0 m -> 0 <= i_a < m)
    by (intros i_a Hi; apply elem_of_seqZ in Hi; lia).
  induction (seqZ 0 m) as [|i_a l IH]; [reflexivity|].
  cbn [mbind list_bind foldr]. change (list_bind _ _ row l) with (l ≫= row).
  rewrite length_app, Nat2Z.inj_add, IH.
  - rewrite Hrow by (apply Hin; apply list_elem_of_here). reflexivity.
  - intros j Hj. apply Hin. apply list_elem_of_further. exact Hj.
Qed.

Lemma sum_rows_cross (n_b m : Z) :
  0 <= m ->
  foldr (fun (i_a : Z) total => n_b + total) 0 (seqZ 0 m) = m * n_b.
Proof.
  intros Hm. revert m Hm. apply natlike_ind; [reflexivity|].
  intros m Hm IH. rewrite <- Z.add_1_r, seqZ_app by lia.
  rewrite foldr_app. change (seqZ (0 + m) 1) with [0 + m]. cbn [foldr].
  assert (Hshift : forall (l : list Z) c,
            foldr (fun (i_a : Z) total => n_b + total) c l
            = foldr (fun (i_a : Z) total => n_b + total) 0 l + c).
  { induction l as [|x l IHl]; intros c; cbn [foldr]; [lia|].
    rewrite IHl. lia. }
  rewrite Hshift, IH. lia.
Qed.

Lemma sum_rows_dup (n m : Z) :
  0 <= m ->
  2 * foldr (fun i_a total => (n - (i_a + 1)) + total) 0 (seqZ 0 m)
  = m * (2 * n - m - 1).
Proof.
  intros Hm. revert m Hm. apply natlike_ind; [reflexivity|].
  intros m Hm IH. rewrite <- Z.add_1_r, seqZ_app by lia.
  rewrite foldr_app. change (seqZ (0 + m) 1) with [0 + m]. cbn [foldr].
  assert (Hshift : forall (l : list Z) c,
            foldr (fun i_a total => (n - (i_a + 1)) + total) c l
            = foldr (fun i_a total => (n - (i_a + 1)) + total) 0 l + c).
  { induction l as [|x l IHl]; intros c; cbn [foldr]; [lia|].
    rewrite IHl. lia. }
  rewrite Hshift. nia.
Qed.

(** X17.  The two loops of [process_data] visit every pair once: with
    [duplicated_points] the [n (n - 1) / 2] pairs [i_a < i_b] of the [n]
    points (no point with itself, no pair in both orders), and otherwise
    the [n_a n_b] pairs of a point of the first set and a point of the
    second. *)
Theorem process_data_number_of_pairs (duplicated_points : bool)
    (n_points_a n_points_b : Z) :
  0 <= n_points_a < 2 ^ 64 -> 0 <= n_points_b ->
  (duplicated_points = true -> n_points_b = n_points_a) ->
  let pairs := process_data_pairs duplicated_points n_points_a n_points_b in
  NoDup pairs
  /\ (forall i_a i_b,
        (i_a, i_b) ∈ pairs
        <-> 0 <= i_a < n_points_a
            /\ (if duplicated_points then i_a < i_b else 0 <= i_b)
            /\ i_b < n_points_b)
  /\ Z.of_nat (length pairs)
     = if duplicated_points then n_points_a * (n_points_a - 1) / 2
       else n_points_a * n_points_b.
Proof.
  intros Ha Hb Hdup pairs. split; [apply NoDup_process_data_pairs|]. split.
  - intros i_a i_b. unfold pairs. destruct duplicated_points.
    + rewrite (Hdup eq_refl), elem_of_process_data_pairs_dup by lia. lia.
    + rewrite elem_of_process_data_pairs_cross. lia.
  - unfold pairs, process_data_pairs. destruct duplicated_points.
    + rewrite (Hdup eq_refl).
      rewrite (length_rows _ (fun i_a => n_points_a - (i_a + 1)))
        by (try lia; intros i_a Hi; cbv zeta;
            rewrite wrap64_small, bind_singleton_fmap, length_fmap,
              length_seqZ by lia; lia).
      pose proof (sum_rows_dup n_points_a n_points_a ltac:(lia)) as Hsum.
      apply Z.div_unique_exact; [lia|]. rewrite Hsum. lia.
    + rewrite (length_rows _ (fun _ => n_points_b))
        by (try lia; intros i_a Hi; cbv zeta;
            rewrite bind_singleton_fmap, length_fmap, length_seqZ; lia).
      apply sum_rows_cross. lia.
Qed.

Lemma process_data_number_of_pairs_witness :
  let pairs := process_data_pairs true 5 5 in
  NoDup pairs
  /\ (forall i_a i_b,
        (i_a, i_b) ∈ pairs <-> 0 <= i_a < 5 /\ i_a < i_b /\ i_b < 5)
  /\ Z.of_nat (length pairs) = 5 * (5 - 1) / 2.
Proof.
  apply (process_data_number_of_pairs true 5 5);
    [split; [lia|reflexivity]|lia|reflexivity].
Defined.

(** ** The merge of two collections of scalar accumulators *)

Lemma central_consolidate_total {Order : nat} {CountT : dtype}
    (this other : CentralMomentAccum.t Order CountT) :
  exists merged,
    CentralMomentAccum.consolidate_with_other this other = Ok merged.
Proof.
  unfold CentralMomentAccum.consolidate_with_other.
  destruct (val_eqb_Z CountT (CentralMomentAccum.count this) 0);
    [eexists; reflexivity|].
  destruct (val_eqb_Z CountT (CentralMomentAccum.count other) 0);
    [eexists; reflexivity|].
  destruct CountT; cbn [is_int64 andb]; rewrite ?andb_false_r, ?andb_true_r.
  - unfold CentralMomentAccum.add_entry.
    destruct (val_eqb_Z Int64 (CentralMomentAccum.count this) 1);
      [destruct (1 <? Order)%nat; eexists; reflexivity|].
    destruct (val_eqb_Z Int64 (CentralMomentAccum.count other) 1);
      [destruct (1 <? Order)%nat; eexists; reflexivity|].
    eexists; reflexivity.
  - eexists; reflexivity.
Qed.

Lemma origin_consolidate_total {Order : nat} {CountT : dtype}
    (this other : OriginMomentAccum.t Order CountT) :
  exists merged,
    OriginMomentAccum.consolidate_with_other this other = Ok merged.
Proof.
  unfold OriginMomentAccum.consolidate_with_other.
  destruct (val_eqb_Z CountT (OriginMomentAccum.count this) 0);
    [eexists; reflexivity|].
  destruct (val_eqb_Z CountT (OriginMomentAccum.count other) 0);
    [eexists; reflexivity|].
  destruct CountT; cbn [is_int64 andb]; rewrite ?andb_false_r, ?andb_true_r.
  - unfold OriginMomentAccum.add_entry.
    destruct (val_eqb_Z Int64 (OriginMomentAccum.count this) 1);
      [eexists; reflexivity|].
    destruct (val_eqb_Z Int64 (OriginMomentAccum.count other) 1);
      [eexists; reflexivity|].
    eexists; reflexivity.
  - eexists; reflexivity.
Qed.

Section ScalarConsolidate.
Context {A : Type} `{Accum A}.
Hypothesis consolidate_total : forall this other : A,
  exists merged, accum_consolidate_with_other this other = Ok merged.

Lemma consolidate_lists_total (l other : list A) :
  length other = length l ->
  exists l',
    ScalarAccumCollection.consolidate_lists l other = Ok l'
    /\ Forall3 (fun a b a' => accum_consolidate_with_other a b = Ok a')
         l other l'.
Proof.
  revert other. induction l as [|a l IH]; intros [|b other] Hlen;
    try discriminate.
  - exists []. split; [reflexivity|constructor].
  - cbn [ScalarAccumCollection.consolidate_lists].
    destruct (consolidate_total a b) as [a' Ha'].
    destruct (IH other ltac:(simpl in Hlen; lia)) as (l' & Hl' & Hall).
    rewrite Ha', Hl'. exists (a' :: l'). split; [reflexivity|].
    constructor; assumption.
Qed.

Lemma scalar_consolidate_spec (c other : ScalarAccumCollection.t A) :
  match ScalarAccumCollection.consolidate_with_other c other with
  | Error msg =>
      msg = "There seemed to be a mismatch during consolidation"
      /\ length (ScalarAccumCollection.accum_list_ other)
         <> length (ScalarAccumCollection.accum_list_ c)
  | Ok merged =>
      Forall3 (fun a b a' => accum_consolidate_with_other a b = Ok a')
        (ScalarAccumCollection.accum_list_ c)
        (ScalarAccumCollection.accum_list_ other)
        (ScalarAccumCollection.accum_list_ merged)
  end.
Proof.
  unfold ScalarAccumCollection.consolidate_with_other.
  destruct (Nat.eqb_spec (length (ScalarAccumCollection.accum_list_ other))
              (length (ScalarAccumCollection.accum_list_ c))) as [Hlen|Hlen];
    cbn [negb].
  - destruct (consolidate_lists_total _ _ Hlen) as (l' & -> & Hall).
    exact Hall.
  - split; [reflexivity|exact Hlen].
Qed.

End ScalarConsolidate.

(** X18.  The merge of two collections of scalar accumulators (central or
    origin moments, weighted or not, of any order) ends with the fatal
    error of the mismatch exactly when the two collections do not have the
    same number of spatial bins; in every other case it returns, and every
    bin of the result is the merge of the two bins at its index. *)
Theorem scalar_consolidate_compares_sizes (Order : nat) (CountT : dtype) :
  (forall c other : ScalarAccumCollection.t (CentralMomentAccum.t Order CountT),
     match ScalarAccumCollection.consolidate_with_other c other with
     | Error msg =>
         msg = "There seemed to be a mismatch during consolidation"
         /\ length (ScalarAccumCollection.accum_list_ other)
            <> length (ScalarAccumCollection.accum_list_ c)
     | Ok merged =>
         Forall3 (fun a b a' =>
                    CentralMomentAccum.consolidate_with_other a b = Ok a')
           (ScalarAccumCollection.accum_list_ c)
           (ScalarAccumCollection.accum_list_ other)
           (ScalarAccumCollection.accum_list_ merged)
     end)
  /\ (forall c other : ScalarAccumCollection.t (OriginMomentAccum.t Order CountT),
        match ScalarAccumCollection.consolidate_with_other c other with
        | Error msg =>
            msg = "There seemed to be a mismatch during consolidation"
            /\ length (ScalarAccumCollection.accum_list_ other)
               <> length (ScalarAccumCollection.accum_list_ c)
        | Ok merged =>
            Forall3 (fun a b a' =>
                       OriginMomentAccum.consolidate_with_other a b = Ok a')
              (ScalarAccumCollection.accum_list_ c)
              (ScalarAccumCollection.accum_list_ other)
              (ScalarAccumCollection.accum_list_ merged)
        end).
Proof.
  split; intros c other.
  - exact (@scalar_consolidate_spec _ (CentralMomentAccum_Accum Order CountT)
             (fun this other' => central_consolidate_total this other')
             c other).
  - exact (@scalar_consolidate_spec _ (OriginMomentAccum_Accum Order CountT)
             (fun this other' => origin_consolidate_total this other')
             c other).
Qed.

(** ** The return value of [calc_vsf_props] *)

(** *** The pairs a run of the kernel visits *)

Section Visits.
Variable choice : PairOperation.
Variables points_a points_b : PointProps.

Let origin : Z -> double := fun _ : Z => d_of_Z 0.
Let around_zero : list double := [d_of_Z (-1); d_of_Z 1].

(** With every point at the origin and the bin from [-1] to [1], every pair
    that is visited is an entry. *)
Lemma visit_process_pair (mark : VisitMark) (pair : Z * Z) :
  process_pair origin choice points_a points_b around_zero 1 mark pair
  = Ok {| entry_added := true |}.
Proof. destruct choice; vm_compute; reflexivity. Qed.

Lemma visit_fold (pairs : list (Z * Z)) (mark : VisitMark) :
  foldM (process_pair origin choice points_a points_b around_zero 1) pairs
    mark
  = Ok (match pairs with [] => mark | _ :: _ => {| entry_added := true |} end).
Proof.
  revert mark. induction pairs as [|pair pairs IH]; intros mark;
    [reflexivity|].
  cbn [foldM]. rewrite visit_process_pair. cbn [mbind result_bind].
  rewrite IH. destruct pairs; reflexivity.
Qed.

End Visits.

Lemma visit_consolidate (others : list VisitMark) (first : VisitMark) :
  foldM kernel_consolidate_with_other others first
  = Ok {| entry_added := entry_added first || existsb entry_added others |}.
Proof.
  revert first. induction others as [|other others IH]; intros first.
  - cbn [foldM existsb]. rewrite orb_false_r. destruct first; reflexivity.
  - cbn [foldM kernel_consolidate_with_other VisitMark_Kernel mbind
         result_bind existsb].
    rewrite IH. cbn [entry_added]. rewrite orb_assoc. reflexivity.
Qed.

(** The serial kernel visits a pair when the two loops have one. *)
Lemma serial_visits (OMP_NUM_THREADS : option Z) (OPENMP : bool)
    (choice : PairOperation) (points_a points_b : PointProps)
    (parallel_spec : ParallelSpec) (duplicated_points : bool) :
  kernel_visits_a_pair OMP_NUM_THREADS OPENMP true choice points_a points_b
    parallel_spec duplicated_points
  = Ok (match process_data_pairs duplicated_points (n_points points_a)
                (n_points points_b) with
        | [] => false
        | _ :: _ => true
        end).
Proof.
  unfold kernel_visits_a_pair, calc_vsf_props_helper_, process_data.
  cbv zeta.
  assert (forall pairs,
            (mark ← foldM (process_pair (fun _ : Z => d_of_Z 0) choice
                             points_a points_b [d_of_Z (-1); d_of_Z 1] 1)
                      pairs {| entry_added := false |};
             Ok (entry_added mark))
            = Ok (match pairs with [] => false | _ :: _ => true end)) as Hmark.
  { intros pairs. rewrite visit_fold. destruct pairs; reflexivity. }
  destruct duplicated_points; apply Hmark.
Qed.

Section ParallelRun.
Context {C : Type} `{KernelAccumCollection C}.
Variable mem : Z -> double.
Variable OMP_NUM_THREADS : option Z.
Variable choice : PairOperation.
Variables points_a points_b : PointProps.
Variable dist_sqr_bin_edges : list double.
Variable nbins : Z.
Variable parallel_spec : ParallelSpec.
Variable duplicated_points : bool.
Hypothesis Hnproc : 1 <= nproc parallel_spec <= 60.
Hypothesis Hdup : duplicated_points = true -> points_b = points_a.
Hypothesis Hstride_a :
  0 <= spatial_dim_stride points_a
  /\ n_points points_a + 2 * spatial_dim_stride points_a < 2 ^ 64.
Hypothesis Hstride_b :
  0 <= spatial_dim_stride points_b
  /\ n_points points_b + 2 * spatial_dim_stride points_b < 2 ^ 64.
Hypothesis Hpoints :
  if duplicated_points then 3 <= n_points points_a
  else 1 <= n_points points_a /\ 1 <= n_points points_b.

(** The factory of the run, the equation of the parallel kernel with it,
    and the pairs of its workers. *)
Lemma parallel_run_workers :
  exists f,
    TaskItFactory_new (nproc parallel_spec) (n_points points_a)
      (if duplicated_points then 0 else n_points points_b) false = Ok f
    /\ 1 <= Z.min (nproc parallel_spec) (factory_n_partitions f)
    /\ (forall accumulators0 : C,
          calc_vsf_props_parallel_ mem OMP_NUM_THREADS true choice points_a
            points_b dist_sqr_bin_edges nbins parallel_spec accumulators0
            duplicated_points
          = (partition_dest ←
               collect_results
                 (fun proc_id =>
                    foldM (process_pair mem choice points_a points_b
                             dist_sqr_bin_edges nbins)
                      (worker_pairs f duplicated_points proc_id)
                      accumulators0)
                 (seqZ 0 (Z.min (nproc parallel_spec)
                            (factory_n_partitions f)));
             match partition_dest with
             | [] => Error "partition_dest is empty"
             | first :: others =>
                 foldM kernel_consolidate_with_other others first
             end))
    /\ (let visited :=
          concat (worker_pairs f duplicated_points
                    <$> seqZ 0 (Z.min (nproc parallel_spec)
                                  (factory_n_partitions f))) in
        (if duplicated_points then unordered_pair <$> visited else visited)
        ≡ₚ process_data_pairs duplicated_points (n_points points_a)
             (n_points points_b)).
Proof.
  destruct (parallel_factory points_a points_b duplicated_points
              (nproc parallel_spec) Hnproc Hdup ltac:(lia) ltac:(lia)
              Hpoints) as (f & Hnew & Hf & Hvalid & Hfew & Hfit).
  assert (1 <= nproc_ f < 2 ^ 64) as Hnproc'.
  { assert (60 < 2 ^ 64) by reflexivity. lia. }
  pose proof (factory_facts f Hvalid Hfew Hnproc') as (_ & _ & _ & He & _).
  exists f. rewrite <- Hf. split; [rewrite Hf; exact Hnew|].
  split; [lia|]. split.
  - intros accumulators0.
    apply (parallel_kernel_workers mem OMP_NUM_THREADS choice points_a
             points_b dist_sqr_bin_edges nbins duplicated_points Hdup
             Hstride_a Hstride_b f Hvalid Hfew Hnproc').
    + destruct (factory_partition_strat_ f); lia.
    + unfold get_nominal_nproc_. rewrite Hf.
      destruct (Z.eqb_spec (nproc parallel_spec) 0); [lia|]. reflexivity.
    + rewrite Hf. exact Hnew.
  - apply (workers_pairs_permutation f duplicated_points points_a points_b
             Hvalid Hfew Hnproc' Hdup Hfit).
Qed.

(** The parallel kernel returns exactly what [parallel_accumulated]
    describes. *)
Lemma parallel_kernel_accumulated (accumulators0 accumulators : C) :
  calc_vsf_props_parallel_ mem OMP_NUM_THREADS true choice points_a points_b
    dist_sqr_bin_edges nbins parallel_spec accumulators0 duplicated_points
  = Ok accumulators
  <-> parallel_accumulated mem choice points_a points_b dist_sqr_bin_edges
        nbins parallel_spec duplicated_points accumulators0 accumulators.
Proof.
  destruct parallel_run_workers as (f & Hnew & _ & Hrun & Hperm).
  rewrite Hrun. unfold parallel_accumulated. split.
  - intros Hacc. exists f. split; [exact Hnew|]. cbv zeta.
    split; [exact Hacc|exact Hperm].
  - intros (f' & Hnew' & Hacc & _). rewrite Hnew in Hnew'.
    injection Hnew' as <-. exact Hacc.
Qed.

End ParallelRun.

Lemma elem_of_concat {X : Type} (x : X) (ls : list (list X)) :
  x ∈ concat ls -> exists l, x ∈ l /\ l ∈ ls.
Proof.
  induction ls as [|l ls IH]; cbn [concat]; intros Hin.
  - apply elem_of_nil in Hin. contradiction.
  - apply elem_of_app in Hin as [Hin|Hin].
    + exists l. split; [exact Hin|apply list_elem_of_here].
    + destruct (IH Hin) as (l' & Hx & Hl').
      exists l'. split; [exact Hx|apply list_elem_of_further; exact Hl'].
Qed.

(** The parallel kernel visits a pair when the two sets of points are not
    empty. *)
Lemma parallel_visits (OMP_NUM_THREADS : option Z) (choice : PairOperation)
    (points_a points_b : PointProps) (parallel_spec : ParallelSpec) :
  1 <= nproc parallel_spec <= 60 ->
  0 <= spatial_dim_stride points_a
  /\ n_points points_a + 2 * spatial_dim_stride points_a < 2 ^ 64 ->
  0 <= spatial_dim_stride points_b
  /\ n_points points_b + 2 * spatial_dim_stride points_b < 2 ^ 64 ->
  1 <= n_points points_a /\ 1 <= n_points points_b ->
  kernel_visits_a_pair OMP_NUM_THREADS true false choice points_a points_b
    parallel_spec false
  = Ok true.
Proof.
  intros Hnproc Hstride_a Hstride_b Hpoints.
  unfold kernel_visits_a_pair. cbv zeta.
  destruct (parallel_run_workers (C := VisitMark) (fun _ : Z => d_of_Z 0)
              OMP_NUM_THREADS choice points_a points_b
              [d_of_Z (-1); d_of_Z 1] 1 parallel_spec false Hnproc
              ltac:(discriminate) Hstride_a Hstride_b Hpoints)
    as (f & _ & He & Hrun & Hperm).
  rewrite Hrun. cbv zeta in Hperm.
  set (workers := seqZ 0 (Z.min (nproc parallel_spec)
                            (factory_n_partitions f))) in *.
  set (g := fun proc_id : Z =>
              match worker_pairs f false proc_id with
              | [] => {| entry_added := false |}
              | _ :: _ => {| entry_added := true |}
              end).
  rewrite (collect_results_Ok g) by (intros proc_id _; apply visit_fold).
  cbn [mbind result_bind].
  assert (exists proc_id, proc_id ∈ workers
                          /\ entry_added (g proc_id) = true)
    as (proc_id & Hin & Hadded).
  { assert ((0, 0) ∈ concat (worker_pairs f false <$> workers)) as Hpair.
    { rewrite Hperm. apply elem_of_process_data_pairs_cross. lia. }
    apply elem_of_concat in Hpair as (pairs & Hpair & Hpairs).
    apply list_elem_of_fmap in Hpairs as (proc_id & -> & Hin).
    exists proc_id. split; [exact Hin|]. unfold g.
    destruct (worker_pairs f false proc_id); [|reflexivity].
    apply elem_of_nil in Hpair. contradiction. }
  destruct workers as [|first others] eqn:Hworkers.
  { apply elem_of_nil in Hin. contradiction. }
  cbn [fmap list_fmap]. fold (g <$> others).
  rewrite visit_consolidate. cbn [mbind result_bind entry_added].
  f_equal. apply elem_of_cons in Hin as [->|Hin].
  - rewrite Hadded. reflexivity.
  - apply orb_true_iff. right. apply existsb_exists.
    exists (g proc_id). split; [|exact Hadded].
    apply list_elem_of_In, list_elem_of_fmap. exists proc_id.
    split; [reflexivity|exact Hin].
Qed.

(** *** The call *)

Section CalcVsfPropsReturn.
Context {AccumColVariant : Type} `{KernelAccumCollection AccumColVariant}.
Variable build_accum_collection :
  list StatListItem -> Z -> Z -> result AccumColVariant.
Variable mem : Z -> double.
Variable OMP_NUM_THREADS : option Z.
Variable OPENMP : bool.
Variables points_a points_b : PointProps.
Variable pairwise_op : string.
Variable stat_list : list StatListItem.
Variable stat_list_len : Z.
Variable bin_edges : list double.
Variable nbins : Z.
Variable parallel_spec : ParallelSpec.
Variable out_flt_vals : list double.
Variable out_i64_vals : list Z.

Let returned :=
  calc_vsf_props build_accum_collection mem OMP_NUM_THREADS OPENMP
    points_a points_b pairwise_op stat_list stat_list_len bin_edges nbins
    parallel_spec out_flt_vals out_i64_vals.
Let duplicated_points := (positions points_b =? 0) && (values points_b =? 0).
Let my_points_b := if duplicated_points then points_a else points_b.
Let use_serial := if OPENMP then nproc parallel_spec =? 1 else true.

Lemma calc_vsf_props_rejected :
  calc_vsf_props_rejects points_a points_b pairwise_op nbins = true ->
  returned = Ok (false, (out_flt_vals, out_i64_vals)).
Proof.
  unfold returned, calc_vsf_props_rejects, calc_vsf_props. intros Hrej.
  destruct (nbins =? 0); [reflexivity|].
  destruct (n_spatial_dims points_a =? 3); [|reflexivity]. simpl in *.
  destruct (n_spatial_dims
              (if (positions points_b =? 0) && (values points_b =? 0)
               then points_a else points_b) =? 3); [|reflexivity].
  simpl in *.
  destruct ((positions points_a =? 0) || (values points_a =? 0));
    [reflexivity|]. simpl in *.
  destruct (String.eqb pairwise_op "correlate"); [|destruct (String.eqb pairwise_op "sf")];
    simpl in *; try discriminate; try reflexivity.
  rewrite orb_true_r in Hrej. discriminate.
Qed.

(** A call that is not rejected: the collection is built, the kernel runs
    on it (the process is killed when the run reads through a null pointer
    of [points_b]), the values are copied. *)
Lemma calc_vsf_props_accepted :
  calc_vsf_props_rejects points_a points_b pairwise_op nbins = false ->
  exists choice,
    operation_of pairwise_op = Some choice
    /\ returned
       = (accumulators0 ←
            build_accum_collection stat_list stat_list_len nbins;
          reads_null_pointer ←
            (if one_null_pointer points_b then
               kernel_visits_a_pair OMP_NUM_THREADS OPENMP use_serial choice
                 points_a my_points_b parallel_spec duplicated_points
             else Ok false);
          if (reads_null_pointer : bool) then
            Error "read through a null pointer of points_b"
          else
            accumulators ←
              (if use_serial then
                 calc_vsf_props_helper_ mem choice points_a my_points_b
                   (squared_bin_edges bin_edges nbins) nbins accumulators0
                   duplicated_points
               else
                 calc_vsf_props_parallel_ mem OMP_NUM_THREADS OPENMP choice
                   points_a my_points_b (squared_bin_edges bin_edges nbins)
                   nbins parallel_spec accumulators0 duplicated_points);
            out_flt ← kernel_copy_vals Double accumulators out_flt_vals 0;
            out_i64 ← kernel_copy_vals Int64 accumulators out_i64_vals 0;
            Ok (true, (out_flt, out_i64))).
Proof.
  unfold returned, calc_vsf_props_rejects, calc_vsf_props, operation_of.
  intros Hrej.
  destruct (nbins =? 0); [discriminate|].
  destruct (n_spatial_dims points_a =? 3); [|discriminate]. simpl in Hrej.
  fold duplicated_points in Hrej |- *. fold my_points_b in Hrej |- *.
  destruct (n_spatial_dims my_points_b =? 3); [|discriminate].
  simpl in Hrej.
  destruct ((positions points_a =? 0) || (values points_a =? 0));
    [discriminate|]. simpl in Hrej. cbn [negb].
  destruct (String.eqb pairwise_op "correlate").
  - exists correlate. split; reflexivity.
  - destruct (String.eqb pairwise_op "sf"); [|discriminate].
    exists vec_diff. split; reflexivity.
Qed.

(** A call that is not rejected does not return [false]. *)
Lemma calc_vsf_props_not_false (bufs : list double * list Z) :
  calc_vsf_props_rejects points_a points_b pairwise_op nbins = false ->
  returned <> Ok (false, bufs).
Proof.
  intros Hrej. destruct (calc_vsf_props_accepted Hrej) as (choice & _ & ->).
  destruct (build_accum_collection stat_list stat_list_len nbins);
    cbn [mbind result_bind]; [|discriminate].
  match goal with
  | |- context [mbind _ ?visits] => destruct visits as [[|]|]
  end; cbn [mbind result_bind]; try discriminate.
  match goal with
  | |- context [mbind _ ?run] => destruct run
  end; cbn [mbind result_bind]; [|discriminate].
  destruct (kernel_copy_vals Double _ out_flt_vals 0);
    cbn [mbind result_bind]; [|discriminate].
  destruct (kernel_copy_vals Int64 _ out_i64_vals 0);
    cbn [mbind result_bind]; discriminate.
Qed.

(** What the call returns when the kernel returns [run] and reads through
    no null pointer. *)
Lemma returns_true_iff (run : AccumColVariant -> result AccumColVariant)
    (accumulated : AccumColVariant -> AccumColVariant -> Prop)
    (out_flt : list double) (out_i64 : list Z) :
  (forall accumulators0 accumulators,
     run accumulators0 = Ok accumulators
     <-> accumulated accumulators0 accumulators) ->
  (accumulators0 ← build_accum_collection stat_list stat_list_len nbins;
   accumulators ← run accumulators0;
   out_flt ← kernel_copy_vals Double accumulators out_flt_vals 0;
   out_i64 ← kernel_copy_vals Int64 accumulators out_i64_vals 0;
   Ok (true, (out_flt, out_i64)))
  = Ok (true, (out_flt, out_i64))
  <-> exists accumulators0 accumulators,
        build_accum_collection stat_list stat_list_len nbins
        = Ok accumulators0
        /\ accumulated accumulators0 accumulators
        /\ kernel_copy_vals Double accumulators out_flt_vals 0 = Ok out_flt
        /\ kernel_copy_vals Int64 accumulators out_i64_vals 0 = Ok out_i64.
Proof.
  intros Hrun. split.
  - destruct (build_accum_collection stat_list stat_list_len nbins)
      as [accumulators0|]; cbn [mbind result_bind]; [|discriminate].
    destruct (run accumulators0) as [accumulators|] eqn:Hacc;
      cbn [mbind result_bind]; [|discriminate].
    destruct (kernel_copy_vals Double accumulators out_flt_vals 0)
      as [out_flt'|] eqn:Hflt; cbn [mbind result_bind]; [|discriminate].
    destruct (kernel_copy_vals Int64 accumulators out_i64_vals 0)
      as [out_i64'|] eqn:Hi64; cbn [mbind result_bind]; [|discriminate].
    intros [= <- <-]. exists accumulators0, accumulators.
    split; [reflexivity|]. split; [apply Hrun; exact Hacc|].
    split; assumption.
  - intros (accumulators0 & accumulators & -> & Hacc & Hflt & Hi64).
    apply Hrun in Hacc. cbn [mbind result_bind]. rewrite Hacc.
    cbn [mbind result_bind]. rewrite Hflt. cbn [mbind result_bind].
    rewrite Hi64. reflexivity.
Qed.

End CalcVsfPropsReturn.

Lemma helper_accumulated {C : Type} `{KernelAccumCollection C}
    (mem : Z -> double) (choice : PairOperation)
    (points_a points_b : PointProps) (dist_sqr_bin_edges : list double)
    (nbins : Z) (duplicated_points : bool) (accumulators0 accumulators : C) :
  calc_vsf_props_helper_ mem choice points_a points_b dist_sqr_bin_edges nbins
    accumulators0 duplicated_points = Ok accumulators
  <-> serial_accumulated mem choice points_a points_b dist_sqr_bin_edges
        nbins duplicated_points accumulators0 accumulators.
Proof.
  unfold calc_vsf_props_helper_, process_data, serial_accumulated.
  destruct duplicated_points; reflexivity.
Qed.




(** Two points at the distance 1 with the velocity difference [(3, 4, 0)],
    one bin [[0, 10)], the mean: the call returns [true], the mean is 5 and
    the count is 1. *)
Example calc_vsf_props_two_points :
  calc_vsf_props build_mean_collection two_points_mem None false
    two_points null_points "sf" [] 1 [d_of_Z 0; d_of_Z 10] 1
    {| nproc := 1; force_sequential := false |} [d_of_Z 0] [0]
  = Ok (true, ([d_of_Z 5], [1])).
Proof. vm_compute. reflexivity. Qed.

(** Three points on a line, the bins [[0, 1.5)] and [[1.5, 5)], the mean,
    two processes with OpenMP: the call returns [true], the means are 1 and
    3.5, the counts are 1 and 2. *)
Example calc_vsf_props_three_points_parallel :
  calc_vsf_props build_mean_collection three_points_mem None true
    three_points null_points "sf" [] 1
    [d_of_Z 0; d_div (d_of_Z 3) (d_of_Z 2); d_of_Z 5] 2
    {| nproc := 2; force_sequential := false |}
    [d_of_Z 0; d_of_Z 0] [0; 0]
  = Ok (true, ([d_of_Z 1; d_div (d_of_Z 7) (d_of_Z 2)], [1; 2])).
Proof. vm_compute. reflexivity. Qed.

(** A call with [nbins == 0] returns [false] and leaves the buffers. *)
Example calc_vsf_props_no_bin :
  calc_vsf_props build_mean_collection two_points_mem None false
    two_points null_points "sf" [] 1 [d_of_Z 0; d_of_Z 10] 0
    {| nproc := 1; force_sequential := false |} [d_of_Z 7] [7]
  = Ok (false, ([d_of_Z 7], [7])).
Proof. reflexivity. Qed.
